(* ===== verification/_CoqProject ===== *)
-Q . S2P
Prelude.v
Chain.v
Block.v
Qio.v
Ipaux.v
Iproute.v
Ip4.v
Ip4reass.v
Ip4frag.v
Tcptimer.v
Tcp.v
Tcpconn.v
Tcpsend.v
Tcpinput.v
Tcpsession.v
Qlock.v
Sleep.v
Sched.v
Tod.v
Clock.v
Qmalloc.v
Qmallocget.v
Qmallocuse.v
