(* ===== verification/Prelude.v ===== *)
(** * Verification development for the Nix mark IV kernel

    Nix is a Plan 9 kernel in C: portable code under src/port, the IP stack under src/ip, the AMD64 machine under src/k10 and PC devices under
    src/386.  The development models the path every network byte takes, from the storage allocator up to a TCP conversation over its life, the tables
    that steer it, and the machinery of processes under it: locks, sleep, run queues, timers, the clock.

    ** Files

    The base:
    - [Prelude]: words of 8 to 64 bits, lists indexed by [Z], the effect monad [M] and its weakest preconditions, automation.
    - [Chain]: lists linked through a field of their elements, for the components whose pointers are modelled.

    Memory and queues:
    - [Qmalloc], [Qmallocget], [Qmallocuse]: port/qmalloc.c.  [Heap] is the headers, the bytes, the quick lists and the segments; [inv] says that the
      blocks tile what has been taken off each segment and that every free one is on its list; [rep] is the users' view, a map of contents.
    - [Block]: port/allocb.c and the block routines of port/qio.c ([padblock], [concatblock], [pullupblock], [trimblock], [pullblock], [packblock],
      [copyblock], [adjustblock], [mem2bl], [bl2mem], ...).  A [Block*] chain is a [list Block]; [Bst] is the allocator's state.
    - [Qio]: the queues of port/qio.c, all of their operations.  A [Queue] record is the C structure; a routine runs on a queue and a [Bst].

    The IP stack:
    - [Ipaux]: ip/ptclbsum.c, [ptclcsum] and the conversation table of ip/ipaux.c, the byte order routines of port/netif.c.
    - [Iproute]: the routing tables of ip/iproute.c.
    - [Ip4], [Ip4reass], [Ip4frag]: ip/ip.c: [ipoput4], [ipiput4], the pool of fragment queues; then what reassembly and fragmentation do.
    - [Tcptimer]: the timers of ip/tcp.c, a doubly linked list on a heap.
    - [Tcp]: the receive side of ip/tcp.c: sequence arithmetic, [tcptrim], the resequencing queue, the loop of [tcpiput] that delivers text.
    - [Tcpconn], [Tcpsend]: the send side: [update], [tcpoutput], the timers' routines, [tcpkick], [tcpclose], [tcpstart], [localclose].
    - [Tcpinput]: the state machine of [tcpiput], with Tcp.v's receive side and Tcpconn.v's send side.
    - [Tcpsession]: a conversation as the sequence of what happens to it ([Event], [handle], [step]), and the two ends of a connection.

    Processes and time:
    - [Qlock]: port/qlock.c; [Sleep]: [sleep], [wakeup], [postnote] of port/proc.c; [Sched]: the run queues of port/proc.c.
    - [Clock]: port/portclock.c; [Tod]: port/tod.c and port/mul64fract.c.

    ** How the parts meet

    [Qio] calls [Block]'s routines through their specifications ([wp_freeb], [wp_pullblock], ...); [Tcp] and [Ip4] call [Block]'s and [Qio]'s in the
    same way; [Ipaux] sums [Block]'s chains.  Ownership of blocks runs through all of them: [acct F s] of [Block] says that the blocks of [F] are
    exactly the ones allocated and not freed, with the byte count of each charged once; every specification transforms it, so that no routine loses a
    block or frees one twice.  The storage allocator as [allocb] sees it is the class [Malloc] of [Block], with the law [MallocOk] (a request is answered
    with an address), and [demo_malloc] is an instance; what port/qmalloc.c itself promises is [promise] of [Qmallocuse].

    The send side of TCP gives a conversation away while a packet is on its way ([ipoput] may sleep): what others do to it meanwhile is a parameter
    of [Tcpconn], and the theorems that need it assume that it keeps what the conversation's lock protects ([keeps], [leaves]) and does not make the
    resequencing queue grow.  [Tcpsession] composes both sides, the timers of [Tcptimer], the queues and the blocks into one state.

    [Sleep], [Sched], [Qlock] and [Clock] are interleavings: a step is what the code does while it holds one lock, or one access outside of it, and
    any number of processors take steps in any order; their theorems are about every reachable state.

    ** What the theorems show

    - Allocator: every request returns and does what is promised, so that no program that only uses its own blocks is ever stopped but for want of memory;
      freeing twice and writing past the end are found out.  Two theorems state departures: blocks of the size of 9P messages are never given out
      again, and a fragment that fits may be passed over.
    - Blocks and queues: every chain routine computes a function of the bytes of the chain, leaves the blocks as its callers need them and keeps the account of the blocks, on success and on
      failure; a queue is a FIFO of bytes over any history of operations; no wakeup is lost on either side; every operation returns.
    - Checksum and routes: [ptclcsum] is the sum of the 16-bit words however the chain splits them, verifies and detects; the forest of routes refines
      a finite map and look-up finds the longest prefix, if the conversation's cache does not answer.
    - IP: fragments fit their interface and verify; any order and repetition of them gives the datagram.
    - TCP: a running timer is on the list; receiving delivers the stream whatever the segments do; over the life of a conversation every event is
      handled, but for a user's close before his SYN is acknowledged ([allowed]); what was sent is the user's stream, and what the other side delivers
      of the text is a prefix of it; a time-out sends again from the first octet that is not acknowledged; the segments fit the windows.
      Departures: the reader of a reset conversation sees an end of file, and after that close the text is sent from the number of the SYN on, so
      that the other end loses the first octet.
    - Processes: the readers-writer lock refines an abstract one; no wakeup of [sleep] is lost and its panics are unreachable; as long as no process is
      wired and none is reused while a processor is leaving it the run queues stay well formed and no process runs twice; [runproc] picks and [rebalance] settles as they should; the timers fire in order and as often as they are
      due; the clock keeps time.  Departure: [timerdel] loses to an interrupt.

    ** Effects, fuel and bounds

    [M S A] is a state function that ends with a value ([Ret]), an error that the C code raises with [error] ([Error]), a kernel panic ([Panic]) or
    something C leaves undefined ([Undef]).  [wp] excludes the last three, [wpe] allows errors, [wpp] allows the panics named.  Loops recurse on the list
    they walk where they can; otherwise fuel is computed from the state and the theorems show the loop ends before it is used up: [reseq_fuel] (one
    more than the entries queued, a round takes one off), [frag_fuel] and [quick_fuel] (a unit at least for each block of the segment),
    [qwrite] (one round per chunk), [tick_loop] (the loop's own bound of 10001 rounds, beyond which the code panics); morecore is called
    three times at most, as in the code.
    Bounds the theorems assume: TCP windows below 2^30 and segments at most 2^30 away from the receive pointer, fewer than 10001 timers, requests for
    memory below 2^32 bytes (an [ulong]) and segments of memory below 2^32 units.

    ** Not modelled

    Outside [Sleep], [Sched], [Qlock] and [Clock] a routine is one step where the code holds the lock, and a sleeping process is a routine that
    returns and starts again; in particular the allocator serves one request at a time.  [routewrite] (the text of the route control file), the listening
    side of TCP (limbo) and its headers, the protocols besides IPv4 and TCP, real time scheduling, name spaces and channels, virtual memory,
    the devices, and what else the components of the manifest list as not modelled, each with the reason: most of it is input and output, or glue
    around the data structures modelled here. *)

From stdpp Require Import base list gmap strings.
From Stdlib Require Import ZArith Lia.

#[global] Set Default Goal Selector "!".

Declare Scope nix_scope.
Delimit Scope nix_scope with nix.
#[global] Open Scope Z_scope.

(** ** Machine integers

    [ulong] and [uint] are 32 bits wide under the Plan 9 amd64 compiler,
    [uvlong] and [uintptr] are 64 bits wide. *)

Definition u8 (x : Z) : Z := x mod 2 ^ 8.
Definition u16 (x : Z) : Z := x mod 2 ^ 16.
Definition u32 (x : Z) : Z := x mod 2 ^ 32.
Definition u64 (x : Z) : Z := x mod 2 ^ 64.

(** Reinterpret a [w]-bit pattern as a two's complement number. *)
Definition sgn (w x : Z) : Z :=
  let y := x mod 2 ^ w in if y <? 2 ^ (w - 1) then y else y - 2 ^ w.
Definition s32 (x : Z) : Z := sgn 32 x.
Definition s64 (x : Z) : Z := sgn 64 x.

Definition KiB : Z := 1024.

(** The rounding macros of k10/mem.h; C division truncates toward zero. *)
Definition HOWMANY (x y : Z) : Z := Z.quot (x + (y - 1)) y.
Definition ROUNDUP (x y : Z) : Z := HOWMANY x y * y.
Definition ROUNDDN (x y : Z) : Z := Z.quot x y * y.

Lemma sgn_range w x : 0 < w -> - 2 ^ (w - 1) <= sgn w x < 2 ^ (w - 1).
Proof.
  intros Hw. unfold sgn.
  pose proof (Z.mod_pos_bound x (2 ^ w) ltac:(apply Z.pow_pos_nonneg; lia)).
  assert (2 ^ w = 2 * 2 ^ (w - 1)) as Hp.
  { rewrite <- Z.pow_succ_r by lia. f_equal. lia. }
  destruct (Z.ltb_spec (x mod 2 ^ w) (2 ^ (w - 1))); lia.
Qed.

Lemma sgn_small w x : 0 < w -> - 2 ^ (w - 1) <= x < 2 ^ (w - 1) -> sgn w x = x.
Proof.
  intros Hw Hx. unfold sgn.
  assert (2 ^ w = 2 * 2 ^ (w - 1)) as Hp.
  { rewrite <- Z.pow_succ_r by lia. f_equal. lia. }
  destruct (Z_lt_le_dec x 0).
  - rewrite <- (Z.mod_unique x (2 ^ w) (-1) (x + 2 ^ w)) by lia.
    destruct (Z.ltb_spec (x + 2 ^ w) (2 ^ (w - 1))); lia.
  - rewrite Z.mod_small by lia.
    destruct (Z.ltb_spec x (2 ^ (w - 1))); lia.
Qed.

Lemma u8_small x : 0 <= x < 2 ^ 8 -> u8 x = x.
Proof. apply Z.mod_small. Qed.
Lemma u16_small x : 0 <= x < 2 ^ 16 -> u16 x = x.
Proof. apply Z.mod_small. Qed.
Lemma u32_small x : 0 <= x < 2 ^ 32 -> u32 x = x.
Proof. apply Z.mod_small. Qed.
Lemma u32_range x : 0 <= u32 x < 2 ^ 32.
Proof. apply Z.mod_pos_bound. lia. Qed.

Lemma ROUNDUP_spec x y :
  0 <= x -> 0 < y -> x <= ROUNDUP x y < x + y /\ ROUNDUP x y mod y = 0.
Proof.
  intros Hx Hy. unfold ROUNDUP, HOWMANY. rewrite Z.quot_div_nonneg by lia.
  pose proof (Z.div_mod (x + (y - 1)) y ltac:(lia)).
  pose proof (Z.mod_pos_bound (x + (y - 1)) y Hy).
  split; [nia | apply Z.mod_mul; lia].
Qed.

Lemma ROUNDDN_spec x y :
  0 <= x -> 0 < y -> x - y < ROUNDDN x y <= x /\ ROUNDDN x y mod y = 0.
Proof.
  intros Hx Hy. unfold ROUNDDN. rewrite Z.quot_div_nonneg by lia.
  pose proof (Z.div_mod x y ltac:(lia)). pose proof (Z.mod_pos_bound x y Hy).
  split; [nia | apply Z.mod_mul; lia].
Qed.

(** ** Lists indexed by integers *)

Definition zlen {A} (l : list A) : Z := Z.of_nat (length l).

Definition ztake {A} (n : Z) (l : list A) : list A := take (Z.to_nat n) l.
Definition zdrop {A} (n : Z) (l : list A) : list A := drop (Z.to_nat n) l.

(** [n] elements of [l] from offset [off]. *)
Definition slice {A} (off n : Z) (l : list A) : list A := ztake n (zdrop off l).

(** [l] with the elements from offset [off] overwritten by [bs]. *)
Definition splice {A} (off : Z) (bs l : list A) : list A :=
  ztake off l ++ bs ++ zdrop (off + zlen bs) l.

Section ZList.
Context {A : Type}.
Implicit Types (l k bs : list A) (n m off : Z).

Lemma zlen_nonneg l : 0 <= zlen l.
Proof. unfold zlen. lia. Qed.
Lemma zlen_nil : zlen (@nil A) = 0.
Proof. reflexivity. Qed.
Lemma zlen_cons x l : zlen (x :: l) = 1 + zlen l.
Proof. unfold zlen. cbn [length]. lia. Qed.
Lemma zlen_app l k : zlen (l ++ k) = zlen l + zlen k.
Proof. unfold zlen. rewrite length_app. lia. Qed.
Lemma zlen_replicate (c : nat) (x : A) : zlen (replicate c x) = Z.of_nat c.
Proof. unfold zlen. by rewrite length_replicate. Qed.
Lemma zlen_ztake n l : zlen (ztake n l) = Z.min (Z.max 0 n) (zlen l).
Proof. unfold zlen, ztake. rewrite length_take. lia. Qed.
Lemma zlen_zdrop n l : zlen (zdrop n l) = Z.max 0 (zlen l - Z.max 0 n).
Proof. unfold zlen, zdrop. rewrite length_drop. lia. Qed.
Lemma zlen_slice off n l :
  zlen (slice off n l) = Z.min (Z.max 0 n) (Z.max 0 (zlen l - Z.max 0 off)).
Proof. unfold slice. rewrite zlen_ztake, zlen_zdrop. lia. Qed.
Lemma zlen_slice_in off n l :
  0 <= off -> 0 <= n -> off + n <= zlen l -> zlen (slice off n l) = n.
Proof. intros. rewrite zlen_slice. lia. Qed.
Lemma zlen_splice off bs l :
  0 <= off -> off + zlen bs <= zlen l -> zlen (splice off bs l) = zlen l.
Proof.
  intros. unfold splice. rewrite !zlen_app, zlen_ztake, zlen_zdrop.
  pose proof (zlen_nonneg bs). lia.
Qed.

Lemma ztake_le n l : n <= 0 -> ztake n l = [].
Proof. intros. unfold ztake. by replace (Z.to_nat n) with 0%nat by lia. Qed.
Lemma ztake_ge n l : zlen l <= n -> ztake n l = l.
Proof. intros. unfold ztake, zlen in *. apply take_ge. lia. Qed.
Lemma zdrop_le n l : n <= 0 -> zdrop n l = l.
Proof. intros. unfold zdrop. by replace (Z.to_nat n) with 0%nat by lia. Qed.
Lemma zdrop_ge n l : zlen l <= n -> zdrop n l = [].
Proof. intros. unfold zdrop, zlen in *. apply drop_ge. lia. Qed.
Lemma ztake_zdrop n l : ztake n l ++ zdrop n l = l.
Proof. apply take_drop. Qed.
Lemma ztake_app_le n l k : n <= zlen l -> ztake n (l ++ k) = ztake n l.
Proof. intros. unfold ztake, zlen in *. apply take_app_le. lia. Qed.
Lemma ztake_app_ge n l k :
  zlen l <= n -> ztake n (l ++ k) = l ++ ztake (n - zlen l) k.
Proof.
  intros. unfold ztake, zlen in *. rewrite take_app, take_ge by lia.
  by replace (Z.to_nat (n - Z.of_nat (length l))) with (Z.to_nat n - length l)%nat by lia.
Qed.
Lemma zdrop_app_ge n l k : zlen l <= n -> zdrop n (l ++ k) = zdrop (n - zlen l) k.
Proof.
  intros. unfold zdrop, zlen in *. rewrite drop_app, drop_ge by lia.
  by replace (Z.to_nat (n - Z.of_nat (length l))) with (Z.to_nat n - length l)%nat by lia.
Qed.
Lemma zdrop_app_le n l k : n <= zlen l -> zdrop n (l ++ k) = zdrop n l ++ k.
Proof. intros. unfold zdrop, zlen in *. apply drop_app_le. lia. Qed.
Lemma zdrop_zdrop n m l : 0 <= n -> 0 <= m -> zdrop n (zdrop m l) = zdrop (m + n) l.
Proof. intros. unfold zdrop. rewrite drop_drop. f_equal. lia. Qed.
Lemma ztake_ztake n m l : 0 <= n -> n <= m -> ztake n (ztake m l) = ztake n l.
Proof. intros. unfold ztake. rewrite take_take. f_equal. lia. Qed.
Lemma zdrop_ztake n m l : 0 <= n -> zdrop n (ztake m l) = slice n (m - n) l.
Proof.
  intros. unfold slice, ztake, zdrop. rewrite skipn_firstn_comm.
  f_equal. lia.
Qed.

Lemma slice_nil off n l : n <= 0 -> slice off n l = [].
Proof. apply ztake_le. Qed.
Lemma slice_slice o1 n1 o2 n2 l :
  0 <= o1 -> 0 <= o2 -> 0 <= n2 -> o2 + n2 <= n1 ->
  slice o2 n2 (slice o1 n1 l) = slice (o1 + o2) n2 l.
Proof.
  intros. unfold slice. rewrite zdrop_ztake by lia.
  unfold slice. rewrite ztake_ztake by lia. by rewrite zdrop_zdrop by lia.
Qed.
Lemma slice_app off n m l :
  0 <= off -> 0 <= n -> 0 <= m -> slice off n l ++ slice (off + n) m l = slice off (n + m) l.
Proof.
  intros. unfold slice. rewrite <- zdrop_zdrop by lia.
  unfold ztake, zdrop. rewrite Z2Nat.inj_add by lia. apply take_take_drop.
Qed.

(** Reading back what a copy wrote, and what it left alone. *)
Lemma slice_splice_same off bs l :
  0 <= off -> off + zlen bs <= zlen l -> slice off (zlen bs) (splice off bs l) = bs.
Proof.
  intros. unfold slice, splice. pose proof (zlen_nonneg bs).
  assert (zlen (ztake off l) = off) as E by (rewrite zlen_ztake; lia).
  rewrite zdrop_app_ge by lia. rewrite E, Z.sub_diag, zdrop_le by lia.
  rewrite ztake_app_ge, Z.sub_diag by lia. rewrite (ztake_le 0) by lia.
  by rewrite app_nil_r.
Qed.
Lemma slice_splice_before o n off bs l :
  0 <= o -> 0 <= n -> o + n <= off -> off + zlen bs <= zlen l ->
  slice o n (splice off bs l) = slice o n l.
Proof.
  intros. unfold slice, splice. pose proof (zlen_nonneg bs).
  assert (zlen (ztake off l) = off) as E by (rewrite zlen_ztake; lia).
  rewrite zdrop_app_le by lia. rewrite ztake_app_le.
  - rewrite zdrop_ztake by lia. unfold slice. by rewrite ztake_ztake by lia.
  - rewrite zlen_zdrop. lia.
Qed.
Lemma slice_splice_after o n off bs l :
  0 <= off -> 0 <= n -> off + zlen bs <= o -> off + zlen bs <= zlen l ->
  slice o n (splice off bs l) = slice o n l.
Proof.
  intros. unfold slice, splice. pose proof (zlen_nonneg bs).
  assert (zlen (ztake off l) = off) as E by (rewrite zlen_ztake; lia).
  rewrite zdrop_app_ge by lia. rewrite zdrop_app_ge by lia.
  rewrite E, zdrop_zdrop by lia. f_equal. f_equal. lia.
Qed.
(** Appending in place extends the window by what was written. *)
Lemma slice_splice_extend o n bs l :
  0 <= o -> 0 <= n -> o + n + zlen bs <= zlen l ->
  slice o (n + zlen bs) (splice (o + n) bs l) = slice o n l ++ bs.
Proof.
  intros. pose proof (zlen_nonneg bs).
  rewrite <- slice_app by lia. rewrite slice_splice_before by lia.
  by rewrite slice_splice_same by lia.
Qed.
End ZList.

Create Rewrite HintDb zlen.
#[export] Hint Rewrite @zlen_nil @zlen_cons @zlen_app @zlen_replicate @zlen_ztake
  @zlen_zdrop : zlen.

(** Length goals over [zlen]: push it through the constructors, then [lia]. *)
Ltac zlen_lia :=
  autorewrite with zlen in *;
  repeat match goal with
  | |- context [zlen ?l] =>
      lazymatch goal with
      | _ : 0 <= zlen l |- _ => fail
      | _ => pose proof (zlen_nonneg l)
      end
  | _ : context [zlen ?l] |- _ =>
      lazymatch goal with
      | _ : 0 <= zlen l |- _ => fail
      | _ => pose proof (zlen_nonneg l)
      end
  end; lia.

(** ** Effects

    A kernel routine runs on a state and ends in one of four ways: it
    returns; it raises an error with [error()], which unwinds to the nearest
    [waserror()] and keeps the state changes made so far; it calls [panic()];
    or it does what C leaves undefined (an out of bounds copy). *)

Inductive outcome (S A : Type) : Type :=
  | Ret (a : A) (s : S)
  | Error (e : string) (s : S)
  | Panic (msg : string)
  | Undef (msg : string).
Arguments Ret {S A} a s.
Arguments Error {S A} e s.
Arguments Panic {S A} msg.
Arguments Undef {S A} msg.

Definition M (S A : Type) : Type := S -> outcome S A.

Definition ret {S A} (a : A) : M S A := fun s => Ret a s.
Definition bind {S A B} (m : M S A) (f : A -> M S B) : M S B := fun s =>
  match m s with
  | Ret a s' => f a s'
  | Error e s' => Error e s'
  | Panic msg => Panic msg
  | Undef msg => Undef msg
  end.
Definition error {S A} (e : string) : M S A := fun s => Error e s.
Definition panic {S A} (msg : string) : M S A := fun _ => Panic msg.
Definition undef {S A} (msg : string) : M S A := fun _ => Undef msg.
Definition gets {S A} (f : S -> A) : M S A := fun s => Ret (f s) s.
Definition modify {S} (f : S -> S) : M S () := fun s => Ret tt (f s).
(** [if(waserror()){ h; nexterror(); } m; poperror()] *)
Definition waserror {S A} (h : M S ()) (m : M S A) : M S A := fun s =>
  match m s with
  | Error e s' => bind h (fun _ => error e) s'
  | o => o
  end.

Notation "x <- m ;; k" := (bind m (fun x => k))
  (at level 100, m at next level, k at level 200, right associativity) : nix_scope.
Notation "'let*' p ':=' m 'in' k" := (bind m (fun x => match x with p => k end))
  (at level 100, p pattern, m at next level, k at level 200, right associativity) : nix_scope.
Notation "m ;; k" := (bind m (fun _ => k))
  (at level 100, k at level 200, right associativity) : nix_scope.

(** [wp m s Q]: from [s], [m] returns normally, in a state and with a value
    that satisfy [Q]. It is total: no error, no panic, nothing undefined. *)
Definition wp {S A} (m : M S A) (s : S) (Q : A -> S -> Prop) : Prop :=
  match m s with Ret a s' => Q a s' | _ => False end.

Section Wp.
Context {S A B : Type}.
Lemma wp_ret (a : A) (s : S) (Q : A -> S -> Prop) : Q a s -> wp (ret a) s Q.
Proof. done. Qed.
Lemma wp_bind (m : M S A) (f : A -> M S B) s Q :
  wp m s (fun a s' => wp (f a) s' Q) -> wp (bind m f) s Q.
Proof. unfold wp, bind. by destruct (m s). Qed.
Lemma wp_bind_inv (m : M S A) (f : A -> M S B) s Q :
  wp (bind m f) s Q -> wp m s (fun a s' => wp (f a) s' Q).
Proof. unfold wp, bind. by destruct (m s). Qed.
Lemma wp_mono (m : M S A) s (P Q : A -> S -> Prop) :
  wp m s P -> (forall a s', P a s' -> Q a s') -> wp m s Q.
Proof. unfold wp. destruct (m s); auto. Qed.
Lemma wp_gets (f : S -> A) s Q : Q (f s) s -> wp (gets f) s Q.
Proof. done. Qed.
Lemma wp_modify (f : S -> S) s (Q : () -> S -> Prop) : Q tt (f s) -> wp (modify f) s Q.
Proof. done. Qed.
Lemma wp_waserror (h : M S ()) (m : M S A) s Q : wp m s Q -> wp (waserror h m) s Q.
Proof. unfold wp, waserror. by destruct (m s). Qed.
Lemma wp_exists (m : M S A) s Q :
  wp m s Q <-> exists a s', m s = Ret a s' /\ Q a s'.
Proof.
  unfold wp. destruct (m s); split; try done; try (intros (?&?&[=]&?); by subst).
  intros; eauto.
Qed.
Lemma wp_ret_inv (m : M S A) s (Q : A -> S -> Prop) a s' : wp m s Q -> m s = Ret a s' -> Q a s'.
Proof. intros H E. unfold wp in H. by rewrite E in H. Qed.
End Wp.

(** The value and the state a routine ends with. *)
Definition value {S A} (m : M S A) (s : S) : option A := match m s with Ret a _ => Some a | _ => None end.
Definition after {S A} (m : M S A) (s : S) : S := match m s with Ret _ s' => s' | _ => s end.
Lemma ret_after {S A} (m : M S A) s a : value m s = Some a -> m s = Ret a (after m s).
Proof. unfold value, after. destruct (m s); naive_solver. Qed.

(** [wpe m s Q E]: as [wp], but [m] may also raise an error, in a state that
    satisfies [E]. *)
Definition wpe {S A} (m : M S A) (s : S) (Q : A -> S -> Prop) (E : string -> S -> Prop) : Prop :=
  match m s with Ret a s' => Q a s' | Error e s' => E e s' | _ => False end.

Section Wpe.
Context {S A B : Type}.
Lemma wpe_wp (m : M S A) s Q E : wp m s Q -> wpe m s Q E.
Proof. unfold wp, wpe. by destruct (m s). Qed.
Lemma wpe_bind (m : M S A) (f : A -> M S B) s Q E :
  wpe m s (fun a s' => wpe (f a) s' Q E) E -> wpe (bind m f) s Q E.
Proof. unfold wpe, bind. by destruct (m s). Qed.
Lemma wpe_mono (m : M S A) s (P Q : A -> S -> Prop) (E E' : string -> S -> Prop) :
  wpe m s P E -> (forall a s', P a s' -> Q a s') -> (forall e s', E e s' -> E' e s') ->
  wpe m s Q E'.
Proof. unfold wpe. destruct (m s); auto. Qed.
Lemma wpe_error e s (Q : A -> S -> Prop) (E : string -> S -> Prop) :
  E e s -> wpe (error e) s Q E.
Proof. done. Qed.
End Wpe.

(** As [wp], but the routine may also panic. *)
Definition wpp {S A} (E : string -> Prop) (m : M S A) (s : S) (Q : A -> S -> Prop) : Prop :=
  match m s with Ret a s' => Q a s' | Panic msg => E msg | _ => False end.
Lemma wpp_wp {S A} E (m : M S A) s Q : wp m s Q -> wpp E m s Q.
Proof. unfold wp, wpp. by destruct (m s). Qed.
Lemma wpp_bind {S A B} E (m : M S A) (f : A -> M S B) s Q : wpp E m s (fun a s' => wpp E (f a) s' Q) -> wpp E (bind m f) s Q.
Proof. unfold wpp, bind. by destruct (m s). Qed.
Lemma wpp_mono {S A} (E E' : string -> Prop) (m : M S A) s (P Q : A -> S -> Prop) : wpp E m s P -> (forall msg, E msg -> E' msg) -> (forall a s', P a s' -> Q a s') -> wpp E' m s Q.
Proof. unfold wpp. destruct (m s); auto. Qed.
Lemma wpp_then {S A B} E (m : M S A) (f : A -> M S B) s (P : A -> S -> Prop) Q : wp m s P -> (forall a s', P a s' -> wpp E (f a) s' Q) -> wpp E (bind m f) s Q.
Proof. unfold wp, wpp, bind. destruct (m s); intros H HQ; [by apply HQ|done..]. Qed.
Lemma wpp_gets {S A B} E (g : S -> A) (f : A -> M S B) s Q : wpp E (f (g s)) s Q -> wpp E (bind (gets g) f) s Q.
Proof. done. Qed.

(** One step of symbolic execution of a monadic routine. *)
Ltac wp_step :=
  lazymatch goal with
  | |- wp (bind _ _) _ _ => apply wp_bind
  | |- wp (ret _) _ _ => apply wp_ret
  | |- wp (gets _) _ _ => apply wp_gets
  | |- wp (modify _) _ _ => apply wp_modify
  | |- wp (waserror _ _) _ _ => apply wp_waserror
  end; cbv beta.
Ltac wp_steps := repeat wp_step.

(** Split the boolean tests of integer comparisons. *)
Ltac zbool :=
  repeat match goal with
  | |- context [Z.ltb ?a ?b] => destruct (Z.ltb_spec a b)
  | |- context [Z.leb ?a ?b] => destruct (Z.leb_spec a b)
  | |- context [Z.eqb ?a ?b] => destruct (Z.eqb_spec a b)
  | |- context [Z.gtb ?a ?b] => rewrite (Z.gtb_ltb a b)
  | |- context [Z.geb ?a ?b] => rewrite (Z.geb_leb a b)
  end.

(** ** Sums over lists of integers *)
Definition zsum (l : list Z) : Z := foldr Z.add 0 l.

Lemma zsum_app l k : zsum (l ++ k) = zsum l + zsum k.
Proof. induction l as [|x l IH]; cbn [app zsum foldr]; unfold zsum in *; [done | lia]. Qed.
Lemma zsum_cons x l : zsum (x :: l) = x + zsum l.
Proof. reflexivity. Qed.
