(* ===== verification/Chain.v ===== *)
(** * Chains of pointers

    A list the kernel links through a field of its elements: [nx p] is the field of
    [p], a pointer is the number of the element, [None] is nil.  [seg nx h l t] says
    that the elements from [h] to before [t] are [l].  Then functions that are
    changed at a point, which is how the heaps of the components are updated. *)

From Stdlib Require Import ZArith Lia.
From stdpp Require Import base list sets functions strings.
From S2P Require Import Prelude.
Set Warnings "-clear-no-such-hyp".

Lemma fn_at {A} (f : nat -> A) a b : <[a := b]> f a = b.
Proof. unfold insert, fn_insert. by rewrite decide_True. Qed.
Lemma fn_off {A} (f : nat -> A) a b c : a <> c -> <[a := b]> f c = f c.
Proof. intros H. unfold insert, fn_insert. by rewrite decide_False. Qed.
Lemma fnz_at {A} (f : Z -> A) a b : <[a := b]> f a = b.
Proof. unfold insert, fn_insert. by rewrite decide_True. Qed.
Lemma fnz_off {A} (f : Z -> A) a b c : a <> c -> <[a := b]> f c = f c.
Proof. intros H. unfold insert, fn_insert. by rewrite decide_False. Qed.

Fixpoint seg (nx : nat -> option nat) (h : option nat) (l : list nat) (t : option nat) : Prop :=
  match l with
  | [] => h = t
  | p :: l => h = Some p /\ seg nx (nx p) l t
  end.

Lemma seg_app nx l1 l2 : forall h t, seg nx h (l1 ++ l2) t <-> exists m, seg nx h l1 m /\ seg nx m l2 t.
Proof.
  induction l1 as [|p l1 IH]; intros h t; cbn; [naive_solver|]. rewrite IH. naive_solver.
Qed.
Lemma seg_ext nx nx' l : forall h t, (forall p, p ∈ l -> nx' p = nx p) -> seg nx h l t -> seg nx' h l t.
Proof.
  induction l as [|p l IH]; intros h t E; cbn; [done|]. intros [-> H]. split; [done|]. rewrite E by left.
  apply IH; [|done]. intros q Hq. apply E. by right.
Qed.
Lemma seg_retarget nx nx' l x h t t' : (forall p, p ∈ l -> nx' p = nx p) -> nx' x = t' ->
  seg nx h (l ++ [x]) t -> seg nx' h (l ++ [x]) t'.
Proof.
  intros E Ex. rewrite !seg_app. intros (m & H1 & -> & _). exists (Some x). split; [by eapply seg_ext|]. done.
Qed.

(** An element is added at the end. *)
Lemma seg_extend (nx nx' : nat -> option nat) (l : list nat) (p : nat) h : NoDup l -> p ∉ l -> seg nx h l None ->
  (forall q, q <> p -> nx' q = if bool_decide (last l = Some q) then Some p else nx q) -> nx' p = None ->
  seg nx' (match last l with None => Some p | Some _ => h end) (l ++ [p]) None.
Proof.
  intros Hd Hp Hs E E0. apply seg_app. exists (Some p). split; [|done].
  destruct l as [|t l' _] using rev_ind; [done|]. rewrite last_snoc in *.
  eapply seg_retarget; [| |exact Hs]; [intros q Hq|]; rewrite E.
  - rewrite bool_decide_false; [done|]. apply NoDup_app in Hd. set_solver.
  - set_solver.
  - by rewrite bool_decide_true.
  - set_solver.
Qed.

(** An element is taken out. *)
Lemma seg_remove (nx nx' : nat -> option nat) (l1 : list nat) (p : nat) (l2 : list nat) h : NoDup (l1 ++ p :: l2) -> seg nx h (l1 ++ p :: l2) None ->
  (forall q, q <> p -> nx' q = if bool_decide (last l1 = Some q) then nx p else nx q) ->
  seg nx' (match last l1 with None => nx p | Some _ => h end) (l1 ++ l2) None.
Proof.
  intros Hd (m & H1 & -> & H2)%seg_app E. apply NoDup_app in Hd as (D1 & D2 & D3%NoDup_cons). destruct D3 as [D3 D4].
  assert (seg nx' (nx p) l2 None) as H2'.
  { eapply seg_ext; [|exact H2]. intros q Hq. rewrite E by (intros ->; done). rewrite bool_decide_false; [done|].
    intros [l' ->]%last_Some. apply (D2 q); set_solver. }
  destruct l1 as [|x l1' _] using rev_ind; [done|]. rewrite last_snoc in E.
  rewrite last_snoc.
  apply seg_app. exists (nx p). split; [|done]. apply NoDup_app in D1 as (_ & D1 & _).
  eapply seg_retarget; [| |exact H1]; [intros q Hq|]; rewrite E.
  - rewrite bool_decide_false; [done|]. intros [= <-]. set_solver.
  - intros ->. set_solver.
  - by rewrite bool_decide_true.
  - intros ->. set_solver.
Qed.

Lemma seg_head nx h l : seg nx h l None -> h = hd_error l.
Proof. destruct l; cbn; naive_solver. Qed.
Lemma seg_next nx h l1 p l2 : seg nx h (l1 ++ p :: l2) None -> nx p = hd_error l2.
Proof. intros (m & _ & _ & H)%seg_app. by apply seg_head in H. Qed.


(** An element is put in. *)
Lemma seg_insert (nx nx' : nat -> option nat) (l1 : list nat) (p : nat) (l2 : list nat) h : NoDup (l1 ++ l2) -> p ∉ l1 ++ l2 ->
  seg nx h (l1 ++ l2) None ->
  (forall q, q <> p -> nx' q = if bool_decide (last l1 = Some q) then Some p else nx q) -> nx' p = hd_error l2 ->
  seg nx' (match last l1 with None => Some p | Some _ => h end) (l1 ++ p :: l2) None.
Proof.
  intros Hd Hp (m & H1 & H2)%seg_app E Ep. apply NoDup_app in Hd as (D1 & D2 & D3).
  assert (seg nx' (Some p) (p :: l2) None) as H2'.
  { split; [done|]. rewrite Ep, <- (seg_head _ _ _ H2). eapply seg_ext; [|exact H2]. intros q Hq.
    rewrite E by (intros ->; set_solver). rewrite bool_decide_false; [done|]. intros [l' ->]%last_Some. apply (D2 q); set_solver. }
  apply seg_app. exists (Some p). split; [|done].
  destruct l1 as [|x l1' _] using rev_ind; [done|]. rewrite last_snoc in *. apply NoDup_app in D1 as (_ & D1 & _).
  eapply seg_retarget; [| |exact H1]; [intros q Hq|]; rewrite E.
  - rewrite bool_decide_false; [done|]. intros [= <-]. set_solver.
  - intros ->. set_solver.
  - by rewrite bool_decide_true.
  - intros ->. set_solver.
Qed.
