(* ===== verification/Block.v ===== *)
(** * Blocks: port/allocb.c and the block routines of port/qio.c

    A [Block] is the kernel's I/O buffer: [base] and [lim] bound its storage
    and the unread bytes lie between [rp] and [wp].  Offsets are relative to
    [base], so [base] is 0 and [lim] is the length of [buf]; a [Block*] chain
    linked through [next] is a [list Block].  Every block has the identity
    [bid] of the allocation it came from, so that the state [Bst] can record
    which blocks were released.  [setmalloctag] (a debugging aid) and the
    locks around the counters are left out. *)

From stdpp Require Import base list strings sorting.
From Stdlib Require Import ZArith Lia.
From S2P Require Import Prelude.
Open Scope nix_scope.

Record Block := mkBlock {
  bid : nat;          (* identity of the allocation *)
  buf : list Z;       (* the bytes from base to lim *)
  rp : Z;             (* first unconsumed byte *)
  wpt : Z;            (* wp: first empty byte *)
  flag : Z;
  bfree : bool;       (* the block carries a driver's own free routine *)
  checksum : Z
}.

Definition lim (b : Block) : Z := zlen (buf b).
Definition BLEN (b : Block) : Z := wpt b - rp b.
Definition BALLOC (b : Block) : Z := lim b.

Definition BINTR : Z := 1.
Definition BSMALL : Z := 2.

Definition set_rp (r : Z) (b : Block) : Block :=
  mkBlock (bid b) (buf b) r (wpt b) (flag b) (bfree b) (checksum b).
Definition set_wp (w : Z) (b : Block) : Block :=
  mkBlock (bid b) (buf b) (rp b) w (flag b) (bfree b) (checksum b).
Definition set_buf (l : list Z) (b : Block) : Block :=
  mkBlock (bid b) l (rp b) (wpt b) (flag b) (bfree b) (checksum b).
Definition set_flag (f : Z) (b : Block) : Block :=
  mkBlock (bid b) (buf b) (rp b) (wpt b) f (bfree b) (checksum b).

(** What the routines do beside returning a block: wake a sleeper on the
    reader's or the writer's Rendez, call the queue's [kick] or [bypass]
    routine, or yield the processor. *)
Inductive Event : Type :=
  | Wakeup_rr | Wakeup_wr | Kick | Bypass (b : Block) | Sched.

(** The statistics counters of port/qio.c. *)
Inductive Stat : Type :=
  | padblockcnt | concatblockcnt | pullupblockcnt | copyblockcnt
  | consumecnt | producecnt | qcopycnt | noblockcnt.
#[export] Instance Stat_eq_dec : EqDecision Stat.
Proof. solve_decision. Defined.

(** The allocator's state: the next identity, the blocks released so far,
    [ialloc], the static counters of [iallocb] and the [iac] table. *)
Record Bst := mkBst {
  nextid : nat;
  freed : list nat;
  ialloc_bytes : Z;
  ialloc_limit : Z;
  m1 : Z;
  mp : Z;
  debugialloc : bool;
  iac : list (Z * Z);
  stat : Stat -> Z;
  events : list Event
}.

Definition with_id (n : nat) (s : Bst) : Bst :=
  mkBst n (freed s) (ialloc_bytes s) (ialloc_limit s) (m1 s) (mp s)
    (debugialloc s) (iac s) (stat s) (events s).
Definition with_freed (l : list nat) (s : Bst) : Bst :=
  mkBst (nextid s) l (ialloc_bytes s) (ialloc_limit s) (m1 s) (mp s)
    (debugialloc s) (iac s) (stat s) (events s).
Definition with_bytes (n : Z) (s : Bst) : Bst :=
  mkBst (nextid s) (freed s) n (ialloc_limit s) (m1 s) (mp s)
    (debugialloc s) (iac s) (stat s) (events s).
Definition with_limit (n : Z) (s : Bst) : Bst :=
  mkBst (nextid s) (freed s) (ialloc_bytes s) n (m1 s) (mp s)
    (debugialloc s) (iac s) (stat s) (events s).
Definition with_m1mp (a b : Z) (s : Bst) : Bst :=
  mkBst (nextid s) (freed s) (ialloc_bytes s) (ialloc_limit s) a b
    (debugialloc s) (iac s) (stat s) (events s).
Definition with_iac (d : bool) (t : list (Z * Z)) (s : Bst) : Bst :=
  mkBst (nextid s) (freed s) (ialloc_bytes s) (ialloc_limit s) (m1 s) (mp s)
    d t (stat s) (events s).
Definition with_stat (f : Stat -> Z) (s : Bst) : Bst :=
  mkBst (nextid s) (freed s) (ialloc_bytes s) (ialloc_limit s) (m1 s) (mp s)
    (debugialloc s) (iac s) f (events s).
Definition with_events (l : list Event) (s : Bst) : Bst :=
  mkBst (nextid s) (freed s) (ialloc_bytes s) (ialloc_limit s) (m1 s) (mp s)
    (debugialloc s) (iac s) (stat s) l.

Definition count (k : Stat) (n : Z) : M Bst () :=
  modify (fun s => with_stat (fun k' => if decide (k' = k) then u32 (stat s k + n)
                                        else stat s k') s).
Definition emit (e : Event) : M Bst () :=
  modify (fun s => with_events (events s ++ [e]) s).

(** What the storage allocator promises a client: an address for the [i]th
    request, or nothing when memory is exhausted, and storage whose prior
    contents are whatever was there. *)
Class Malloc : Type := {
  malloc_addr : nat -> Z -> option Z;
  malloc_junk : nat -> nat -> Z
}.
Class MallocOk `(MA : Malloc) : Prop := {
  malloc_some : forall i n, exists p, malloc_addr i n = Some p /\ 0 <= p
}.

(** ** port/allocb.c *)
Section Allocb.
Context `{MA : Malloc}.

Definition BLOCKALIGN : Z := 8.
Definition Hdrspc : Z := 64.
Definition BLOCKROUND : Z := KiB.
Definition BLOCKMINROUND : Z := 128.
Definition sizeof_Block : Z := 80.
Definition DEBUGALLOC : nat := 1024.

(** The element size of the [balloc] pool of small blocks. *)
Definition balloc_elsz : Z :=
  BLOCKALIGN + ROUNDUP (BLOCKMINROUND + Hdrspc) BLOCKALIGN + sizeof_Block.

(** [track]: count the request in the first slot that is unused or has
    its size. *)
Fixpoint track_in (sz : Z) (t : list (Z * Z)) : list (Z * Z) :=
  match t with
  | [] => []
  | (z, n) :: t' =>
      if (z =? 0) || (z =? sz) then (sz, u32 (n + 1)) :: t' else (z, n) :: track_in sz t'
  end.
Definition track (sz : Z) : M Bst () :=
  modify (fun s => with_iac (debugialloc s) (track_in sz (iac s)) s).

Definition iallocdump : M Bst () :=
  modify (fun s => with_iac (negb (debugialloc s)) (replicate (S DEBUGALLOC) (0, 0)) s).

(** The storage of a block of [n] bytes at address [p]: the Block header
    sits at the end and [lim] is its address rounded down. *)
Definition lim_offset (p n : Z) : Z :=
  Z.land (p + n - sizeof_Block) (Z.lnot (BLOCKALIGN - 1)) - p.

Definition malloc (n : Z) (msg : string) : M Bst (nat * Z) :=
  i <- gets nextid ;;
  match malloc_addr i n with
  | None => panic msg
  | Some p => modify (with_id (S i)) ;; ret (i, p)
  end.

Definition baalloc : M Bst (nat * Z) :=
  let* (i, p) := malloc balloc_elsz "balloc: no memory" in
  ret (i, lim_offset p balloc_elsz).

Definition _allocb (size0 : Z) : M Bst Block :=
  let size := if size0 >? BLOCKROUND then ROUNDUP size0 BLOCKROUND
              else ROUNDUP size0 BLOCKMINROUND in
  d <- gets debugialloc ;;
  (if d : bool then track size else ret tt) ;;
  let* (i, l) :=
    (if size =? BLOCKMINROUND then baalloc
     else
       let n := BLOCKALIGN + ROUNDUP (size + Hdrspc) BLOCKALIGN + sizeof_Block in
       let* (i, p) := malloc n "allocb: no memory" in
       ret (i, lim_offset p n)) in
  let fl := if size =? BLOCKMINROUND then BSMALL else 0 in
  let r := l - ROUNDUP size BLOCKALIGN in
  if (r <? 0) || (l - r <? size) then panic "_allocb"
  else ret (mkBlock i (malloc_junk i <$> seq 0 (Z.to_nat l)) r r fl false 0).

Definition allocb (size : Z) : M Bst Block := _allocb size.

Definition ialloclimit (l : Z) : M Bst () := modify (with_limit l).

(** [None] is C's nil.  When the limit is hit the static counters decide
    whether the kernel exits. *)
Definition iallocb (size : Z) : M Bst (option Block) :=
  s <- gets id ;;
  if ialloc_limit s <? ialloc_bytes s then
    if Z.rem (m1 s) 10000 =? 0 then
      modify (with_m1mp (s32 (m1 s + 1)) (s32 (mp s + 1))) ;;
      if mp s >? 1000 then panic "exit" else ret None
    else modify (with_m1mp (s32 (m1 s + 1)) (mp s)) ;; ret None
  else
    b <- _allocb size ;;
    let b := set_flag (Z.lor (flag b) BINTR) b in
    modify (fun s => with_bytes (u32 (ialloc_bytes s + BALLOC b)) s) ;;
    ret (Some b).

Definition freeb (b : Block) : M Bst () :=
  if bfree b then modify (fun s => with_freed (freed s ++ [bid b]) s)
  else
    (if Z.land (flag b) BINTR =? 0 then ret tt
     else modify (fun s => with_bytes (u32 (ialloc_bytes s - BALLOC b)) s)) ;;
    modify (fun s => with_freed (freed s ++ [bid b]) s).

(** [checkb] panics on a block whose pointers are out of order. *)
Definition checkb (b : Block) : M Bst () :=
  if lim b <? 0 then panic "checkb 0"
  else if rp b <? 0 then panic "checkb 1"
  else if wpt b <? 0 then panic "checkb 2"
  else if lim b <? rp b then panic "checkb 3"
  else if lim b <? wpt b then panic "checkb 4"
  else ret tt.
End Allocb.

(** ** Block routines of port/qio.c *)
Section Blocks.
Context `{MA : Malloc}.

(** [memmove] out of and into a block's storage. *)
Definition bread (b : Block) (off n : Z) : M Bst (list Z) :=
  if (0 <=? off) && (0 <=? n) && (off + n <=? lim b) then ret (slice off n (buf b))
  else undef "read outside the block".
Definition bwrite (b : Block) (off : Z) (bs : list Z) : M Bst Block :=
  if (0 <=? off) && (off + zlen bs <=? lim b) then ret (set_buf (splice off bs (buf b)) b)
  else undef "write outside the block".
(** [memmove(b->wp, p, n); b->wp += n] *)
Definition bappend (b : Block) (bs : list Z) : M Bst Block :=
  b <- bwrite b (wpt b) bs ;; ret (set_wp (wpt b + zlen bs) b).

Fixpoint freeblist (bl : list Block) : M Bst () :=
  match bl with
  | [] => ret tt
  | b :: next => freeb b ;; freeblist next
  end.

Definition padblock (bl : list Block) (size : Z) : M Bst (list Block) :=
  match bl with
  | [] => undef "padblock: nil"
  | bp :: next =>
      if 0 <=? size then
        if rp bp >=? size then ret (set_rp (rp bp - size) bp :: next)
        else match next with
        | _ :: _ => panic "padblock"
        | [] =>
            let n := BLEN bp in
            count padblockcnt 1 ;;
            nbp <- allocb (size + n) ;;
            let nbp := set_rp (rp nbp + size) nbp in
            let nbp := set_wp (rp nbp) nbp in
            d <- bread bp (rp bp) n ;;
            nbp <- bappend nbp d ;;
            freeb bp ;;
            ret [set_rp (rp nbp - size) nbp]
        end
      else
        let size := - size in
        match next with
        | _ :: _ => panic "padblock"
        | [] =>
            if lim bp - wpt bp >=? size then ret bl
            else
              let n := BLEN bp in
              count padblockcnt 1 ;;
              nbp <- allocb (size + n) ;;
              d <- bread bp (rp bp) n ;;
              nbp <- bappend nbp d ;;
              freeb bp ;;
              ret [nbp]
        end
  end.

Definition blocklen (bl : list Block) : Z :=
  fold_left (fun len b => len + BLEN b) bl 0.
Definition blockalloclen (bl : list Block) : Z :=
  fold_left (fun len b => len + BALLOC b) bl 0.

(** The copy loop of [concatblock]: append each block of [f] to [nb]. *)
Fixpoint concat_loop (nb : Block) (f : list Block) : M Bst Block :=
  match f with
  | [] => ret nb
  | b :: next =>
      d <- bread b (rp b) (BLEN b) ;;
      nb <- bappend nb d ;;
      concat_loop nb next
  end.

Definition concatblock (bl : list Block) : M Bst (list Block) :=
  match bl with
  | [] => undef "concatblock: nil"
  | [_] => ret bl
  | _ =>
      nb <- allocb (blocklen bl) ;;
      nb <- concat_loop nb bl ;;
      count concatblockcnt (BLEN nb) ;;
      freeblist bl ;;
      ret [nb]
  end.

(** The loop of [pullupblock]: move bytes of the trailing blocks into [bp]
    until [n] more are there.  [None] is the nil the code returns. *)
Fixpoint pullup_loop (bp : Block) (n : Z) (rest : list Block) : M Bst (option (list Block)) :=
  match rest with
  | [] => freeb bp ;; ret None
  | nbp :: next =>
      let i := BLEN nbp in
      if i >? n then
        d <- bread nbp (rp nbp) n ;;
        bp <- bwrite bp (wpt bp) d ;;
        count pullupblockcnt 1 ;;
        ret (Some (set_wp (wpt bp + n) bp :: set_rp (rp nbp + n) nbp :: next))
      else
        let i := if i <? 0 then 0 else i in
        d <- bread nbp (rp nbp) i ;;
        bp <- bwrite bp (wpt bp) d ;;
        count pullupblockcnt 1 ;;
        let bp := set_wp (wpt bp + i) bp in
        freeb nbp ;;
        let n := n - i in
        if n =? 0 then ret (Some (bp :: next)) else pullup_loop bp n next
  end.

Definition pullupblock (bl : list Block) (n : Z) : M Bst (option (list Block)) :=
  match bl with
  | [] => undef "pullupblock: nil"
  | bp :: next =>
      if BLEN bp >=? n then ret (Some bl)
      else if lim bp - rp bp <? n then
        nbp <- allocb n ;;
        pullup_loop nbp (n - BLEN nbp) bl
      else pullup_loop bp (n - BLEN bp) next
  end.

(** The first loop of [trimblock] frees the blocks before [offset]; the
    result is the remaining offset and the chain from the start block. *)
Fixpoint trim_skip (bl : list Block) (offset : Z) : M Bst (Z * list Block) :=
  match bl with
  | [] => undef "trimblock: nil"
  | bp :: nb =>
      if BLEN bp <? offset then freeb bp ;; trim_skip nb (offset - BLEN bp)
      else ret (offset, bl)
  end.
(** The second loop: keep whole blocks while they are shorter than what is
    left of [len], trim the next one and free what follows it. *)
Fixpoint trim_keep (bl : list Block) (len : Z) : M Bst (list Block) :=
  match bl with
  | [] => undef "trimblock: nil"
  | bp :: next =>
      if BLEN bp <? len then
        r <- trim_keep next (len - BLEN bp) ;; ret (bp :: r)
      else
        freeblist next ;;
        ret [set_wp (wpt bp - (BLEN bp - len)) bp]
  end.

Definition trimblock (bl : list Block) (offset len : Z) : M Bst (option (list Block)) :=
  if blocklen bl <? offset + len then freeblist bl ;; ret None
  else
    let* (off, l) := trim_skip bl offset in
    match l with
    | [] => undef "trimblock: nil"
    | bp :: next => r <- trim_keep (set_rp (rp bp + off) bp :: next) len ;; ret (Some r)
    end.

(** The copy loop of [copyblock]; the result is what is left of [count]. *)
Fixpoint copy_loop (nbp : Block) (bl : list Block) (count : Z) : M Bst (Block * Z) :=
  match bl with
  | [] => ret (nbp, count)
  | bp :: next =>
      if count >? 0 then
        let l := if BLEN bp >? count then count else BLEN bp in
        d <- bread bp (rp bp) l ;;
        nbp <- bappend nbp d ;;
        copy_loop nbp next (count - l)
      else ret (nbp, count)
  end.

Definition copyblock (bl : list Block) (cnt : Z) : M Bst (option Block) :=
  match bl with
  | [] => undef "copyblock: nil"
  | bp :: _ =>
      o <- (if Z.land (flag bp) BINTR =? 0 then b <- allocb cnt ;; ret (Some b)
            else iallocb cnt) ;;
      match o with
      | None => ret None
      | Some nbp =>
          let* (nbp, rest) := copy_loop nbp bl cnt in
          nbp <- (if rest >? 0 then bappend nbp (replicate (Z.to_nat rest) 0)
                  else ret nbp) ;;
          count copyblockcnt 1 ;;
          ret (Some nbp)
      end
  end.

Definition adjustblock (bl : list Block) (len : Z) : M Bst (option (list Block)) :=
  match bl with
  | [] => undef "adjustblock: nil"
  | bp :: next =>
      if len <? 0 then freeb bp ;; ret None
      else if rp bp + len >? lim bp then
        nbp <- copyblock bl len ;;
        freeblist bl ;;
        ret (option_map (fun b => [b]) nbp)
      else
        let n := BLEN bp in
        bp <- (if len >? n then bwrite bp (wpt bp) (replicate (Z.to_nat (len - n)) 0)
               else ret bp) ;;
        ret (Some (set_wp (rp bp + len) bp :: next))
  end.

(** [pullblock] on the chain head [*bph]: the new head and the count. *)
Fixpoint pullblock (bl : list Block) (count bytes : Z) : M Bst (list Block * Z) :=
  match bl with
  | [] => ret ([], bytes)
  | bp :: next =>
      if count =? 0 then ret (bl, bytes)
      else
        let n := if count <? BLEN bp then count else BLEN bp in
        let bp := set_rp (rp bp + n) bp in
        if BLEN bp =? 0 then freeb bp ;; pullblock next (count - n) (bytes + n)
        else ret (bp :: next, bytes + n)
  end.

Fixpoint packblock (bl : list Block) : M Bst (list Block) :=
  match bl with
  | [] => ret []
  | nbp :: next =>
      let n := BLEN nbp in
      b <- (if Z.shiftl n 2 <? BALLOC nbp then
              b <- allocb n ;;
              d <- bread nbp (rp nbp) n ;;
              b <- bappend b d ;;
              freeb nbp ;;
              ret b
            else ret nbp) ;;
      r <- packblock next ;;
      ret (b :: r)
  end.

(** [bl2mem]: the bytes copied out and the chain from the first block that
    was not consumed. *)
Fixpoint bl2mem (bl : list Block) (n : Z) : M Bst (list Z * list Block) :=
  match bl with
  | [] => ret ([], [])
  | b :: next =>
      let i := BLEN b in
      if i >? n then
        d <- bread b (rp b) n ;; ret (d, set_rp (rp b + n) b :: next)
      else
        d <- bread b (rp b) i ;;
        freeb b ;;
        let* (ds, r) := bl2mem next (n - i) in
        ret (d ++ ds, r)
  end.

Definition Maxatomic : Z := 64 * 1024.

(** The do-while loop of [mem2bl]; [fuel] bounds the number of blocks. *)
Fixpoint mem2bl_loop (fuel : nat) (p : list Z) : M Bst (list Block) :=
  match fuel with
  | O => undef "mem2bl: out of fuel"
  | S fuel =>
      let n := if zlen p >? Maxatomic then Maxatomic else zlen p in
      b <- allocb n ;;
      b <- bappend b (ztake n p) ;;
      let p := zdrop n p in
      if zlen p >? 0 then r <- mem2bl_loop fuel p ;; ret (b :: r) else ret [b]
  end.
Definition mem2bl (p : list Z) : M Bst (list Block) := mem2bl_loop (S (length p)) p.
End Blocks.

(** ** Invariants *)

Definition wfb (b : Block) : Prop := 0 <= rp b <= wpt b /\ wpt b <= lim b.
(** The unread bytes of a block and of a chain. *)
Definition bdata (b : Block) : list Z := slice (rp b) (BLEN b) (buf b).
Definition cdata (bl : list Block) : list Z := concat (bdata <$> bl).
Definition ids (bl : list Block) : list nat := bid <$> bl.

(** What a block contributes to [ialloc.bytes]. *)
Definition charge (b : Block) : Z :=
  if bfree b then 0 else if Z.land (flag b) BINTR =? 0 then 0 else BALLOC b.
Definition charges (bl : list Block) : Z := zsum (charge <$> bl).

(** [acct L s]: when [L] are the blocks in use, every identity handed out so
    far is in use or released, exactly once, and [ialloc.bytes] is the storage
    of the interrupt-level blocks in use.  A routine that preserves it
    neither loses a block nor releases one twice. *)
Definition acct (L : list Block) (s : Bst) : Prop :=
  ids L ++ freed s ≡ₚ seq 0 (nextid s) /\
  (ialloc_bytes s - charges L) mod 2 ^ 32 = 0.

(** The part of the state a routine that only allocates and frees leaves alone. *)
Definition quiet (s s' : Bst) : Prop :=
  events s' = events s /\ ialloc_limit s' = ialloc_limit s /\ mp s' = mp s.

Definition b0 : Block := mkBlock 0 (replicate 200 0) 64 72 0 false 0.

#[export] Instance quiet_preorder : PreOrder quiet.
Proof.
  unfold quiet. split; [done|]. intros x y z. intuition congruence.
Qed.

Section BlockFacts.
Implicit Types (b : Block) (bl L : list Block) (s : Bst).

Lemma wfb_BLEN b : wfb b -> 0 <= BLEN b.
Proof. unfold wfb, BLEN. lia. Qed.
Lemma zlen_bdata b : wfb b -> zlen (bdata b) = BLEN b.
Proof.
  unfold wfb, bdata, BLEN, lim. intros. apply zlen_slice_in; lia.
Qed.
Lemma cdata_cons b bl : cdata (b :: bl) = bdata b ++ cdata bl.
Proof. reflexivity. Qed.
Lemma cdata_app bl k : cdata (bl ++ k) = cdata bl ++ cdata k.
Proof. unfold cdata. by rewrite fmap_app, concat_app. Qed.
Lemma charges_cons b bl : charges (b :: bl) = charge b + charges bl.
Proof. reflexivity. Qed.
Lemma charges_app bl k : charges (bl ++ k) = charges bl + charges k.
Proof. unfold charges. by rewrite fmap_app, zsum_app. Qed.
Lemma zsum_perm l k : l ≡ₚ k -> zsum l = zsum k.
Proof. induction 1; unfold zsum in *; cbn [foldr]; lia. Qed.
#[export] Instance charges_proper : Proper (Permutation ==> eq) charges.
Proof. intros l k H. unfold charges. apply zsum_perm. by rewrite H. Qed.
#[export] Instance acct_proper : Proper (Permutation ==> eq ==> iff) acct.
Proof. intros L K H s ? <-. unfold acct, ids. by rewrite H. Qed.

Lemma blocklen_acc bl n : fold_left (fun len b => len + BLEN b) bl n = n + blocklen bl.
Proof.
  revert n. induction bl as [|b bl IH]; intros n; unfold blocklen; cbn [fold_left].
  - lia.
  - rewrite (IH (n + BLEN b)), (IH (0 + BLEN b)). lia.
Qed.
Lemma blocklen_cons b bl : blocklen (b :: bl) = BLEN b + blocklen bl.
Proof. unfold blocklen at 1. cbn [fold_left]. rewrite blocklen_acc. lia. Qed.
Lemma blocklen_app bl k : blocklen (bl ++ k) = blocklen bl + blocklen k.
Proof.
  induction bl as [|b bl IH]; [done|]. cbn [app]. rewrite !blocklen_cons. lia.
Qed.
Lemma blockalloclen_acc bl n :
  fold_left (fun len b => len + BALLOC b) bl n = n + blockalloclen bl.
Proof.
  revert n. induction bl as [|b bl IH]; intros n; unfold blockalloclen; cbn [fold_left].
  - lia.
  - rewrite (IH (n + BALLOC b)), (IH (0 + BALLOC b)). lia.
Qed.
Lemma blockalloclen_cons b bl : blockalloclen (b :: bl) = BALLOC b + blockalloclen bl.
Proof. unfold blockalloclen at 1. cbn [fold_left]. rewrite blockalloclen_acc. lia. Qed.
Lemma blockalloclen_app bl k : blockalloclen (bl ++ k) = blockalloclen bl + blockalloclen k.
Proof.
  induction bl as [|b bl IH]; [done|]. cbn [app]. rewrite !blockalloclen_cons. lia.
Qed.
Lemma zlen_cdata bl : Forall wfb bl -> zlen (cdata bl) = blocklen bl.
Proof.
  induction 1 as [|b bl Hb _ IH]; [done|].
  rewrite cdata_cons, blocklen_cons, zlen_app, zlen_bdata; [lia|done].
Qed.
Lemma blocklen_nonneg bl : Forall wfb bl -> 0 <= blocklen bl.
Proof. intros H. rewrite <- zlen_cdata by done. apply zlen_nonneg. Qed.

(** The setters commute with what they do not touch. *)
Lemma bdata_set_flag f b : bdata (set_flag f b) = bdata b.
Proof. reflexivity. Qed.
(** Consuming [n] bytes from the front. *)
Lemma bdata_advance b n :
  wfb b -> 0 <= n <= BLEN b -> bdata b = slice (rp b) n (buf b) ++ bdata (set_rp (rp b + n) b).
Proof.
  unfold wfb, bdata, BLEN, lim. cbn. intros.
  rewrite slice_app by lia. f_equal. lia.
Qed.
Lemma bdata_advance_drop b n :
  wfb b -> 0 <= n <= BLEN b -> bdata (set_rp (rp b + n) b) = zdrop n (bdata b).
Proof.
  intros Hb Hn. rewrite (bdata_advance b n) by done. unfold wfb, BLEN, lim in *.
  rewrite zdrop_app_ge; rewrite zlen_slice_in by lia; [|lia].
  by rewrite Z.sub_diag, zdrop_le by lia.
Qed.
Lemma bread_front b n : wfb b -> 0 <= n <= BLEN b -> slice (rp b) n (buf b) = ztake n (bdata b).
Proof.
  intros Hb Hn. rewrite (bdata_advance b n) by done. unfold wfb, BLEN, lim in *.
  rewrite ztake_app_le; [|rewrite zlen_slice_in by lia; lia].
  by rewrite ztake_ge; [|rewrite zlen_slice_in by lia; lia].
Qed.
Lemma wfb_advance b n : wfb b -> 0 <= n <= BLEN b -> wfb (set_rp (rp b + n) b).
Proof. unfold wfb, BLEN, lim. cbn. lia. Qed.
(** Cutting a block to its first [n] bytes. *)
Lemma bdata_cut b n : wfb b -> 0 <= n <= BLEN b -> bdata (set_wp (rp b + n) b) = ztake n (bdata b).
Proof.
  intros Hb Hn. rewrite <- bread_front by done. unfold bdata, BLEN. cbn. f_equal. lia.
Qed.
Lemma wfb_cut b n : wfb b -> 0 <= n <= BLEN b -> wfb (set_wp (rp b + n) b).
Proof. unfold wfb, BLEN, lim. cbn. lia. Qed.

Lemma charge_set_rp r b : charge (set_rp r b) = charge b.
Proof. reflexivity. Qed.
Lemma charge_set_wp r b : charge (set_wp r b) = charge b.
Proof. reflexivity. Qed.
Lemma acct_same_ids b b' F s :
  bid b' = bid b -> charge b' = charge b -> acct (b :: F) s -> acct (b' :: F) s.
Proof.
  unfold acct, ids. rewrite !fmap_cons, !charges_cons. by intros -> ->.
Qed.
End BlockFacts.

(** ** Specifications of the allocator *)

(** A block [allocb size] hands out: empty, with room for [size] bytes after
    [rp] and [Hdrspc] bytes of room for headers before it. *)
Definition fresh_block (size : Z) (b : Block) : Prop :=
  wfb b /\ wpt b = rp b /\ size <= lim b - rp b /\ Hdrspc <= rp b /\ bfree b = false.

Lemma fresh_bdata size b : fresh_block size b -> bdata b = [].
Proof.
  intros (_ & E & _). unfold bdata, BLEN. rewrite E. apply slice_nil. lia.
Qed.

Lemma lim_offset_range p n :
  0 <= p -> 0 <= n ->
  n - sizeof_Block - 7 <= lim_offset p n <= n - sizeof_Block.
Proof.
  intros Hp Hn. unfold lim_offset, BLOCKALIGN.
  replace (Z.land (p + n - sizeof_Block) (Z.lnot (8 - 1)))
    with (8 * ((p + n - sizeof_Block) / 8)).
  - pose proof (Z.div_mod (p + n - sizeof_Block) 8 ltac:(lia)).
    pose proof (Z.mod_pos_bound (p + n - sizeof_Block) 8 ltac:(lia)). lia.
  - change (8 - 1) with (Z.ones 3). rewrite <- Z.ldiff_land, Z.ldiff_ones_r by lia.
    rewrite Z.shiftl_mul_pow2, Z.shiftr_div_pow2 by lia. change (2 ^ 3) with 8. lia.
Qed.

Section AllocSpec.
Context `{MA : Malloc, MO : !MallocOk MA}.

Lemma acct_alloc b F s :
  acct F s -> bid b = nextid s -> charge b = 0 ->
  acct (b :: F) (with_id (S (nextid s)) s).
Proof.
  unfold acct, ids. intros [Hp Hb] Hid Hc. rewrite fmap_cons, charges_cons, Hc.
  cbn [nextid freed ialloc_bytes with_id]. split; [|by rewrite Z.add_0_l].
  rewrite seq_S, <- Hp, Hid. cbn. solve_Permutation.
Qed.

Lemma wp_malloc n msg s :
  wp (malloc n msg) s (fun ip s' => fst ip = nextid s /\ 0 <= snd ip /\
    s' = with_id (S (nextid s)) s).
Proof.
  unfold malloc. wp_steps. destruct (malloc_some (nextid s) n) as (p & -> & Hp).
  wp_steps. done.
Qed.

Lemma acct_iac d t F s : acct F (with_iac d t s) <-> acct F s.
Proof. done. Qed.

(** The storage of a request of [n] bytes, whichever pool it comes from. *)
Lemma wp_alloc_storage n msg s :
  0 <= n ->
  wp (let* (i, p) := malloc n msg in ret (i, lim_offset p n)) s (fun il s' =>
    fst il = nextid s /\ n - sizeof_Block - 7 <= snd il <= n - sizeof_Block /\
    s' = with_id (S (nextid s)) s).
Proof.
  intros Hn. apply wp_bind. eapply wp_mono; [apply wp_malloc|].
  intros [i p] s' (Hi & Hp & ->). wp_steps. cbn in *.
  pose proof (lim_offset_range p n Hp Hn). auto.
Qed.

(** The storage is no larger than the rounding and the headers ask for. *)
Definition snug (size : Z) (b : Block) : Prop := BALLOC b <= size + BLOCKROUND + 2 * Hdrspc.
Lemma wp_allocb_snug size F s :
  0 <= size -> acct F s ->
  wp (allocb size) s (fun b s' => snug size b /\ fresh_block size b /\ Z.land (flag b) BINTR = 0 /\
    acct (b :: F) s' /\ quiet s s').
Proof.
  intros Hs HF. unfold allocb, _allocb.
  set (sz := if size >? BLOCKROUND then _ else _).
  assert (size <= sz < size + BLOCKROUND) as Hsz.
  { pose proof (ROUNDUP_spec size BLOCKROUND Hs ltac:(done)) as [? _]. pose proof (ROUNDUP_spec size BLOCKMINROUND Hs ltac:(done)) as [? _].
    subst sz. unfold BLOCKROUND, BLOCKMINROUND, KiB in *. destruct (size >? _); lia. }
  clearbody sz. wp_steps.
  eapply (wp_mono _ _ (fun _ s1 => acct F s1 /\ quiet s s1)).
  { by destruct (debugialloc s). }
  intros _ s1 [HF1 Hq].
  pose proof (ROUNDUP_spec sz 8 ltac:(lia) ltac:(lia)) as [Hr _].
  pose proof (ROUNDUP_spec (sz + Hdrspc) 8 ltac:(unfold Hdrspc; lia) ltac:(lia)) as [Hr2 Hm2].
  assert (ROUNDUP sz 8 + 64 = ROUNDUP (sz + Hdrspc) 8) as Hr3.
  { unfold ROUNDUP, HOWMANY, Hdrspc. rewrite !Z.quot_div_nonneg by lia.
    replace (sz + 64 + (8 - 1)) with (sz + (8 - 1) + 8 * 8) by lia.
    rewrite Z.div_add by lia. lia. }
  unfold BLOCKALIGN.
  assert (exists n msg, 0 <= n /\ n - sizeof_Block = 8 + ROUNDUP (sz + Hdrspc) 8 /\
    (if sz =? BLOCKMINROUND then baalloc
     else let* (i, p) := malloc (8 + ROUNDUP (sz + Hdrspc) 8 + sizeof_Block)
            "allocb: no memory" in
          ret (i, lim_offset p (8 + ROUNDUP (sz + Hdrspc) 8 + sizeof_Block)))
    = (let* (i, p) := malloc n msg in ret (i, lim_offset p n))) as (n & msg & Hn & Hn2 & ->).
  { destruct (Z.eqb_spec sz BLOCKMINROUND) as [->|].
    - eexists balloc_elsz, _. split; [done|]. split; [reflexivity|reflexivity].
    - eexists _, _. split; [|split; [|reflexivity]]; unfold sizeof_Block; lia. }
  apply wp_bind. eapply wp_mono; [by apply wp_alloc_storage|].
  intros [i l] s2 (Hi & Hl & ->). cbn in Hi, Hl.
  destruct (Z.ltb_spec (l - ROUNDUP sz 8) 0); [exfalso; lia|].
  destruct (Z.ltb_spec (l - (l - ROUNDUP sz 8)) sz); [exfalso; lia|].
  cbn [orb]. apply wp_ret.
  set (b := mkBlock _ _ _ _ _ _ _).
  assert (lim b = l) as Hlim.
  { unfold lim, zlen. subst b. cbn. rewrite length_fmap, length_seq. lia. }
  split; [|split; [|split; [|split]]].
  - unfold snug, BALLOC. rewrite Hlim. unfold Hdrspc in *. lia.
  - unfold fresh_block, wfb. rewrite Hlim. subst b. cbn. unfold Hdrspc in *.
    repeat split; lia.
  - subst b. cbn. by destruct (sz =? BLOCKMINROUND).
  - apply acct_alloc; [done|done|]. subst b. unfold charge. cbn.
    by destruct (sz =? BLOCKMINROUND).
  - exact Hq.
Qed.
Lemma wp_allocb size F s :
  0 <= size -> acct F s ->
  wp (allocb size) s (fun b s' => fresh_block size b /\ Z.land (flag b) BINTR = 0 /\
    acct (b :: F) s' /\ quiet s s').
Proof. intros Hs HF. eapply wp_mono; [by apply (wp_allocb_snug size F)|]. by intros b s' [_ H]. Qed.

Lemma land_lor_BINTR f : Z.land (Z.lor f BINTR) BINTR <> 0.
Proof.
  unfold BINTR. intros H. apply (f_equal (fun x => Z.testbit x 0)) in H.
  rewrite Z.land_spec, Z.lor_spec in H. cbn in H.
  rewrite orb_true_r in H. done.
Qed.

(** Interrupt level: nil when over the limit, and a charged block otherwise. *)
Lemma wp_iallocb size F s :
  0 <= size -> acct F s -> mp s <= 1000 ->
  wp (iallocb size) s (fun o s' => events s' = events s /\
    match o with
    | None => ialloc_limit s < ialloc_bytes s /\ acct F s'
    | Some b => ialloc_bytes s <= ialloc_limit s /\ fresh_block size b /\
        acct (b :: F) s' /\ quiet s s'
    end).
Proof.
  intros Hs HF Hmp. unfold iallocb. wp_steps. unfold id.
  destruct (Z.ltb_spec (ialloc_limit s) (ialloc_bytes s)).
  - destruct (Z.rem (m1 s) 10000 =? 0); wp_steps; [|done].
    destruct (Z.gtb_spec (mp s) 1000); [lia|]. wp_steps. done.
  - wp_steps. eapply wp_mono; [by apply (wp_allocb size F)|].
    intros b s1 (Hf & Hi & [Hp Hb] & Hq). wp_steps.
    split; [apply Hq|]. split; [done|]. split; [exact Hf|]. split; [|exact Hq].
    unfold acct, ids in *. rewrite fmap_cons, charges_cons in *.
    cbn [freed nextid with_bytes ialloc_bytes]. split; [exact Hp|].
    assert (charge b = 0) as Hc0.
    { unfold charge. rewrite Hi. by destruct (bfree b). }
    assert (charge (set_flag (Z.lor (flag b) BINTR) b) = BALLOC b) as ->.
    { unfold charge. cbn [bfree flag set_flag].
      destruct Hf as (_ & _ & _ & _ & ->).
      destruct (Z.eqb_spec (Z.land (Z.lor (flag b) BINTR) BINTR) 0) as [E|];
        [by apply land_lor_BINTR in E|done]. }
    unfold u32. rewrite Hc0 in Hb. rewrite Zminus_mod_idemp_l.
    etrans; [|exact Hb]. f_equal. unfold BALLOC, lim. cbn [buf set_flag]. lia.
Qed.

Lemma wp_freeb b F s :
  acct (b :: F) s -> wp (freeb b) s (fun _ s' => acct F s' /\ quiet s s').
Proof.
  unfold acct, ids. rewrite fmap_cons, charges_cons. intros [Hp Hb].
  assert ((bid <$> F) ++ freed s ++ [bid b] ≡ₚ seq 0 (nextid s)) as Hp'.
  { rewrite <- Hp. solve_Permutation. }
  unfold freeb, charge in *. destruct (bfree b); wp_steps; [done|].
  destruct (Z.land (flag b) BINTR =? 0); wp_steps; cbn; [done|].
  split; [|done]. split; [done|]. unfold u32. rewrite Zminus_mod_idemp_l.
  etrans; [|exact Hb]. f_equal. unfold BALLOC, lim. cbn [buf set_flag]. lia.
Qed.

Lemma wp_freeblist bl F s :
  acct (bl ++ F) s -> wp (freeblist bl) s (fun _ s' => acct F s' /\ quiet s s').
Proof.
  revert s. induction bl as [|b bl IH]; intros s HF; cbn [freeblist].
  - wp_steps. done.
  - wp_steps. eapply wp_mono; [by apply wp_freeb|]. intros _ s1 [H1 Hq].
    eapply wp_mono; [by apply IH|]. intros _ s2 [H2 Hq2]. split; [done|by etrans].
Qed.
End AllocSpec.

(** ** Specifications of the block routines *)

(** [b'] is [b] with [bs] appended in place. *)
Definition grows (bs : list Z) (b b' : Block) : Prop :=
  wfb b' /\ bdata b' = bdata b ++ bs /\ bid b' = bid b /\ charge b' = charge b /\
  lim b' = lim b /\ rp b' = rp b /\ wpt b' = wpt b + zlen bs /\ flag b' = flag b /\
  bfree b' = bfree b.

Section BlockSpec.
Context `{MA : Malloc, MO : !MallocOk MA}.

Lemma wp_bread b n s :
  wfb b -> 0 <= n <= BLEN b ->
  wp (bread b (rp b) n) s (fun d s' => d = ztake n (bdata b) /\ s' = s).
Proof.
  intros Hb Hn. unfold bread. pose proof Hb as (?&?). unfold BLEN in Hn.
  destruct (Z.leb_spec 0 (rp b)); [|lia]. destruct (Z.leb_spec 0 n); [|lia].
  destruct (Z.leb_spec (rp b + n) (lim b)); [|lia]. cbn [andb]. apply wp_ret.
  split; [|done]. apply bread_front; [done|unfold BLEN; lia].
Qed.
Lemma wp_bread_all b s :
  wfb b -> wp (bread b (rp b) (BLEN b)) s (fun d s' => d = bdata b /\ s' = s).
Proof.
  intros Hb. eapply wp_mono; [apply wp_bread; [done|]|].
  - pose proof (wfb_BLEN b Hb). lia.
  - intros d s' [-> ->]. split; [|done]. apply ztake_ge. by rewrite zlen_bdata.
Qed.

Lemma grows_bwrite b bs :
  wfb b -> wpt b + zlen bs <= lim b ->
  grows bs b (set_wp (wpt b + zlen bs) (set_buf (splice (wpt b) bs (buf b)) b)).
Proof.
  intros Hb Hl. pose proof (zlen_nonneg bs). pose proof Hb as (?&?).
  assert (zlen (splice (wpt b) bs (buf b)) = lim b) as El.
  { apply zlen_splice; unfold lim in *; lia. }
  unfold grows. split_and!; try done.
  - unfold wfb, lim. cbn. rewrite El. lia.
  - unfold bdata, BLEN. cbn.
    replace (wpt b + zlen bs - rp b) with ((wpt b - rp b) + zlen bs) by lia.
    replace (splice (wpt b) bs (buf b)) with
      (splice (rp b + (wpt b - rp b)) bs (buf b)) by (f_equal; lia).
    apply slice_splice_extend; unfold lim in *; lia.
  - unfold charge, BALLOC, lim. cbn. unfold lim in El. by rewrite El.
Qed.
Lemma wp_bwrite b bs s :
  wfb b -> wpt b + zlen bs <= lim b ->
  wp (bwrite b (wpt b) bs) s (fun b' s' => s' = s /\
    b' = set_buf (splice (wpt b) bs (buf b)) b).
Proof.
  intros Hb Hl. unfold bwrite. pose proof Hb as (?&?).
  destruct (Z.leb_spec 0 (wpt b)); [|lia].
  destruct (Z.leb_spec (wpt b + zlen bs) (lim b)); [|lia]. by apply wp_ret.
Qed.
Lemma wp_bappend b bs s :
  wfb b -> wpt b + zlen bs <= lim b ->
  wp (bappend b bs) s (fun b' s' => s' = s /\ grows bs b b').
Proof.
  intros Hb Hl. unfold bappend. wp_steps. eapply wp_mono; [by apply wp_bwrite|].
  intros b' s' [-> ->]. wp_steps. split; [done|]. exact (grows_bwrite b bs Hb Hl).
Qed.

Lemma acct_grows bs b b' F s : grows bs b b' -> acct (b :: F) s -> acct (b' :: F) s.
Proof. intros (_&_&?&?&_). by apply acct_same_ids. Qed.
Lemma wp_count k n s (Q : () -> Bst -> Prop) :
  (forall f, Q tt (with_stat f s)) -> wp (count k n) s Q.
Proof. intros H. apply wp_modify. apply H. Qed.

Lemma wp_concat_loop nb f s :
  wfb nb -> Forall wfb f -> wpt nb + blocklen f <= lim nb ->
  wp (concat_loop nb f) s (fun b' s' => s' = s /\ grows (cdata f) nb b').
Proof.
  intros Hnb Hf. revert nb Hnb. induction Hf as [|b f Hb Hf IH]; intros nb Hnb Hl.
  - apply wp_ret. split; [done|]. unfold grows. cbn. rewrite app_nil_r, zlen_nil.
    split_and!; (done || lia).
  - rewrite blocklen_cons in Hl. cbn [concat_loop]. wp_steps.
    pose proof (wfb_BLEN b Hb). pose proof (blocklen_nonneg f Hf).
    eapply wp_mono; [by apply wp_bread_all|]. intros d s1 [-> ->]. wp_steps.
    eapply wp_mono; [apply wp_bappend; [done|rewrite zlen_bdata by done; lia]|].
    intros nb' s1 [-> Hg]. pose proof Hg as (Hw & Hd & ? & ? & Hlm & ? & Hwp & ? & ?).
    rewrite zlen_bdata in Hwp by done.
    eapply wp_mono; [apply IH; [done|lia]|].
    intros b' s1 [-> (?&Hd'&?&?&?&?&Hw'&?&?)]. split; [done|].
    unfold grows. rewrite cdata_cons, zlen_app, Hd', Hd, (zlen_bdata b) by done.
    split_and!; (done || congruence || lia || by rewrite app_assoc).
Qed.

Lemma cdata_singleton b : cdata [b] = bdata b.
Proof. unfold cdata. cbn. apply app_nil_r. Qed.

Lemma wp_concatblock bl F s :
  bl <> [] -> Forall wfb bl -> acct (bl ++ F) s ->
  wp (concatblock bl) s (fun bl' s' => exists b, bl' = [b] /\ wfb b /\
    bdata b = cdata bl /\ acct (b :: F) s' /\ quiet s s').
Proof.
  intros Hne Hw HF. destruct bl as [|b [|b2 bl]]; [done| |].
  - apply wp_ret. exists b. rewrite cdata_singleton. apply Forall_inv in Hw. done.
  - unfold concatblock. set (l := b :: b2 :: bl) in *.
    pose proof (blocklen_nonneg l Hw). wp_steps.
    eapply wp_mono; [by apply (wp_allocb _ (l ++ F))|].
    intros nb s1 (Hfr & _ & HA & Hq). wp_steps. pose proof Hfr as (? & Hwr & Hsz & _).
    eapply wp_mono; [apply wp_concat_loop; [done|done|lia]|].
    intros b' s2 [-> Hg]. wp_steps. apply wp_count. intros f. wp_steps.
    pose proof Hg as (? & Hd & _).
    assert (acct (l ++ b' :: F) s1) as HA2.
    { eapply acct_grows in HA; [|exact Hg]. by rewrite <- Permutation_middle. }
    eapply wp_mono; [apply (wp_freeblist l (b' :: F)); exact HA2|].
    intros _ s3 [HA3 Hq3]. wp_steps. exists b'.
    split_and!; [done|done| |done|etrans; [exact Hq|exact Hq3]].
    by rewrite Hd, (fresh_bdata _ _ Hfr).
Qed.

Lemma wp_pullup_loop bp n rest F s :
  wfb bp -> Forall wfb rest -> 0 < n -> wpt bp + n <= lim bp ->
  acct (bp :: rest ++ F) s ->
  wp (pullup_loop bp n rest) s (fun o s' => quiet s s' /\
    match o with
    | None => blocklen rest < n /\ acct F s'
    | Some bl' => n <= blocklen rest /\ Forall wfb bl' /\ acct (bl' ++ F) s' /\
        cdata bl' = bdata bp ++ cdata rest /\
        exists bp' rest', bl' = bp' :: rest' /\ BLEN bp' = BLEN bp + n
    end).
Proof.
  intros Hb Hr. revert bp Hb n s.
  induction Hr as [|nbp next Hnb Hnx IH]; intros bp Hb n s Hn Hl HA.
  - cbn [pullup_loop]. wp_steps. eapply wp_mono; [by apply (wp_freeb bp F)|].
    intros _ s' [? ?]. wp_steps. cbn. auto.
  - cbn [pullup_loop]. cbv zeta. rewrite blocklen_cons.
    pose proof (wfb_BLEN nbp Hnb). pose proof (blocklen_nonneg next Hnx).
    destruct (Z.gtb_spec (BLEN nbp) n).
    + wp_steps. eapply wp_mono; [apply wp_bread; [done|lia]|]. intros d s1 [-> ->].
      assert (zlen (ztake n (bdata nbp)) = n) as Ez.
      { rewrite zlen_ztake, zlen_bdata by done. lia. }
      wp_steps. eapply wp_mono; [apply wp_bwrite; [done|lia]|]. intros b' s1 [-> ->].
      wp_steps. apply wp_count. intros f. wp_steps.
      pose proof (grows_bwrite bp (ztake n (bdata nbp)) Hb ltac:(lia)) as Hg.
      rewrite Ez in Hg. cbn [wpt set_buf] in *.
      pose proof Hg as (Hw & Hd & _ & _ & _ & Hrp & Hwp & _).
      split; [done|]. split; [lia|]. split; [|split; [|split]].
      * apply Forall_cons_2; [exact Hw|]. apply Forall_cons_2; [|exact Hnx].
        apply wfb_advance; [done|lia].
      * cbn [app]. eapply acct_grows; [exact Hg|].
        rewrite Permutation_swap. eapply (acct_same_ids nbp); [done..|].
        by rewrite Permutation_swap.
      * rewrite !cdata_cons, Hd, <- app_assoc. f_equal.
        rewrite bdata_advance_drop by (done || lia). by rewrite app_assoc, ztake_zdrop.
      * eexists _, _. split; [done|]. unfold BLEN in *. rewrite Hrp, Hwp, Ez. lia.
    + destruct (Z.ltb_spec (BLEN nbp) 0); [lia|].
      wp_steps. eapply wp_mono; [by apply wp_bread_all|]. intros d s1 [-> ->].
      pose proof (zlen_bdata nbp Hnb) as Ez.
      wp_steps. eapply wp_mono; [apply wp_bwrite; [done|lia]|]. intros b' s1 [-> ->].
      wp_steps. apply wp_count. intros f.
      pose proof (grows_bwrite bp (bdata nbp) Hb ltac:(lia)) as Hg.
      rewrite Ez in Hg. cbn [wpt set_buf] in *.
      set (bp' := set_wp _ _) in *. wp_steps.
      pose proof Hg as (Hw & Hd & _ & _ & Hlm & Hrp & Hwp & _). rewrite Ez in Hwp.
      assert (acct (nbp :: bp' :: next ++ F) (with_stat f s)) as HA1.
      { rewrite Permutation_swap. eapply acct_grows; [exact Hg|exact HA]. }
      eapply wp_mono; [by apply (wp_freeb nbp (bp' :: next ++ F))|].
      intros _ s1 [HA2 Hq].
      assert (quiet s s1) as Hq' by exact Hq. rewrite cdata_cons.
      assert (BLEN bp' = BLEN bp + BLEN nbp) as HB by (unfold BLEN in *; lia).
      destruct (Z.eqb_spec (n - BLEN nbp) 0).
      * wp_steps. split; [done|]. split; [lia|]. split; [by constructor|].
        split; [done|]. split; [by rewrite cdata_cons, Hd, <- app_assoc|].
        eexists _, _. split; [done|]. lia.
      * eapply wp_mono; [apply IH; [exact Hw|lia|lia|exact HA2]|].
        intros [bl'|] s2 [Hq2 Hpost]; (split; [by etrans|]).
        -- destruct Hpost as (? & ? & ? & Hcd & p & q & -> & HB').
           split; [lia|]. split; [done|]. split; [done|].
           split; [by rewrite Hcd, Hd, <- app_assoc|].
           eexists _, _. split; [done|]. lia.
        -- destruct Hpost. split; [lia|done].
Qed.

Lemma wp_pullupblock bl n F s :
  bl <> [] -> Forall wfb bl -> acct (bl ++ F) s -> 0 <= n ->
  wp (pullupblock bl n) s (fun o s' => quiet s s' /\
    match o with
    | None => blocklen bl < n /\ acct F s'
    | Some bl' => n <= blocklen bl /\ Forall wfb bl' /\ acct (bl' ++ F) s' /\
        cdata bl' = cdata bl /\ exists bp' rest', bl' = bp' :: rest' /\ n <= BLEN bp'
    end).
Proof.
  intros Hne Hw HA Hn. destruct bl as [|bp next]; [done|].
  pose proof Hw as Hw'. apply Forall_cons in Hw' as [Hbp Hnx].
  pose proof (blocklen_nonneg next Hnx). pose proof (wfb_BLEN bp Hbp).
  unfold pullupblock. destruct (Z.geb_spec (BLEN bp) n).
  - apply wp_ret. rewrite blocklen_cons. split; [done|]. split; [lia|].
    split_and!; try done. eauto.
  - destruct (Z.ltb_spec (lim bp - rp bp) n).
    + wp_steps. eapply wp_mono; [by apply (wp_allocb n ((bp :: next) ++ F))|].
      intros nb s1 (Hfr & _ & HA1 & Hq). pose proof Hfr as (Hwn & Hwr & Hsz & _).
      assert (BLEN nb = 0) as HB by (unfold BLEN; lia).
      rewrite HB, Z.sub_0_r.
      eapply wp_mono; [apply wp_pullup_loop; [done|done|lia|lia|exact HA1]|].
      intros [bl'|] s2 [Hq2 Hpost]; (split; [by etrans|]); [|done].
      destruct Hpost as (? & ? & ? & Hcd & p & q & -> & HB').
      rewrite (fresh_bdata _ _ Hfr) in Hcd. split_and!; try done.
      eexists _, _. split; [done|]. lia.
    + unfold BLEN in *.
      eapply wp_mono; [apply wp_pullup_loop; [done|done|lia|unfold wfb in *; lia|exact HA]|].
      intros [bl'|] s2 [Hq2 Hpost]; (split; [done|]); rewrite blocklen_cons; unfold BLEN in *.
      * destruct Hpost as (? & ? & ? & Hcd & p & q & -> & HB'). rewrite cdata_cons.
        split_and!; try done; [lia|]. eexists _, _. split; [done|]. lia.
      * destruct Hpost. split; [lia|done].
Qed.

Lemma wp_trim_skip bl offset F s :
  bl <> [] -> Forall wfb bl -> 0 <= offset <= blocklen bl -> acct (bl ++ F) s ->
  wp (trim_skip bl offset) s (fun ol s' => let (off, l) := ol in quiet s s' /\
    Forall wfb l /\ acct (l ++ F) s' /\ zdrop off (cdata l) = zdrop offset (cdata bl) /\
    blocklen l - off = blocklen bl - offset /\
    exists bp next, l = bp :: next /\ 0 <= off <= BLEN bp).
Proof.
  intros Hne Hw. revert offset s Hne.
  induction Hw as [|bp nb Hb Hw IH]; intros offset s Hne Ho HA; [done|].
  rewrite blocklen_cons in *. cbn [trim_skip]. pose proof (wfb_BLEN bp Hb).
  destruct (Z.ltb_spec (BLEN bp) offset).
  - wp_steps. eapply wp_mono; [by apply (wp_freeb bp (nb ++ F))|]. intros _ s1 [HA1 Hq].
    destruct nb as [|b2 nb]; [unfold blocklen in Ho; cbn in Ho; lia|].
    eapply wp_mono; [apply IH; [done|lia|done]|].
    intros [off l] s2 (Hq2 & Hwl & HA2 & Hd & Hbl & Hex). split_and!; try done.
    + by etrans.
    + rewrite Hd, (cdata_cons bp), zdrop_app_ge; rewrite zlen_bdata by done; [done|lia].
    + lia.
  - apply wp_ret. rewrite blocklen_cons. split_and!; try done; [by constructor|].
    eexists _, _. split; [done|]. lia.
Qed.

Lemma wp_trim_keep bl len F s :
  bl <> [] -> Forall wfb bl -> 0 <= len <= blocklen bl -> acct (bl ++ F) s ->
  wp (trim_keep bl len) s (fun r s' => quiet s s' /\
    Forall wfb r /\ acct (r ++ F) s' /\ cdata r = ztake len (cdata bl)).
Proof.
  intros Hne Hw. revert len F s Hne.
  induction Hw as [|bp nb Hb Hw IH]; intros len F s Hne Hl HA; [done|].
  rewrite blocklen_cons in Hl. cbn [trim_keep]. pose proof (wfb_BLEN bp Hb).
  pose proof (zlen_bdata bp Hb).
  destruct (Z.ltb_spec (BLEN bp) len).
  - destruct nb as [|b2 nb]; [unfold blocklen in Hl; cbn in Hl; lia|].
    wp_steps. eapply wp_mono; [apply (IH _ (bp :: F)); [done|lia|]|].
    { by rewrite <- Permutation_middle. }
    intros r s1 (Hq & Hr & HA1 & Hd). wp_steps. split_and!; [done|by constructor| |].
    + by rewrite <- Permutation_middle in HA1.
    + by rewrite !cdata_cons, Hd, ztake_app_ge, zlen_bdata by (done || lia).
  - wp_steps. eapply wp_mono; [apply (wp_freeblist nb (bp :: F))|].
    { by rewrite <- Permutation_middle. }
    intros _ s1 [HA1 Hq]. wp_steps.
    replace (wpt bp - (BLEN bp - len)) with (rp bp + len) by (unfold BLEN; lia).
    split_and!; [done|apply Forall_singleton, wfb_cut; [done|lia] | |].
    + cbn [app]. eapply acct_same_ids; [| |exact HA1]; done.
    + rewrite cdata_singleton, cdata_cons, bdata_cut by (done || lia).
      by rewrite ztake_app_le by lia.
Qed.

Lemma wp_trimblock bl offset len F s :
  bl <> [] -> Forall wfb bl -> 0 <= offset -> 0 <= len -> acct (bl ++ F) s ->
  wp (trimblock bl offset len) s (fun o s' => quiet s s' /\
    match o with
    | None => blocklen bl < offset + len /\ acct F s'
    | Some r => offset + len <= blocklen bl /\ Forall wfb r /\ acct (r ++ F) s' /\
        cdata r = slice offset len (cdata bl)
    end).
Proof.
  intros Hne Hw Ho Hl HA. unfold trimblock.
  destruct (Z.ltb_spec (blocklen bl) (offset + len)).
  - wp_steps. eapply wp_mono; [by apply wp_freeblist|]. intros _ s1 [? ?]. wp_steps. done.
  - wp_steps. eapply wp_mono; [by apply wp_trim_skip; [..|lia|done]|].
    intros [off l] s1 (Hq & Hwl & HA1 & Hd & Hbl & bp & next & -> & Hoff).
    apply Forall_cons in Hwl as [Hbp Hnx]. wp_steps. rewrite blocklen_cons in Hbl.
    pose proof (zlen_bdata bp Hbp).
    eapply wp_mono; [apply (wp_trim_keep _ _ F); [done| | |]|].
    + by apply Forall_cons_2; [apply wfb_advance|].
    + rewrite blocklen_cons. unfold BLEN in *. cbn [wpt rp set_rp]. lia.
    + cbn [app]. by eapply (acct_same_ids bp).
    + intros r s2 (Hq2 & Hr & HA2 & Hd2). wp_steps. split_and!; try done; [by etrans|].
      rewrite Hd2, cdata_cons, bdata_advance_drop by done. unfold slice.
      rewrite <- Hd, cdata_cons. by rewrite zdrop_app_le by lia.
Qed.

Lemma wp_copy_loop nbp bl cnt s :
  wfb nbp -> Forall wfb bl -> 0 <= cnt -> wpt nbp + cnt <= lim nbp ->
  wp (copy_loop nbp bl cnt) s (fun r s' => s' = s /\
    grows (ztake cnt (cdata bl)) nbp (fst r) /\ snd r = Z.max 0 (cnt - blocklen bl)).
Proof.
  intros Hn Hw. revert nbp Hn cnt. induction Hw as [|bp next Hb Hw IH]; intros nbp Hn cnt Hc Hl.
  - apply wp_ret. cbn [fst snd]. unfold blocklen. cbn [fold_left].
    rewrite ztake_ge by done. split; [done|]. split; [|lia].
    unfold grows. cbn. rewrite app_nil_r, zlen_nil. split_and!; (done || lia).
  - cbn [copy_loop]. rewrite blocklen_cons. pose proof (wfb_BLEN bp Hb).
    pose proof (zlen_bdata bp Hb). pose proof (blocklen_nonneg next Hw).
    destruct (Z.gtb_spec cnt 0).
    + cbv zeta. set (l := if BLEN bp >? cnt then cnt else BLEN bp).
      assert (l = Z.min cnt (BLEN bp)) as El.
      { subst l. destruct (Z.gtb_spec (BLEN bp) cnt); lia. }
      clearbody l. wp_steps. eapply wp_mono; [apply wp_bread; [done|lia]|].
      intros d s1 [-> ->]. wp_steps.
      assert (zlen (ztake l (bdata bp)) = l) as Ez by (rewrite zlen_ztake; lia).
      eapply wp_mono; [apply wp_bappend; [done|lia]|].
      intros nb2 s1 [-> (?&Hd&?&?&?&?&Hwp&?&?)].
      eapply wp_mono; [apply IH; [done|lia|lia]|].
      intros [b r] s1 (-> & (?&Hd2&?&?&?&?&Hwp2&?&?) & Hr). cbn [fst snd] in *.
      split; [done|]. split; [|lia]. unfold grows.
      assert (ztake cnt (cdata (bp :: next)) =
              ztake l (bdata bp) ++ ztake (cnt - l) (cdata next)) as Ed.
      { rewrite cdata_cons. destruct (Z.le_gt_cases cnt (BLEN bp)).
        - rewrite ztake_app_le by lia. rewrite (ztake_le (cnt - l)) by lia.
          rewrite app_nil_r. f_equal. lia.
        - rewrite ztake_app_ge by lia. rewrite (ztake_ge l) by lia.
          do 2 f_equal. lia. }
      rewrite Ed, zlen_app, Hd2, Hd. split_and!; try (done || congruence || lia).
      by rewrite app_assoc.
    + assert (cnt = 0) as -> by lia. apply wp_ret. cbn [fst snd].
      rewrite ztake_le by lia. split; [done|]. split; [|lia].
      unfold grows. rewrite app_nil_r, zlen_nil. split_and!; (done || lia).
Qed.

(** [copyblock] from process context always succeeds; for a block of
    interrupt level it fails when the interrupt storage is exhausted. *)
Lemma wp_copyblock bl cnt F s :
  bl <> [] -> Forall wfb bl -> 0 <= cnt -> mp s <= 1000 -> acct F s ->
  wp (copyblock bl cnt) s (fun o s' => events s' = events s /\
    match o with
    | None => ialloc_limit s < ialloc_bytes s /\ acct F s' /\
        exists bp next, bl = bp :: next /\ Z.land (flag bp) BINTR <> 0
    | Some nb => quiet s s' /\ wfb nb /\ acct (nb :: F) s' /\
        bdata nb = ztake cnt (cdata bl ++ replicate (Z.to_nat cnt) 0)
    end).
Proof.
  intros Hne Hw Hc Hmp HA. destruct bl as [|bp next]; [done|].
  unfold copyblock. apply wp_bind.
  eapply (wp_mono _ _ (fun o s' => events s' = events s /\ match o with
    | None => ialloc_limit s < ialloc_bytes s /\ acct F s' /\ Z.land (flag bp) BINTR <> 0
    | Some nb => quiet s s' /\ fresh_block cnt nb /\ acct (nb :: F) s' end)).
  { destruct (Z.eqb_spec (Z.land (flag bp) BINTR) 0).
    - wp_steps. eapply wp_mono; [by apply (wp_allocb _ F)|].
      intros b s1 (?&_&?&Hq). wp_steps. split; [apply Hq|]. done.
    - eapply wp_mono; [by apply (wp_iallocb _ F)|]. intros [b|] s1 [Hq Hp]; (split; [exact Hq|]).
      + destruct Hp as (_ & ? & ? & ?). done.
      + destruct Hp. done. }
  intros [nb|] s1 [Hq Hp].
  2: { destruct Hp as (?&?&?). apply wp_ret. split_and!; try done. eauto. }
  destruct Hp as (Hqs & Hfr & HA1). pose proof Hfr as (Hwn & Hwr & Hsz & _). wp_steps.
  eapply wp_mono; [apply wp_copy_loop; [done|done|done|lia]|].
  intros [nb2 r] s2 (-> & Hg & Hr). cbn [fst snd] in *. wp_steps.
  pose proof (fresh_bdata _ _ Hfr) as Hfd.
  pose proof (zlen_cdata (bp :: next) Hw) as Ezc.
  pose proof Hg as (Hw2 & Hd & _ & _ & Hlm & Hrp & Hwp & _).
  rewrite Hfd in Hd. cbn [app] in Hd.
  eapply (wp_mono _ _ (fun nb3 s' => s' = s1 /\ wfb nb3 /\ acct (nb3 :: F) s1 /\
    bdata nb3 = ztake cnt (cdata (bp :: next) ++ replicate (Z.to_nat cnt) 0))).
  - pose proof (acct_grows _ _ _ F s1 Hg HA1) as HA2.
    rewrite zlen_ztake in Hwp. destruct (Z.gtb_spec r 0).
    + eapply wp_mono; [apply wp_bappend; [done|rewrite zlen_replicate; lia]|].
      intros nb3 s2 [-> Hg3]. pose proof Hg3 as (?&Hd3&_). split_and!; try done.
      * by eapply acct_grows.
      * rewrite Hd3, Hd, (ztake_app_ge _ (cdata (bp :: next)) (replicate _ _)) by lia.
        rewrite (ztake_ge _ (cdata _)) by lia. f_equal.
        unfold ztake. rewrite take_replicate. f_equal.
        pose proof (zlen_nonneg (cdata (bp :: next))). lia.
    + apply wp_ret. split_and!; try done. rewrite Hd.
      by rewrite (ztake_app_le _ (cdata (bp :: next)) (replicate _ _)) by lia.
  - intros nb3 s2 (-> & ? & ? & ?). wp_steps. apply wp_count. intros f. wp_steps. done.
Qed.

Lemma wp_pullblock bl cnt bytes F s :
  Forall wfb bl -> 0 <= cnt -> acct (bl ++ F) s ->
  wp (pullblock bl cnt bytes) s (fun r s' => quiet s s' /\
    Forall wfb (fst r) /\ acct (fst r ++ F) s' /\
    cdata (fst r) = zdrop cnt (cdata bl) /\ snd r = bytes + Z.min cnt (blocklen bl)).
Proof.
  intros Hw. revert cnt bytes s. induction Hw as [|bp next Hb Hw IH]; intros cnt bytes s Hc HA.
  - apply wp_ret. cbn [fst snd]. unfold blocklen. cbn [fold_left].
    split_and!; try done; [by rewrite zdrop_ge|lia].
  - cbn [pullblock]. rewrite blocklen_cons. pose proof (wfb_BLEN bp Hb).
    pose proof (zlen_bdata bp Hb). pose proof (blocklen_nonneg next Hw).
    destruct (Z.eqb_spec cnt 0) as [->|Hc0].
    { apply wp_ret. cbn [fst snd]. rewrite zdrop_le by lia.
      split_and!; try done; [by constructor|lia]. }
    cbv zeta. set (n := if cnt <? BLEN bp then cnt else BLEN bp).
    assert (n = Z.min cnt (BLEN bp)) as En.
    { subst n. destruct (Z.ltb_spec cnt (BLEN bp)); lia. }
    clearbody n. assert (BLEN (set_rp (rp bp + n) bp) = BLEN bp - n) as EB.
    { unfold BLEN. cbn. lia. }
    assert (acct (set_rp (rp bp + n) bp :: next ++ F) s) as HA1.
    { by eapply (acct_same_ids bp). }
    destruct (Z.eqb_spec (BLEN (set_rp (rp bp + n) bp)) 0).
    + wp_steps. eapply wp_mono; [by apply wp_freeb|]. intros _ s1 [HA2 Hq].
      eapply wp_mono; [apply IH; [lia|done]|].
      intros [l m] s2 (Hq2 & ? & ? & Hd & Hm). cbn [fst snd] in *.
      split_and!; try done; [by etrans| |lia].
      rewrite Hd, cdata_cons, zdrop_app_ge by lia. f_equal. lia.
    + apply wp_ret. cbn [fst snd]. split_and!; try done.
      * apply Forall_cons_2; [apply wfb_advance; [done|lia]|done].
      * rewrite !cdata_cons, bdata_advance_drop, zdrop_app_le by (done || lia).
        do 2 f_equal. lia.
      * lia.
Qed.

(** A block that is less than a quarter full is replaced by one of about its size, others are kept. *)
Definition packed (b b' : Block) : Prop :=
  if Z.shiftl (BLEN b) 2 <? BALLOC b then bdata b' = bdata b /\ snug (BLEN b) b' else b' = b.
Lemma packed_bdata b b' : packed b b' -> bdata b' = bdata b.
Proof. unfold packed. destruct (_ <? _); [by intros [? _]|by intros ->]. Qed.
Lemma packed_all bl r : Forall2 packed bl r -> bdata <$> r = bdata <$> bl.
Proof. induction 1 as [|b b' bl r H _ IH]; [done|]. by rewrite !fmap_cons, (packed_bdata _ _ H), IH. Qed.
Lemma wp_packblock bl F s :
  Forall wfb bl -> acct (bl ++ F) s ->
  wp (packblock bl) s (fun r s' => quiet s s' /\ Forall wfb r /\ acct (r ++ F) s' /\ Forall2 packed bl r).
Proof.
  intros Hw. revert F s. induction Hw as [|bp next Hb Hw IH]; intros F s HA.
  - by apply wp_ret.
  - cbn [packblock]. cbv zeta. pose proof (wfb_BLEN bp Hb). pose proof (zlen_bdata bp Hb).
    apply wp_bind. eapply (wp_mono _ _ (fun b s' => quiet s s' /\ wfb b /\
      packed bp b /\ acct (b :: next ++ F) s')).
    { unfold packed. destruct (Z.ltb_spec (Z.shiftl (BLEN bp) 2) (BALLOC bp)); [|by apply wp_ret].
      wp_steps. eapply wp_mono; [apply (wp_allocb_snug _ (bp :: next ++ F)); [done|done]|].
      intros nb s1 (Hsn & Hfr & _ & HA1 & Hq). wp_steps.
      eapply wp_mono; [by apply wp_bread_all|]. intros d s2 [-> ->]. wp_steps.
      pose proof Hfr as (? & ? & ? & _).
      eapply wp_mono; [apply wp_bappend; [done|lia]|]. intros nb2 s2 [-> Hg]. wp_steps.
      pose proof Hg as (? & Hd & _ & _ & Hlm & _). rewrite (fresh_bdata _ _ Hfr) in Hd.
      eapply wp_mono; [apply (wp_freeb bp (nb2 :: next ++ F))|].
      { rewrite Permutation_swap. by eapply acct_grows. }
      intros _ s2 [HA2 Hq2]. wp_steps. split_and!; try done; [by etrans|]. unfold snug, BALLOC in *. lia. }
    intros b s1 (Hq & Hwb & Hd & HA1). wp_steps.
    eapply wp_mono; [apply (IH (b :: F))|].
    { by rewrite <- Permutation_middle. }
    intros r s2 (Hq2 & Hr & HA2 & Hdr). wp_steps. split_and!; [by etrans|by constructor| |].
    + by rewrite <- Permutation_middle in HA2.
    + by constructor.
Qed.

Lemma wp_bl2mem bl n F s :
  Forall wfb bl -> 0 <= n -> acct (bl ++ F) s ->
  wp (bl2mem bl n) s (fun r s' => quiet s s' /\ Forall wfb (snd r) /\
    acct (snd r ++ F) s' /\ fst r = ztake n (cdata bl) /\
    cdata (snd r) = zdrop n (cdata bl) /\ blocklen (snd r) = Z.max 0 (blocklen bl - n) /\
    (snd r = [] \/ 0 < blocklen (snd r)) /\ (length (snd r) <= length bl)%nat).
Proof.
  intros Hw. revert n s. induction Hw as [|b next Hb Hw IH]; intros n s Hn HA.
  - apply wp_ret. cbn [fst snd]. unfold blocklen. cbn [fold_left].
    split_and!; try done; [by rewrite ztake_ge|by rewrite zdrop_ge|lia|by left].
  - cbn [bl2mem]. cbv zeta. rewrite !blocklen_cons. pose proof (wfb_BLEN b Hb).
    pose proof (zlen_bdata b Hb). pose proof (blocklen_nonneg next Hw).
    rewrite cdata_cons. destruct (Z.gtb_spec (BLEN b) n).
    + wp_steps. eapply wp_mono; [apply wp_bread; [done|lia]|]. intros d s1 [-> ->].
      wp_steps. cbn [fst snd]. split_and!; try done.
      * apply Forall_cons_2; [apply wfb_advance; [done|lia]|done].
      * by rewrite ztake_app_le by lia.
      * by rewrite cdata_cons, bdata_advance_drop, zdrop_app_le by (done || lia).
      * rewrite blocklen_cons. unfold BLEN in *. cbn. lia.
      * right. rewrite blocklen_cons. unfold BLEN in *. cbn. lia.
    + wp_steps. eapply wp_mono; [by apply wp_bread_all|]. intros d s1 [-> ->]. wp_steps.
      eapply wp_mono; [by apply (wp_freeb b (next ++ F))|]. intros _ s1 [HA1 Hq]. wp_steps.
      eapply wp_mono; [apply IH; [lia|done]|].
      intros [ds r] s2 (Hq2 & ? & ? & Hd & Hr & Hbl & Hz & Hlen). cbn [fst snd] in *. wp_steps.
      cbn [fst snd]. split_and!; try done; [by etrans| | |lia|cbn; lia].
      * rewrite Hd, ztake_app_ge by lia. do 2 f_equal. lia.
      * rewrite Hr, zdrop_app_ge by lia. f_equal. lia.
Qed.

Lemma wp_mem2bl_loop fuel p F s :
  (length p < fuel)%nat -> acct F s ->
  wp (mem2bl_loop fuel p) s (fun bl s' => quiet s s' /\ Forall wfb bl /\
    acct (bl ++ F) s' /\ cdata bl = p /\ bl <> [] /\ Forall (fun b => BLEN b <= Maxatomic) bl).
Proof.
  revert p F s. induction fuel as [|fuel IH]; intros p F s Hf HA; [lia|].
  cbn [mem2bl_loop]. cbv zeta. pose proof (zlen_nonneg p).
  set (n := if zlen p >? Maxatomic then Maxatomic else zlen p).
  assert (n = Z.min Maxatomic (zlen p)) as En.
  { subst n. destruct (Z.gtb_spec (zlen p) Maxatomic); lia. }
  clearbody n. assert (0 < Maxatomic) by done.
  wp_steps. eapply wp_mono; [apply (wp_allocb n F); [lia|done]|].
  intros b s1 (Hfr & _ & HA1 & Hq). pose proof Hfr as (? & ? & ? & _). wp_steps.
  assert (zlen (ztake n p) = n) as Ez by (rewrite zlen_ztake; lia).
  eapply wp_mono; [apply wp_bappend; [done|lia]|]. intros b2 s2 [-> Hg].
  pose proof Hg as (Hw2 & Hd & _ & _ & _ & Hrp & Hwp & _).
  rewrite (fresh_bdata _ _ Hfr) in Hd. cbn [app] in Hd.
  pose proof (acct_grows _ _ _ F s1 Hg HA1) as HA2.
  assert (BLEN b2 <= Maxatomic) as HB by (unfold BLEN; lia).
  rewrite zlen_zdrop. destruct (Z.gtb_spec (Z.max 0 (zlen p - Z.max 0 n)) 0).
  - wp_steps. eapply wp_mono; [apply (IH _ (b2 :: F)); [|done]|].
    { unfold zdrop, zlen in *. rewrite length_drop. lia. }
    intros r s2 (Hq2 & Hr & HA3 & Hdr & _ & Hm). wp_steps. split_and!.
    + by etrans.
    + by constructor.
    + by rewrite <- Permutation_middle in HA3.
    + by rewrite cdata_cons, Hd, Hdr, ztake_zdrop.
    + done.
    + by constructor.
  - apply wp_ret. split_and!; try done; [by apply Forall_singleton| |by apply Forall_singleton].
    rewrite cdata_singleton, Hd. apply ztake_ge. lia.
Qed.
Lemma wp_mem2bl p F s :
  acct F s ->
  wp (mem2bl p) s (fun bl s' => quiet s s' /\ Forall wfb bl /\
    acct (bl ++ F) s' /\ cdata bl = p /\ bl <> [] /\ Forall (fun b => BLEN b <= Maxatomic) bl).
Proof. intros HA. apply wp_mem2bl_loop; [lia|done]. Qed.

(** Copying a block into a fresh one of [size] extra bytes: the common part
    of both directions of [padblock]. *)
Lemma wp_recopy nbp bp extra F s :
  wfb bp -> 0 <= extra -> fresh_block (extra + BLEN bp) nbp -> acct (nbp :: bp :: F) s ->
  wp (d <- bread bp (rp bp) (BLEN bp) ;; nbp <- bappend (set_wp (rp nbp + extra) (set_rp (rp nbp + extra) nbp)) d ;;
      freeb bp ;; ret nbp) s (fun nb s' => quiet s s' /\ wfb nb /\ bdata nb = bdata bp /\
        rp nb = rp nbp + extra /\ lim nb = lim nbp /\ BLEN nb = BLEN bp /\ acct (nb :: F) s').
Proof.
  intros Hb He Hfr HA. pose proof Hfr as (Hwn & Hwr & Hsz & Hh & _).
  pose proof (wfb_BLEN bp Hb). pose proof (zlen_bdata bp Hb). unfold Hdrspc in Hh.
  wp_steps. eapply wp_mono; [by apply wp_bread_all|]. intros d s1 [-> ->]. wp_steps.
  set (nb0 := set_wp _ _).
  assert (wfb nb0) as Hw0 by (unfold nb0, wfb, lim in *; cbn; lia).
  eapply wp_mono; [apply wp_bappend; [done|unfold nb0, lim in *; cbn; lia]|].
  intros nb s1 [-> Hg]. pose proof Hg as (? & Hd & _ & _ & Hlm & Hrp & Hwp & _). wp_steps.
  assert (bdata nb0 = []) as Hd0.
  { unfold bdata, BLEN, nb0. cbn. apply slice_nil. lia. }
  eapply wp_mono; [apply (wp_freeb bp (nb :: F))|].
  { rewrite Permutation_swap. eapply acct_grows; [exact Hg|].
    eapply acct_same_ids; [| |exact HA]; done. }
  intros _ s2 [HA2 Hq]. wp_steps. rewrite Hd, Hd0.
  split_and!; try done. unfold BLEN in *. rewrite Hwp, Hrp. unfold nb0. cbn. lia.
Qed.

(** [padblock] with a non-negative size prepends that many (unspecified)
    bytes; with a negative one it leaves the data alone and guarantees
    room after it. *)
Lemma wp_padblock bp next size F s :
  Forall wfb (bp :: next) -> acct (bp :: next ++ F) s ->
  (next = [] \/ 0 <= size <= rp bp) ->
  wp (padblock (bp :: next) size) s (fun r s' => quiet s s' /\ Forall wfb r /\
    acct (r ++ F) s' /\ exists nb, r = nb :: next /\
    BLEN nb = BLEN bp + Z.max 0 size /\ zdrop (Z.max 0 size) (bdata nb) = bdata bp /\
    (size < 0 -> - size <= lim nb - wpt nb)).
Proof.
  intros Hw HA Hpre. apply Forall_cons in Hw as [Hb Hn].
  pose proof (wfb_BLEN bp Hb). unfold padblock.
  destruct (Z.leb_spec 0 size) as [Hs|Hs].
  - replace (Z.max 0 size) with size by lia. destruct (Z.geb_spec (rp bp) size) as [Hr|Hr].
    + apply wp_ret. set (nb := set_rp (rp bp - size) bp).
      assert (wfb nb) as Hwnb by (unfold nb, wfb, lim in *; cbn; lia).
      assert (bp = set_rp (rp nb + size) nb) as Ebp.
      { unfold nb, set_rp. cbn. replace (rp bp - size + size) with (rp bp) by lia. by destruct bp. }
      split_and!; [done|by constructor|by apply (acct_same_ids bp)|].
      exists nb. split; [done|]. split; [unfold nb, BLEN; cbn; lia|]. split; [|lia].
      rewrite Ebp. symmetry. apply bdata_advance_drop; [done|].
      unfold nb, BLEN in *. cbn. lia.
    + destruct next as [|]; [|destruct Hpre; [done|lia]]. cbv zeta. wp_steps. apply wp_count.
      intros f. wp_steps.
      eapply wp_mono; [apply (wp_allocb _ (bp :: F)); [lia|exact HA]|].
      intros nbp s1 (Hfr & _ & HA1 & Hq). change (rp (set_rp (rp nbp + size) nbp)) with (rp nbp + size).
      pose proof (wp_recopy nbp bp size F s1 Hb Hs Hfr HA1) as Hc.
      apply wp_exists in Hc as (nb & s2 & Ec & Hq2 & Hwnb & Hd & Hrp & Hlm & HB & HA2).
      revert Ec. unfold wp, bind, ret.
      destruct (bread bp (rp bp) (BLEN bp) s1); [|done..].
      destruct (bappend _ _ _); [|done..]. destruct (freeb bp _); [|done..].
      intros [= -> ->]. pose proof Hfr as (_ & _ & _ & Hh & _).
      set (nb2 := set_rp (rp nb - size) nb).
      assert (wfb nb2) as Hw2.
      { unfold nb2, wfb, lim in *. cbn. unfold Hdrspc in Hh. lia. }
      assert (nb = set_rp (rp nb2 + size) nb2) as Enb.
      { unfold nb2, set_rp. cbn. replace (rp nb - size + size) with (rp nb) by lia. by destruct nb. }
      split_and!; [by etrans|by apply Forall_singleton|by apply (acct_same_ids nb)|].
      exists nb2. split; [done|]. split; [unfold nb2, BLEN in *; cbn; lia|]. split; [|lia].
      rewrite <- Hd, Enb. symmetry. apply bdata_advance_drop; [done|].
      unfold nb2, BLEN in *. cbn. lia.
  - destruct next as [|]; [|destruct Hpre; [done|lia]]. cbv zeta.
    replace (Z.max 0 size) with 0 by lia. rewrite Z.add_0_r.
    destruct (Z.geb_spec (lim bp - wpt bp) (- size)).
    + apply wp_ret. split_and!; [done|by apply Forall_singleton|done|].
      exists bp. rewrite zdrop_le by lia. auto.
    + wp_steps. apply wp_count. intros f. wp_steps.
      eapply wp_mono; [apply (wp_allocb _ (bp :: F)); [lia|exact HA]|].
      intros nbp s1 (Hfr & _ & HA1 & Hq).
      assert (fresh_block (0 + BLEN bp) nbp) as Hfr2.
      { destruct Hfr as (?&?&?&?&?). split_and!; try done. lia. }
      assert (set_wp (rp nbp + 0) (set_rp (rp nbp + 0) nbp) = nbp) as En.
      { destruct Hfr as (?&E&_). rewrite Z.add_0_r. destruct nbp. cbn in *. by subst. }
      pose proof (wp_recopy nbp bp 0 F s1 Hb ltac:(lia) Hfr2 HA1) as Hc. rewrite En in Hc.
      apply wp_exists in Hc as (nb & s2 & Ec & Hq2 & Hwnb & Hd & Hrp & Hlm & HB & HA2).
      revert Ec. unfold wp, bind, ret.
      destruct (bread bp (rp bp) (BLEN bp) s1); [|done..].
      destruct (bappend _ _ _); [|done..]. destruct (freeb bp _); [|done..].
      intros [= -> ->]. pose proof Hfr as (_ & _ & Hsz & _ & _).
      split_and!; [by etrans|by apply Forall_singleton|done|].
      exists nb. rewrite zdrop_le by lia. split_and!; try done.
      intros _. unfold BLEN in *. lia.
Qed.

Lemma wp_adjustblock bp next len F s :
  Forall wfb (bp :: next) -> 0 <= len -> mp s <= 1000 -> acct (bp :: next ++ F) s ->
  wp (adjustblock (bp :: next) len) s (fun o s' =>
    match o with
    | None => ialloc_limit s < ialloc_bytes s /\ Z.land (flag bp) BINTR <> 0 /\ acct F s'
    | Some r => quiet s s' /\ Forall wfb r /\ acct (r ++ F) s' /\
        (if rp bp + len >? lim bp
         then exists nb, r = [nb] /\
           bdata nb = ztake len (cdata (bp :: next) ++ replicate (Z.to_nat len) 0)
         else exists nb, r = nb :: next /\
           bdata nb = ztake len (bdata bp ++ replicate (Z.to_nat len) 0))
    end).
Proof.
  intros Hw Hl Hmp HA. pose proof Hw as Hw'. apply Forall_cons in Hw' as [Hb Hn].
  pose proof (wfb_BLEN bp Hb). pose proof (zlen_bdata bp Hb). pose proof Hb as (?&?).
  unfold adjustblock. destruct (Z.ltb_spec len 0); [lia|].
  destruct (Z.gtb_spec (rp bp + len) (lim bp)) as [Hgt|Hle].
  - wp_steps. eapply wp_mono; [by apply (wp_copyblock _ _ ((bp :: next) ++ F))|].
    intros o s1 [Hq Hp]. wp_steps.
    destruct o as [nb|].
    + destruct Hp as (Hqs & Hwnb & HA1 & Hd).
      eapply wp_mono; [apply (wp_freeblist (bp :: next) (nb :: F))|].
      { by rewrite <- Permutation_middle. }
      intros _ s2 [HA2 Hq2]. wp_steps. cbn [option_map].
      split_and!; [by etrans|by apply Forall_singleton|done|]. eauto.
    + destruct Hp as (? & HA1 & ? & ? & [= <- <-] & ?).
      eapply wp_mono; [by apply (wp_freeblist (bp :: next) F)|].
      intros _ s2 [HA2 Hq2]. wp_steps. split_and!; done.
  - apply wp_bind. set (n := BLEN bp) in *.
    destruct (Z.gtb_spec len n).
    + eapply wp_mono; [apply wp_bwrite; [done|rewrite zlen_replicate; unfold n, BLEN in *; lia]|].
      intros b' s1 [-> ->]. wp_steps.
      pose proof (grows_bwrite bp (replicate (Z.to_nat (len - n)) 0) Hb) as Hg.
      rewrite zlen_replicate in Hg. specialize (Hg ltac:(unfold n, BLEN in *; lia)).
      replace (wpt bp + Z.of_nat (Z.to_nat (len - n))) with (rp bp + len) in Hg
        by (unfold n, BLEN in *; lia).
      pose proof Hg as (Hw2 & Hd & _). cbn [rp set_buf].
      split_and!; [done|by apply Forall_cons_2|by eapply (acct_grows _ bp)|].
      eexists. split; [done|]. rewrite Hd, ztake_app_ge by lia. f_equal.
      unfold ztake. rewrite take_replicate. f_equal. lia.
    + wp_steps. split_and!; [done| |by apply (acct_same_ids bp)|].
      * apply Forall_cons_2; [apply wfb_cut; [done|lia]|done].
      * eexists. split; [done|]. rewrite bdata_cut by (done || lia).
        by rewrite ztake_app_le by lia.
Qed.
End BlockSpec.

Arguments cdata : simpl never.
Arguments blocklen : simpl never.
Arguments blockalloclen : simpl never.

(** ** The abstract view: a chain is a byte string *)

Inductive ChainOp : Type :=
  | OpConcat | OpPad (size : Z) | OpPullup (n : Z) | OpTrim (offset len : Z)
  | OpAdjust (len : Z) | OpPull (n : Z) | OpPack.

Section ChainOps.
Context `{MA : Malloc}.

(** Run the routine; [None] is the nil a routine returns. *)
Definition run_op (o : ChainOp) (bl : list Block) : M Bst (option (list Block)) :=
  match o with
  | OpConcat => r <- concatblock bl ;; ret (Some r)
  | OpPad size => r <- padblock bl size ;; ret (Some r)
  | OpPullup n => pullupblock bl n
  | OpTrim off len => trimblock bl off len
  | OpAdjust len => adjustblock bl len
  | OpPull n => r <- pullblock bl n 0 ;; ret (Some (fst r))
  | OpPack => r <- packblock bl ;; ret (Some r)
  end.

(** What each routine does to the bytes of the chain. *)
Definition op_spec (o : ChainOp) (d : list Z) (r : option (list Z)) : Prop :=
  match o with
  | OpConcat | OpPack => r = Some d
  | OpPad size => exists pre, zlen pre = Z.max 0 size /\ r = Some (pre ++ d)
  | OpPullup n => r = if n <=? zlen d then Some d else None
  | OpTrim off len => r = if off + len <=? zlen d then Some (slice off len d) else None
  | OpAdjust len => r = Some (ztake len (d ++ replicate (Z.to_nat len) 0))
  | OpPull n => r = Some (zdrop n d)
  end.

(** What each routine is called for, of the chain it returns: [concatblock] makes one block, [padblock] opens the room in
    the first, [pullupblock] brings the first [n] bytes together, [adjustblock] gives one block, [packblock] gives
    storage that is mostly empty back. *)
Definition op_shape (o : ChainOp) (bl : list Block) (r : option (list Block)) : Prop :=
  match o with
  | OpConcat | OpAdjust _ => exists b, r = Some [b]
  | OpPad size => exists b nb next, bl = b :: next /\ r = Some (nb :: next) /\ BLEN nb = BLEN b + Z.max 0 size
  | OpPullup n => forall r', r = Some r' -> exists b next, r' = b :: next /\ n <= BLEN b
  | OpPack => exists r', r = Some r' /\ Forall2 packed bl r'
  | OpTrim _ _ | OpPull _ => True
  end.

(** The callers' obligations: sizes are not negative, a chain is not nil,
    only a single block is padded beyond its headroom, and [adjustblock] is
    given one block, from process level. *)
Definition op_pre (o : ChainOp) (bl : list Block) : Prop :=
  match o with
  | OpConcat => bl <> []
  | OpPack => True
  | OpPad size => exists b next, bl = b :: next /\ (next = [] \/ 0 <= size <= rp b)
  | OpPullup n => bl <> [] /\ 0 <= n
  | OpTrim off len => bl <> [] /\ 0 <= off /\ 0 <= len
  | OpAdjust len => exists b, bl = [b] /\ 0 <= len /\ Z.land (flag b) BINTR = 0
  | OpPull n => 0 <= n
  end.
End ChainOps.

(** An allocator that satisfies the class: pages that never run out, with
    bytes left over from earlier use. *)
#[export] Instance demo_malloc : Malloc :=
  { malloc_addr i _ := Some (4096 * Z.of_nat (S i)); malloc_junk _ j := Z.of_nat j mod 256 }.
#[export] Instance demo_malloc_ok : MallocOk demo_malloc.
Proof. split. intros i n. eexists. split; [done|lia]. Qed.

Definition bst0 : Bst :=
  mkBst 0 [] 0 1000000 0 0 false (replicate (S DEBUGALLOC) (0, 0)) (fun _ => 0) [].

Section BlockProps.
Context `{MA : Malloc, MO : !MallocOk MA}.

Lemma cdata_of_bdata_eq r bl : bdata <$> r = bdata <$> bl -> cdata r = cdata bl.
Proof. unfold cdata. by intros ->. Qed.


(** [allocb] always delivers: the block is empty, has the requested
    room after [rp] and at least [Hdrspc] = 64 bytes before it for headers,
    and is a new block; none of [_allocb]'s panics is reachable. *)
Theorem allocb_delivers (size : Z) (F : list Block) (s : Bst) :
  0 <= size -> acct F s ->
  wp (allocb size) s (fun b s' => bdata b = [] /\ size <= lim b - wpt b /\ 64 <= rp b /\
    wfb b /\ acct (b :: F) s' /\ bid b ∉ ids F).
Proof.
  intros Hs HF. eapply wp_mono; [by apply (wp_allocb size F)|].
  intros b s' (Hfr & _ & HA & _). pose proof Hfr as (? & ? & ? & ? & _).
  unfold Hdrspc in *. split_and!; try (done || lia).
  - by eapply fresh_bdata.
  - destruct HA as [Hp _]. unfold ids in *. rewrite fmap_cons in Hp.
    assert (NoDup ((bid b :: (bid <$> F)) ++ freed s')) as Hnd.
    { rewrite Hp. apply NoDup_ListNoDup, List.seq_NoDup. }
    apply NoDup_app in Hnd as [Hnd _]. by apply NoDup_cons in Hnd as [? _].
Qed.

(** [mem2bl] and [bl2mem] are inverse: copying a buffer into a chain
    and the chain back out gives the buffer, and leaves no block in use. *)
Theorem mem2bl_bl2mem_roundtrip (p : list Z) (F : list Block) (s : Bst) :
  acct F s ->
  wp (bl <- mem2bl p ;; bl2mem bl (zlen p)) s (fun r s' => fst r = p /\ cdata (snd r) = [] /\
    acct (snd r ++ F) s' /\ Forall (fun b => BLEN b = 0) (snd r)).
Proof.
  intros HA. wp_steps. eapply wp_mono; [by apply (wp_mem2bl p F)|].
  intros bl s1 (_ & Hw & HA1 & Hd & _). pose proof (zlen_cdata bl Hw) as Ez.
  rewrite Hd in Ez. pose proof (zlen_nonneg p).
  eapply wp_mono; [by apply (wp_bl2mem bl (zlen p) F)|].
  intros [q r] s2 (_ & Hwr & ? & Hq & Hr & Hl & _). cbn [fst snd] in *. rewrite Hd in *.
  split_and!; try done.
  - rewrite Hq. by apply ztake_ge.
  - rewrite Hr. by apply zdrop_ge.
  - assert (blocklen r = 0) as E by lia. clear -Hwr E. induction Hwr as [|b r Hb Hr IH]; [done|].
    rewrite blocklen_cons in E. pose proof (wfb_BLEN b Hb). pose proof (blocklen_nonneg r Hr).
    constructor; [lia|apply IH; lia].
Qed.
End BlockProps.

(** *** Witnesses: the theorems at concrete chains *)

Definition demo_block (i : nat) (d : list Z) : Block :=
  mkBlock i (replicate 64 7 ++ d ++ replicate 10 9) 64 (64 + zlen d) 0 false 0.
Definition bst2 : Bst := with_id 2 bst0.


Lemma allocb_delivers_witness :
  wp (allocb 100) bst0 (fun b s' => bdata b = [] /\ 100 <= lim b - wpt b).
Proof.
  eapply wp_mono; [apply (allocb_delivers 100 [] bst0); [lia|split; reflexivity]|].
  intros b s' (? & ? & _). auto.
Defined.

Lemma mem2bl_bl2mem_roundtrip_witness :
  wp (bl <- mem2bl [1; 2; 3] ;; bl2mem bl (zlen [1; 2; 3])) bst0 (fun r s' => fst r = [1; 2; 3]).
Proof.
  eapply wp_mono; [apply (mem2bl_bl2mem_roundtrip [1; 2; 3] [] bst0); split; reflexivity|].
  intros r s' (? & _). auto.
Defined.
