(* ===== verification/Qio.v ===== *)
(** * I/O queues: port/qio.c

    A [Queue] is a chain of blocks with a byte count, a limit and flow-control
    state.  [blast] is the pointer to the block that [q->blast->next = b]
    writes through; the model keeps the identity of that block and performs
    the write on the chain, so that a stale [blast] would lose blocks here as
    it does in C.  A routine runs on the queue and the allocator state
    together.  Where a process would sleep the routine ends with [None]: the
    lock is released, the state it leaves is the one others see, and it starts
    its loop again when woken.  [rlock] and [wlock] serialise readers and
    writers and are not part of the state. *)

From stdpp Require Import base list strings sorting sets gmap.
From Stdlib Require Import ZArith Lia.
From S2P Require Import Prelude Block.
Open Scope nix_scope.

(** Queue state bits (portdat.h). *)
Definition Qstarve : Z := 1.
Definition Qmsg : Z := 2.
Definition Qclosed : Z := 4.
Definition Qflow : Z := 8.
Definition Qcoalesce : Z := 16.
Definition Qkick : Z := 32.

Definition Ehungup : string := "i/o on hungup channel".
Definition ERRMAX : nat := 128.

Record Queue := mkQueue {
  bfirst : list Block;
  blast : option nat;
  len : Z;            (* bytes allocated to queue *)
  dlen : Z;           (* data bytes in queue *)
  limit : Z;
  inilim : Z;
  state : Z;
  noblock : bool;
  eof : Z;
  kick : bool;        (* a kick routine is set *)
  bypass : bool;      (* a bypass routine is set *)
  err : string
}.

Definition set_bfirst x q := mkQueue x (blast q) (len q) (dlen q) (limit q) (inilim q)
  (state q) (noblock q) (eof q) (kick q) (bypass q) (err q).
Definition set_blast x q := mkQueue (bfirst q) x (len q) (dlen q) (limit q) (inilim q)
  (state q) (noblock q) (eof q) (kick q) (bypass q) (err q).
Definition set_lens x y q := mkQueue (bfirst q) (blast q) x y (limit q) (inilim q)
  (state q) (noblock q) (eof q) (kick q) (bypass q) (err q).
Definition set_limit x q := mkQueue (bfirst q) (blast q) (len q) (dlen q) x (inilim q)
  (state q) (noblock q) (eof q) (kick q) (bypass q) (err q).
Definition set_state x q := mkQueue (bfirst q) (blast q) (len q) (dlen q) (limit q) (inilim q)
  x (noblock q) (eof q) (kick q) (bypass q) (err q).
Definition set_noblock x q := mkQueue (bfirst q) (blast q) (len q) (dlen q) (limit q) (inilim q)
  (state q) x (eof q) (kick q) (bypass q) (err q).
Definition set_eof x q := mkQueue (bfirst q) (blast q) (len q) (dlen q) (limit q) (inilim q)
  (state q) (noblock q) x (kick q) (bypass q) (err q).
Definition set_err x q := mkQueue (bfirst q) (blast q) (len q) (dlen q) (limit q) (inilim q)
  (state q) (noblock q) (eof q) (kick q) (bypass q) x.

Definition has (bit : Z) (q : Queue) : bool := negb (Z.land (state q) bit =? 0).
Definition raise_bit (bit : Z) (q : Queue) : Queue := set_state (Z.lor (state q) bit) q.
Definition clear_bit (bit : Z) (q : Queue) : Queue :=
  set_state (Z.land (state q) (Z.lnot bit)) q.

Definition Qst : Type := Queue * Bst.
Definition lift {A} (m : M Bst A) : M Qst A := fun '(q, s) =>
  match m s with
  | Ret a s' => Ret a (q, s')
  | Error e s' => Error e (q, s')
  | Panic msg => Panic msg
  | Undef msg => Undef msg
  end.
Definition getq : M Qst Queue := gets fst.
Definition setq (f : Queue -> Queue) : M Qst () := modify (fun '(q, s) => (f q, s)).
Definition emitq (e : Event) : M Qst () := lift (emit e).

(** [q->blast->next = bl]: the node [l] now points to [bl]. *)
Fixpoint link_at (l : nat) (bl chain : list Block) : list Block :=
  match chain with
  | [] => []
  | x :: r => if (bid x =? l)%nat then x :: bl else x :: link_at l bl r
  end.

(** [if(q->bfirst) q->blast->next = b; else q->bfirst = b;] *)
Definition qlink (bl : list Block) : M Qst () :=
  q <- getq ;;
  match bfirst q, blast q with
  | [], _ => setq (set_bfirst bl)
  | _, Some l => setq (set_bfirst (link_at l bl (bfirst q)))
  | _, None => undef "blast is nil"
  end.

(** [while(b->next) b = b->next; q->blast = b]. *)
Definition set_last (bl : list Block) : M Qst () :=
  match last bl with
  | None => undef "nil block"
  | Some b => setq (set_blast (Some (bid b)))
  end.

(** [if(q->state & Qstarve){ q->state &= ~Qstarve; dowakeup = 1; }] *)
Definition unstarve : M Qst bool :=
  q <- getq ;;
  if has Qstarve q then setq (clear_bit Qstarve) ;; ret true else ret false.
(** [if((q->state & Qflow) && q->len < q->limit/2){ q->state &= ~Qflow; ... }] *)
Definition unflow : M Qst bool :=
  q <- getq ;;
  if has Qflow q && (len q <? Z.quot (limit q) 2)
  then setq (clear_bit Qflow) ;; ret true else ret false.
Definition wakeup_if (d : bool) (e : Event) : M Qst () :=
  if d then emitq e else ret tt.

Section Qio.
Context `{MA : Malloc}.

Definition qget : M Qst (option Block) :=
  q <- getq ;;
  match bfirst q with
  | [] => setq (raise_bit Qstarve) ;; ret None
  | b :: next =>
      setq (fun q => set_lens (len q - BALLOC b) (dlen q - BLEN b) (set_bfirst next q)) ;;
      d <- unflow ;;
      wakeup_if d Wakeup_wr ;;
      ret (Some b)
  end.

Fixpoint qdiscard_loop (bl : list Block) (n sofar : Z) : M Qst Z :=
  if sofar <? n then
    match bl with
    | [] => ret sofar
    | b :: next =>
        let k := BLEN b in
        if k <=? n - sofar then
          setq (fun q => set_lens (len q - BALLOC b) (dlen q - BLEN b) (set_bfirst next q)) ;;
          lift (freeb b) ;;
          qdiscard_loop next n (sofar + k)
        else
          let k := n - sofar in
          setq (fun q => set_lens (len q) (dlen q - k)
                           (set_bfirst (set_rp (rp b + k) b :: next) q)) ;;
          ret (sofar + k)
    end
  else ret sofar.

Definition qdiscard (n : Z) : M Qst Z :=
  q <- getq ;;
  sofar <- qdiscard_loop (bfirst q) n 0 ;;
  d <- unflow ;;
  wakeup_if d Wakeup_wr ;;
  ret sofar.

(** The first loop of [qconsume]: unlink the empty blocks at the front and
    put them on [tofree]. *)
Fixpoint qconsume_skip (bl tofree : list Block) : M Qst (option Block * list Block) :=
  match bl with
  | [] => setq (raise_bit Qstarve) ;; ret (None, tofree)
  | b :: next =>
      if BLEN b >? 0 then ret (Some b, tofree)
      else
        setq (fun q => set_lens (len q - BALLOC b) (dlen q) (set_bfirst next q)) ;;
        qconsume_skip next (b :: tofree)
  end.

(** The bytes copied out, and the value returned. *)
Definition qconsume (n0 : Z) : M Qst (list Z * Z) :=
  q <- getq ;;
  let* (o, tofree) := qconsume_skip (bfirst q) [] in
  match o with
  | None => ret ([], -1)
  | Some b =>
      let n := BLEN b in
      let l := if n <? n0 then n else n0 in
      d <- lift (bread b (rp b) l) ;;
      lift (count consumecnt n) ;;
      let b := set_rp (rp b + l) b in
      setq (fun q => set_lens (len q) (dlen q - l)
                       (set_bfirst (b :: drop 1 (bfirst q)) q)) ;;
      q <- getq ;;
      tofree <- (if has Qmsg q || (l =? n) then
                   setq (fun q => set_lens (len q - BALLOC b) (dlen q - BLEN b)
                                    (set_bfirst (drop 1 (bfirst q)) q)) ;;
                   ret (b :: tofree)
                 else ret tofree) ;;
      dw <- unflow ;;
      wakeup_if dw Wakeup_wr ;;
      lift (freeblist tofree) ;;
      ret (d, l)
  end.

(** The part [qpass] and [qpassnolim] share: queue the chain and account
    for all its blocks. *)
Definition qpass_add (bl : list Block) : M Qst Z :=
  qlink bl ;;
  set_last bl ;;
  let l := blockalloclen bl in
  setq (fun q => set_lens (len q + l) (dlen q + blocklen bl) q) ;;
  q <- getq ;;
  (if len q >=? Z.quot (limit q) 2 then setq (raise_bit Qflow) else ret tt) ;;
  d <- unstarve ;;
  wakeup_if d Wakeup_rr ;;
  ret l.

Definition qpass (bl : list Block) : M Qst Z :=
  q <- getq ;;
  if len q >=? limit q then lift (freeblist bl) ;; ret (-1)
  else if has Qclosed q then
    match bl with
    | [] => undef "qpass: nil"
    | b :: _ => lift (freeblist bl) ;; ret (BALLOC b)
    end
  else qpass_add bl.

Definition qpassnolim (bl : list Block) : M Qst Z :=
  q <- getq ;;
  if has Qclosed q then
    match bl with
    | [] => undef "qpassnolim: nil"
    | b :: _ => lift (freeblist bl) ;; ret (BALLOC b)
    end
  else qpass_add bl.

Definition qproduce (p : list Z) : M Qst Z :=
  q <- getq ;;
  if len q >=? limit q then setq (raise_bit Qflow) ;; ret (-1)
  else
    o <- lift (iallocb (zlen p)) ;;
    match o with
    | None => ret 0
    | Some b =>
        b <- lift (bappend b p) ;;
        lift (count producecnt (zlen p)) ;;
        qlink [b] ;;
        setq (set_blast (Some (bid b))) ;;
        setq (fun q => set_lens (len q + BALLOC b) (dlen q + BLEN b) q) ;;
        d <- unstarve ;;
        q <- getq ;;
        (if len q >=? limit q then setq (raise_bit Qflow) else ret tt) ;;
        wakeup_if d Wakeup_rr ;;
        ret (zlen p)
    end.

(** [qcopy]'s walk to the offset: the block it falls in, the number of bytes
    of that block before it, and the rest of the chain. *)
Fixpoint qcopy_seek (bl : list Block) (offset sofar : Z) : option (Block * Z * list Block) :=
  match bl with
  | [] => None
  | b :: next =>
      if sofar + BLEN b >? offset then Some (b, offset - sofar, next)
      else qcopy_seek next offset (sofar + BLEN b)
  end.
(** The copy loop: [n] bytes at [p] in [b], then the following blocks. *)
Fixpoint qcopy_loop (nb b : Block) (p n : Z) (next : list Block) (l sofar : Z) : M Qst Block :=
  if sofar <? l then
    let n := if n >? l - sofar then l - sofar else n in
    d <- lift (bread b p n) ;;
    nb <- lift (bappend nb d) ;;
    lift (count qcopycnt n) ;;
    match next with
    | [] => ret nb
    | b' :: next' => qcopy_loop nb b' (rp b') (BLEN b') next' l (sofar + n)
    end
  else ret nb.
Definition qcopy (l offset : Z) : M Qst Block :=
  nb <- lift (allocb l) ;;
  q <- getq ;;
  match qcopy_seek (bfirst q) offset 0 with
  | None => ret nb
  | Some (b, k, next) => qcopy_loop nb b (rp b + k) (BLEN b - k) next l 0
  end.

(** [malloc] returns cleared storage; [ok] says whether it succeeded. *)
Definition new_queue (lim msg : Z) (k : bool) : Queue :=
  mkQueue [] None 0 0 lim lim (Z.lor msg Qstarve) false 0 k false "".
Definition qopen (ok : bool) (lim msg : Z) (k : bool) : option Queue :=
  if ok then Some (new_queue lim msg k) else None.
Definition qbypass (ok : bool) : option Queue :=
  if ok then Some (mkQueue [] None 0 0 0 0 0 false 0 false true "") else None.

Definition notempty (q : Queue) : bool :=
  has Qclosed q || match bfirst q with [] => false | _ => true end.

(** [None]: the process sleeps on [q->rr] until [notempty]. *)
Definition qwait : M Qst (option Z) :=
  q <- getq ;;
  match bfirst q with
  | _ :: _ => ret (Some 1)
  | [] =>
      if has Qclosed q then
        setq (set_eof (eof q + 1)) ;;
        if eof q + 1 >? 3 then ret (Some (-1))
        else if negb (String.eqb (err q) "") && negb (String.eqb (err q) Ehungup)
        then ret (Some (-1))
        else ret (Some 0)
      else setq (raise_bit Qstarve) ;; ret None
  end.

Definition qaddlist (bl : list Block) : M Qst () :=
  qlink bl ;;
  setq (fun q => set_lens (len q + blockalloclen bl) (dlen q + blocklen bl) q) ;;
  set_last bl.

Definition qremove : M Qst (option Block) :=
  q <- getq ;;
  match bfirst q with
  | [] => ret None
  | b :: next =>
      setq (fun q => set_lens (len q - BALLOC b) (dlen q - BLEN b) (set_bfirst next q)) ;;
      ret (Some b)
  end.

Definition qputback (b : Block) : M Qst () :=
  q <- getq ;;
  match bfirst q with [] => setq (set_blast (Some (bid b))) | _ => ret tt end ;;
  setq (fun q => set_lens (len q + BALLOC b) (dlen q + BLEN b)
                   (set_bfirst (b :: bfirst q) q)).

Definition qwakeup_iunlock : M Qst () :=
  d <- unflow ;;
  if d : bool then
    q <- getq ;;
    wakeup_if (kick q) Kick ;;
    emitq Wakeup_wr
  else ret tt.

(** Result of a read: it sleeps, or it returns. *)
Definition qbread (n0 : Z) : M Qst (option (option Block)) :=
  w <- qwait ;;
  match w with
  | None => ret None
  | Some 0 => ret (Some None)
  | Some (-1) => q <- getq ;; error (err q)
  | Some _ =>
      o <- qremove ;;
      match o with
      | None => undef "qbread: nil"
      | Some b =>
          let n := BLEN b in
          nb <- (if n >? n0 then
                   q <- getq ;;
                   (if negb (has Qmsg q) then
                      r <- lift (allocb (n - n0)) ;;
                      d <- lift (bread b (rp b + n0) (n - n0)) ;;
                      r <- lift (bappend r d) ;;
                      qputback r
                    else ret tt) ;;
                   ret (set_wp (rp b + n0) b)
                 else ret b) ;;
          qwakeup_iunlock ;;
          ret (Some (Some nb))
      end
  end.

(** The gathering loop of a coalescing [qread]: [b] has been removed and
    [n] bytes gathered; take more blocks while they fit in [l]. *)
Fixpoint qread_gather (bl : list Block) (n l : Z) : M Qst (list Block * Z) :=
  match bl with
  | [] => ret ([], n)
  | b :: next =>
      if n + BLEN b >? l then ret ([], n)
      else
        qremove ;;
        let* (r, m) := qread_gather next (n + BLEN b) l in
        ret (b :: r, m)
  end.

(** [again:] with the choice of the blocks to read: the chain removed from
    the queue and its byte count; [inl None] sleeps, [inl (Some _)] returns.
    Empty blocks are discarded when coalescing, hence the recursion. *)
Fixpoint qread_first (fuel : nat) (l : Z) : M Qst (option unit + list Block * Z) :=
  match fuel with
  | O => undef "qread: out of fuel"
  | S fuel =>
      w <- qwait ;;
      match w with
      | None => ret (inl None)
      | Some 0 => ret (inl (Some tt))
      | Some (-1) => q <- getq ;; error (err q)
      | Some _ =>
          q <- getq ;;
          if has Qcoalesce q then
            match bfirst q with
            | [] => undef "qread: nil"
            | b :: next =>
                if BLEN b <=? 0 then
                  qremove ;; lift (freeb b) ;; qread_first fuel l
                else
                  qremove ;;
                  let* (r, n) := qread_gather next (BLEN b) l in
                  ret (inr (b :: r, n))
            end
          else
            o <- qremove ;;
            match o with
            | None => undef "qread: nil"
            | Some b => ret (inr ([b], BLEN b))
            end
      end
  end.

(** The bytes copied to the caller and the value returned. *)
Definition qread (l : Z) : M Qst (option (list Z * Z)) :=
  q <- getq ;;
  f <- qread_first (S (length (bfirst q))) l ;;
  match f with
  | inl None => ret None
  | inl (Some _) => ret (Some ([], 0))
  | inr (first, n) =>
      let* (d, r) := lift (bl2mem first l) in
      n <- match r with
           | [] => ret n
           | b :: _ =>
               q <- getq ;;
               (if has Qmsg q then lift (freeb b) else qputback b) ;;
               ret (n - BLEN b)
           end ;;
      qwakeup_iunlock ;;
      ret (Some (d, n))
  end.

Definition qnotfull (q : Queue) : bool := (len q <? limit q) || has Qclosed q.

(** The flow-control loop at the end of [qbwrite]: true when the writer may
    go on, false when it sleeps on [q->wr]. *)
Definition qbwrite_wait : M Qst bool :=
  q <- getq ;;
  if noblock q || qnotfull q then ret true
  else setq (raise_bit Qflow) ;; ret false.

(** [woke] says whether [wakeup] found a sleeping reader.  The second
    component is false when the writer sleeps after its data is queued. *)
Definition qbwrite (woke : bool) (b : Block) : M Qst (Z * bool) :=
  let n := BLEN b in
  q <- getq ;;
  if bypass q then emitq (Bypass b) ;; ret (n, true)
  else if has Qclosed q then lift (freeb b) ;; error (err q)
  else if (len q >=? limit q) && noblock q then
    lift (freeb b) ;;
    lift (count noblockcnt n) ;;
    ret (n, true)
  else
    qlink [b] ;;
    setq (set_blast (Some (bid b))) ;;
    setq (fun q => set_lens (len q + BALLOC b) (dlen q + n) q) ;;
    d <- unstarve ;;
    q <- getq ;;
    wakeup_if (kick q && (d || has Qkick q)) Kick ;;
    wakeup_if d Wakeup_rr ;;
    wakeup_if (d && woke) Sched ;;
    g <- qbwrite_wait ;;
    ret (n, g).

(** The loop of [qwrite]: the bytes queued before the writer finished or went
    to sleep, and whether it finished.  [fuel] bounds the number of chunks. *)
Fixpoint qwrite_loop (fuel : nat) (woke : bool) (p : list Z) (sofar : Z) : M Qst (Z * bool) :=
  match fuel with
  | O => undef "qwrite: out of fuel"
  | S fuel =>
      let n := if zlen p >? Maxatomic then Maxatomic else zlen p in
      b <- lift (allocb n) ;;
      b <- lift (bappend b (ztake n p)) ;;
      let* (_, g) := qbwrite woke b in
      let p := zdrop n p in
      q <- getq ;;
      if negb (g : bool) then ret (sofar + n, false)
      else if (zlen p >? 0) && negb (has Qmsg q) then qwrite_loop fuel woke p (sofar + n)
      else ret (sofar + n, true)
  end.
(** A writer that finishes is told that all of [p] was written. *)
Definition qwrite (woke : bool) (p : list Z) : M Qst (Z * bool) :=
  let* (sofar, g) := qwrite_loop (S (length p)) woke p 0 in
  ret (if g : bool then zlen p else sofar, g).

(** [qiwrite]; [dw] is the [dowakeup] flag, never cleared in the loop. *)
Fixpoint qiwrite_loop (fuel : nat) (p : list Z) (sofar : Z) (dw : bool) : M Qst Z :=
  match fuel with
  | O => undef "qiwrite: out of fuel"
  | S fuel =>
      let n := if zlen p >? Maxatomic then Maxatomic else zlen p in
      o <- lift (iallocb n) ;;
      match o with
      | None => ret sofar
      | Some b =>
          b <- lift (bappend b (ztake n p)) ;;
          q <- getq ;;
          if dlen q >=? 32 * 1024 then lift (freeb b) ;; ret sofar
          else
            qlink [b] ;;
            setq (set_blast (Some (bid b))) ;;
            setq (fun q => set_lens (len q + BALLOC b) (dlen q + n) q) ;;
            d <- unstarve ;;
            let dw := dw || d in
            q <- getq ;;
            wakeup_if (dw && kick q) Kick ;;
            wakeup_if dw Wakeup_rr ;;
            let p := zdrop n p in
            if (zlen p >? 0) && negb (has Qmsg q) then qiwrite_loop fuel p (sofar + n) dw
            else ret (sofar + n)
      end
  end.
Definition qiwrite (p : list Z) : M Qst Z := qiwrite_loop (S (length p)) p 0 false.

Definition qclose : M Qst () :=
  q <- getq ;;
  setq (raise_bit Qclosed) ;;
  setq (clear_bit (Z.lor Qflow Qstarve)) ;;
  setq (set_err Ehungup) ;;
  setq (set_bfirst []) ;;
  setq (set_lens 0 0) ;;
  setq (set_noblock false) ;;
  lift (freeblist (bfirst q)) ;;
  emitq Wakeup_rr ;;
  emitq Wakeup_wr.

(** [qfree] closes; the Queue itself is then released. *)
Definition qfree : M Qst () := qclose.

Definition qhangup (msg : string) : M Qst () :=
  setq (raise_bit Qclosed) ;;
  setq (set_err (if String.eqb msg "" then Ehungup else String.substring 0 (ERRMAX - 1) msg)) ;;
  emitq Wakeup_rr ;;
  emitq Wakeup_wr.

Definition qisclosed (q : Queue) : bool := has Qclosed q.

Definition qreopen : M Qst () :=
  setq (clear_bit Qclosed) ;;
  setq (raise_bit Qstarve) ;;
  setq (set_eof 0) ;;
  setq (fun q => set_limit (inilim q) q).

Definition qlen (q : Queue) : Z := dlen q.
Definition qwindow (q : Queue) : Z :=
  let l := limit q - len q in if l <? 0 then 0 else l.
Definition qcanread (q : Queue) : bool := match bfirst q with [] => false | _ => true end.
Definition qsetlimit (l : Z) : M Qst () := setq (set_limit l).
Definition qnoblock (onoff : bool) : M Qst () := setq (set_noblock onoff).

Definition qflush : M Qst () :=
  q <- getq ;;
  setq (set_bfirst []) ;;
  setq (set_lens 0 0) ;;
  lift (freeblist (bfirst q)) ;;
  emitq Wakeup_wr.

Definition qfull (q : Queue) : bool := has Qflow q.
Definition qstate (q : Queue) : Z := state q.

(** [pullupqueue] makes the first block hold at least [n] bytes. *)
Definition pullupqueue (n : Z) : M Qst (option Block) :=
  q <- getq ;;
  match bfirst q with
  | [] => undef "pullupqueue: nil"
  | b :: _ =>
      if BLEN b >=? n then ret (Some b)
      else
        o <- lift (pullupblock (bfirst q) n) ;;
        let bl := default [] o in
        setq (set_bfirst bl) ;;
        setq (set_blast (bid <$> last bl)) ;;
        ret (head bl)
  end.
End Qio.

(** ** The queue invariant *)

Definition blast_ok (q : Queue) : Prop :=
  bfirst q <> [] -> blast q = bid <$> last (bfirst q).

(** [qinv F q s]: the counts of the queue are those of its blocks, [blast] is
    its last block, and the blocks of the queue together with the blocks [F]
    held elsewhere are exactly the blocks in use. *)
Record qinv (F : list Block) (q : Queue) (s : Bst) : Prop := {
  qi_wf : Forall wfb (bfirst q);
  qi_len : len q = blockalloclen (bfirst q);
  qi_dlen : dlen q = blocklen (bfirst q);
  qi_last : blast_ok q;
  qi_acct : acct (bfirst q ++ F) s
}.

(** The part of a queue its blocks, counts and state bits do not touch. *)
Definition same_conf (q q' : Queue) : Prop :=
  limit q' = limit q /\ inilim q' = inilim q /\ noblock q' = noblock q /\
  kick q' = kick q /\ bypass q' = bypass q /\ err q' = err q /\ eof q' = eof q.
(** [has b] of every bit except the flow-control ones is unchanged. *)
Definition same_mode (q q' : Queue) : Prop :=
  same_conf q q' /\ has Qmsg q' = has Qmsg q /\ has Qclosed q' = has Qclosed q /\
  has Qcoalesce q' = has Qcoalesce q /\ has Qkick q' = has Qkick q.

#[export] Instance same_mode_preorder : PreOrder same_mode.
Proof.
  unfold same_mode, same_conf. split; [done|]. intros x y z. intuition congruence.
Qed.

Section Bits.
Lemma land_pow2_neqb x n : 0 <= n ->
  negb (Z.land x (2 ^ n) =? 0) = Z.testbit x n.
Proof.
  intros Hn. destruct (Z.testbit x n) eqn:E.
  - destruct (Z.eqb_spec (Z.land x (2 ^ n)) 0) as [H|]; [|done].
    apply (f_equal (fun y => Z.testbit y n)) in H.
    by rewrite Z.land_spec, E, Z.pow2_bits_true, Z.bits_0 in H.
  - destruct (Z.eqb_spec (Z.land x (2 ^ n)) 0) as [|H]; [done|]. destruct H.
    apply Z.bits_inj. intros k. rewrite Z.land_spec, Z.bits_0.
    destruct (decide (k = n)) as [->|Hk]; [by rewrite E|].
    rewrite Z.pow2_bits_false by congruence. apply andb_false_r.
Qed.
Lemma has_testbit n q : 0 <= n -> has (2 ^ n) q = Z.testbit (state q) n.
Proof. apply land_pow2_neqb. Qed.
Lemma raise_testbit m n q : 0 <= m ->
  Z.testbit (state (raise_bit (2 ^ n) q)) m = Z.testbit (state q) m || Z.testbit (2 ^ n) m.
Proof. intros. cbn. apply Z.lor_spec. Qed.
Lemma clear_testbit m n q : 0 <= m ->
  Z.testbit (state (clear_bit (2 ^ n) q)) m =
  Z.testbit (state q) m && negb (Z.testbit (2 ^ n) m).
Proof. intros. cbn. by rewrite Z.land_spec, Z.lnot_spec. Qed.

Lemma has_raise n m q : 0 <= n -> 0 <= m ->
  has (2 ^ m) (raise_bit (2 ^ n) q) = has (2 ^ m) q || (n =? m).
Proof.
  intros. rewrite !has_testbit, raise_testbit by done.
  by rewrite Z.pow2_bits_eqb.
Qed.
Lemma has_clear n m q : 0 <= n -> 0 <= m ->
  has (2 ^ m) (clear_bit (2 ^ n) q) = has (2 ^ m) q && negb (n =? m).
Proof.
  intros. rewrite !has_testbit, clear_testbit by done.
  by rewrite Z.pow2_bits_eqb.
Qed.
End Bits.

(** Decide [has bit (raise_bit bit' q)] for the concrete bits. *)
Ltac bits :=
  change Qstarve with (2 ^ 0) in *; change Qmsg with (2 ^ 1) in *;
  change Qclosed with (2 ^ 2) in *; change Qflow with (2 ^ 3) in *;
  change Qcoalesce with (2 ^ 4) in *; change Qkick with (2 ^ 5) in *;
  rewrite ?has_raise, ?has_clear by lia; cbn [Z.eqb Pos.eqb negb];
  rewrite ?orb_false_r, ?andb_true_r, ?orb_true_r, ?andb_false_r.

Section QioFacts.
Context `{MA : Malloc, MO : !MallocOk MA}.
Implicit Types (q : Queue) (s : Bst) (F bl : list Block).

Lemma wp_lift {A} (m : M Bst A) q s (Q : A -> Qst -> Prop) :
  wp m s (fun a s' => Q a (q, s')) -> wp (lift m) (q, s) Q.
Proof. unfold wp, lift. by destruct (m s). Qed.
Lemma wp_getq q s (Q : Queue -> Qst -> Prop) : Q q (q, s) -> wp getq (q, s) Q.
Proof. done. Qed.
Lemma wp_setq f q s (Q : () -> Qst -> Prop) : Q tt (f q, s) -> wp (setq f) (q, s) Q.
Proof. done. Qed.
Lemma wp_wakeup_if (d : bool) e q s (Q : () -> Qst -> Prop) :
  Q tt (q, if d then with_events (events s ++ [e]) s else s) -> wp (wakeup_if d e) (q, s) Q.
Proof. by destruct d. Qed.

Lemma link_at_app l bl chain x :
  NoDup (ids (chain ++ [x])) -> l = bid x -> link_at l bl (chain ++ [x]) = chain ++ x :: bl.
Proof.
  intros Hnd ->. induction chain as [|y chain IH]; cbn [app link_at].
  - by rewrite Nat.eqb_refl.
  - unfold ids in Hnd. cbn in Hnd. apply NoDup_cons in Hnd as [Hy Hnd].
    destruct (Nat.eqb_spec (bid y) (bid x)) as [E|].
    + destruct Hy. rewrite E, fmap_app. apply elem_of_app. right. by left.
    + by rewrite IH.
Qed.
Lemma acct_NoDup L s : acct L s -> NoDup (ids L).
Proof.
  intros [Hp _]. assert (NoDup (ids L ++ freed s)) as H.
  { rewrite Hp. apply NoDup_ListNoDup, List.seq_NoDup. }
  by apply NoDup_app in H as [H _].
Qed.
Lemma acct_NoDup_l L K s : acct (L ++ K) s -> NoDup (ids L).
Proof.
  intros H%acct_NoDup. unfold ids in *. rewrite fmap_app in H. by apply NoDup_app in H as [? _].
Qed.

(** Linking a chain at [blast] appends it. *)
Lemma wp_qlink bl q s (Q : () -> Qst -> Prop) :
  blast_ok q -> NoDup (ids (bfirst q)) ->
  Q tt (set_bfirst (bfirst q ++ bl) q, s) -> wp (qlink bl) (q, s) Q.
Proof.
  intros Hl Hnd HQ. unfold qlink. apply wp_bind, wp_getq. unfold blast_ok in Hl.
  destruct (bfirst q) as [|b l] eqn:E; [by apply wp_setq|].
  destruct (last (b :: l)) as [x|] eqn:Ex; [|by apply last_None in Ex].
  rewrite Hl by done. cbn [fmap option_fmap option_map]. apply wp_setq.
  apply last_Some in Ex as [c Ec]. rewrite Ec in *.
  rewrite link_at_app by done. by rewrite <- app_assoc in HQ.
Qed.
Lemma wp_set_last bl q s (Q : () -> Qst -> Prop) :
  bl <> [] -> Q tt (set_blast (bid <$> last bl) q, s) -> wp (set_last bl) (q, s) Q.
Proof.
  intros Hne HQ. unfold set_last. destruct (last bl) eqn:E; [by apply wp_setq|].
  by apply last_None in E.
Qed.

Lemma blast_ok_tail b l q : blast_ok q -> bfirst q = b :: l -> l <> [] ->
  blast q = bid <$> last l.
Proof.
  intros H E Hne. rewrite H by (by rewrite E). rewrite E. by destruct l.
Qed.

(** Removing the head of the queue. *)
Definition pop_head (q : Queue) : Queue :=
  match bfirst q with
  | [] => q
  | b :: next => set_lens (len q - BALLOC b) (dlen q - BLEN b) (set_bfirst next q)
  end.
Lemma qinv_pop F q s b next :
  qinv F q s -> bfirst q = b :: next -> qinv (b :: F) (pop_head q) s.
Proof.
  intros [Hw Hl Hd Hb HA] E. unfold pop_head. rewrite E in Hw, Hl, Hd, HA |- *.
  apply Forall_cons in Hw as [_ Hw]. rewrite blockalloclen_cons in Hl.
  rewrite blocklen_cons in Hd. split; cbn; [done|lia|lia| |].
  - intros Hne. by apply (blast_ok_tail b next q).
  - by rewrite <- Permutation_middle.
Qed.
End QioFacts.

(** ** Flow control and wakeups *)

Definition wr_cond (q : Queue) : bool := has Qflow q && (len q <? Z.quot (limit q) 2).

(** The state after the common epilogue of the routines that take data out:
    with [Qflow] set and the queue below half its limit, the bit is cleared
    and [evs], which holds a wakeup of the writer, is done. *)
Definition flowed (evs : list Event) (q : Queue) (s : Bst) (q' : Queue) (s' : Bst) : Prop :=
  if wr_cond q then q' = clear_bit Qflow q /\ s' = with_events (events s ++ evs) s
  else q' = q /\ s' = s.

(** The routines that take data out wake a flow-controlled writer. *)
Definition wakes_writer (q : Queue) (s : Bst) (q' : Queue) (s' : Bst) : Prop :=
  has Qflow q = true -> len q' < Z.quot (limit q) 2 ->
  has Qflow q' = false /\ exists l, events s' = events s ++ l /\ Wakeup_wr ∈ l.
(** The routines that put data in wake a starved reader. *)
Definition wakes_reader (q : Queue) (s : Bst) (q' : Queue) (s' : Bst) : Prop :=
  has Qstarve q' = false /\
  exists l, events s' = events s ++ l /\ (has Qstarve q = true -> Wakeup_rr ∈ l).

Section Flow.
Context `{MA : Malloc, MO : !MallocOk MA}.
Implicit Types (q : Queue) (s : Bst) (F bl : list Block).

Lemma qinv_ext F q s q' s' :
  qinv F q s -> bfirst q' = bfirst q -> blast q' = blast q -> len q' = len q ->
  dlen q' = dlen q -> nextid s' = nextid s -> freed s' = freed s ->
  ialloc_bytes s' = ialloc_bytes s -> qinv F q' s'.
Proof.
  intros [Hw ? ? Hb HA] E1 E2 E3 E4 E5 E6 E7. split; try congruence.
  - unfold blast_ok in *. by rewrite E1, E2.
  - rewrite E1. unfold acct in *. by rewrite E5, E6, E7.
Qed.

Lemma same_mode_clear n q : n ∈ [0; 3] -> same_mode q (clear_bit (2 ^ n) q).
Proof.
  intros Hn. unfold same_mode, same_conf.
  rewrite !elem_of_cons in Hn. destruct Hn as [->|[->|Hn]]; [| |by apply not_elem_of_nil in Hn];
    bits; done.
Qed.
Lemma same_mode_raise n q : n ∈ [0; 3] -> same_mode q (raise_bit (2 ^ n) q).
Proof.
  intros Hn. unfold same_mode, same_conf.
  rewrite !elem_of_cons in Hn. destruct Hn as [->|[->|Hn]]; [| |by apply not_elem_of_nil in Hn];
    bits; done.
Qed.
Lemma same_mode_clear_flow q : same_mode q (clear_bit Qflow q).
Proof. apply (same_mode_clear 3). set_solver. Qed.
Lemma same_mode_clear_starve q : same_mode q (clear_bit Qstarve q).
Proof. apply (same_mode_clear 0). set_solver. Qed.
Lemma same_mode_raise_flow q : same_mode q (raise_bit Qflow q).
Proof. apply (same_mode_raise 3). set_solver. Qed.
Lemma same_mode_raise_starve q : same_mode q (raise_bit Qstarve q).
Proof. apply (same_mode_raise 0). set_solver. Qed.
Lemma same_mode_pop q : same_mode q (pop_head q).
Proof. unfold pop_head. by destruct (bfirst q). Qed.
(** Changes to the chain and the counts only. *)
Lemma same_mode_data x y l b q : same_mode q (set_lens x y (set_bfirst l (set_blast b q))).
Proof. done. Qed.

Lemma flowed_spec F evs q s q' s' :
  flowed evs q s q' s' -> Wakeup_wr ∈ evs -> qinv F q s ->
  qinv F q' s' /\ same_mode q q' /\ bfirst q' = bfirst q /\
  (has Qflow q = true -> len q < Z.quot (limit q) 2 ->
    has Qflow q' = false /\ exists l, events s' = events s ++ l /\ Wakeup_wr ∈ l).
Proof.
  unfold flowed, wr_cond. intros Hf Hin Hi.
  destruct (has Qflow q) eqn:Hq; cbn [andb] in Hf.
  2: { destruct Hf as [-> ->]. done. }
  destruct (Z.ltb_spec (len q) (Z.quot (limit q) 2)); destruct Hf as [-> ->].
  - split; [by eapply qinv_ext|]. split; [apply same_mode_clear_flow|]. split; [done|].
    intros _ _. split; [by bits|]. by exists evs.
  - split; [done|]. split; [done|]. split; [done|]. lia.
Qed.

Lemma wp_unflow q s (Q : bool -> Qst -> Prop) :
  Q (wr_cond q) (if wr_cond q then clear_bit Qflow q else q, s) -> wp unflow (q, s) Q.
Proof.
  unfold unflow, wr_cond. intros H. apply wp_bind, wp_getq. by destruct (_ && _).
Qed.
Lemma wp_unstarve q s (Q : bool -> Qst -> Prop) :
  Q (has Qstarve q) (if has Qstarve q then clear_bit Qstarve q else q, s) ->
  wp unstarve (q, s) Q.
Proof. unfold unstarve. intros H. apply wp_bind, wp_getq. by destruct (has Qstarve q). Qed.

Lemma wp_flow_tail q s (Q : () -> Qst -> Prop) :
  (forall q' s', flowed [Wakeup_wr] q s q' s' -> Q tt (q', s')) ->
  wp (d <- unflow ;; wakeup_if d Wakeup_wr) (q, s) Q.
Proof.
  intros H. apply wp_bind, wp_unflow, wp_wakeup_if. apply H. unfold flowed.
  by destruct (wr_cond q).
Qed.
Lemma wp_qwakeup_iunlock q s (Q : () -> Qst -> Prop) :
  (forall q' s' evs, flowed evs q s q' s' -> Wakeup_wr ∈ evs -> Q tt (q', s')) ->
  wp qwakeup_iunlock (q, s) Q.
Proof.
  intros H. unfold qwakeup_iunlock. apply wp_bind, wp_unflow.
  destruct (wr_cond q) eqn:E; [|apply (H q s [Wakeup_wr]); [unfold flowed; by rewrite E|by left]].
  apply wp_bind, wp_getq, wp_bind, wp_wakeup_if.
  apply (H _ _ (if kick q then [Kick; Wakeup_wr] else [Wakeup_wr])).
  - unfold flowed. rewrite E. split; [done|]. cbn. destruct (kick q); cbn; [|done].
    by rewrite <- app_assoc.
  - destruct (kick q); set_solver.
Qed.
End Flow.

(** ** Specifications of the queue operations *)

(** What an operation that takes [out] off the front leaves: the invariant
    with [out] now held by the caller, the mode, and the wakeup rule. *)
Definition took (F out : list Block) (q : Queue) (s : Bst) (q' : Queue) (s' : Bst) : Prop :=
  qinv (out ++ F) q' s' /\ same_mode q q' /\ wakes_writer q s q' s'.
(** What an operation that appends leaves. *)
Definition put (F : list Block) (q : Queue) (s : Bst) (q' : Queue) (s' : Bst) : Prop :=
  qinv F q' s' /\ same_mode q q' /\ wakes_reader q s q' s'.

Section Specs.
Context `{MA : Malloc, MO : !MallocOk MA}.
Implicit Types (q : Queue) (s : Bst) (F bl : list Block).

Lemma flowed_took F out evs q0 s0 q s q' s' :
  flowed evs q s q' s' -> Wakeup_wr ∈ evs -> qinv (out ++ F) q s -> same_mode q0 q ->
  has Qflow q = has Qflow q0 -> quiet s0 s -> took F out q0 s0 q' s'.
Proof.
  intros Hf Hin Hi Hm Hfl [Hq _]. pose proof (flowed_spec _ _ _ _ _ _ Hf Hin Hi) as (Hi' & Hm' & Hb & Hw).
  split; [done|]. split; [by etrans|]. intros Hx Hy.
  assert (limit q = limit q0) as El by apply Hm.
  assert (len q' = len q) as En.
  { destruct Hi, Hi'. congruence. }
  rewrite Hq in Hw. apply Hw; [congruence|]. by rewrite El, <- En.
Qed.

(** The epilogue of the routines that take data out. *)
Lemma wp_epilogue {A} (x : A) q s (Q : A -> Qst -> Prop) :
  (forall q' s', flowed [Wakeup_wr] q s q' s' -> bfirst q' = bfirst q -> Q x (q', s')) ->
  wp (d <- unflow ;; wakeup_if d Wakeup_wr ;; ret x) (q, s) Q.
Proof.
  intros H. apply wp_bind, wp_unflow, wp_bind, wp_wakeup_if, wp_ret. apply H.
  - unfold flowed. by destruct (wr_cond q).
  - by destruct (wr_cond q).
Qed.

Lemma wp_qget F q s :
  qinv F q s ->
  wp qget (q, s) (fun o '(q', s') => match o with
    | None => bfirst q = [] /\ qinv F q' s' /\ same_mode q q' /\ bfirst q' = [] /\
        has Qstarve q' = true
    | Some b => bfirst q = b :: bfirst q' /\ took F [b] q s q' s' /\ wfb b
    end).
Proof.
  intros Hi. unfold qget. apply wp_bind, wp_getq.
  destruct (bfirst q) as [|b next] eqn:E.
  - apply wp_bind, wp_setq, wp_ret. split; [done|]. split; [by eapply qinv_ext|].
    split; [apply same_mode_raise_starve|]. split; [done|]. by bits.
  - apply wp_bind, wp_setq. pose proof (qinv_pop F q s b next Hi E) as Hp.
    pose proof (same_mode_pop q) as Hm. unfold pop_head in *. rewrite E in *.
    set (q1 := set_lens _ _ _) in *.
    apply wp_epilogue. intros q2 s2 Hf E2. split; [by rewrite E2|]. split.
    + eapply flowed_took; [exact Hf|by left|exact Hp|exact Hm|done|done].
    + destruct Hi as [Hw _ _ _ _]. rewrite E in Hw. by apply Forall_inv in Hw.
Qed.

(** Loops that only remove or shorten blocks at the front. *)
Definition front (F : list Block) (q : Queue) (s : Bst) (q' : Queue) (s' : Bst) : Prop :=
  qinv F q' s' /\ same_mode q q' /\ quiet s s' /\ state q' = state q.

Lemma front_trans F G q s q1 s1 q2 s2 :
  front F q s q1 s1 -> front G q1 s1 q2 s2 -> front G q s q2 s2.
Proof.
  intros (_ & ? & ? & E1) (? & ? & ? & E2).
  split; [done|]. split; [by etrans|]. split; [by etrans|]. congruence.
Qed.
Lemma front_perm F G q s q' s' : F ≡ₚ G -> front F q s q' s' -> front G q s q' s'.
Proof.
  intros HP ([? ? ? ? HA] & ? & ? & ?). split; [|done]. split; try done. by rewrite <- HP.
Qed.
Lemma front_pop F q s b next :
  qinv F q s -> bfirst q = b :: next -> front (b :: F) q s (pop_head q) s.
Proof.
  intros Hi E. split; [by eapply qinv_pop|]. split; [apply same_mode_pop|].
  split; [done|]. unfold pop_head. by rewrite E.
Qed.
Lemma front_free F q s q' s' s2 b :
  front (b :: F) q s q' s' -> (forall K, acct (b :: K) s' -> acct K s2) -> quiet s' s2 ->
  front F q s q' s2.
Proof.
  intros ([? ? ? ? HA] & ? & ? & ?) Hk Hq. split_and!; try done; [|by etrans].
  split; try done. apply Hk. by rewrite Permutation_middle.
Qed.
(** Advancing the first block past [k] bytes. *)
Lemma front_advance F q s b next k :
  qinv F q s -> bfirst q = b :: next -> 0 <= k <= BLEN b ->
  front F q s (set_lens (len q) (dlen q - k) (set_bfirst (set_rp (rp b + k) b :: next) q)) s.
Proof.
  intros [Hw Hl Hd Hb HA] E Hk. rewrite E in Hw, Hl, Hd, HA.
  apply Forall_cons in Hw as [Hwb Hw]. split; [|done].
  rewrite blockalloclen_cons in Hl. rewrite blocklen_cons in Hd. split; cbn.
  - apply Forall_cons_2; [by apply wfb_advance|done].
  - rewrite blockalloclen_cons. exact Hl.
  - rewrite blocklen_cons. unfold BLEN in *. cbn. lia.
  - intros _. cbn. rewrite Hb by (by rewrite E). rewrite E. by destruct next.
  - eapply (acct_same_ids b); [done|done|exact HA].
Qed.

Lemma wp_freeb_front F q s q' s' b (Q : () -> Qst -> Prop) :
  front (b :: F) q s q' s' -> (forall s2, front F q s q' s2 -> Q tt (q', s2)) ->
  wp (lift (freeb b)) (q', s') Q.
Proof.
  intros Hf HQ. apply wp_lift. pose proof Hf as ([_ _ _ _ HA] & _).
  apply (wp_mono _ _ (fun _ s2 => forall K, acct (b :: K) s' -> acct K s2 /\ quiet s' s2)).
  { apply wp_exists. pose proof HA as HA2. rewrite <- Permutation_middle in HA2.
    apply wp_freeb in HA2. apply wp_exists in HA2 as ([] & s2 & E & _).
    exists tt, s2. split; [done|]. intros K HK. apply wp_freeb in HK.
    unfold wp in HK. by rewrite E in HK. }
  intros [] s2 H. apply HQ. eapply front_free; [exact Hf|apply H|].
  rewrite <- Permutation_middle in HA. by apply (H _ HA).
Qed.

Lemma wp_qdiscard_loop F bl n sofar q s :
  qinv F q s -> bfirst q = bl -> sofar <= n ->
  wp (qdiscard_loop bl n sofar) (q, s) (fun r '(q', s') => front F q s q' s' /\
    cdata (bfirst q') = zdrop (n - sofar) (cdata bl) /\
    r = sofar + Z.min (n - sofar) (blocklen bl)).
Proof.
  revert sofar q s. induction bl as [|b next IH]; intros sofar q s Hi E Hs;
    cbn [qdiscard_loop].
  - destruct (sofar <? n); apply wp_ret; rewrite E; (split; [done|]);
      (split; [symmetry; apply zdrop_ge; change (0 <= n - sofar); lia|]);
      unfold blocklen; cbn [fold_left]; lia.
  - pose proof (qi_wf _ _ _ Hi) as Hw. rewrite E in Hw. apply Forall_cons in Hw as [Hb Hw].
    pose proof (wfb_BLEN b Hb). pose proof (zlen_bdata b Hb).
    pose proof (blocklen_nonneg next Hw). rewrite blocklen_cons, cdata_cons.
    destruct (Z.ltb_spec sofar n); cbv zeta.
    2: { apply wp_ret. rewrite E. split; [done|]. rewrite zdrop_le by lia.
         split; [done|lia]. }
    destruct (Z.leb_spec (BLEN b) (n - sofar)).
    + apply wp_bind, wp_setq, wp_bind.
      pose proof (front_pop F q s b next Hi E) as Hf.
      assert (pop_head q = set_lens (len q - BALLOC b) (dlen q - BLEN b)
        (set_bfirst next q)) as Ep by (unfold pop_head; by rewrite E).
      rewrite <- Ep. eapply wp_freeb_front; [exact Hf|]. intros s2 Hf2.
      pose proof Hf2 as (Hi2 & _).
      eapply wp_mono; [apply IH; [exact Hi2|by rewrite Ep|lia]|].
      intros r [q' s'] (Hf3 & Hd & Hr). split; [by eapply front_trans|].
      rewrite Hd, zdrop_app_ge by lia. split; [f_equal; lia|lia].
    + apply wp_bind, wp_setq, wp_ret.
      split; [by apply front_advance; [..|lia]|]. cbn [bfirst set_lens set_bfirst].
      rewrite cdata_cons, bdata_advance_drop, zdrop_app_le by (done || lia).
      split; [done|lia].
Qed.

Lemma wp_qdiscard F n q s :
  qinv F q s -> 0 <= n ->
  wp (qdiscard n) (q, s) (fun r '(q', s') => took F [] q s q' s' /\
    r = Z.min n (blocklen (bfirst q)) /\ cdata (bfirst q') = zdrop n (cdata (bfirst q))).
Proof.
  intros Hi Hn. unfold qdiscard. apply wp_bind, wp_getq, wp_bind.
  eapply wp_mono; [by apply wp_qdiscard_loop|].
  intros r [q1 s1] ((Hi1 & Hm & Hq & Hst) & Hd & Hr). apply wp_epilogue.
  intros q2 s2 Hf E2. rewrite Z.sub_0_r in *. split; [|split; [done|by rewrite E2]].
  eapply flowed_took; [exact Hf|by left|done|done| |done]. unfold has. by rewrite Hst.
Qed.

Lemma wp_qconsume_skip F bl tofree q s :
  qinv (tofree ++ F) q s -> bfirst q = bl ->
  wp (qconsume_skip bl tofree) (q, s) (fun r '(q', s') => let (o, tf) := r in
    s' = s /\ qinv (tf ++ F) q' s /\ same_mode q q' /\ has Qflow q' = has Qflow q /\
    cdata (bfirst q') = cdata bl /\
    match o with
    | Some b => exists next, bfirst q' = b :: next /\ 0 < BLEN b
    | None => blocklen bl = 0 /\ bfirst q' = [] /\ has Qstarve q' = true
    end).
Proof.
  revert tofree q. induction bl as [|b next IH]; intros tofree q Hi E; cbn [qconsume_skip].
  - apply wp_bind, wp_setq, wp_ret. split_and!; try done.
    + by eapply qinv_ext.
    + apply same_mode_raise_starve.
    + by bits.
    + cbn. by rewrite E.
    + by bits.
  - pose proof (qi_wf _ _ _ Hi) as Hw. rewrite E in Hw. apply Forall_cons in Hw as [Hb Hw].
    pose proof (wfb_BLEN b Hb). destruct (Z.gtb_spec (BLEN b) 0).
    { apply wp_ret. rewrite E. split_and!; try done. eauto. }
    apply wp_bind, wp_setq.
    assert (set_lens (len q - BALLOC b) (dlen q) (set_bfirst next q) = pop_head q) as Ep.
    { unfold pop_head. rewrite E. by replace (dlen q - BLEN b) with (dlen q) by lia. }
    rewrite Ep. pose proof (qinv_pop _ q s b next Hi E) as Hp.
    assert (bfirst (pop_head q) = next) as En by (unfold pop_head; by rewrite E).
    eapply wp_mono; [apply (IH (b :: tofree)); [exact Hp|exact En]|].
    intros [o tf] [q' s'] (-> & Hi' & Hm & Hfl & Hd & Hr).
    assert (bdata b = []) as Hbd by (unfold bdata; apply slice_nil; lia).
    split_and!; try done.
    + etrans; [apply same_mode_pop|exact Hm].
    + rewrite Hfl. unfold pop_head. by rewrite E.
    + by rewrite Hd, cdata_cons, Hbd.
    + destruct o; [done|]. rewrite blocklen_cons. destruct Hr as (? & ? & ?).
      split; [lia|done].
Qed.

Lemma wp_freeblist_q G F q s (Q : () -> Qst -> Prop) :
  qinv (G ++ F) q s -> (forall s2, qinv F q s2 -> quiet s s2 -> Q tt (q, s2)) ->
  wp (lift (freeblist G)) (q, s) Q.
Proof.
  intros [? ? ? ? HA] HQ. apply wp_lift.
  eapply wp_mono; [apply (wp_freeblist G (bfirst q ++ F))|].
  { rewrite app_assoc, (Permutation_app_comm G), <- app_assoc. exact HA. }
  intros [] s2 [HA2 Hq]. apply HQ; [|done]. by split.
Qed.

Lemma wp_qconsume F n0 q s :
  qinv F q s -> 0 <= n0 -> 0 < blocklen (bfirst q) ->
  wp (qconsume n0) (q, s) (fun r '(q', s') => let (d, k) := r in
    took F [] q s q' s' /\ k = zlen d /\ d = ztake k (cdata (bfirst q)) /\ k <= n0 /\
    (0 < n0 -> 0 < k) /\
    (has Qmsg q = false -> cdata (bfirst q') = zdrop k (cdata (bfirst q)))).
Proof.
  intros Hi Hn Hpos. unfold qconsume. apply wp_bind, wp_getq, wp_bind.
  eapply wp_mono; [by apply (wp_qconsume_skip F _ [])|].
  intros [o tf] [q1 s1] (-> & Hi1 & Hm1 & Hfl1 & Hd1 & Ho).
  destruct o as [b|]; [|lia]. destruct Ho as (next & E1 & Hb0).
  pose proof (qi_wf _ _ _ Hi1) as Hw. rewrite E1 in Hw. apply Forall_cons in Hw as [Hb Hw].
  pose proof (zlen_bdata b Hb) as Ezb. cbv zeta.
  set (l := if BLEN b <? n0 then BLEN b else n0).
  assert (l = Z.min n0 (BLEN b)) as El.
  { subst l. destruct (Z.ltb_spec (BLEN b) n0); lia. }
  clearbody l. apply wp_bind, wp_lift. eapply wp_mono; [apply wp_bread; [done|lia]|].
  intros d s2 [-> ->]. apply wp_bind, wp_lift, wp_count. intros f.
  apply wp_bind, wp_setq, wp_bind, wp_getq.
  rewrite E1. cbn [drop]. rewrite drop_0. set (b1 := set_rp (rp b + l) b). set (q2 := set_lens _ _ _).
  assert (front (tf ++ F) q1 s q2 (with_stat f s)) as Hf2.
  { destruct (front_advance (tf ++ F) q1 s b next l Hi1 E1 ltac:(lia)) as (Hi2 & ? & ? & ?).
    split_and!; try done. by eapply qinv_ext. }
  assert (same_mode q q2) as Hm2 by (etrans; [exact Hm1|apply Hf2]).
  assert (has Qmsg q2 = has Qmsg q) as EQ by apply Hm2. rewrite EQ.
  assert (ztake l (bdata b) = ztake l (cdata (bfirst q))) as Etk.
  { rewrite <- Hd1, E1, cdata_cons. by rewrite ztake_app_le by lia. }
  assert (zlen (ztake l (bdata b)) = l) as Ezl by (rewrite zlen_ztake; lia).
  assert (bdata b1 = zdrop l (bdata b)) as Eb1 by (apply bdata_advance_drop; [done|lia]).
  assert (cdata (bfirst q2) = zdrop l (cdata (bfirst q))) as Ecd2.
  { rewrite <- Hd1, E1, cdata_cons. cbn [bfirst q2 set_lens set_bfirst].
    by rewrite cdata_cons, Eb1, zdrop_app_le by lia. }
  apply wp_bind.
  apply (wp_mono _ _ (fun tf' '(q3, s3) => s3 = with_stat f s /\ qinv (tf' ++ F) q3 s3 /\
    same_mode q q3 /\ has Qflow q3 = has Qflow q /\
    (has Qmsg q = false -> cdata (bfirst q3) = zdrop l (cdata (bfirst q))))).
  { destruct Hf2 as (Hi2 & _ & _ & Hst).
    assert (has Qflow q2 = has Qflow q) as Efl2 by (rewrite <- Hfl1; unfold has; by rewrite Hst).
    destruct (has Qmsg q || (l =? BLEN b)) eqn:Ec; [|by apply wp_ret].
    assert (bfirst q2 = b1 :: next) as E2 by done.
    assert (set_lens (len q2 - BALLOC b1) (dlen q2 - BLEN b1) (set_bfirst next q2) = pop_head q2)
      as Ep by (unfold pop_head; by rewrite E2).
    apply wp_bind, wp_setq. cbv beta. rewrite E2. cbn [drop]. rewrite drop_0, Ep.
    apply wp_ret. split; [done|]. split; [exact (qinv_pop _ _ _ _ _ Hi2 E2)|].
    split; [etrans; [exact Hm2|apply same_mode_pop]|].
    split; [unfold pop_head; by rewrite E2|].
    intros Hmsg. rewrite Hmsg in Ec. cbn [orb] in Ec. apply Z.eqb_eq in Ec.
    rewrite <- Ecd2, E2, cdata_cons, Eb1, Ec, zdrop_ge by lia. by rewrite <- Ep. }
  intros tf' [q3 s3] (-> & Hi3 & Hm3 & Hfl3 & Hd3).
  apply wp_bind, wp_unflow, wp_bind, wp_wakeup_if.
  set (q4 := if wr_cond q3 then _ else q3). set (s4 := if wr_cond q3 then _ else _).
  assert (flowed [Wakeup_wr] q3 (with_stat f s) q4 s4) as Hf.
  { unfold flowed, q4, s4. by destruct (wr_cond q3). }
  assert (Wakeup_wr ∈ [Wakeup_wr]) as Hin by (by left).
  pose proof (flowed_spec _ _ _ _ _ _ Hf Hin Hi3) as (Hi4 & _ & E4 & _).
  pose proof (flowed_took F tf' _ q s _ _ _ _ Hf Hin Hi3 Hm3 Hfl3 ltac:(done)) as (_ & Hm4 & Hw4).
  apply wp_bind, wp_freeblist_q with (F := F); [exact Hi4|]. intros s5 Hi5 [Hq5 _].
  apply wp_ret. rewrite <- Etk, E4. split_and!; try (done || lia).
  - split; [exact Hi5|]. split; [exact Hm4|]. intros Hx Hy. destruct (Hw4 Hx Hy) as (? & l' & El' & ?).
    split; [done|]. exists l'. by rewrite Hq5.
Qed.

(** Appending a chain [bl] that the caller holds. *)
Lemma qinv_append F bl q s :
  qinv (bl ++ F) q s -> Forall wfb bl -> bl <> [] ->
  qinv F (set_lens (len q + blockalloclen bl) (dlen q + blocklen bl)
           (set_blast (bid <$> last bl) (set_bfirst (bfirst q ++ bl) q))) s.
Proof.
  intros [Hw Hl Hd Hb HA] Hwb Hne. split; cbn.
  - by apply Forall_app_2.
  - rewrite blockalloclen_app. congruence.
  - rewrite blocklen_app. congruence.
  - intros _. cbn. rewrite last_app. destruct (last bl) eqn:E; [done|].
    by apply last_None in E.
  - by rewrite <- app_assoc.
Qed.

Lemma put_wake F q0 s0 q s q' s' l :
  qinv F q s -> same_mode q0 q -> has Qstarve q = has Qstarve q0 ->
  events s = events s0 ++ l ->
  (if has Qstarve q
   then q' = clear_bit Qstarve q /\ s' = with_events (events s ++ [Wakeup_rr]) s
   else q' = q /\ s' = s) ->
  put F q0 s0 q' s'.
Proof.
  intros Hi Hm Hst Hev Hc. destruct (has Qstarve q) eqn:E; destruct Hc as [-> ->].
  - split; [by eapply qinv_ext|]. split; [etrans; [exact Hm|apply same_mode_clear_starve]|].
    split; [by bits|]. exists (l ++ [Wakeup_rr]). cbn. rewrite Hev, app_assoc.
    split; [done|]. set_solver.
  - split; [done|]. split; [done|]. split; [done|]. exists l. split; [done|]. congruence.
Qed.
Lemma put_trans F q s q1 s1 q2 s2 :
  put F q s q1 s1 -> put F q1 s1 q2 s2 -> put F q s q2 s2.
Proof.
  intros (_ & Hm1 & Hs1 & l1 & E1 & Hw1) (Hi & Hm2 & Hs2 & l2 & E2 & _).
  split; [done|]. split; [by etrans|]. split; [done|]. exists (l1 ++ l2).
  split; [by rewrite E2, E1, app_assoc|]. set_solver.
Qed.

Lemma wp_qpass_add F bl q s :
  qinv (bl ++ F) q s -> Forall wfb bl -> bl <> [] ->
  wp (qpass_add bl) (q, s) (fun r '(q', s') => put F q s q' s' /\ r = blockalloclen bl /\
    bfirst q' = bfirst q ++ bl).
Proof.
  intros Hi Hw Hne. unfold qpass_add. pose proof Hi as [_ _ _ Hb HA].
  apply wp_bind, wp_qlink; [done|by eapply acct_NoDup_l|].
  apply wp_bind, wp_set_last; [done|]. cbv zeta. apply wp_bind, wp_setq.
  apply wp_bind, wp_getq. set (q1 := set_lens _ _ _).
  pose proof (qinv_append F bl q s Hi Hw Hne) as Hi1. apply wp_bind.
  apply (wp_mono _ _ (fun _ '(q2, s2) => qinv F q2 s2 /\ same_mode q q2 /\ s2 = s /\
    has Qstarve q2 = has Qstarve q /\ bfirst q2 = bfirst q ++ bl)).
  { destruct (len q1 >=? Z.quot (limit q1) 2); [apply wp_setq|by apply wp_ret].
    split_and!; try done; [by eapply qinv_ext|by apply (same_mode_raise_flow q1)|by bits]. }
  intros _ [q2 s2] (Hi2 & Hm2 & -> & Hst & E2).
  apply wp_bind, wp_unstarve, wp_bind, wp_wakeup_if, wp_ret.
  split; [|split; [done|by destruct (has Qstarve q2)]].
  apply (put_wake F q s q2 s _ _ []); [done|done|done|by rewrite app_nil_r|].
  by destruct (has Qstarve q2).
Qed.

Lemma qinv_free F bl q s s' :
  qinv (bl ++ F) q s -> acct (bfirst q ++ F) s' -> qinv F q s'.
Proof. intros [? ? ? ? ?] ?. by split. Qed.

Lemma wp_qpass F bl q s :
  qinv (bl ++ F) q s -> Forall wfb bl -> bl <> [] ->
  wp (qpass bl) (q, s) (fun r '(q', s') =>
    if len q >=? limit q then r = -1 /\ q' = q /\ qinv F q' s'
    else if has Qclosed q then q' = q /\ qinv F q' s'
    else put F q s q' s' /\ r = blockalloclen bl /\ bfirst q' = bfirst q ++ bl).
Proof.
  intros Hi Hw Hne. unfold qpass. apply wp_bind, wp_getq.
  destruct (len q >=? limit q).
  - apply wp_bind, (wp_freeblist_q bl F); [done|]. intros s2 ? _. by apply wp_ret.
  - destruct (has Qclosed q); [|by apply wp_qpass_add].
    destruct bl as [|b bl]; [done|].
    apply wp_bind, (wp_freeblist_q (b :: bl) F); [done|]. intros s2 ? _. by apply wp_ret.
Qed.
Lemma wp_qpassnolim F bl q s :
  qinv (bl ++ F) q s -> Forall wfb bl -> bl <> [] ->
  wp (qpassnolim bl) (q, s) (fun r '(q', s') =>
    if has Qclosed q then q' = q /\ qinv F q' s'
    else put F q s q' s' /\ r = blockalloclen bl /\ bfirst q' = bfirst q ++ bl).
Proof.
  intros Hi Hw Hne. unfold qpassnolim. apply wp_bind, wp_getq.
  destruct (has Qclosed q); [|by apply wp_qpass_add].
  destruct bl as [|b bl]; [done|].
  apply wp_bind, (wp_freeblist_q (b :: bl) F); [done|]. intros s2 ? _. by apply wp_ret.
Qed.

(** Queueing one block: the sequence [qproduce], [qbwrite] and [qiwrite]
    have in common. *)
Lemma wp_enqueue {A} F b n q s (k : M Qst A) (Q : A -> Qst -> Prop) :
  qinv (b :: F) q s -> wfb b -> n = BLEN b ->
  (forall q', qinv F q' s -> same_mode q q' -> has Qstarve q' = has Qstarve q ->
    bfirst q' = bfirst q ++ [b] -> has Qflow q' = has Qflow q -> wp k (q', s) Q) ->
  wp (qlink [b] ;; setq (set_blast (Some (bid b))) ;;
      setq (fun q => set_lens (len q + BALLOC b) (dlen q + n) q) ;; k) (q, s) Q.
Proof.
  intros Hi Hw -> HQ. pose proof Hi as [_ _ _ Hb HA].
  apply wp_bind, wp_qlink; [done|by eapply acct_NoDup_l|].
  apply wp_bind, wp_setq, wp_bind, wp_setq. apply HQ; try done.
  pose proof (qinv_append F [b] q s Hi ltac:(by apply Forall_singleton) ltac:(done)) as H.
  rewrite blockalloclen_cons, blocklen_cons in H.
  unfold blockalloclen, blocklen in H. cbn [fold_left] in H. by rewrite !Z.add_0_r in H.
Qed.

Lemma wp_allocb_q F size q s (Q : Block -> Qst -> Prop) :
  qinv F q s -> 0 <= size ->
  (forall b s', fresh_block size b -> qinv (b :: F) q s' -> quiet s s' -> Q b (q, s')) ->
  wp (lift (allocb size)) (q, s) Q.
Proof.
  intros [? ? ? ? HA] Hs HQ. apply wp_lift. eapply wp_mono; [by apply wp_allocb|].
  intros b s' (Hf & _ & HA' & Hq). apply HQ; [done| |done].
  split; try done. by rewrite <- Permutation_middle.
Qed.
Lemma wp_bappend_q F b bs q s (Q : Block -> Qst -> Prop) :
  qinv (b :: F) q s -> wfb b -> wpt b + zlen bs <= lim b ->
  (forall b', grows bs b b' -> qinv (b' :: F) q s -> Q b' (q, s)) ->
  wp (lift (bappend b bs)) (q, s) Q.
Proof.
  intros [? ? ? ? HA] Hw Hl HQ. apply wp_lift. eapply wp_mono; [by apply wp_bappend|].
  intros b' s' [-> Hg]. apply HQ; [done|]. split; try done.
  rewrite <- Permutation_middle in HA |- *. by eapply acct_grows.
Qed.
(** A fresh block filled with [p]. *)
Lemma fresh_filled size p b b' :
  fresh_block size b -> grows p b b' -> bdata b' = p /\ wfb b' /\ BLEN b' = zlen p.
Proof.
  intros Hf (Hw & Hd & _ & _ & _ & Hr & Hwp & _). rewrite (fresh_bdata _ _ Hf) in Hd.
  destruct Hf as (_ & E & _). split; [done|]. split; [done|]. unfold BLEN. lia.
Qed.
Lemma wp_fill {A} F p q s (k : Block -> M Qst A) (Q : A -> Qst -> Prop) :
  qinv F q s ->
  (forall b s', bdata b = p -> wfb b -> BLEN b = zlen p -> qinv (b :: F) q s' ->
    quiet s s' -> wp (k b) (q, s') Q) ->
  wp (b <- lift (allocb (zlen p)) ;; b <- lift (bappend b p) ;; k b) (q, s) Q.
Proof.
  intros Hi HQ. apply wp_bind, (wp_allocb_q F); [done|apply zlen_nonneg|].
  intros b s' Hf Hi' Hq. pose proof Hf as (? & ? & ? & _).
  apply wp_bind, (wp_bappend_q F); [done|done|lia|]. intros b' Hg Hi2.
  destruct (fresh_filled _ _ _ _ Hf Hg) as (? & ? & ?). by apply HQ.
Qed.

Lemma wp_qproduce F p q s :
  qinv F q s -> mp s <= 1000 ->
  wp (qproduce p) (q, s) (fun r '(q', s') =>
    if len q >=? limit q
    then r = -1 /\ qinv F q' s' /\ same_mode q q' /\ bfirst q' = bfirst q /\ has Qflow q' = true
    else (r = 0 /\ ialloc_limit s < ialloc_bytes s /\ q' = q /\ qinv F q' s') \/
         (r = zlen p /\ put F q s q' s' /\ cdata (bfirst q') = cdata (bfirst q) ++ p)).
Proof.
  intros Hi Hmp. unfold qproduce. apply wp_bind, wp_getq.
  destruct (len q >=? limit q).
  { apply wp_bind, wp_setq, wp_ret. split_and!; try done; [by eapply qinv_ext| |by bits].
    apply same_mode_raise_flow. }
  pose proof Hi as [Hw Hl Hd Hb HA]. apply wp_bind, wp_lift.
  eapply wp_mono; [apply wp_iallocb; [apply zlen_nonneg|exact HA|done]|].
  intros [b|] s1 [Hq Ho].
  2: { destruct Ho. apply wp_ret. left. split_and!; try done. }
  destruct Ho as (_ & Hf & HA1 & _).
  assert (qinv (b :: F) q s1) as Hi1.
  { split; try done. by rewrite <- Permutation_middle. }
  pose proof Hf as (? & ? & ? & _).
  apply wp_bind, (wp_bappend_q F); [done|done|lia|]. intros b' Hg Hi2.
  destruct (fresh_filled _ _ _ _ Hf Hg) as (Hbd & Hwb & HB).
  apply wp_bind, wp_lift, wp_count. intros f.
  assert (qinv (b' :: F) q (with_stat f s1)) as Hi3 by (by eapply qinv_ext).
  eapply wp_enqueue; [exact Hi3|done|done|]. intros q1 Hi4 Hm4 Hs4 E4 _.
  apply wp_bind, wp_unstarve, wp_bind, wp_getq.
  set (q2 := if has Qstarve q1 then _ else _).
  assert (qinv F q2 (with_stat f s1) /\ same_mode q q2 /\ has Qstarve q2 = false /\
    bfirst q2 = bfirst q ++ [b']) as (Hi5 & Hm5 & Hs5 & E5).
  { unfold q2. destruct (has Qstarve q1) eqn:Est; [|done].
    split; [by eapply qinv_ext|]. split; [etrans; [exact Hm4|apply same_mode_clear_starve]|].
    split; [by bits|done]. }
  apply wp_bind.
  apply (wp_mono _ _ (fun _ '(q3, s3) => s3 = with_stat f s1 /\ qinv F q3 s3 /\
    same_mode q q3 /\ has Qstarve q3 = false /\ bfirst q3 = bfirst q ++ [b'])).
  { destruct (len q2 >=? limit q2); [apply wp_setq|by apply wp_ret].
    split; [done|]. split; [by eapply qinv_ext|].
    split; [etrans; [exact Hm5|apply same_mode_raise_flow]|].
    split; [by bits|done]. }
  intros _ [q3 s3] (-> & Hi6 & Hm6 & Hs6 & E6). apply wp_bind, wp_wakeup_if, wp_ret. right.
  rewrite E6, cdata_app, cdata_singleton, Hbd. split_and!; try done. split.
  { destruct (has Qstarve q1); [by eapply qinv_ext|done]. }
  split; [done|]. split; [done|]. rewrite Hs4.
  destruct (has Qstarve q); [exists [Wakeup_rr]|exists []]; cbn.
  - rewrite Hq. split; [done|]. intros _. by left.
  - rewrite Hq, app_nil_r. done.
Qed.

(** The steps after queueing in [qbwrite]: clear [Qstarve], run [kick], wake
    the reader and let it run. *)
Lemma wp_bwrite_tail {A} F (woke : bool) q0 s0 q s (k : M Qst A) (Q : A -> Qst -> Prop) :
  qinv F q s -> same_mode q0 q -> has Qstarve q = has Qstarve q0 -> quiet s0 s ->
  (forall q' s', put F q0 s0 q' s' -> bfirst q' = bfirst q -> wp k (q', s') Q) ->
  wp (d <- unstarve ;; q <- getq ;;
      wakeup_if (kick q && (d || has Qkick q)) Kick ;;
      wakeup_if d Wakeup_rr ;; wakeup_if (d && woke) Sched ;; k) (q, s) Q.
Proof.
  intros Hi Hm Hst [Hev _] HQ. apply wp_bind, wp_unstarve, wp_bind, wp_getq.
  do 3 apply wp_bind, wp_wakeup_if. apply HQ; [|by destruct (has Qstarve q)].
  set (q1 := if has Qstarve q then _ else q).
  set (kk := kick q1 && _). assert (same_mode q0 q1 /\ has Qstarve q1 = false) as [Hm1 Hs1].
  { unfold q1. destruct (has Qstarve q) eqn:E; [|done].
    split; [etrans; [exact Hm|apply same_mode_clear_starve]|by bits]. }
  split.
  { eapply qinv_ext; [exact Hi|..]; unfold q1; by destruct (has Qstarve q), kk, woke. }
  split; [done|]. split; [done|]. rewrite <- Hst.
  exists ((if kk then [Kick] else []) ++ (if has Qstarve q then [Wakeup_rr] else []) ++
          (if has Qstarve q && woke then [Sched] else [])).
  rewrite <- Hev. split.
  - destruct kk, (has Qstarve q), woke; cbn; rewrite <- ?app_assoc, ?app_nil_r; done.
  - intros ->. set_solver.
Qed.

Lemma wpe_qbwrite F (woke : bool) b q s :
  qinv (b :: F) q s -> wfb b ->
  wpe (qbwrite woke b) (q, s) (fun r '(q', s') => fst r = BLEN b /\
    if bypass q then qinv (b :: F) q' s' /\ q' = q /\ events s' = events s ++ [Bypass b]
    else has Qclosed q = false /\
      if (len q >=? limit q) && noblock q then qinv F q' s' /\ q' = q /\ snd r = true
      else bfirst q' = bfirst q ++ [b] /\ qinv F q' s' /\ same_mode q q' /\
        wakes_reader q s q' s' /\ snd r = noblock q' || qnotfull q' /\
        (snd r = false -> has Qflow q' = true))
  (fun e '(q', s') => bypass q = false /\ has Qclosed q = true /\ e = err q /\ q' = q /\ qinv F q' s').
Proof.
  intros Hi Hw. unfold qbwrite. cbv zeta. apply wpe_bind, wpe_wp, wp_getq.
  destruct (bypass q) eqn:Eb.
  { apply wpe_wp, wp_bind. apply wp_lift. apply wp_modify, wp_ret.
    split; [done|]. split; [by eapply qinv_ext|]. done. }
  destruct (has Qclosed q) eqn:Ec.
  { apply wpe_bind, wpe_wp. apply wp_lift. pose proof Hi as [? ? ? ? HA].
    rewrite <- Permutation_middle in HA.
    eapply wp_mono; [by apply wp_freeb|]. intros [] s1 [HA1 _]. apply wpe_error.
    split_and!; try done. }
  apply wpe_wp. destruct ((len q >=? limit q) && noblock q).
  { apply wp_bind, wp_lift. pose proof Hi as [? ? ? ? HA]. rewrite <- Permutation_middle in HA.
    eapply wp_mono; [by apply wp_freeb|]. intros [] s1 [HA1 _].
    apply wp_bind, wp_lift, wp_count. intros f. apply wp_ret. split_and!; try done. }
  eapply wp_enqueue; [done|done|done|].
  intros q1 Hi1 Hm1 Hs1 E1 _. eapply wp_bwrite_tail; [done|done|done|done|].
  intros q2 s2 (Hi2 & Hm2 & Hw2) E2. apply wp_bind. unfold qbwrite_wait.
  apply wp_bind, wp_getq. destruct (noblock q2 || qnotfull q2) eqn:En.
  - apply wp_ret, wp_ret. rewrite E2, E1, En. split_and!; done.
  - apply wp_bind, wp_setq, wp_ret, wp_ret. rewrite <- E1, <- E2. cbn [snd fst bfirst].
    split_and!; try done.
    + by eapply qinv_ext.
    + etrans; [exact Hm2|apply same_mode_raise_flow].
    + unfold wakes_reader in *. by bits.
    + unfold qnotfull in *. cbn [noblock limit len raise_bit set_state]. bits. by rewrite En.
    + intros _. by bits.
Qed.

(** A queue that takes writes: open, not bypassed and in blocking mode. *)
Definition writable (q : Queue) : Prop :=
  has Qclosed q = false /\ bypass q = false /\ noblock q = false.
Lemma writable_mode q q' : same_mode q q' -> writable q -> writable q'.
Proof. unfold same_mode, same_conf, writable. intuition congruence. Qed.

Lemma wp_qbwrite F (woke : bool) b q s :
  qinv (b :: F) q s -> wfb b -> writable q ->
  wp (qbwrite woke b) (q, s) (fun r '(q', s') => put F q s q' s' /\
    bfirst q' = bfirst q ++ [b]).
Proof.
  intros Hi Hw (Hc & Hb & Hn). pose proof (wpe_qbwrite F woke b q s Hi Hw) as H.
  unfold wp, wpe in *. destruct (qbwrite woke b (q, s)) as [r [q' s']|e [q' s']| |]; try done.
  - rewrite Hb, Hn, andb_false_r in H. destruct H as (_ & _ & ? & ? & ? & ? & _). done.
  - destruct H as (_ & ? & _). congruence.
Qed.

Lemma wp_qwrite_loop F fuel (woke : bool) p sofar q s :
  (length p < fuel)%nat -> qinv F q s -> writable q ->
  wp (qwrite_loop fuel woke p sofar) (q, s) (fun r '(q', s') => let (k, g) := r in
    put F q s q' s' /\ sofar <= k <= sofar + zlen p /\
    cdata (bfirst q') = cdata (bfirst q) ++ ztake (k - sofar) p /\
    (g = true -> k = sofar + (if has Qmsg q then Z.min (zlen p) Maxatomic else zlen p))).
Proof.
  revert p sofar q s. induction fuel as [|fuel IH]; intros p sofar q s Hf Hi Hwr; [lia|].
  cbn [qwrite_loop]. cbv zeta. pose proof (zlen_nonneg p). assert (0 < Maxatomic) by done.
  set (n := if zlen p >? Maxatomic then Maxatomic else zlen p).
  assert (n = Z.min Maxatomic (zlen p)) as En.
  { subst n. destruct (Z.gtb_spec (zlen p) Maxatomic); lia. }
  clearbody n. assert (zlen (ztake n p) = n) as Ez by (rewrite zlen_ztake; lia).
  rewrite <- Ez at 1. apply (wp_fill F); [done|].
  intros b s1 Hd Hw HB Hi1 [Hq1 _]. apply wp_bind. eapply wp_mono; [by apply (wp_qbwrite F)|].
    intros [_n g] [q2 s2] [Hput E2].
    assert (put F q s q2 s2) as Hput0.
    { destruct Hput as (? & ? & ? & l & El & ?). split; [done|]. split; [done|].
      split; [done|]. exists l. by rewrite <- Hq1. }
    assert (cdata (bfirst q2) = cdata (bfirst q) ++ ztake n p) as Hcd.
    { by rewrite E2, cdata_app, cdata_singleton, Hd. }
    assert (same_mode q q2) as Hm2 by apply Hput0.
    assert (has Qmsg q2 = has Qmsg q) as Emsg by apply Hm2.
    apply wp_bind, wp_getq. destruct g; cbn [negb].
    2: { apply wp_ret. replace (sofar + n - sofar) with n by lia. split_and!; try (done || lia). }
    rewrite zlen_zdrop, Emsg.
    destruct (Z.gtb_spec (Z.max 0 (zlen p - Z.max 0 n)) 0); destruct (has Qmsg q); cbn [andb negb].
    2: { eapply wp_mono; [apply IH|].
         - unfold zdrop, zlen in *. rewrite length_drop. lia.
         - apply Hput0.
         - by eapply writable_mode.
         - intros [k g] [q3 s3] (Hput3 & Hk & Hd3 & Hg). rewrite Emsg, zlen_zdrop in *.
           split; [by eapply put_trans|]. split; [lia|]. split; [|intros Hx; apply Hg in Hx; lia].
           rewrite Hd3, Hcd, <- app_assoc. f_equal.
           rewrite <- (ztake_zdrop n p) at 3. rewrite ztake_app_ge by lia.
           rewrite Ez. do 2 f_equal. lia. }
    all: apply wp_ret; replace (sofar + n - sofar) with n by lia;
         split; [done|]; split; [lia|]; split; [done|]; lia.
Qed.

Lemma wp_qwrite F (woke : bool) p q s :
  qinv F q s -> writable q -> (has Qmsg q = true -> zlen p <= Maxatomic) ->
  wp (qwrite woke p) (q, s) (fun r '(q', s') => put F q s q' s' /\ 0 <= fst r <= zlen p /\
    cdata (bfirst q') = cdata (bfirst q) ++ ztake (fst r) p /\
    (snd r = true -> fst r = zlen p)).
Proof.
  intros Hi Hwr Hm. unfold qwrite. apply wp_bind.
  eapply wp_mono; [apply (wp_qwrite_loop F); [lia|done|done]|].
  intros [k g] [q' s'] (Hp & Hk & Hd & Hg). apply wp_ret. rewrite Z.sub_0_r in Hd.
  cbn [fst snd]. destruct g.
  - assert (k = zlen p) as ->.
    { rewrite Hg by done. destruct (has Qmsg q); [specialize (Hm eq_refl); lia|lia]. }
    split_and!; try (done || lia).
  - split_and!; try (done || lia).
Qed.

Lemma qinv_swap F b nb q s :
  bid nb = bid b -> charge nb = charge b -> qinv (b :: F) q s -> qinv (nb :: F) q s.
Proof.
  intros ? ? [? ? ? ? HA]. split; try done. rewrite <- Permutation_middle in HA |- *.
  by eapply (acct_same_ids b).
Qed.

Lemma wp_qputback F b q s (Q : () -> Qst -> Prop) :
  qinv (b :: F) q s -> wfb b ->
  (forall q', qinv F q' s -> same_mode q q' -> state q' = state q ->
    bfirst q' = b :: bfirst q -> Q tt (q', s)) ->
  wp (qputback b) (q, s) Q.
Proof.
  intros [Hw Hl Hd Hb HA] Hwb HQ. unfold qputback. apply wp_bind, wp_getq.
  rewrite <- Permutation_middle in HA.
  destruct (bfirst q) as [|b2 l] eqn:E.
  - apply wp_bind, wp_setq, wp_setq. apply HQ; try done; [|by rewrite <- E].
    cbn. rewrite E in *. split; cbn.
    + by apply Forall_singleton.
    + rewrite blockalloclen_cons. lia.
    + rewrite blocklen_cons. lia.
    + done.
    + done.
  - apply wp_bind, wp_ret, wp_setq. apply HQ; try done; [|by rewrite <- E].
    rewrite E. split; cbn.
    + by apply Forall_cons_2.
    + rewrite blockalloclen_cons. lia.
    + rewrite blocklen_cons. lia.
    + intros _. cbn. rewrite Hb by (by rewrite E). by rewrite E.
    + done.
Qed.

Lemma wp_bread_q b off n q s (Q : list Z -> Qst -> Prop) :
  wfb b -> 0 <= off -> 0 <= n -> off + n <= BLEN b ->
  Q (slice off n (bdata b)) (q, s) -> wp (lift (bread b (rp b + off) n)) (q, s) Q.
Proof.
  intros (?&?) ? ? ? HQ. apply wp_lift. unfold bread, BLEN in *.
  destruct (Z.leb_spec 0 (rp b + off)); [|lia]. destruct (Z.leb_spec 0 n); [|lia].
  destruct (Z.leb_spec (rp b + off + n) (lim b)); [|lia]. apply wp_ret.
  unfold bdata in HQ. rewrite slice_slice in HQ by (unfold BLEN; lia). exact HQ.
Qed.

(** [qwait] on an empty queue and on a queue with data. *)
Lemma wp_qwait F q s (Q : option Z -> Qst -> Prop) :
  qinv F q s ->
  (bfirst q <> [] -> Q (Some 1) (q, s)) ->
  (bfirst q = [] -> has Qclosed q = false -> Q None (raise_bit Qstarve q, s)) ->
  (bfirst q = [] -> has Qclosed q = true -> forall n, n = 0 \/ n = -1 ->
    Q (Some n) (set_eof (eof q + 1) q, s)) ->
  wp qwait (q, s) Q.
Proof.
  intros Hi H1 H2 H3. unfold qwait. apply wp_bind, wp_getq.
  destruct (bfirst q) eqn:E; [|by apply wp_ret, H1].
  destruct (has Qclosed q) eqn:Ec; apply wp_bind, wp_setq.
  - destruct (_ >? 3); [apply wp_ret, H3; auto|].
    destruct (_ && _); apply wp_ret, H3; auto.
  - by apply wp_ret, H2.
Qed.

(** What a read leaves when the queue was empty. *)
Definition read_empty (F : list Block) (q q' : Queue) (s' : Bst) : Prop :=
  cdata (bfirst q) = [] /\ (has Qcoalesce q = false -> bfirst q = []) /\
bfirst q' = [] /\ qinv F q' s'.

Lemma wpe_qbread F n0 q s :
  qinv F q s -> 0 <= n0 ->
  wpe (qbread n0) (q, s) (fun r '(q', s') => match r with
    | None => bfirst q = [] /\ has Qclosed q = false /\ qinv F q' s' /\ bfirst q' = [] /\
        same_mode q q' /\ has Qstarve q' = true
    | Some None => has Qclosed q = true /\ read_empty F q q' s'
    | Some (Some nb) => took F [nb] q s q' s' /\ wfb nb /\ exists b next,
        bfirst q = b :: next /\ bdata nb = ztake n0 (bdata b) /\
        (if has Qmsg q then bfirst q' = next
         else cdata (bfirst q) = bdata nb ++ cdata (bfirst q'))
    end)
  (fun _ '(q', s') => has Qclosed q = true /\ read_empty F q q' s').
Proof.
  intros Hi Hn. unfold qbread. apply wpe_bind, wpe_wp, (wp_qwait F); [done|..].
  2: { intros E Ec. apply wpe_wp, wp_ret. split_and!; try done; [by eapply qinv_ext| |by bits].
       apply same_mode_raise_starve. }
  2: { intros E Ec n Hx. assert (read_empty F q (set_eof (eof q + 1) q) s) as Hre.
       { split; [by rewrite E|]. split; [done|]. split; [done|by eapply qinv_ext]. }
       destruct Hx as [->| ->]; [by apply wpe_wp, wp_ret|]. done. }
  intros Hne. destruct (bfirst q) as [|b next] eqn:E; [done|].
  apply wpe_wp. unfold qremove. apply wp_bind, wp_bind, wp_getq. rewrite E.
  apply wp_bind, wp_setq, wp_ret. cbv beta iota zeta.
  pose proof (front_pop F q s b next Hi E) as (Hi1 & Hm1 & _ & Hst1).
  assert (set_lens (len q - BALLOC b) (dlen q - BLEN b) (set_bfirst next q) = pop_head q)
    as Ep by (unfold pop_head; by rewrite E).
  assert (bfirst (pop_head q) = next) as E1 by (unfold pop_head; by rewrite E).
  rewrite Ep. pose proof (qi_wf _ _ _ Hi) as Hw. rewrite E in Hw.
  apply Forall_cons in Hw as [Hwb Hw]. pose proof (wfb_BLEN b Hwb). pose proof (zlen_bdata b Hwb).
  apply wp_bind.
  apply (wp_mono _ _ (fun nb '(q2, s2) => qinv (nb :: F) q2 s2 /\ same_mode q q2 /\
    has Qflow q2 = has Qflow q /\ quiet s s2 /\ wfb nb /\ bdata nb = ztake n0 (bdata b) /\
    (if has Qmsg q then bfirst q2 = next
     else cdata (bfirst q) = bdata nb ++ cdata (bfirst q2)))).
  - assert (has Qflow (pop_head q) = has Qflow q) as Efl by (unfold has; by rewrite Hst1).
    destruct (Z.gtb_spec (BLEN b) n0).
    2: { apply wp_ret. rewrite E1, E, (ztake_ge n0 (bdata b)) by lia.
         split_and!; try done. by destruct (has Qmsg q). }
    apply wp_bind, wp_getq, wp_bind.
    assert (has Qmsg (pop_head q) = has Qmsg q) as -> by apply Hm1.
    pose proof (wfb_cut b n0 Hwb ltac:(lia)) as Hcut.
    destruct (has Qmsg q); cbn [negb].
    { apply wp_ret, wp_ret. split_and!; try done; [by apply (qinv_swap F b)|].
      apply bdata_cut; [done|lia]. }
    apply wp_bind, (wp_allocb_q (b :: F)); [done|lia|]. intros r s2 Hf Hi2 Hq2.
    pose proof Hf as (? & ? & ? & _).
    apply wp_bind, wp_bread_q; [done|lia|lia|lia|].
    set (d := slice n0 (BLEN b - n0) (bdata b)).
    assert (d = zdrop n0 (bdata b)) as Hd.
    { unfold d, slice. apply ztake_ge. rewrite zlen_zdrop. lia. }
    assert (zlen d = BLEN b - n0) as Ed by (rewrite Hd, zlen_zdrop; lia).
    apply wp_bind, (wp_bappend_q (b :: F)); [done|done|lia|]. intros r' Hg Hi3.
    destruct (fresh_filled _ _ _ _ Hf Hg) as (Hrd & Hrw & _).
    apply (wp_qputback (b :: F)); [done|done|]. intros q3 Hi4 Hm4 Hst4 E4. apply wp_ret.
    split_and!; try done.
    + by apply (qinv_swap F b).
    + by etrans.
    + rewrite <- Efl. unfold has. by rewrite Hst4.
    + apply bdata_cut; [done|lia].
    + rewrite E4, E1, E, !cdata_cons, Hrd, Hd, bdata_cut by (done || lia).
      by rewrite app_assoc, ztake_zdrop.
  - intros nb [q2 s2] (Hi2 & Hm2 & Hfl & Hq2 & Hwn & Hd & Hc).
    apply wp_bind, wp_qwakeup_iunlock. intros q3 s3 evs Hf Hin. apply wp_ret.
    pose proof (flowed_spec _ _ _ _ _ _ Hf Hin Hi2) as (_ & _ & E3 & _).
    rewrite E3. split; [by eapply (flowed_took F [nb])|]. split; [done|].
    exists b, next. rewrite <- E. done.
Qed.

Lemma wp_qremove F b next q s (Q : option Block -> Qst -> Prop) :
  qinv F q s -> bfirst q = b :: next ->
  (front (b :: F) q s (pop_head q) s -> bfirst (pop_head q) = next -> Q (Some b) (pop_head q, s)) ->
  wp qremove (q, s) Q.
Proof.
  intros Hi E HQ. unfold qremove. apply wp_bind, wp_getq. rewrite E.
  apply wp_bind, wp_setq, wp_ret. unfold pop_head in *. rewrite E in *.
  apply HQ; [|done]. pose proof (front_pop F q s b next Hi E) as H.
  unfold pop_head in H. by rewrite E in H.
Qed.

Lemma wp_qread_gather F bl n l q s :
  qinv F q s -> bfirst q = bl -> n <= l ->
  wp (qread_gather bl n l) (q, s) (fun r '(q', s') => let (g, m) := r in
    front (g ++ F) q s q' s' /\ bl = g ++ bfirst q' /\ m = n + blocklen g /\ m <= l).
Proof.
  revert F n q. induction bl as [|b next IH]; intros F n q Hi E Hn; cbn [qread_gather].
  - apply wp_ret. rewrite E. unfold blocklen. cbn [fold_left]. split_and!; (done || lia).
  - destruct (Z.gtb_spec (n + BLEN b) l).
    { apply wp_ret. rewrite E. unfold blocklen. cbn [fold_left]. split_and!; (done || lia). }
    apply wp_bind, (wp_qremove F b next); [done|done|]. intros Hf E1. pose proof Hf as (Hi1 & _).
    apply wp_bind. eapply wp_mono; [apply (IH (b :: F)); [done|done|lia]|].
    intros [g m] [q' s'] (Hf' & Hg & Hm & Hl). apply wp_ret. rewrite blocklen_cons.
    split; [|rewrite Hg; split_and!; (done || lia)].
    eapply front_perm; [|exact (front_trans _ _ _ _ _ _ _ _ Hf Hf')]. solve_Permutation.
Qed.

(** What [qread_first] removed: the chain [first] of [n] bytes, the front of
    the queue; either one block or a chain that fits in the read. *)
Definition taken_first (F : list Block) (l : Z) (q : Queue) (s : Bst) (first : list Block) (n : Z)
    (q' : Queue) (s' : Bst) : Prop :=
  front (first ++ F) q s q' s' /\ Forall wfb first /\ n = blocklen first /\
  cdata (bfirst q) = cdata first ++ cdata (bfirst q') /\
  ((exists b, first = [b]) \/ n <= l) /\
  (has Qcoalesce q = false -> exists b, first = [b] /\ bfirst q = b :: bfirst q').

Lemma wpe_qread_first F fuel l q s :
  qinv F q s -> (length (bfirst q) < fuel)%nat ->
  wpe (qread_first fuel l) (q, s) (fun r '(q', s') => match r with
    | inl None => has Qclosed q = false /\ read_empty F q q' s' /\ same_mode q q' /\
        has Qstarve q' = true
    | inl (Some _) => has Qclosed q = true /\ read_empty F q q' s'
    | inr (first, n) => taken_first F l q s first n q' s'
    end)
  (fun _ '(q', s') => has Qclosed q = true /\ read_empty F q q' s').
Proof.
  revert q s. induction fuel as [|fuel IH]; intros q s Hi Hf; [lia|].
  cbn [qread_first]. apply wpe_bind, wpe_wp, (wp_qwait F); [done|..].
  2: { intros E Ec. apply wpe_wp, wp_ret. split; [done|].
       split; [split; [by rewrite E|]; split; [done|]; split; [done|by eapply qinv_ext]|].
       split; [apply same_mode_raise_starve|by bits]. }
  2: { intros E Ec n Hx. assert (read_empty F q (set_eof (eof q + 1) q) s) as Hre.
       { split; [by rewrite E|]. split; [done|]. split; [done|by eapply qinv_ext]. }
       destruct Hx as [->| ->]; [by apply wpe_wp, wp_ret|]. done. }
  intros Hne. destruct (bfirst q) as [|b next] eqn:E; [done|].
  pose proof (qi_wf _ _ _ Hi) as Hw. rewrite E in Hw. apply Forall_cons in Hw as [Hwb Hw].
  pose proof (wfb_BLEN b Hwb). apply wpe_bind, wpe_wp, wp_getq.
  destruct (has Qcoalesce q) eqn:Eco.
  - rewrite E. destruct (Z.leb_spec (BLEN b) 0).
    + apply wpe_bind, wpe_wp, (wp_qremove F b next); [done|done|]. intros Hfr E1.
      apply wpe_bind, wpe_wp. eapply wp_freeb_front; [exact Hfr|]. intros s2 Hfr2.
      pose proof Hfr2 as (Hi2 & Hm2 & Hq2 & Hst2).
      assert (cdata (bfirst q) = cdata (bfirst (pop_head q))) as Ecd.
      { rewrite E1, E, cdata_cons. unfold bdata. by rewrite slice_nil by lia. }
      assert (has Qclosed (pop_head q) = has Qclosed q) as Ecl by apply Hm2.
      eapply wpe_mono; [apply IH; [done|rewrite E1; cbn in Hf; lia]|..].
      * unfold read_empty, taken_first. rewrite Ecl, Ecd, Eco.
        intros [[[]|]|[first n]] [q' s'] H'.
        -- destruct H' as (?&?&_&?). done.
        -- destruct H' as (?&(?&_&?)&?&?). split; [done|]. split; [done|]. split; [by etrans|done].
        -- destruct H' as (?&?&?&?&?&_). split; [by eapply front_trans|]. split_and!; done.
      * unfold read_empty. rewrite Ecl, Ecd, Eco. intros e [q' s'] (?&?&_&?). done.
    + apply wpe_wp, wp_bind, (wp_qremove F b next); [done|done|]. intros Hfr E1.
      pose proof Hfr as (Hi1 & _). apply wp_bind.
      destruct (Z.le_gt_cases (BLEN b) l).
      * eapply wp_mono; [apply (wp_qread_gather (b :: F)); [done|done|lia]|].
        intros [g m] [q' s'] (Hf' & Hg & Hm & Hl). apply wp_ret.
        rewrite Hg in Hw. apply Forall_app in Hw as [Hwg _]. split.
        { eapply front_perm; [|exact (front_trans _ _ _ _ _ _ _ _ Hfr Hf')].
          cbn [app]. solve_Permutation. }
        split; [by constructor|]. rewrite blocklen_cons. split; [lia|].
        split; [by rewrite E, Hg, !cdata_cons, cdata_app, app_assoc|].
        split; [right; lia|congruence].
      * assert (qread_gather next (BLEN b) l (pop_head q, s) = Ret ([], BLEN b) (pop_head q, s))
          as Eg.
        { destruct next as [|b2 next]; [done|]. cbn [qread_gather].
          apply Forall_cons in Hw as [Hw2 _]. pose proof (wfb_BLEN b2 Hw2).
          destruct (Z.gtb_spec (BLEN b + BLEN b2) l); [done|lia]. }
        unfold wp. rewrite Eg. cbn. split; [done|].
        split; [by apply Forall_singleton|]. rewrite blocklen_cons. unfold blocklen at 1.
        cbn [fold_left]. split; [lia|]. split; [|split; [left; eauto|congruence]].
        by rewrite E, E1, cdata_cons, cdata_singleton.
  - apply wpe_wp, wp_bind, (wp_qremove F b next); [done|done|]. intros Hfr E1.
    apply wp_ret. split; [done|]. split; [by apply Forall_singleton|].
    rewrite blocklen_cons. unfold blocklen at 1. cbn [fold_left]. split; [lia|].
    split; [|split; [left; eauto|intros _; exists b; by rewrite E1]].
    by rewrite E, E1, cdata_cons, cdata_singleton.
Qed.

(** The outcome of a [qread] that found data: the bytes [d] are the front of
    the queue's; what follows them stays queued, unless the queue keeps
    message boundaries, when the rest of the message is dropped. *)
Definition read_data (F : list Block) (l : Z) (q : Queue) (s : Bst) (d : list Z) (n : Z)
    (q' : Queue) (s' : Bst) : Prop :=
  took F [] q s q' s' /\ n = zlen d /\ zlen d <= l /\
  (has Qmsg q = false -> cdata (bfirst q) = d ++ cdata (bfirst q')) /\
  (has Qmsg q = true -> has Qcoalesce q = false ->
    exists b, bfirst q = b :: bfirst q' /\ d = ztake l (bdata b)).

Lemma wpe_qread F l q s :
  qinv F q s -> 0 <= l ->
  wpe (qread l) (q, s) (fun r '(q', s') => match r with
    | None => has Qclosed q = false /\ read_empty F q q' s' /\ same_mode q q' /\
        has Qstarve q' = true
    | Some (d, n) =>
        (has Qclosed q = true /\ read_empty F q q' s' /\ d = [] /\ n = 0) \/
        read_data F l q s d n q' s'
    end)
  (fun _ '(q', s') => has Qclosed q = true /\ read_empty F q q' s').
Proof.
  intros Hi Hl. unfold qread. apply wpe_bind, wpe_wp, wp_getq. apply wpe_bind.
  eapply wpe_mono; [apply (wpe_qread_first F); [done|lia]| |done].
  intros [[[]|]|[first n]] [q1 s1] H1; [apply wpe_wp, wp_ret; left; by destruct H1|
    by apply wpe_wp, wp_ret|].
  destruct H1 as (Hf & Hw & Hn & Hcd & Hcase & Hnc). apply wpe_wp, wp_bind.
  pose proof Hf as ([Hw1 Hl1 Hd1 Hb1 HA1] & Hm1 & Hq1 & Hst1). apply wp_lift.
  pose proof (zlen_cdata first Hw) as Ezf.
  eapply wp_mono; [apply (wp_bl2mem first l (bfirst q1 ++ F)); [done|done|]|].
  { rewrite app_assoc, (Permutation_app_comm first), <- app_assoc. exact HA1. }
  intros [d r] s2 (Hq2 & Hwr & HA2 & Hd & Hr & Hbl & Hz & Hlen). cbn [fst snd] in *.
  assert (zlen d = Z.min l n) as Ezd by (rewrite Hd, zlen_ztake; lia).
  apply wp_bind.
  apply (wp_mono _ _ (fun n' '(q3, s3) => n' = zlen d /\ qinv F q3 s3 /\ same_mode q q3 /\
    has Qflow q3 = has Qflow q /\ quiet s s3 /\
    bfirst q3 = (if has Qmsg q then [] else r) ++ bfirst q1)).
  - assert (has Qmsg q1 = has Qmsg q) as Emsg by apply Hm1.
    assert (has Qflow q1 = has Qflow q) as Efl by (unfold has; by rewrite Hst1).
    destruct r as [|b r].
    { apply wp_ret. change (blocklen []) with 0 in Hbl. split; [lia|].
      split; [by split|]. split; [done|]. split; [done|]. split; [by etrans|].
      by destruct (has Qmsg q). }
    destruct Hz as [|Hz]; [done|].
    assert (r = []) as ->.
    { destruct Hcase as [[b1 ->]|Hle]; [|lia]. cbn in Hlen. destruct r; [done|cbn in Hlen; lia]. }
    rewrite blocklen_cons in Hbl, Hz. change (blocklen []) with 0 in Hbl, Hz.
    apply Forall_inv in Hwr. apply wp_bind, wp_getq, wp_bind. rewrite Emsg.
    assert (qinv (b :: F) q1 s2) as Hi2.
    { split; try done. by rewrite <- Permutation_middle. }
    destruct (has Qmsg q).
    + apply wp_lift. eapply wp_mono; [apply wp_freeb; exact HA2|]. intros [] s3 [HA3 Hq3].
      apply wp_ret. split; [lia|]. split; [by split|]. split; [done|]. split; [done|].
      split; [etrans; [exact Hq1|by etrans]|done].
    + apply (wp_qputback F); [done|done|]. intros q3 Hi3 Hm3 Hst3 E3. apply wp_ret.
      split; [lia|]. split; [done|]. split; [by etrans|].
      split; [rewrite <- Efl; unfold has; by rewrite Hst3|]. split; [by etrans|done].
  - intros n' [q3 s3] (-> & Hi3 & Hm3 & Hfl3 & Hq3 & E3).
    apply wp_bind, wp_qwakeup_iunlock. intros q4 s4 evs Hf4 Hin. apply wp_ret. right.
    pose proof (flowed_spec _ _ _ _ _ _ Hf4 Hin Hi3) as (_ & _ & E4 & _).
    split; [by eapply (flowed_took F [])|]. split; [done|]. split; [lia|].
    rewrite E4, E3. split.
    + intros Hmsg. rewrite Hmsg, cdata_app, Hcd, app_assoc. f_equal.
      rewrite Hr, Hd. symmetry. apply ztake_zdrop.
    + intros Hmsg Hco. rewrite Hmsg. destruct (Hnc Hco) as (b & -> & Eb).
      exists b. by rewrite Hd, cdata_singleton.
Qed.

Lemma qcopy_seek_spec bl offset sofar :
  Forall wfb bl -> sofar <= offset ->
  match qcopy_seek bl offset sofar with
  | None => zdrop (offset - sofar) (cdata bl) = []
  | Some (b, k, next) => 0 <= k <= BLEN b /\ wfb b /\ Forall wfb next /\
      zdrop (offset - sofar) (cdata bl) = zdrop k (bdata b) ++ cdata next
  end.
Proof.
  intros Hw. revert sofar. induction Hw as [|b next Hb Hw IH]; intros sofar Hs; cbn [qcopy_seek].
  - apply zdrop_ge. change (0 <= offset - sofar). lia.
  - pose proof (wfb_BLEN b Hb). pose proof (zlen_bdata b Hb).
    destruct (Z.gtb_spec (sofar + BLEN b) offset).
    + rewrite cdata_cons, zdrop_app_le by lia. split_and!; (done || lia).
    + specialize (IH (sofar + BLEN b) ltac:(lia)).
      rewrite cdata_cons, zdrop_app_ge by lia.
      replace (offset - sofar - zlen (bdata b)) with (offset - (sofar + BLEN b)) by lia.
      exact IH.
Qed.

Lemma wp_qcopy_loop F nb b k next l sofar q s :
  qinv (nb :: F) q s -> wfb nb -> wfb b -> Forall wfb next -> 0 <= k <= BLEN b ->
  sofar <= l -> wpt nb + (l - sofar) <= lim nb ->
  wp (qcopy_loop nb b (rp b + k) (BLEN b - k) next l sofar) (q, s) (fun nb' '(q', s') =>
    q' = q /\ qinv (nb' :: F) q s' /\ events s' = events s /\ wfb nb' /\
    bdata nb' = bdata nb ++ ztake (l - sofar) (zdrop k (bdata b) ++ cdata next)).
Proof.
  intros Hi Hwn Hwb Hw. revert nb b k sofar s Hi Hwn Hwb.
  induction Hw as [|b2 next Hb2 Hw IH]; intros nb b k sofar s Hi Hwn Hwb Hk Hs Hl;
    pose proof (wfb_BLEN b Hwb); pose proof (zlen_bdata b Hwb) as Ezb; cbn [qcopy_loop].
  all: destruct (Z.ltb_spec sofar l);
    [|apply wp_ret; rewrite ztake_le by lia; rewrite app_nil_r; split_and!; done].
  all: cbv zeta; set (n := if BLEN b - k >? l - sofar then l - sofar else BLEN b - k);
    assert (n = Z.min (l - sofar) (BLEN b - k)) as En
      by (subst n; destruct (Z.gtb_spec (BLEN b - k) (l - sofar)); lia); clearbody n.
  all: apply wp_bind, wp_bread_q; [done|lia|lia|lia|].
  all: assert (slice k n (bdata b) = ztake (l - sofar) (zdrop k (bdata b))) as Ed
    by (unfold slice; destruct (Z.le_gt_cases (l - sofar) (BLEN b - k));
        [f_equal; lia|rewrite !ztake_ge by (rewrite zlen_zdrop; lia); done]).
  all: assert (zlen (slice k n (bdata b)) = n) as Ezn by (rewrite zlen_slice; lia).
  all: apply wp_bind, (wp_bappend_q F); [done|done|lia|]; intros nb' Hg Hi';
    apply wp_bind, wp_lift, wp_count; intros f;
    assert (qinv (nb' :: F) q (with_stat f s)) as Hi2 by (by eapply qinv_ext);
    pose proof Hg as (Hwn' & Hd & _ & _ & Hlm & _ & Hwp & _).
  - apply wp_ret. rewrite Hd, Ed. unfold cdata. cbn [fmap list_fmap concat].
    rewrite app_nil_r. split_and!; done.
  - pose proof (IH nb' b2 0 (sofar + n) (with_stat f s) Hi2 Hwn' Hb2) as IH'.
    rewrite Z.add_0_r, Z.sub_0_r in IH'. pose proof (wfb_BLEN b2 Hb2).
    eapply wp_mono; [apply IH'; lia|].
    intros nb2 [q2 s2] (-> & ? & ? & ? & Hd2). split_and!; try done.
    rewrite Hd2, Hd, Ed, <- app_assoc, (zdrop_le 0) by lia. f_equal. rewrite <- cdata_cons.
    destruct (Z.le_gt_cases (l - sofar) (BLEN b - k)).
    + rewrite (ztake_app_le (l - sofar)) by (rewrite zlen_zdrop; lia).
      rewrite (ztake_le (l - (sofar + n))) by lia. apply app_nil_r.
    + rewrite (ztake_app_ge (l - sofar)) by (rewrite zlen_zdrop; lia).
      rewrite ztake_ge by (rewrite zlen_zdrop; lia). do 2 f_equal. rewrite zlen_zdrop. lia.
Qed.

Lemma wp_qcopy F l offset q s :
  qinv F q s -> 0 <= l -> 0 <= offset ->
  wp (qcopy l offset) (q, s) (fun nb '(q', s') =>
    q' = q /\ qinv (nb :: F) q s' /\ events s' = events s /\
    bdata nb = slice offset l (cdata (bfirst q))).
Proof.
  intros Hi Hl Ho. unfold qcopy. apply wp_bind, (wp_allocb_q F); [done|done|].
  intros nb s1 Hf Hi1 [Hq _]. apply wp_bind, wp_getq.
  pose proof (qi_wf _ _ _ Hi) as Hw.
  pose proof (qcopy_seek_spec (bfirst q) offset 0 Hw Ho) as Hseek. rewrite Z.sub_0_r in Hseek.
  pose proof Hf as (Hwn & Hwr & Hsz & _).
  destruct (qcopy_seek (bfirst q) offset 0) as [[[b k] next]|].
  - destruct Hseek as (Hk & Hwb & Hwx & Hd).
    eapply wp_mono; [apply (wp_qcopy_loop F); try done; lia|].
    intros nb' [q' s'] (-> & ? & ? & ? & Hd'). split_and!; try done; [congruence|].
    rewrite Hd', (fresh_bdata _ _ Hf), Z.sub_0_r, <- Hd. done.
  - apply wp_ret. split_and!; try done. unfold slice. rewrite Hseek, (fresh_bdata _ _ Hf).
    unfold ztake. by rewrite take_nil.
Qed.

Lemma wp_qiwrite_loop F fuel p sofar dw q s :
  (length p < fuel)%nat -> qinv F q s -> mp s <= 1000 ->
  wp (qiwrite_loop fuel p sofar dw) (q, s) (fun k '(q', s') =>
    qinv F q' s' /\ same_mode q q' /\ sofar <= k <= sofar + zlen p /\
    cdata (bfirst q') = cdata (bfirst q) ++ ztake (k - sofar) p).
Proof.
  revert p sofar dw q s. induction fuel as [|fuel IH]; intros p sofar dw q s Hf Hi Hmp; [lia|].
  cbn [qiwrite_loop]. cbv zeta. pose proof (zlen_nonneg p). assert (0 < Maxatomic) by done.
  set (n := if zlen p >? Maxatomic then Maxatomic else zlen p).
  assert (n = Z.min Maxatomic (zlen p)) as En.
  { subst n. destruct (Z.gtb_spec (zlen p) Maxatomic); lia. }
  clearbody n. assert (zlen (ztake n p) = n) as Ez by (rewrite zlen_ztake; lia).
  assert (forall q' s', qinv F q' s' -> same_mode q q' -> bfirst q' = bfirst q ->
    qinv F q' s' /\ same_mode q q' /\ sofar <= sofar <= sofar + zlen p /\
    cdata (bfirst q') = cdata (bfirst q) ++ ztake (sofar - sofar) p) as Hstop.
  { intros q' s' ? ? ->. rewrite Z.sub_diag, ztake_le, app_nil_r by lia. split_and!; (done || lia). }
  pose proof Hi as [_ _ _ _ HA]. apply wp_bind, wp_lift.
  eapply wp_mono; [apply wp_iallocb; [lia|exact HA|done]|]. intros [b|] s1 [Hev Ho].
  2: { destruct Ho as [_ HA1]. apply wp_ret, Hstop; try done. destruct Hi. by split. }
  destruct Ho as (_ & Hfb & HA1 & (_ & _ & Hmp1)).
  assert (qinv (b :: F) q s1) as Hi1.
  { destruct Hi. split; try done. by rewrite <- Permutation_middle. }
  pose proof Hfb as (? & ? & ? & _).
  apply wp_bind, (wp_bappend_q F); [done|done|lia|]. intros b' Hg Hi2.
  destruct (fresh_filled _ _ _ _ Hfb Hg) as (Hbd & Hwb & HB). rewrite Ez in HB.
  apply wp_bind, wp_getq. destruct (dlen q >=? 32 * 1024).
  { apply wp_bind, (wp_freeb_front F q s1 q s1); [done|].
    intros s2 (Hi3 & _). by apply wp_ret, Hstop. }
  eapply wp_enqueue; [exact Hi2|done|done|]. intros q1 Hi3 Hm3 _ E3 _.
  apply wp_bind, wp_unstarve, wp_bind, wp_getq, wp_bind, wp_wakeup_if, wp_bind, wp_wakeup_if.
  set (q2 := if has Qstarve q1 then _ else q1). set (s2 := if _ || _ then _ else _).
  assert (same_mode q q2 /\ bfirst q2 = bfirst q ++ [b'] /\ qinv F q2 s2 /\ mp s2 = mp s)
    as (Hm4 & E4 & Hi4 & Hmp4).
  { unfold q2, s2. rewrite <- Hmp1.
    destruct (has Qstarve q1), dw, (kick _); cbn; (split;
      [solve [done | etrans; [exact Hm3|apply same_mode_clear_starve]]|
       split; [done|split; [by eapply qinv_ext|done]]]). }
  assert (cdata (bfirst q2) = cdata (bfirst q) ++ ztake n p) as Hcd.
  { by rewrite E4, cdata_app, cdata_singleton, Hbd. }
  rewrite zlen_zdrop. destruct (Z.gtb_spec (Z.max 0 (zlen p - Z.max 0 n)) 0);
    destruct (has Qmsg q2); cbn [andb negb].
  2: { eapply wp_mono; [apply IH; [|exact Hi4|lia]|].
       { unfold zdrop, zlen in *. rewrite length_drop. lia. }
       intros k [q3 s3] (? & Hm5 & Hk & Hd3). rewrite zlen_zdrop in *. split; [done|].
       split; [by etrans|]. split; [lia|]. rewrite Hd3, Hcd, <- app_assoc. f_equal.
       rewrite <- (ztake_zdrop n p) at 3. rewrite ztake_app_ge by lia.
       rewrite Ez. do 2 f_equal. lia. }
  all: apply wp_ret; replace (sofar + n - sofar) with n by lia;
       split; [done|]; split; [done|]; split; [lia|done].
Qed.

Lemma wp_qiwrite F p q s :
  qinv F q s -> mp s <= 1000 ->
  wp (qiwrite p) (q, s) (fun k '(q', s') =>
    qinv F q' s' /\ same_mode q q' /\ 0 <= k <= zlen p /\
    cdata (bfirst q') = cdata (bfirst q) ++ ztake k p).
Proof.
  intros Hi Hmp. eapply wp_mono; [apply (wp_qiwrite_loop F); [lia|done|done]|].
  intros k [q' s']. rewrite Z.sub_0_r, Z.add_0_l. done.
Qed.
End Specs.

(** ** The abstract view: a queue is a byte stream *)

Inductive QOp : Type :=
  | OGet | ODiscard (n : Z) | OPass (p : list Z) | OProduce (p : list Z)
  | OBread (n : Z) | ORead (n : Z) | OBwrite (woke : bool) (p : list Z)
  | OWrite (woke : bool) (p : list Z) | OIwrite (p : list Z) | OConsume (n : Z)
  | OCopy (l off : Z).

Section Stream.
Context `{MA : Malloc, MO : !MallocOk MA}.
Implicit Types (q : Queue) (s : Bst) (F bl : list Block).

(** One operation with its caller: a reader releases the block it was given,
    a writer makes the block it passes.  The result is the bytes accepted
    into the queue and the bytes delivered from it. *)
Definition run_qop (o : QOp) : M Qst (list Z * list Z) :=
  match o with
  | OGet =>
      r <- qget ;;
      match r with
      | None => ret ([], [])
      | Some b => lift (freeb b) ;; ret ([], bdata b)
      end
  | ODiscard n =>
      q <- getq ;; r <- qdiscard n ;; ret ([], ztake r (cdata (bfirst q)))
  | OPass p =>
      bl <- lift (mem2bl p) ;; r <- qpass bl ;; ret (if r =? -1 then [] else p, [])
  | OProduce p => r <- qproduce p ;; ret (if r >? 0 then p else [], [])
  | OBread n =>
      r <- qbread n ;;
      match r with
      | Some (Some b) => lift (freeb b) ;; ret ([], bdata b)
      | _ => ret ([], [])
      end
  | ORead n => r <- qread n ;; ret ([], default [] (fst <$> r))
  | OBwrite woke p =>
      b <- lift (allocb (zlen p)) ;; b <- lift (bappend b p) ;; qbwrite woke b ;; ret (p, [])
  | OWrite woke p => r <- qwrite woke p ;; ret (ztake (fst r) p, [])
  | OIwrite p => r <- qiwrite p ;; ret (ztake r p, [])
  | OConsume n => r <- qconsume n ;; ret ([], fst r)
  | OCopy l off => b <- qcopy l off ;; lift (freeb b) ;; ret ([], [])
  end.

(** Counts are not negative; [qconsume] is called with data queued; the
    error budget of [iallocb] is not spent. *)
Definition qop_pre (o : QOp) (q : Queue) (s : Bst) : Prop :=
  match o with
  | ODiscard n | OBread n | ORead n => 0 <= n
  | OConsume n => 0 <= n /\ 0 < blocklen (bfirst q)
  | OCopy l off => 0 <= l /\ 0 <= off
  | OProduce _ | OIwrite _ => mp s <= 1000
  | _ => True
  end.

Definition stream (q : Queue) : Prop := has Qmsg q = false /\ writable q.
Lemma stream_mode q q' : same_mode q q' -> stream q -> stream q'.
Proof.
  intros Hm [? ?]. split; [|by eapply writable_mode].
  assert (has Qmsg q' = has Qmsg q) as -> by apply Hm. done.
Qed.

(** What every operation does to the stream. *)
Definition fifo_post F q (r : list Z * list Z) (q' : Queue) (s' : Bst) : Prop :=
  qinv F q' s' /\ same_mode q q' /\
  cdata (bfirst q) ++ fst r = snd r ++ cdata (bfirst q').

Lemma wp_free_took F b q s q' s' (r : list Z * list Z) (Q : list Z * list Z -> Qst -> Prop) :
  took F [b] q s q' s' -> (forall s2, qinv F q' s2 -> Q r (q', s2)) ->
  wp (lift (freeb b) ;; ret r) (q', s') Q.
Proof.
  intros (Hi & _) HQ. apply wp_bind, (wp_freeb_front F q' s' q' s'); [done|].
  intros s2 (Hi2 & _). by apply wp_ret, HQ.
Qed.
Lemma wpe_closed_wp {A} (m : M Qst A) q s (Q : A -> Qst -> Prop) (E : string -> Qst -> Prop) :
  has Qclosed q = false -> wpe m (q, s) Q E ->
  (forall e st, E e st -> has Qclosed q = true) -> wp m (q, s) Q.
Proof.
  intros Hc H HE. unfold wpe, wp in *. destruct (m (q, s)); try done.
  apply HE in H. congruence.
Qed.

Lemma wp_run_qop F o q s :
  qinv F q s -> stream q -> qop_pre o q s ->
  wp (run_qop o) (q, s) (fun r '(q', s') => fifo_post F q r q' s').
Proof.
  intros Hi [Hmsg Hwr] Hpre. pose proof Hwr as (Hcl & _). unfold fifo_post.
  destruct o as [|n|p|p|n|n|woke p|woke p|p|n|l off]; cbn [run_qop qop_pre] in *.
  - apply wp_bind. eapply wp_mono; [by apply (wp_qget F)|]. intros [b|] [q' s'] H.
    + destruct H as (E & Ht & Hw). eapply wp_free_took; [exact Ht|]. intros s2 Hi2.
      split; [done|]. split; [apply Ht|]. cbn. by rewrite E, cdata_cons, app_nil_r.
    + destruct H as (E & ? & ? & E' & _). apply wp_ret. cbn. by rewrite E, E'.
  - apply wp_bind, wp_getq, wp_bind. eapply wp_mono; [by apply (wp_qdiscard F)|].
    intros r [q' s'] ((Hi' & Hm & _) & Hr & Hd). apply wp_ret. cbn [fst snd].
    split; [exact Hi'|]. split; [done|]. pose proof (zlen_cdata _ (qi_wf _ _ _ Hi)) as Ez.
    rewrite app_nil_r, Hd, Hr, <- Ez.
    destruct (Z.le_gt_cases n (zlen (cdata (bfirst q)))).
    + rewrite Z.min_l by lia. symmetry. apply ztake_zdrop.
    + rewrite Z.min_r, ztake_ge, zdrop_ge, app_nil_r by lia. done.
  - apply wp_bind, wp_lift. pose proof Hi as [? ? ? ? HA].
    eapply wp_mono; [by apply (wp_mem2bl p)|]. intros bl s1 (_ & Hw & HA1 & Hd & Hne & _).
    assert (qinv (bl ++ F) q s1) as Hi1.
    { split; try done. by rewrite Permutation_app_swap_app. }
    apply wp_bind. eapply wp_mono; [by apply (wp_qpass F)|]. intros r [q' s'] H.
    apply wp_ret. cbn [fst snd]. destruct (len q >=? limit q).
    + destruct H as (-> & -> & ?). by rewrite app_nil_r.
    + rewrite Hcl in H. destruct H as ((? & ? & _) & Hr & E).
      assert (0 <= blockalloclen bl) as Hnn.
      { clear. induction bl as [|b bl IH]; [done|]. rewrite blockalloclen_cons.
        pose proof (zlen_nonneg (buf b)). unfold BALLOC, lim. lia. }
      destruct (Z.eqb_spec r (-1)); [lia|]. split; [done|]. split; [done|].
      by rewrite E, cdata_app, Hd.
  - apply wp_bind. eapply wp_mono; [by apply (wp_qproduce F)|]. intros r [q' s'] H. apply wp_ret.
    cbn [fst snd app]. destruct (len q >=? limit q).
    + destruct H as (-> & ? & ? & -> & _). by rewrite app_nil_r.
    + destruct H as [(-> & _ & -> & ?)|(-> & (? & ? & _) & E)]; [by rewrite app_nil_r|].
      split; [done|]. split; [done|]. rewrite E. destruct (Z.gtb_spec (zlen p) 0); [done|].
      destruct p; [done|]. unfold zlen in *. cbn [length] in *. lia.
  - apply wp_bind.
    eapply wp_mono; [eapply (wpe_closed_wp _ _ _ _ _ Hcl (wpe_qbread F n q s Hi Hpre));
      intros e [q' s'] [H _]; done|].
    intros [[nb|]|] [q' s'] H.
    + destruct H as (Ht & Hw & b & next & E & Hd & Hc). rewrite Hmsg in Hc.
      eapply wp_free_took; [exact Ht|]. intros s2 Hi2. split; [done|]. split; [apply Ht|].
      cbn [fst snd]. by rewrite app_nil_r.
    + destruct H as [H _]. congruence.
    + destruct H as (E & _ & ? & E' & ? & _). apply wp_ret. by rewrite E, E'.
  - apply wp_bind.
    eapply wp_mono; [eapply (wpe_closed_wp _ _ _ _ _ Hcl (wpe_qread F n q s Hi Hpre));
      intros e [q' s'] [H _]; done|].
    intros [[d k]|] [q' s'] H; apply wp_ret; cbn [fst snd default fmap option_fmap option_map].
    + destruct H as [[H _]|((Hi' & Hm & _) & _ & _ & Hc & _)]; [congruence|].
      rewrite app_nil_r. auto.
    + destruct H as (_ & (E & _ & E' & ?) & ? & _). rewrite E, E'. done.
  - apply (wp_fill F); [done|]. intros b s1 Hd Hw HB Hi1 _. apply wp_bind.
    eapply wp_mono; [by apply (wp_qbwrite F)|]. intros r [q' s'] [(? & ? & _) E].
    apply wp_ret. cbn [fst snd app]. split; [done|]. split; [done|].
    by rewrite E, cdata_app, cdata_singleton, Hd.
  - apply wp_bind. eapply wp_mono; [apply (wp_qwrite F woke p); [done|done|congruence]|].
    intros r [q' s'] ((? & ? & _) & _ & Hd & _). by apply wp_ret.
  - apply wp_bind. eapply wp_mono; [by apply (wp_qiwrite F)|].
    intros r [q' s'] (? & ? & _ & Hd). by apply wp_ret.
  - destruct Hpre as [Hn Hb]. apply wp_bind. eapply wp_mono; [by apply (wp_qconsume F)|].
    intros [d k] [q' s'] ((Hi' & Hm & _) & Hk & Hd & _ & _ & Hc). apply wp_ret.
    cbn [fst snd]. rewrite Hc by done. rewrite app_nil_r.
    split; [exact Hi'|]. split; [done|]. by rewrite Hd, ztake_zdrop.
  - destruct Hpre as [Hl Ho]. apply wp_bind. eapply wp_mono; [by apply (wp_qcopy F)|].
    intros nb [q' s'] (-> & Hi' & _ & _). apply wp_bind, (wp_freeb_front F q s' q s'); [done|].
    intros s2 (Hi2 & _). apply wp_ret. cbn. rewrite app_nil_r. done.
Qed.

(** A history of operations, each called as its callers must: the bytes
    accepted and the bytes delivered. *)
Inductive history : Queue -> Bst -> list Z -> list Z -> Queue -> Bst -> Prop :=
  | history_nil q s : history q s [] [] q s
  | history_op o q s a d q1 s1 acc del q2 s2 :
      qop_pre o q s ->
      run_qop o (q, s) = Ret (a, d) (q1, s1) ->
      history q1 s1 acc del q2 s2 ->
      history q s (a ++ acc) (d ++ del) q2 s2.

(** C2: an open byte-stream queue is a FIFO. In every history of reads
    ([qget], [qread], [qbread], [qdiscard], [qconsume], [qcopy]) and writes
    ([qwrite], [qbwrite], [qiwrite], [qpass], [qproduce]), the bytes queued
    at the start followed by the bytes accepted are the bytes delivered, in
    the same order, followed by the bytes still queued; the byte counts and
    the last-block pointer stay right, and no block is lost or freed twice. *)
Theorem queue_fifo (F : list Block) q s acc del q' s' :
  qinv F q s -> stream q -> history q s acc del q' s' ->
  qinv F q' s' /\ stream q' /\ cdata (bfirst q) ++ acc = del ++ cdata (bfirst q').
Proof.
  intros Hi Hs Hh. induction Hh as [q s|o q s a d q1 s1 acc del q2 s2 Hp Hr Hh IH].
  - by rewrite app_nil_r.
  - pose proof (wp_run_qop F o q s Hi Hs Hp) as H. unfold wp in H. rewrite Hr in H.
    destruct H as (Hi1 & Hm & Hd). cbn [fst snd] in Hd.
    destruct IH as (? & ? & IH); [done|by eapply stream_mode|].
    split; [done|]. split; [done|]. by rewrite app_assoc, Hd, <- app_assoc, IH, app_assoc.
Qed.

(** C27: on an open byte-stream queue every operation, called as its callers
    must, returns: it does not panic, raise an error, follow a nil or stale
    pointer or copy outside a block, and the queue invariant holds after it. *)
Theorem queue_op_safe (F : list Block) (o : QOp) q s :
  qinv F q s -> stream q -> qop_pre o q s ->
  exists a d q' s', run_qop o (q, s) = Ret (a, d) (q', s') /\ qinv F q' s' /\ stream q'.
Proof.
  intros Hi Hs Hp. pose proof (wp_run_qop F o q s Hi Hs Hp) as H.
  apply wp_exists in H as ([a d] & [q' s'] & E & Hi' & Hm & _).
  exists a, d, q', s'. split; [done|]. split; [done|]. by eapply stream_mode.
Qed.
End Stream.

(** ** Properties of single operations *)
Section QioProps.
Context `{MA : Malloc, MO : !MallocOk MA}.
Implicit Types (q : Queue) (s : Bst) (F bl : list Block).

(** The state bits after the two updates of [qclose]. *)
Lemma closed_bits x b1 e1 q :
  has Qclosed (set_noblock b1 (set_lens 0 0 (set_bfirst x (set_err e1
    (clear_bit (Z.lor Qflow Qstarve) (raise_bit Qclosed q)))))) = true /\
  has Qflow (set_noblock b1 (set_lens 0 0 (set_bfirst x (set_err e1
    (clear_bit (Z.lor Qflow Qstarve) (raise_bit Qclosed q)))))) = false /\
  has Qstarve (set_noblock b1 (set_lens 0 0 (set_bfirst x (set_err e1
    (clear_bit (Z.lor Qflow Qstarve) (raise_bit Qclosed q)))))) = false.
Proof.
  change Qclosed with (2 ^ 2). change Qflow with (2 ^ 3). change Qstarve with (2 ^ 0).
  rewrite !has_testbit by lia.
  cbn [state set_noblock set_lens set_bfirst set_err clear_bit raise_bit set_state].
  rewrite !Z.land_spec, !Z.lnot_spec, !Z.lor_spec by lia. cbn.
  by rewrite orb_true_r, !andb_false_r.
Qed.
(** A read of a queue that is closed and empty. *)
Lemma qread_closed n q s :
  bfirst q = [] -> has Qclosed q = true -> err q = Ehungup ->
  qread n (q, s) = if eof q + 1 >? 3 then Error Ehungup (set_eof (eof q + 1) q, s)
                   else Ret (Some ([], 0)) (set_eof (eof q + 1) q, s).
Proof.
  intros E Hc He. unfold qread, bind, getq, gets. cbn [fst]. rewrite E. cbn [length qread_first].
  unfold bind, qwait, bind, getq, gets. cbn [fst]. rewrite E, Hc. cbn.
  destruct (eof q + 1 >? 3); cbn; [by rewrite He|]. by rewrite He.
Qed.

(** C15: no lost wakeups on the reader's side. A read that goes to sleep
    leaves the queue empty with [Qstarve] set; and every write that queues
    data ([qbwrite], [qwrite], [qpass] and [qproduce] below the limit)
    clears [Qstarve] and, if it was set, wakes the reader. *)
Theorem starved_reader_is_woken (F bl : list Block) (b : Block) (woke : bool) (p : list Z) (l : Z) q s :
  qinv F q s -> writable q -> 0 <= l ->
  wp (qread l) (q, s) (fun r '(q', s') => r = None -> has Qstarve q' = true /\ bfirst q' = []) /\
  wp (qbread l) (q, s) (fun r '(q', s') => r = None -> has Qstarve q' = true /\ bfirst q' = []) /\
  (has Qmsg q = true \/ zlen p <= Maxatomic -> wp (qwrite woke p) (q, s) (fun _ '(q', s') => wakes_reader q s q' s')) /\
  (forall s1, qinv (b :: F) q s1 -> wfb b ->
    wp (qbwrite woke b) (q, s1) (fun _ '(q', s') => wakes_reader q s1 q' s')) /\
  (forall s1, qinv (bl ++ F) q s1 -> Forall wfb bl -> bl <> [] -> len q < limit q ->
    wp (qpass bl) (q, s1) (fun _ '(q', s') => wakes_reader q s1 q' s')) /\
  (mp s <= 1000 -> wp (qproduce p) (q, s) (fun r '(q', s') => 0 < r -> wakes_reader q s q' s')).
Proof.
  intros Hi Hw Hl. pose proof Hw as (Hcl & _). split; [|split; [|split; [|split; [|split]]]].
  - eapply wp_mono; [eapply (wpe_closed_wp _ _ _ _ _ Hcl (wpe_qread F l q s Hi Hl));
      intros e [q' s'] [H _]; done|].
    intros [r|] [q' s'] H; [done|]. intros _. by destruct H as (_ & (_ & _ & ? & _) & _ & ?).
  - eapply wp_mono; [eapply (wpe_closed_wp _ _ _ _ _ Hcl (wpe_qbread F l q s Hi Hl));
      intros e [q' s'] [H _]; done|].
    intros [r|] [q' s'] H; [done|]. intros _. by destruct H as (_ & _ & _ & ? & _ & ?).
  - intros _. unfold qwrite. apply wp_bind.
    eapply wp_mono; [apply (wp_qwrite_loop F); [lia|done|done]|].
    intros [k g] [q' s'] ((_ & _ & ?) & _). by apply wp_ret.
  - intros s1 Hi1 Hwb. eapply wp_mono; [by apply (wp_qbwrite F)|].
    by intros r [q' s'] [(_ & _ & ?) _].
  - intros s1 Hi1 Hwb Hne Hlt. eapply wp_mono; [by apply (wp_qpass F)|].
    intros r [q' s'] H. destruct (Z.geb_spec (len q) (limit q)); [lia|]. rewrite Hcl in H.
    by destruct H as ((_ & _ & ?) & _).
  - intros Hmp. eapply wp_mono; [by apply (wp_qproduce F)|]. intros r [q' s'] H Hr.
    destruct (len q >=? limit q); [destruct H; lia|].
    destruct H as [(-> & _)|(_ & (_ & _ & ?) & _)]; [lia|done].
Qed.

(** C25: no lost wakeups on the writer's side. A [qbwrite] that goes to sleep
    leaves [Qflow] set; and the operations that read ([qget], [qdiscard], [qbread], [qread], [qconsume]) clear
    [Qflow] and wake the writer once the queue is below half its limit. [qflush] always wakes the writer, but leaves
    [Qflow] as it is. *)
Theorem flow_controlled_writer_is_woken (F : list Block) (b : Block) (woke : bool) (n : Z) q s :
  qinv F q s -> has Qclosed q = false -> bypass q = false -> 0 <= n ->
  (forall s1, qinv (b :: F) q s1 -> wfb b ->
    wp (qbwrite woke b) (q, s1) (fun r '(q', s') => snd r = false -> has Qflow q' = true)) /\
  wp qget (q, s) (fun r '(q', s') => r <> None -> wakes_writer q s q' s') /\
  wp (qdiscard n) (q, s) (fun _ '(q', s') => wakes_writer q s q' s') /\
  wp (qbread n) (q, s) (fun r '(q', s') => r <> None -> wakes_writer q s q' s') /\
  wp (qread n) (q, s) (fun r '(q', s') => r <> None -> wakes_writer q s q' s') /\
  (0 < blocklen (bfirst q) -> wp (qconsume n) (q, s) (fun _ '(q', s') => wakes_writer q s q' s')) /\
  wp qflush (q, s) (fun _ '(q', s') => qinv F q' s' /\ len q' = 0 /\ state q' = state q /\ events s' = events s ++ [Wakeup_wr]).
Proof.
  intros Hi Hcl Hby Hn. split; [|split; [|split; [|split; [|split; [|split]]]]].
  - intros s1 Hi1 Hwb. eapply wp_mono; [eapply (wpe_closed_wp _ _ _ _ _ Hcl (wpe_qbwrite F woke b q s1 Hi1 Hwb));
      by intros e [q' s'] (_ & H & _)|].
    intros r [q' s'] (_ & H) Hr. rewrite Hby in H. destruct H as (_ & H).
    destruct (_ && _); [destruct H as (_ & _ & ?); congruence|].
    by apply H.
  - eapply wp_mono; [by apply (wp_qget F)|]. intros [b'|] [q' s'] H; [|done].
    by destruct H as (_ & (_ & _ & ?) & _).
  - eapply wp_mono; [by apply (wp_qdiscard F)|]. by intros r [q' s'] ((_ & _ & ?) & _).
  - eapply wp_mono; [eapply (wpe_closed_wp _ _ _ _ _ Hcl (wpe_qbread F n q s Hi Hn));
      intros e [q' s'] [H _]; done|].
    intros [[r|]|] [q' s'] H; [|destruct H; congruence|done].
    by destruct H as ((_ & _ & ?) & _).
  - eapply wp_mono; [eapply (wpe_closed_wp _ _ _ _ _ Hcl (wpe_qread F n q s Hi Hn));
      intros e [q' s'] [H _]; done|].
    intros [[d k]|] [q' s'] H; [|done].
    by destruct H as [[? _]|((_ & _ & ?) & _)]; [congruence|].
  - intros Hb. eapply wp_mono; [by apply (wp_qconsume F)|].
    by intros [d k] [q' s'] ((_ & _ & ?) & _).
  - apply wp_exists. destruct (proj1 (wp_exists _ _ _) (wp_freeblist (bfirst q) F s (qi_acct _ _ _ Hi))) as ([] & s1 & E & HA & Hq).
    eexists tt, (set_lens 0 0 (set_bfirst [] q), with_events (events s1 ++ [Wakeup_wr]) s1). split.
    + unfold qflush, bind, getq, gets, setq, modify, lift, emitq. cbn. by rewrite E.
    + split; [split; [by apply Forall_nil_2|done|done|intros N; by destruct N|exact HA]|]. do 2 (split; [done|]). cbn. by rewrite (proj1 Hq).
Qed.

(** A message queue keeps message boundaries: a block written is one
    message at the end; a read of [n] bytes takes the first message, returns
    its first [n] bytes and drops the rest of it, and the messages behind it
    are untouched. *)
Theorem message_boundaries (F : list Block) (b : Block) (woke : bool) (n : Z) q s :
  qinv (b :: F) q s -> wfb b -> has Qmsg q = true -> has Qcoalesce q = false ->
  writable q -> 0 <= n ->
  wp (qbwrite woke b) (q, s) (fun _ '(q1, s1) =>
    bdata <$> bfirst q1 = (bdata <$> bfirst q) ++ [bdata b] /\
    wp (qread n) (q1, s1) (fun r '(q2, s2) => exists m ms,
      bdata <$> bfirst q1 = m :: ms /\ bdata <$> bfirst q2 = ms /\
      r = Some (ztake n m, zlen (ztake n m))) /\
    wp (qbread n) (q1, s1) (fun r '(q2, s2) => exists m ms nb,
      bdata <$> bfirst q1 = m :: ms /\ bdata <$> bfirst q2 = ms /\
      r = Some (Some nb) /\ bdata nb = ztake n m)).
Proof.
  intros Hi Hwb Hmsg Hco Hwr Hn. eapply wp_mono; [by apply (wp_qbwrite F)|].
  intros r [q1 s1] [(Hi1 & Hm1 & _) E1].
  assert (has Qmsg q1 = true) as Hmsg1 by (rewrite <- Hmsg; apply Hm1).
  assert (has Qcoalesce q1 = false) as Hco1 by (rewrite <- Hco; apply Hm1).
  assert (writable q1) as (Hcl1 & _) by (by eapply writable_mode).
  assert (bfirst q1 <> []) as Hne by (rewrite E1; by destruct (bfirst q)).
  assert (forall (q' : Queue) x, bdata <$> bfirst q1 = bdata <$> x :: bfirst q' ->
    bdata <$> bfirst q1 = bdata x :: (bdata <$> bfirst q')) as Hcons by done.
  split; [by rewrite E1, fmap_app|]. split.
  - eapply wp_mono; [eapply (wpe_closed_wp _ _ _ _ _ Hcl1 (wpe_qread F n q1 s1 Hi1 Hn));
      intros e [q' s'] [H _]; done|].
    intros [[d k]|] [q2 s2] H.
    + destruct H as [[H _]|(_ & -> & _ & _ & Hm)]; [congruence|].
      destruct (Hm Hmsg1 Hco1) as (b1 & Eb & ->). exists (bdata b1), (bdata <$> bfirst q2).
      by rewrite Eb, fmap_cons.
    + destruct H as (_ & (_ & E & _) & _). by destruct (Hne (E Hco1)).
  - eapply wp_mono; [eapply (wpe_closed_wp _ _ _ _ _ Hcl1 (wpe_qbread F n q1 s1 Hi1 Hn));
      intros e [q' s'] [H _]; done|].
    intros [[nb|]|] [q2 s2] H.
    + destruct H as (_ & _ & b1 & next & Eb & Hd & Hx). rewrite Hmsg1 in Hx.
      exists (bdata b1), (bdata <$> next), nb. by rewrite Eb, fmap_cons, Hx.
    + destruct H. congruence.
    + by destruct H.
Qed.

(** [qclose] releases every queued block, zeroes the counts and wakes
    both sides. From then on reads return end of file three times and raise
    [Ehungup] from the fourth on, a write raises it at once and releases
    its block, and [qreopen] makes the queue usable again. *)
Theorem closed_queue (F : list Block) (b : Block) (woke : bool) (n : Z) q s :
  qinv F q s -> eof q = 0 -> bypass q = false ->
  wp qclose (q, s) (fun _ '(q1, s1) =>
    bfirst q1 = [] /\ qinv F q1 s1 /\ len q1 = 0 /\ dlen q1 = 0 /\
    events s1 = events s ++ [Wakeup_rr; Wakeup_wr] /\
    has Qclosed q1 = true /\ has Qflow q1 = false /\ has Qstarve q1 = false /\
    exists q2 q3 q4 q5, qread n (q1, s1) = Ret (Some ([], 0)) (q2, s1) /\
      qread n (q2, s1) = Ret (Some ([], 0)) (q3, s1) /\
      qread n (q3, s1) = Ret (Some ([], 0)) (q4, s1) /\
      qread n (q4, s1) = Error Ehungup (q5, s1) /\
      (forall s2, qinv (b :: F) q1 s2 -> wfb b -> exists s3,
        qbwrite woke b (q1, s2) = Error Ehungup (q1, s3) /\ qinv F q1 s3) /\
      exists q6, qreopen (q5, s1) = Ret tt (q6, s1) /\ qinv F q6 s1 /\
        has Qclosed q6 = false /\ eof q6 = 0 /\ limit q6 = inilim q).
Proof.
  intros [Hw Hl Hd Hb HA] He Hby. unfold qclose. apply wp_bind, wp_getq.
  do 6 apply wp_bind, wp_setq. set (q1 := set_noblock false _).
  apply wp_bind, wp_lift. eapply wp_mono; [by apply (wp_freeblist (bfirst q) F)|].
  intros [] s0 [HA0 [Hev _]]. apply wp_bind, wp_lift, wp_modify, wp_lift, wp_modify.
  set (s1 := with_events _ _).
  assert (qinv F q1 s1) as Hi1.
  { split; try done. by intros []. }
  assert (has Qclosed q1 = true /\ has Qflow q1 = false /\ has Qstarve q1 = false)
    as (Hc & Hfl & Hst) by (apply closed_bits).
  assert (forall k, 0 <= k -> has Qclosed (set_eof k q1) = true) as Hck by (intros; exact Hc).
  split_and!; try done; [cbn; by rewrite Hev, <- app_assoc|].
  exists (set_eof 1 q1), (set_eof 2 q1), (set_eof 3 q1), (set_eof 4 q1).
  pose proof (qread_closed n q1 s1 eq_refl Hc eq_refl) as Hr1.
  change (eof q1) with (eof q) in Hr1. rewrite He in Hr1.
  split; [exact Hr1|].
  split; [exact (qread_closed n (set_eof 1 q1) s1 eq_refl Hc eq_refl)|].
  split; [exact (qread_closed n (set_eof 2 q1) s1 eq_refl Hc eq_refl)|].
  split; [exact (qread_closed n (set_eof 3 q1) s1 eq_refl Hc eq_refl)|].
  split.
  - intros s2 Hi2 Hwb. pose proof (wpe_qbwrite F woke b q1 s2 Hi2 Hwb) as H.
    unfold wpe in H. destruct (qbwrite woke b (q1, s2)) as [r [q' s']|e [q' s']| |]; try done.
    + change (bypass q1) with (bypass q) in H. rewrite Hby in H. destruct H as (_ & H & _). congruence.
    + destruct H as (_ & _ & -> & -> & ?). by exists s'.
  - eexists. split; [reflexivity|]. split; [by eapply qinv_ext|].
    split; [|done]. change (has Qclosed (raise_bit Qstarve (clear_bit Qclosed (set_eof 4 q1))) = false).
    by bits.
Qed.

(** A defect of [qconsume]. On a queue whose blocks are all empty it
    unlinks the blocks and returns -1 without freeing them: they are still
    counted in use, and nothing refers to them any more. *)
Theorem qconsume_leaks_empty_blocks (F : list Block) (n : Z) q s :
  qinv F q s -> blocklen (bfirst q) = 0 ->
  wp (qconsume n) (q, s) (fun r '(q', s') => snd r = -1 /\ bfirst q' = [] /\ s' = s /\
    acct (bfirst q ++ F) s' /\ (bfirst q <> [] -> ~ qinv F q' s')).
Proof.
  intros Hi H0. pose proof Hi as [_ _ _ _ HA]. unfold qconsume. apply wp_bind, wp_getq, wp_bind.
  eapply wp_mono; [by apply (wp_qconsume_skip F _ [])|].
  intros [[b|] tf] [q' s'] (-> & Hi' & _ & _ & Hd & Ho).
  { exfalso. destruct Ho as (next & E & Hb).
    pose proof (zlen_cdata _ (qi_wf _ _ _ Hi)) as E1. rewrite H0, <- Hd in E1.
    rewrite (zlen_cdata _ (qi_wf _ _ _ Hi')), E, blocklen_cons in E1.
    pose proof (qi_wf _ _ _ Hi') as Hw. rewrite E in Hw. apply Forall_cons in Hw as [_ Hw].
    pose proof (blocklen_nonneg next Hw). lia. }
  apply wp_ret. destruct Ho as (_ & E & _). split_and!; try done.
  intros Hne [_ _ _ _ [HA' _]]. rewrite E in HA'. destruct HA as [HA _].
  rewrite <- HA in HA'. apply Permutation_length in HA'. unfold ids in HA'.
  rewrite !length_app, !length_fmap, !length_app in HA'. cbn in HA'.
  destruct (bfirst q); [done|]. cbn in HA'. lia.
Qed.

(** A defect of [qwrite]. On a message queue a write of more than
    [Maxatomic] = 65536 bytes queues only the first [Maxatomic] of them, and
    a writer that is not put to sleep is told that all were written. *)
Theorem qwrite_truncates_messages (F : list Block) (woke : bool) (p : list Z) q s :
  qinv F q s -> writable q -> has Qmsg q = true -> Maxatomic < zlen p ->
  wp (qwrite woke p) (q, s) (fun r '(q', s') => snd r = true ->
    fst r = zlen p /\ cdata (bfirst q') = cdata (bfirst q) ++ ztake Maxatomic p).
Proof.
  intros Hi Hwr Hmsg Hlen. unfold qwrite. apply wp_bind.
  eapply wp_mono; [apply (wp_qwrite_loop F); [lia|done|done]|].
  intros [k g] [q' s'] (_ & _ & Hd & Hg). apply wp_ret. cbn [snd]. intros ->.
  split; [done|]. rewrite Hd, Hg, Hmsg by done. do 2 f_equal. lia.
Qed.
End QioProps.

(** *** Witnesses: the theorems on concrete queues *)

Definition demo_q : Queue := new_queue 1000 0 false.
Definition demo_mid : Queue * Bst :=
  match run_qop (OWrite false [1; 2; 3]) (demo_q, bst0) with Ret _ st => st | _ => (demo_q, bst0) end.
Definition demo_end : Queue * Bst :=
  match run_qop (ORead 2) demo_mid with Ret _ st => st | _ => demo_mid end.

Lemma demo_inv l m k : qinv [] (new_queue l m k) bst0.
Proof. by split. Qed.
Lemma demo_stream : stream demo_q.
Proof. by split_and!. Qed.
Lemma demo_history : history demo_q bst0 [1; 2; 3] [1; 2] (fst demo_end) (snd demo_end).
Proof.
  apply (history_op (OWrite false [1; 2; 3]) demo_q bst0 [1; 2; 3] [] (fst demo_mid)
           (snd demo_mid) [] [1; 2]); [exact I|vm_compute; reflexivity|].
  apply (history_op (ORead 2) (fst demo_mid) (snd demo_mid) [] [1; 2] (fst demo_end)
           (snd demo_end) [] []); [vm_compute; congruence|vm_compute; reflexivity|].
  apply history_nil.
Qed.

Lemma queue_fifo_witness :
  cdata (bfirst demo_q) ++ [1; 2; 3] = [1; 2] ++ cdata (bfirst (fst demo_end)).
Proof.
  apply (queue_fifo [] demo_q bst0 [1; 2; 3] [1; 2] (fst demo_end) (snd demo_end)).
  - apply demo_inv.
  - apply demo_stream.
  - apply demo_history.
Defined.

Lemma queue_op_safe_witness :
  exists a d q' s', run_qop (OPass [7; 8]) (demo_q, bst0) = Ret (a, d) (q', s') /\
    qinv [] q' s' /\ stream q'.
Proof.
  apply (queue_op_safe [] (OPass [7; 8]) demo_q bst0); [apply demo_inv|apply demo_stream|exact I].
Defined.

Lemma starved_reader_is_woken_witness :
  wp (qread 5) (demo_q, bst0) (fun r '(q', s') => r = None -> has Qstarve q' = true /\ bfirst q' = []).
Proof.
  destruct (starved_reader_is_woken [] [] b0 true [1; 2] 5 demo_q bst0 (demo_inv 1000 0 false)
    (proj2 demo_stream) ltac:(lia)) as [H _]. exact H.
Defined.

(** A block fills the queue, so its writer sleeps; then it is taken out. *)
Definition bst1 : Bst := with_id 1 bst0.
Definition demo_small : Queue := new_queue 50 0 false.
Definition demo_full : Queue * Bst := after (qbwrite false (demo_block 0 [1; 2; 3])) (demo_small, bst1).
Definition demo_emptied : Queue * Bst := after (qdiscard 3) demo_full.
Lemma flow_controlled_writer_is_woken_witness :
  has Qflow (fst demo_full) = true /\ has Qflow (fst demo_emptied) = false /\
  exists l, events (snd demo_emptied) = events (snd demo_full) ++ l /\ Wakeup_wr ∈ l.
Proof.
  split; [by vm_compute|].
  destruct (flow_controlled_writer_is_woken [] b0 true 3 (fst demo_full) (snd demo_full)) as (_ & _ & H & _).
  - split; try (by vm_compute). vm_compute. apply Forall_singleton. intuition discriminate.
  - by vm_compute.
  - by vm_compute.
  - lia.
  - assert (qdiscard 3 (fst demo_full, snd demo_full) = Ret 3 demo_emptied) as E by (vm_compute; reflexivity).
    pose proof (wp_ret_inv _ _ _ _ _ H E) as K. destruct demo_emptied as [q' s'] eqn:Ee. unfold demo_emptied in Ee. apply K; [by vm_compute|].
    assert (len (fst (after (qdiscard 3) demo_full)) < Z.quot (limit (fst demo_full)) 2) as L by (by vm_compute). by rewrite Ee in L.
Defined.

Definition demo_msgq : Queue := new_queue 1000 Qmsg false.
Lemma demo_held : qinv [demo_block 0 [4; 5; 6]] demo_msgq bst1.
Proof. by split. Qed.

Lemma message_boundaries_witness :
  wp (qbwrite false (demo_block 0 [4; 5; 6])) (demo_msgq, bst1) (fun _ '(q1, s1) =>
    bdata <$> bfirst q1 = [[4; 5; 6]]).
Proof.
  eapply wp_mono; [apply (message_boundaries [] (demo_block 0 [4; 5; 6]) false 2 demo_msgq bst1);
    [apply demo_held|vm_compute; intuition discriminate|reflexivity|reflexivity|by split_and!|lia]|].
  - intros r [q1 s1] (H & _). exact H.
Defined.

Lemma closed_queue_witness :
  wp qclose (demo_q, bst0) (fun _ '(q1, s1) => bfirst q1 = [] /\ qinv [] q1 s1).
Proof.
  eapply wp_mono; [apply (closed_queue [] b0 true 4 demo_q bst0); [apply demo_inv|done|done]|].
  intros r [q1 s1] (? & ? & _). auto.
Defined.

Definition demo_emptyq : Queue :=
  mkQueue [demo_block 0 []] (Some 0%nat) 74 0 1000 1000 0 false 0 false false "".
Lemma demo_empty_inv : qinv [] demo_emptyq bst1.
Proof. split; try done. apply Forall_singleton. vm_compute. intuition discriminate. Qed.
Lemma qconsume_leaks_empty_blocks_witness :
  wp (qconsume 4) (demo_emptyq, bst1) (fun r '(q', s') => snd r = -1 /\ bfirst q' = [] /\
    ~ qinv [] q' s').
Proof.
  eapply wp_mono; [apply (qconsume_leaks_empty_blocks [] 4 demo_emptyq bst1);
    [apply demo_empty_inv|reflexivity]|].
  - intros r [q' s'] (? & ? & _ & _ & H). split; [done|]. split; [done|]. by apply H.
Defined.

Lemma qwrite_truncates_messages_witness :
  wp (qwrite false (replicate (Z.to_nat 70000) 1)) (demo_msgq, bst0) (fun r '(q', s') =>
    snd r = true -> fst r = zlen (replicate (Z.to_nat 70000) 1)).
Proof.
  eapply wp_mono; [apply (qwrite_truncates_messages [] false _ demo_msgq bst0);
    [apply demo_inv|by split_and!|reflexivity|rewrite zlen_replicate; unfold Maxatomic; lia]|].
  - intros r [q' s'] H Hr. by apply H.
Defined.
