(* ===== verification/Ipaux.v ===== *)
(** * ip/ipaux.c, ip/ptclbsum.c, the byte order routines of port/netif.c

    The Internet checksum, over flat memory ([ptclbsum]) and over a chain of
    blocks ([ptclcsum]), and the hash table that finds the conversation a
    packet belongs to ([iphtadd], [iphtrem], [iphtlook]).

    Memory is a list of bytes.  The checksum is shown equal to the canonical
    representative, modulo 2^16 - 1, of the sum of the big endian 16-bit words
    of the data, whatever the alignment, the byte order of the machine and the
    way the chain splits the data. *)

From stdpp Require Import base list gmap.
From Stdlib Require Import ZArith Lia.
From S2P Require Import Prelude Block.
Open Scope Z_scope.

(** ** Byte order (port/netif.c) *)

Definition byte (p : list Z) (i : nat) : Z := nth i p 0.

Definition hnputl (v : Z) : list Z :=
  [u8 (Z.shiftr v 24); u8 (Z.shiftr v 16); u8 (Z.shiftr v 8); u8 v].
Definition hnputs (v : Z) : list Z := [u8 (Z.shiftr v 8); u8 v].
Definition hnputv (v : Z) : list Z := hnputl (u32 (Z.shiftr v 32)) ++ hnputl (u32 v).

Definition nhgetl (a : list Z) : Z :=
  Z.lor (Z.lor (Z.lor (Z.shiftl (byte a 0) 24) (Z.shiftl (byte a 1) 16))
    (Z.shiftl (byte a 2) 8)) (byte a 3).
Definition nhgets (a : list Z) : Z := Z.lor (Z.shiftl (byte a 0) 8) (byte a 1).
Definition nhgetv (a : list Z) : Z := Z.lor (Z.shiftl (nhgetl a) 32) (nhgetl (drop 4 a)).

Definition isbyte (b : Z) : Prop := 0 <= b < 2 ^ 8.

(** Disjoint bit fields: [or] is addition. *)
Lemma lor_add a b k :
  0 <= k -> a mod 2 ^ k = 0 -> 0 <= b < 2 ^ k -> Z.lor a b = a + b.
Proof.
  intros Hk Ha Hb. assert (Z.land a b = 0) as E.
  { apply Z.bits_inj'. intros n Hn. rewrite Z.land_spec, Z.bits_0.
    destruct (Z_lt_le_dec n k) as [H|H].
    - rewrite <- (Z.mod_pow2_bits_low a k n) by lia. by rewrite Ha, Z.bits_0.
    - rewrite <- (Z.mod_small b (2 ^ k)) by lia.
      by rewrite Z.mod_pow2_bits_high, andb_false_r by lia. }
  rewrite <- Z.lxor_lor by done. symmetry. by apply Z.add_nocarry_lxor.
Qed.

Lemma isbyte_nth p i : Forall isbyte p -> isbyte (byte p i).
Proof.
  intros H. unfold byte. destruct (le_lt_dec (length p) i) as [L|L].
  - rewrite nth_overflow by lia. red. lia.
  - eapply Forall_forall; [done|]. apply list_elem_of_In, nth_In. lia.
Qed.

Lemma nhgetl_sum a : Forall isbyte a ->
  nhgetl a = byte a 0 * 2 ^ 24 + byte a 1 * 2 ^ 16 + byte a 2 * 2 ^ 8 + byte a 3.
Proof.
  intros H. unfold nhgetl. pose proof (isbyte_nth a 0 H). pose proof (isbyte_nth a 1 H).
  pose proof (isbyte_nth a 2 H). pose proof (isbyte_nth a 3 H). unfold isbyte in *.
  rewrite !Z.shiftl_mul_pow2 by lia.
  set (b0 := byte a 0) in *. set (b1 := byte a 1) in *. set (b2 := byte a 2) in *.
  rewrite (lor_add (b0 * 2 ^ 24) _ 24) by (first [lia | apply Z.mod_mul; lia]).
  rewrite (lor_add _ (b2 * 2 ^ 8) 16);
    [| lia | replace (_ + _) with ((b0 * 2 ^ 8 + b1) * 2 ^ 16) by lia; apply Z.mod_mul; lia | lia].
  rewrite (lor_add _ (byte a 3) 8); [lia | lia | | lia].
  replace (_ + _) with ((b0 * 2 ^ 16 + b1 * 2 ^ 8 + b2) * 2 ^ 8) by lia. apply Z.mod_mul; lia.
Qed.

Lemma nhgetl_range a : Forall isbyte a -> 0 <= nhgetl a < 2 ^ 32.
Proof.
  intros H. rewrite nhgetl_sum by done.
  pose proof (isbyte_nth a 0 H). pose proof (isbyte_nth a 1 H).
  pose proof (isbyte_nth a 2 H). pose proof (isbyte_nth a 3 H). unfold isbyte in *. lia.
Qed.

Lemma nhgets_sum a : Forall isbyte a -> nhgets a = byte a 0 * 2 ^ 8 + byte a 1.
Proof.
  intros H. unfold nhgets. pose proof (isbyte_nth a 0 H). pose proof (isbyte_nth a 1 H).
  unfold isbyte in *. rewrite !Z.shiftl_mul_pow2 by lia.
  apply (lor_add _ _ 8); [lia | apply Z.mod_mul; lia | lia].
Qed.

Lemma isbyte_u8 x : isbyte (u8 x).
Proof. unfold isbyte, u8. pose proof (Z.mod_pos_bound x (2 ^ 8)). lia. Qed.

Lemma isbyte_hnputl v : Forall isbyte (hnputl v).
Proof. repeat constructor; apply isbyte_u8. Qed.

(** Reading back what [hnputl] stored. *)
Lemma nhgetl_hnputl v rest : Forall isbyte rest -> nhgetl (hnputl v ++ rest) = u32 v.
Proof.
  intros H. rewrite nhgetl_sum by (apply Forall_app; split; [apply isbyte_hnputl | done]).
  unfold hnputl, byte, u8, u32. cbn [nth app]. rewrite !Z.shiftr_div_pow2 by lia.
  Z.div_mod_to_equations. lia.
Qed.
Lemma nhgets_hnputs v rest : Forall isbyte rest -> nhgets (hnputs v ++ rest) = u16 v.
Proof.
  intros H. rewrite nhgets_sum by (repeat constructor; try done; apply isbyte_u8).
  unfold hnputs, byte, u8, u16. cbn [nth app]. rewrite !Z.shiftr_div_pow2 by lia.
  Z.div_mod_to_equations. lia.
Qed.
Lemma hnputl_nhgetl a b c d : Forall isbyte [a; b; c; d] -> hnputl (nhgetl [a; b; c; d]) = [a; b; c; d].
Proof.
  intros H. rewrite nhgetl_sum by done. unfold byte. cbn [nth].
  apply Forall_cons in H as [Ha H]. apply Forall_cons in H as [Hb H].
  apply Forall_cons in H as [Hc H]. apply Forall_cons in H as [Hd _]. unfold isbyte in *.
  unfold hnputl, u8. rewrite !Z.shiftr_div_pow2 by lia.
  repeat f_equal; Z.div_mod_to_equations; lia.
Qed.

(** ** The checksum of flat memory (ip/ptclbsum.c) *)

Section Sum.
(** [*aendian]: whether the machine is little endian. *)
Context (LITTLE : bool).

(** [*(ushort* )addr] *)
Definition ushort_at (a b : Z) : Z := if LITTLE then a + 2 ^ 8 * b else 2 ^ 8 * a + b.

(** The body of [while(len >= 16)]: eight shorts, each added one load late. *)
Definition add_16 (a0 a1 a2 a3 a4 a5 a6 a7 a8 a9 a10 a11 a12 a13 a14 a15 mdsum : Z) : Z :=
  let t1 := ushort_at a0 a1 in
  let t2 := ushort_at a2 a3 in let mdsum := u32 (mdsum + t1) in
  let t1 := ushort_at a4 a5 in let mdsum := u32 (mdsum + t2) in
  let t2 := ushort_at a6 a7 in let mdsum := u32 (mdsum + t1) in
  let t1 := ushort_at a8 a9 in let mdsum := u32 (mdsum + t2) in
  let t2 := ushort_at a10 a11 in let mdsum := u32 (mdsum + t1) in
  let t1 := ushort_at a12 a13 in let mdsum := u32 (mdsum + t2) in
  let t2 := ushort_at a14 a15 in let mdsum := u32 (mdsum + t1) in
  u32 (mdsum + t2).

Fixpoint sum_by_16 (p : list Z) (mdsum : Z) : list Z * Z :=
  match p with
  | a0 :: a1 :: a2 :: a3 :: a4 :: a5 :: a6 :: a7 ::
    a8 :: a9 :: a10 :: a11 :: a12 :: a13 :: a14 :: a15 :: rest =>
    sum_by_16 rest
      (add_16 a0 a1 a2 a3 a4 a5 a6 a7 a8 a9 a10 a11 a12 a13 a14 a15 mdsum)
  | _ => (p, mdsum)
  end.

(** [while(len >= 2)] *)
Fixpoint sum_by_2 (p : list Z) (mdsum : Z) : list Z * Z :=
  match p with
  | a :: b :: rest => sum_by_2 rest (u32 (mdsum + ushort_at a b))
  | _ => (p, mdsum)
  end.

(** [while(hisum = losum>>16) losum = hisum + (losum & 0xffff)] *)
Fixpoint fold_carry (fuel : nat) (losum : Z) : Z :=
  match fuel with
  | O => losum
  | S fuel =>
    let hisum := Z.shiftr losum 16 in
    if hisum =? 0 then losum
    else fold_carry fuel (u32 (hisum + Z.land losum 65535))
  end.

(** The carries of a 32-bit sum are gone after two rounds; the third stops. *)
Definition carry_fuel : nat := 3.

(** [odd] is [PTR2UINT(addr) & 1], [addr] the [len] bytes. *)
Definition ptclbsum (odd : bool) (addr : list Z) : Z :=
  let '(hisum, addr) :=
    if odd then match addr with a :: rest => (a, rest) | [] => (0, []) end
    else (0, addr) in
  let '(addr, mdsum) := sum_by_16 addr 0 in
  let '(addr, mdsum) := sum_by_2 addr mdsum in
  let tail := match addr with a :: _ => a | [] => 0 end in
  let '(losum, hisum) :=
    if odd then
      let losum := tail in
      if LITTLE then (u32 (losum + mdsum), hisum) else (losum, u32 (hisum + mdsum))
    else
      let hisum := u32 (hisum + tail) in
      if LITTLE then (0, u32 (hisum + mdsum)) else (mdsum, hisum) in
  let losum := u32 (losum + Z.shiftr hisum 8) in
  let losum := u32 (losum + Z.shiftl (Z.land hisum 255) 8) in
  Z.land (fold_carry carry_fuel losum) 65535.

(** *** Specification *)

(** The big endian word sum; [w] is 256 or 1, the weight of the first byte. *)
Fixpoint wordsum (hi : bool) (p : list Z) : Z :=
  match p with
  | [] => 0
  | a :: rest => (if hi then 2 ^ 8 * a else a) + wordsum (negb hi) rest
  end.

End Sum.

(** The canonical representative of a sum modulo 2^16 - 1: 0 only for 0. *)
Definition canon (s : Z) : Z := if s =? 0 then 0 else (s - 1) mod 65535 + 1.

(** ** [ptclbsum] computes the canonical word sum *)

Lemma canon_small s : 0 <= s < 65536 -> canon s = s.
Proof.
  intros H. unfold canon. destruct (Z.eqb_spec s 0); [lia|].
  rewrite Z.mod_small by lia. lia.
Qed.
Lemma canon_range s : 0 <= s -> 0 <= canon s <= 65535.
Proof.
  intros H. unfold canon. destruct (Z.eqb_spec s 0); [lia|].
  pose proof (Z.mod_pos_bound (s - 1) 65535). lia.
Qed.
(** Two sums have the same representative when they agree modulo 2^16 - 1 and
    on being zero. *)
Lemma canon_eq k a b : 0 <= a -> 0 <= b -> (a = 0 <-> b = 0) -> a = b + k * 65535 -> canon a = canon b.
Proof.
  intros Ha Hb Hz E. unfold canon.
  destruct (Z.eqb_spec a 0), (Z.eqb_spec b 0); try tauto; try lia.
  f_equal. replace (a - 1) with (b - 1 + k * 65535) by lia. apply Z.mod_add. lia.
Qed.

Lemma wordsum_nonneg hi p : Forall isbyte p -> 0 <= wordsum hi p.
Proof.
  intros H. revert hi. induction H as [|a p Ha H IH]; intros hi; cbn [wordsum]; [lia|].
  specialize (IH (negb hi)). unfold isbyte in Ha. destruct hi; lia.
Qed.
Lemma wordsum_bound hi p : Forall isbyte p -> wordsum hi p <= 65280 * zlen p.
Proof.
  intros H. revert hi. induction H as [|a p Ha H IH]; intros hi; cbn [wordsum]; [reflexivity|].
  specialize (IH (negb hi)). unfold isbyte in Ha. rewrite zlen_cons. destruct hi; lia.
Qed.
Lemma wordsum_app hi p q :
  wordsum hi (p ++ q) = wordsum hi p + wordsum (xorb hi (Nat.odd (length p))) q.
Proof.
  revert hi. induction p as [|a p IH]; intros hi; cbn [app wordsum length].
  - by rewrite xorb_false_r.
  - rewrite IH, Nat.odd_succ, <- Nat.negb_odd.
    destruct hi, (Nat.odd (length p)); cbn [negb xorb]; lia.
Qed.
(** Swapping the bytes of every word multiplies the sum by 2^8. *)
Lemma wordsum_swap hi p : Forall isbyte p ->
  exists k, 2 ^ 8 * wordsum hi p = wordsum (negb hi) p + k * 65535
    /\ (wordsum hi p = 0 <-> wordsum (negb hi) p = 0).
Proof.
  intros H. revert hi. induction H as [|a p Ha H IH]; intros hi; cbn [wordsum].
  - exists 0. lia.
  - destruct (IH (negb hi)) as (k & E & Z0). unfold isbyte in Ha.
    pose proof (wordsum_nonneg hi p H). pose proof (wordsum_nonneg (negb hi) p H).
    rewrite !negb_involutive in *. destruct hi; cbn [negb] in *; [exists (k + a) | exists k]; lia.
Qed.

Lemma fold_carry_canon s : 0 <= s < 2 ^ 32 -> Z.land (fold_carry carry_fuel s) 65535 = canon s.
Proof.
  assert (forall n s, 0 <= s < 65536 -> fold_carry n s = s) as Hdone.
  { intros n x H. destruct n; cbn [fold_carry]; [done|].
    rewrite Z.shiftr_div_pow2, Z.div_small by lia. done. }
  assert (forall n s, 65536 <= s < 2 ^ 32 -> fold_carry (S n) s = fold_carry n (s / 65536 + s mod 65536)) as Hstep.
  { intros n x H. cbn [fold_carry]. rewrite Z.shiftr_div_pow2 by lia.
    change 65535 with (Z.ones 16). rewrite Z.land_ones by lia. change (2 ^ 16) with 65536.
    destruct (Z.eqb_spec (x / 65536) 0) as [E|_]; [Z.div_mod_to_equations; lia|].
    unfold u32. rewrite Z.mod_small by (Z.div_mod_to_equations; lia). done. }
  assert (forall s, 65536 <= s -> canon (s / 65536 + s mod 65536) = canon s) as Hcanon.
  { intros x H. apply (canon_eq (- (x / 65536))); Z.div_mod_to_equations; lia. }
  assert (forall s, 0 <= s < 65536 -> Z.land s 65535 = s) as Hland.
  { intros x H. change 65535 with (Z.ones 16). rewrite Z.land_ones by lia. by apply Z.mod_small. }
  intros H. unfold carry_fuel. destruct (Z_lt_le_dec s 65536) as [L|L].
  { rewrite Hdone, Hland, canon_small by lia. done. }
  rewrite Hstep, <- (Hcanon s L) by lia.
  set (s1 := s / 65536 + s mod 65536).
  assert (0 <= s1 <= 131070) as H1 by (subst s1; Z.div_mod_to_equations; lia).
  destruct (Z_lt_le_dec s1 65536) as [L1|L1].
  { rewrite Hdone, Hland, canon_small by lia. done. }
  rewrite Hstep, <- (Hcanon s1 L1) by lia.
  assert (0 <= s1 / 65536 + s1 mod 65536 < 65536) by (Z.div_mod_to_equations; lia).
  rewrite Hdone, Hland, canon_small by lia. done.
Qed.

(** What [losum += hisum>>8; losum += (hisum & 0xff)<<8] and the carry loop do. *)
Lemma fold_halves l h : 0 <= l -> 0 <= h < 2 ^ 32 -> l + h / 2 ^ 8 + 65536 < 2 ^ 32 ->
  Z.land (fold_carry carry_fuel
    (u32 (u32 (l + Z.shiftr h 8) + Z.shiftl (Z.land h 255) 8))) 65535 = canon (l + 2 ^ 8 * h).
Proof.
  intros Hl Hh Hb. rewrite Z.shiftr_div_pow2, Z.shiftl_mul_pow2 by lia.
  change 255 with (Z.ones 8). rewrite Z.land_ones by lia.
  assert (0 <= h mod 2 ^ 8 < 2 ^ 8) by (apply Z.mod_pos_bound; lia).
  assert (0 <= h / 2 ^ 8) by (apply Z.div_pos; lia).
  unfold u32. rewrite (Z.mod_small (l + _)) by lia. rewrite (Z.mod_small (_ + _)) by lia.
  rewrite fold_carry_canon by lia.
  apply (canon_eq (- (h / 2 ^ 8))); Z.div_mod_to_equations; lia.
Qed.

Section SumSpec.
Context (LITTLE : bool).

Lemma sum_by_2_cons a b p m :
  sum_by_2 LITTLE (a :: b :: p) m = sum_by_2 LITTLE p (u32 (m + ushort_at LITTLE a b)).
Proof. reflexivity. Qed.

Lemma add_16_sum_by_2 a0 a1 a2 a3 a4 a5 a6 a7 a8 a9 a10 a11 a12 a13 a14 a15 p m :
  sum_by_2 LITTLE p (add_16 LITTLE a0 a1 a2 a3 a4 a5 a6 a7 a8 a9 a10 a11 a12 a13 a14 a15 m)
  = sum_by_2 LITTLE (a0 :: a1 :: a2 :: a3 :: a4 :: a5 :: a6 :: a7 :: a8 :: a9 :: a10 :: a11
    :: a12 :: a13 :: a14 :: a15 :: p) m.
Proof. rewrite !sum_by_2_cons. unfold add_16. reflexivity. Qed.

Lemma sum_by_16_cons a0 a1 a2 a3 a4 a5 a6 a7 a8 a9 a10 a11 a12 a13 a14 a15 p m :
  sum_by_16 LITTLE (a0 :: a1 :: a2 :: a3 :: a4 :: a5 :: a6 :: a7 :: a8 :: a9 :: a10 :: a11
    :: a12 :: a13 :: a14 :: a15 :: p) m =
  sum_by_16 LITTLE p
    (add_16 LITTLE a0 a1 a2 a3 a4 a5 a6 a7 a8 a9 a10 a11 a12 a13 a14 a15 m).
Proof. lazy delta [sum_by_16]. lazy beta iota fix match. reflexivity. Qed.

(** The unrolled loop leaves to the plain one exactly what it would have done. *)
Lemma sum_by_16_2 p m :
  let '(p', m') := sum_by_16 LITTLE p m in sum_by_2 LITTLE p' m' = sum_by_2 LITTLE p m.
Proof.
  remember (length p) as n eqn:E. revert p m E.
  induction n as [n IH] using lt_wf_ind. intros p m E.
  do 16 (destruct p as [|? p]; [reflexivity|]).
  rewrite <- add_16_sum_by_2, sum_by_16_cons.
  apply (IH (length p)); [subst n; cbn; lia | done].
Qed.

Lemma sum_by_2_spec p m : Forall isbyte p -> 0 <= m -> m + 65280 * zlen p < 2 ^ 32 ->
  exists q t, p = q ++ t /\ Nat.odd (length q) = false /\ (length t <= 1)%nat
    /\ sum_by_2 LITTLE p m = (t, m + wordsum (negb LITTLE) q).
Proof.
  remember (length p) as n eqn:E. revert p m E.
  induction n as [n IH] using lt_wf_ind. intros p m E Hp Hm Hb.
  destruct p as [|a [|b p]]; [exists [], [] | exists [], [a] |].
  1-2: cbn; rewrite Z.add_0_r; repeat split; lia.
  apply Forall_cons in Hp as [Ha Hp]. apply Forall_cons in Hp as [Hb' Hp].
  rewrite !zlen_cons in Hb. unfold isbyte in Ha, Hb'. pose proof (zlen_nonneg p).
  assert (0 <= ushort_at LITTLE a b <= 2 * 65280) as Hu by (unfold ushort_at; destruct LITTLE; lia).
  cbn [sum_by_2]. unfold u32. rewrite Z.mod_small by lia.
  destruct (IH (length p) ltac:(subst n; cbn; lia) p (m + ushort_at LITTLE a b) eq_refl Hp) as (q & t & -> & Hq & Ht & ->).
  1-2: lia.
  exists (a :: b :: q), t. cbn [length wordsum]. rewrite negb_involutive.
  change (Nat.odd (S (S (length q)))) with (Nat.odd (length q)).
  repeat split; try done. f_equal. unfold ushort_at. destruct LITTLE; cbn [negb]; lia.
Qed.

(** [ptclbsum] is the canonical big endian word sum, whatever the alignment of
    the buffer and the byte order of the machine. *)
Lemma ptclbsum_canon odd p : Forall isbyte p -> zlen p < 2 ^ 16 ->
  ptclbsum LITTLE odd p = canon (wordsum true p).
Proof.
  intros Hp Hl. unfold ptclbsum.
  set (h0 := if odd then match p with a :: _ => a | [] => 0 end else 0).
  set (p0 := if odd then tail p else p).
  replace (if odd then match p with a :: rest => (a, rest) | [] => (0, []) end else (0, p))
    with (h0, p0) by (subst h0 p0; destruct odd, p; done).
  assert (Forall isbyte p0 /\ zlen p0 <= zlen p /\ isbyte h0) as (Hp0 & Hl0 & Hh0).
  { subst h0 p0. destruct odd; [|refine (conj Hp (conj _ _)); [lia | red; lia]].
    destruct p as [|a p]; [refine (conj Hp (conj _ _)); [cbn; lia | red; lia]|].
    apply Forall_cons in Hp as [Ha Hp']. rewrite zlen_cons. cbn [tail].
    refine (conj Hp' (conj _ Ha)). lia. }
  pose proof (sum_by_16_2 p0 0) as E16. destruct (sum_by_16 LITTLE p0 0) as [p1 m1]. rewrite E16.
  destruct (sum_by_2_spec p0 0 Hp0 ltac:(lia) ltac:(lia)) as (q & t & Epq & Hq & Ht & E2).
  rewrite E2, Z.add_0_l.
  assert (Forall isbyte q /\ Forall isbyte t) as [Hqb Htb] by (rewrite Epq in Hp0; by apply Forall_app).
  set (tl := match t with a :: _ => a | [] => 0 end).
  assert (isbyte tl) as Htl by (subst tl; destruct Htb; [red; lia | done]).
  pose proof (wordsum_nonneg true q Hqb). pose proof (wordsum_nonneg false q Hqb).
  pose proof (wordsum_bound true q Hqb). pose proof (wordsum_bound false q Hqb).
  assert (zlen p0 = zlen q + zlen t) by (by rewrite Epq, zlen_app).
  assert (tl = 0 \/ zlen t = 1) as Htl1.
  { subst tl. destruct t as [|? [|]]; [by left | by right | cbn in Ht; lia]. }
  destruct (wordsum_swap true q Hqb) as (k & Ek & Zk).
  destruct (wordsum_swap false q Hqb) as (k' & Ek' & Zk'). cbn [negb] in *.
  assert (wordsum true p = if odd then 2 ^ 8 * h0 + (wordsum false q + tl) else wordsum true q + 2 ^ 8 * tl) as ->.
  { assert (forall hi, wordsum hi t = if hi then 2 ^ 8 * tl else tl) as Et.
    { intros hi. subst tl. destruct t as [|? [|]]; cbn [wordsum]; [by destruct hi | destruct hi; lia | cbn in Ht; lia]. }
    subst h0 p0. destruct odd.
    - destruct p as [|a p]; cbn [tail] in *.
      + symmetry in Epq. apply app_nil in Epq as [-> ->]. subst tl. done.
      + cbn [wordsum negb]. rewrite Epq, wordsum_app, Hq, Et. cbn. lia.
    - rewrite Epq, wordsum_app, Hq, Et. cbn. lia. }
  unfold isbyte in *. pose proof (zlen_nonneg q). pose proof (zlen_nonneg t).
  destruct odd, LITTLE; cbn [negb].
  - rewrite (u32_small (tl + _)) by lia. rewrite fold_halves by (Z.div_mod_to_equations; lia).
    f_equal. lia.
  - rewrite (u32_small (h0 + _)) by lia. rewrite fold_halves by (Z.div_mod_to_equations; lia).
    apply (canon_eq k); lia.
  - rewrite (u32_small (h0 + tl)), (u32_small (h0 + tl + _)) by (subst h0; lia).
    rewrite fold_halves by (subst h0; Z.div_mod_to_equations; lia).
    apply (canon_eq k'); subst h0; lia.
  - rewrite (u32_small (h0 + tl)) by (subst h0; lia).
    rewrite fold_halves by (subst h0; Z.div_mod_to_equations; lia). f_equal; subst h0; lia.
Qed.
End SumSpec.

(** ** The checksum of a chain of blocks (ip/ipaux.c) *)

Section Csum.
(** Byte order of the machine, and where the storage of each block lies. *)
Context (LITTLE : bool) (base : nat -> Z).

(** [while(bp != nil && offset && offset >= BLEN(bp))] *)
Fixpoint csum_skip (bl : list Block) (offset : Z) : list Block * Z :=
  match bl with
  | bp :: rest =>
    if negb (offset =? 0) && (offset >=? BLEN bp) then csum_skip rest (offset - BLEN bp)
    else (bl, offset)
  | [] => ([], offset)
  end.

(** [ptclbsum(addr, x)], [addr] at offset [off] of the storage of [bp]. *)
Definition bsum_at (bp : Block) (off x : Z) : Z :=
  ptclbsum LITTLE (Z.odd (base (bid bp) + off)) (slice off x (buf bp)).

(** [while(len)]; [off] and [blocklen] locate the rest of the first block. *)
Fixpoint csum_loop (bl : list Block) (off blocklen len losum hisum : Z) (odd : bool) : Z * Z :=
  match bl with
  | [] => (losum, hisum)
  | bp :: rest =>
    if len =? 0 then (losum, hisum)
    else
      let x := if len <? blocklen then len else blocklen in
      let csum := bsum_at bp off x in
      let '(losum, hisum) :=
        if odd then (losum, u32 (hisum + csum)) else (u32 (losum + csum), hisum) in
      let odd := Z.odd ((if odd then 1 else 0) + x) in
      let len := len - x in
      match rest with
      | [] => (losum, hisum)
      | bp' :: _ => csum_loop rest (rp bp') (BLEN bp') len losum hisum odd
      end
  end.

Definition ptclcsum (bl : list Block) (offset len : Z) : Z :=
  let '(bl, offset) := csum_skip bl offset in
  match bl with
  | [] => 0
  | bp :: rest =>
    let addr := rp bp + offset in
    let blocklen := BLEN bp - offset in
    match rest with
    | [] =>
      let len := if blocklen <? len then blocklen else len in
      Z.land (Z.lnot (bsum_at bp addr len)) 65535
    | _ =>
      let '(losum, hisum) := csum_loop bl addr blocklen len 0 0 false in
      let losum := u32 (losum + Z.shiftr hisum 8) in
      let losum := u32 (losum + Z.shiftl (Z.land hisum 255) 8) in
      Z.land (Z.lnot (fold_carry carry_fuel losum)) 65535
    end
  end.

(** *** Proofs *)

Definition bytes_ok (b : Block) : Prop := wfb b /\ Forall isbyte (buf b).

Lemma land_lnot_any x : Z.land (Z.lnot x) 65535 = 65535 - Z.land x 65535.
Proof.
  assert (forall y, Z.land y 65535 = y mod 65536) as E by (intros y; apply (Z.land_ones y 16); lia).
  rewrite !E. unfold Z.lnot. Z.div_mod_to_equations. lia.
Qed.
Lemma land_lnot x : 0 <= x < 65536 -> Z.land (Z.lnot x) 65535 = 65535 - x.
Proof.
  intros H. rewrite land_lnot_any. f_equal.
  assert (Z.land x 65535 = x mod 65536) as -> by (apply (Z.land_ones x 16); lia).
  by apply Z.mod_small.
Qed.
Lemma Forall_slice {A} (P : A -> Prop) o n l : Forall P l -> Forall P (slice o n l).
Proof. intros H. unfold slice, ztake, zdrop. by apply Forall_take, Forall_drop. Qed.
Lemma isbyte_cdata bl : Forall bytes_ok bl -> Forall isbyte (cdata bl).
Proof.
  induction 1 as [|b bl [_ Hb] _ IH]; [done|]. rewrite cdata_cons. apply Forall_app.
  split; [by apply Forall_slice | done].
Qed.
Lemma canon_le s : 0 <= s -> canon s <= s.
Proof.
  intros H. unfold canon. destruct (Z.eqb_spec s 0); [lia|].
  pose proof (Z.mod_le (s - 1) 65535 ltac:(lia) ltac:(lia)). lia.
Qed.
Lemma canon_cong s : 0 <= s -> exists k, canon s = s + k * 65535 /\ (canon s = 0 <-> s = 0).
Proof.
  intros H. unfold canon. destruct (Z.eqb_spec s 0) as [->|N]; [exists 0; lia|].
  exists (- ((s - 1) / 65535)). Z.div_mod_to_equations. lia.
Qed.

Lemma csum_skip_spec bl offset : Forall bytes_ok bl -> 0 <= offset ->
  let '(bl', o) := csum_skip bl offset in
  0 <= o /\ Forall bytes_ok bl' /\ zdrop offset (cdata bl) = zdrop o (cdata bl') /\
  offset - o = zlen (cdata bl) - zlen (cdata bl') /\
  match bl' with
  | [] => offset <> 0 \/ bl = []
  | bp :: _ => o = 0 \/ o < BLEN bp
  end.
Proof.
  intros H. revert offset. induction H as [|b bl Hb H IH]; intros offset Ho; cbn [csum_skip].
  { repeat split; auto; lia. }
  destruct Hb as [Hw Hb]. pose proof (zlen_bdata b Hw). pose proof (wfb_BLEN b Hw).
  destruct (Z.eqb_spec offset 0) as [->|N]; cbn [negb andb].
  { repeat split; auto; try lia. constructor; [by split | done]. }
  rewrite Z.geb_leb. destruct (Z.leb_spec (BLEN b) offset) as [L|L].
  - specialize (IH (offset - BLEN b) ltac:(lia)). destruct (csum_skip bl (offset - BLEN b)) as [bl' o].
    destruct IH as (? & ? & E & Ed & ?). rewrite cdata_cons, zdrop_app_ge by lia.
    rewrite H0, E, zlen_app. repeat split; auto; [lia|]. destruct bl'; [by left | done].
  - repeat split; auto; try lia. constructor; [by split | done].
Qed.

(** The two partial sums stand for the data summed so far. *)
Definition sums (d : list Z) (losum hisum : Z) : Prop :=
  0 <= losum /\ 0 <= hisum /\ losum + hisum <= 65280 * zlen d /\
  (exists k, losum + 2 ^ 8 * hisum = wordsum true d + k * 65535) /\
  (losum + 2 ^ 8 * hisum = 0 <-> wordsum true d = 0).

Lemma sums_step d e losum hisum : Forall isbyte d -> Forall isbyte e -> zlen d + zlen e < 2 ^ 16 ->
  sums d losum hisum ->
  let c := canon (wordsum true e) in
  if Nat.odd (length d) then sums (d ++ e) losum (u32 (hisum + c))
  else sums (d ++ e) (u32 (losum + c)) hisum.
Proof.
  intros Hd He Hl (Hlo & Hhi & Hb & (k & E) & Z0).
  pose proof (wordsum_nonneg true e He) as Hn. pose proof (wordsum_nonneg false e He).
  pose proof (wordsum_nonneg true d Hd). pose proof (wordsum_bound true e He).
  pose proof (canon_le _ Hn). pose proof (canon_range _ Hn).
  destruct (canon_cong _ Hn) as (k1 & E1 & Z1). destruct (wordsum_swap true e He) as (k2 & E2 & Z2).
  cbn [negb] in *. pose proof (zlen_nonneg d). pose proof (zlen_nonneg e).
  cbv zeta. set (c := canon _) in *.
  destruct (Nat.odd (length d)) eqn:O; rewrite u32_small by lia; unfold sums;
    rewrite zlen_app, wordsum_app, O; cbn [xorb].
  - repeat split; try lia. exists (k + 2 ^ 8 * k1 + k2). lia.
  - repeat split; try lia. exists (k + k1). lia.
Qed.

Lemma csum_loop_spec bl off blocklen len losum hisum odd d :
  let e := match bl with
           | [] => []
           | bp :: rest => slice off blocklen (buf bp) ++ cdata rest
           end in
  Forall bytes_ok bl -> Forall isbyte d -> 0 <= len -> zlen d + zlen e < 2 ^ 16 ->
  match bl with [] => True | bp :: _ => 0 <= off /\ 0 <= blocklen /\ off + blocklen <= lim bp end ->
  odd = Nat.odd (length d) -> sums d losum hisum ->
  let '(lo, hi) := csum_loop bl off blocklen len losum hisum odd in
  sums (d ++ ztake len e) lo hi.
Proof.
  revert off blocklen len losum hisum odd d.
  induction bl as [|bp rest IH]; intros off blocklen len losum hisum odd d e Hbl Hd Hlen Hl Hin -> Hs.
  { cbn [csum_loop]. subst e. unfold ztake. by rewrite take_nil, app_nil_r. }
  cbn [csum_loop]. apply Forall_cons in Hbl as [[Hw Hb] Hrest]. destruct Hin as (Ho & Hbl0 & Hin).
  destruct (Z.eqb_spec len 0) as [->|N].
  { by rewrite (ztake_le 0), app_nil_r by lia. }
  set (x := if len <? blocklen then len else blocklen).
  assert (x = Z.min len blocklen) as Hx by (subst x; destruct (Z.ltb_spec len blocklen); lia).
  set (e1 := slice off x (buf bp)).
  assert (zlen e1 = x) as Hz1 by (subst e1; apply zlen_slice_in; unfold lim in *; lia).
  assert (zlen (slice off blocklen (buf bp)) = blocklen) as Hz2
    by (apply zlen_slice_in; unfold lim in *; lia).
  assert (Forall isbyte e1) as He1 by (by apply Forall_slice).
  subst e. cbv beta iota in *. rewrite zlen_app in Hl. pose proof (zlen_nonneg (cdata rest)). pose proof (zlen_nonneg d).
  assert (ztake len (slice off blocklen (buf bp) ++ cdata rest) = e1 ++ ztake (len - x) (cdata rest)) as ->.
  { subst e1. rewrite Hx. destruct (Z_le_gt_dec blocklen len).
    - rewrite ztake_app_ge by lia. by rewrite Hz2, Z.min_r by lia.
    - rewrite ztake_app_le by lia. unfold slice. rewrite ztake_ztake, Z.min_l by lia.
      by rewrite (ztake_le (len - len)), app_nil_r by lia. }
  assert (bsum_at bp off x = canon (wordsum true e1)) as ->
    by (apply ptclbsum_canon; [done | fold e1; lia]).
  pose proof (sums_step d e1 losum hisum Hd He1 ltac:(lia) Hs) as Hstep. cbv zeta in Hstep.
  replace (Z.odd ((if Nat.odd (length d) then 1 else 0) + x)) with (Nat.odd (length (d ++ e1))).
  2: { rewrite <- Hz1. unfold zlen. rewrite length_app, Nat.odd_add, Z.odd_add.
       f_equal; [by destruct (Nat.odd (length d)) |].
       apply Bool.eq_iff_eq_true. rewrite Z.odd_spec, Nat.odd_spec.
       split; intros [m Hm]; [exists (Z.of_nat m) | exists (Z.to_nat m)]; lia. }
  set (c := canon (wordsum true e1)) in *.
  assert (exists lo hi, (if Nat.odd (length d) then (losum, u32 (hisum + c)) else (u32 (losum + c), hisum)) = (lo, hi)
    /\ sums (d ++ e1) lo hi) as (lo & hi & -> & Hs').
  { destruct (Nat.odd (length d)); eauto. }
  destruct rest as [|b' rest'].
  { unfold ztake, cdata; cbn [fmap list_fmap concat]. by rewrite take_nil, app_nil_r. }
  assert (bytes_ok b') as [Hw' _] by (by apply Forall_cons in Hrest as [? _]).
  rewrite app_assoc. apply (IH (rp b') (BLEN b') (len - x) lo hi _ (d ++ e1)); clear IH; try done.
  - by apply Forall_app.
  - lia.
  - rewrite zlen_app. rewrite cdata_cons in *. unfold bdata in *. lia.
  - unfold wfb, BLEN in *. lia.
Qed.

(** The data a checksum call covers. *)
Definition covered (bl : list Block) (offset len : Z) : list Z :=
  slice offset len (cdata bl).

(** [offset] lies within the chain (its end excluded, unless it is 0). *)
Definition offset_in (bl : list Block) (offset : Z) : Prop :=
  (offset = 0 /\ bl <> []) \/ offset < zlen (cdata bl).

Lemma ptclcsum_covered bl offset len :
  Forall bytes_ok bl -> 0 <= offset -> 0 <= len -> zlen (cdata bl) < 2 ^ 16 ->
  offset_in bl offset ->
  ptclcsum bl offset len = 65535 - canon (wordsum true (covered bl offset len)).
Proof.
  intros Hbl Ho Hlen Hl Hin. unfold ptclcsum, covered, slice.
  pose proof (csum_skip_spec bl offset Hbl Ho) as Hskip.
  destruct (csum_skip bl offset) as [bl' o]. destruct Hskip as (Ho' & Hbl' & E & Ed & Hb).
  assert (zlen (zdrop offset (cdata bl)) = zlen (zdrop o (cdata bl'))) as El by (by rewrite E).
  rewrite !zlen_zdrop in El. rewrite E.
  destruct bl' as [|bp rest].
  { exfalso. change (zlen (cdata [])) with 0 in El. destruct Hin as [[-> Hne]|Hin]; [|lia].
    destruct Hb as [Hb|Hb]; congruence. }
  apply Forall_cons in Hbl' as [[Hw Hby] Hrest]. pose proof (wfb_BLEN bp Hw).
  pose proof (zlen_bdata bp Hw) as Hz. unfold wfb, BLEN in *.
  assert (o <= wpt bp - rp bp) as Hle by lia.
  assert (zdrop o (cdata (bp :: rest)) = slice (rp bp + o) (wpt bp - rp bp - o) (buf bp) ++ cdata rest) as ->.
  { rewrite cdata_cons, zdrop_app_le by lia. f_equal. unfold bdata, BLEN, slice at 1.
    rewrite zdrop_ztake by lia. unfold slice. by rewrite zdrop_zdrop by lia. }
  assert (zlen (slice (rp bp + o) (wpt bp - rp bp - o) (buf bp)) = wpt bp - rp bp - o) as Hs.
  { apply zlen_slice_in; unfold lim in *; lia. }
  rewrite cdata_cons, zlen_app, Hz in El. pose proof (zlen_nonneg (cdata rest)).
  destruct rest as [|b' rest].
  - change (cdata []) with (@nil Z). rewrite app_nil_r.
    set (n := if _ <? len then _ else _).
    assert (n = Z.min len (wpt bp - rp bp - o)) as Hn
      by (subst n; destruct (Z.ltb_spec (wpt bp - rp bp - o) len); lia).
    unfold bsum_at. rewrite ptclbsum_canon; [| by apply Forall_slice |].
    2: { rewrite zlen_slice. lia. }
    rewrite land_lnot.
    2: { pose proof (canon_range (wordsum true (slice (rp bp + o) n (buf bp)))
           (wordsum_nonneg _ _ (Forall_slice _ _ _ _ Hby))). lia. }
    do 3 f_equal. rewrite Hn. unfold slice. destruct (Z_le_gt_dec len (wpt bp - rp bp - o)).
    + rewrite ztake_ztake by lia. by rewrite Z.min_l by lia.
    + rewrite Z.min_r by lia. rewrite (ztake_ge len); [done|]. rewrite zlen_ztake. lia.
  - pose proof (csum_loop_spec (bp :: b' :: rest) (rp bp + o) (wpt bp - rp bp - o) len 0 0 false []) as Hloop.
    cbv zeta in Hloop. revert Hloop. unfold BLEN.
    destruct (csum_loop _ _ _ _ _ _ _) as [lo hi]. intros Hloop.
    cbn [app] in Hloop. set (dd := ztake len _) in *.
    assert (Forall isbyte dd) as Hdd.
    { subst dd. unfold ztake. apply Forall_take, Forall_app.
      split; [by apply Forall_slice | by apply isbyte_cdata]. }
    assert (zlen dd <= zlen (cdata bl)) as Hld.
    { subst dd. pose proof (zlen_nonneg (cdata bl)). rewrite zlen_ztake, zlen_app. lia. }
    pose proof (zlen_nonneg dd).
    destruct Hloop as (Hlo & Hhi & Hbd & (k & Ek) & Z0).
    + constructor; [by split | done].
    + constructor.
    + done.
    + change (zlen []) with 0. rewrite zlen_app. lia.
    + unfold lim in *. lia.
    + done.
    + repeat split; try done. by exists 0.
    + pose proof (wordsum_nonneg true dd Hdd).
      assert (Z.land (fold_carry carry_fuel (u32 (u32 (lo + Z.shiftr hi 8) + Z.shiftl (Z.land hi 255) 8))) 65535
        = canon (wordsum true dd)) as Ef.
      { rewrite fold_halves by (Z.div_mod_to_equations; lia). apply (canon_eq k); lia. }
      rewrite land_lnot_any. by rewrite Ef.
Qed.

Lemma ptclcsum_outside bl offset len :
  Forall bytes_ok bl -> zlen (cdata bl) < offset \/ bl = [] -> ptclcsum bl offset len = 0.
Proof.
  intros Hbl [Hout | ->]; [|done]. unfold ptclcsum. pose proof (zlen_nonneg (cdata bl)).
  pose proof (csum_skip_spec bl offset Hbl ltac:(lia)) as Hskip.
  destruct (csum_skip bl offset) as [bl' o]. destruct Hskip as (Ho' & Hbl' & E & Ed & Hb).
  destruct bl' as [|bp rest]; [done|]. exfalso.
  apply Forall_cons in Hbl' as [[Hw _] _]. pose proof (zlen_bdata bp Hw).
  rewrite cdata_cons, zlen_app in Ed. pose proof (zlen_nonneg (cdata rest)).
  pose proof (wfb_BLEN bp Hw). lia.
Qed.

(** C20: over any chain of well formed blocks, and from any offset in it,
    [ptclcsum] is the complement of the canonical one's complement sum of the
    bytes it covers, as if they lay in one buffer; past the chain it is 0. *)
Theorem ptclcsum_of_chain bl offset len :
  Forall bytes_ok bl -> 0 <= offset -> 0 <= len -> zlen (cdata bl) < 2 ^ 16 ->
  (offset_in bl offset ->
    ptclcsum bl offset len = 65535 - canon (wordsum true (slice offset len (cdata bl)))) /\
  (zlen (cdata bl) < offset \/ bl = [] -> ptclcsum bl offset len = 0).
Proof.
  intros. split; intros; [by apply ptclcsum_covered | by apply ptclcsum_outside].
Qed.

Lemma ptclcsum_whole bl d : Forall bytes_ok bl -> cdata bl = d -> 0 < zlen d < 2 ^ 16 ->
  ptclcsum bl 0 (zlen d) = 65535 - canon (wordsum true d).
Proof.
  intros Hbl E Hd. rewrite ptclcsum_covered; try done; try (subst; lia).
  - unfold covered, slice. rewrite zdrop_le, E, ztake_ge by lia. done.
  - right. rewrite E. lia.
Qed.

Lemma wordsum_field pre w post : Nat.even (length pre) = true -> 0 <= w < 2 ^ 16 ->
  wordsum true (pre ++ hnputs w ++ post) = wordsum true (pre ++ post) + w.
Proof.
  intros He Hw. rewrite !wordsum_app, <- Nat.negb_even, He. cbn [negb xorb].
  unfold hnputs, u8. cbn [wordsum length Nat.odd Nat.even negb xorb].
  rewrite Z.shiftr_div_pow2 by lia. Z.div_mod_to_equations. lia.
Qed.

(** C26: the checksum discipline of the IP protocols.  A sender that stores the
    checksum, computed with the field zero, at an even offset makes the sum
    verify as 0 at the receiver, however the receiver's blocks split the same
    bytes; and of two packets that verify and differ in one 16-bit word only,
    the words are equal or are the two zeros of one's complement. *)
Theorem checksum_verifies_and_detects pre post w w' bl bl' n :
  Forall bytes_ok bl -> Forall bytes_ok bl' -> Nat.even (length pre) = true ->
  0 <= w < 2 ^ 16 -> 0 <= w' < 2 ^ 16 ->
  cdata bl = pre ++ hnputs w ++ post -> cdata bl' = pre ++ hnputs w' ++ post ->
  n = zlen (cdata bl) -> n < 2 ^ 16 ->
  (w = 0 -> w' = ptclcsum bl 0 n -> ptclcsum bl' 0 n = 0) /\
  (ptclcsum bl 0 n = 0 -> ptclcsum bl' 0 n = 0 ->
    w = w' \/ (w = 0 /\ w' = 65535) \/ (w = 65535 /\ w' = 0)).
Proof.
  intros Hbl Hbl' He Hw Hw' E E' -> Hn.
  assert (zlen (cdata bl') = zlen (cdata bl)) as El by (rewrite E, E', !zlen_app; done).
  assert (0 < zlen (cdata bl)) as Hpos.
  { rewrite E, !zlen_app. change (zlen (hnputs w)) with 2.
    pose proof (zlen_nonneg pre). pose proof (zlen_nonneg post). lia. }
  rewrite (ptclcsum_whole bl _ Hbl eq_refl) by lia. rewrite <- El.
  rewrite (ptclcsum_whole bl' _ Hbl' eq_refl) by lia. rewrite E, E', !wordsum_field by done.
  pose proof (isbyte_cdata bl Hbl) as Hb. rewrite E, !Forall_app in Hb. destruct Hb as (? & _ & ?).
  assert (0 <= wordsum true (pre ++ post)) as Hs by (apply wordsum_nonneg, Forall_app; done).
  set (s := wordsum true (pre ++ post)) in *. clearbody s. unfold canon.
  destruct (Z.eqb_spec (s + w) 0), (Z.eqb_spec (s + w') 0); Z.div_mod_to_equations; lia.
Qed.
End Csum.

(** ** Small conversions (ip/ipaux.c) *)

Definition IPaddrlen : nat := 16.
Definition v6solicitednode : list Z := [255; 2; 0; 0; 0; 0; 0; 0; 0; 0; 0; 1; 255; 0; 0; 0].
Definition ipv62smcast (a : list Z) : list Z :=
  take 13 v6solicitednode ++ [byte a 13; byte a 14; byte a 15].

(** ** The table of conversations (ip/ipaux.c)

    A conversation is known by its number; its addresses and ports are in the
    conversation, not in the table, so they are a store the routines read. *)

Record Conv := mkConv { raddr : list Z; rport : Z; laddr : list Z; lport : Z }.

Inductive IPmatch := IPmatchexact | IPmatchany | IPmatchport | IPmatchaddr | IPmatchpa.
#[export] Instance IPmatch_eq_dec : EqDecision IPmatch.
Proof. solve_decision. Defined.

Record Iphash := mkIphash { hmatch : IPmatch; hc : nat }.

Definition Nhash : Z := 64.
Definition IPnoaddr : list Z := replicate IPaddrlen 0.
Definition Ipht : Type := Z -> list Iphash.

(** [ipcmp(x, y) != 0] *)
Definition ipcmp (x y : list Z) : bool :=
  negb (byte x 15 =? byte y 15) || negb (bool_decide (take IPaddrlen x = take IPaddrlen y)).

Definition iphash (sa : list Z) (sp : Z) (da : list Z) (dp : Z) : Z :=
  u32 (Z.lxor (Z.lxor (Z.lxor (u32 (Z.shiftl (byte sa 15) 24)) (u32 (Z.shiftl sp 16)))
    (Z.shiftl (byte da 15) 8)) dp) mod Nhash.

Definition upd (ht : Ipht) (hv : Z) (l : list Iphash) : Ipht :=
  fun x => if x =? hv then l else ht x.

Section Ipht.
Context (convs : nat -> Conv).

Definition conv_hash (c : Conv) : Z := iphash (raddr c) (rport c) (laddr c) (lport c).

Definition match_kind (c : Conv) : IPmatch :=
  if ipcmp (raddr c) IPnoaddr then IPmatchexact
  else if ipcmp (laddr c) IPnoaddr then (if lport c =? 0 then IPmatchaddr else IPmatchpa)
  else (if lport c =? 0 then IPmatchany else IPmatchport).

Definition iphtadd (ht : Ipht) (c : nat) : Ipht :=
  let hv := conv_hash (convs c) in
  upd ht hv (mkIphash (match_kind (convs c)) c :: ht hv).

(** [for(l = &ht->tab[hv]; ...)]: unlink the first entry of [c]. *)
Fixpoint unlink (c : nat) (l : list Iphash) : list Iphash :=
  match l with
  | [] => []
  | h :: l => if Nat.eqb (hc h) c then l else h :: unlink c l
  end.

Definition iphtrem (ht : Ipht) (c : nat) : Ipht :=
  let hv := conv_hash (convs c) in upd ht hv (unlink c (ht hv)).

(** One of the five scans of a hash chain. *)
Fixpoint scan (k : IPmatch) (ok : Conv -> bool) (l : list Iphash) : option nat :=
  match l with
  | [] => None
  | h :: l =>
    if bool_decide (hmatch h <> k) then scan k ok l
    else if ok (convs (hc h)) then Some (hc h) else scan k ok l
  end.

Definition iphtlook (ht : Ipht) (sa : list Z) (sp : Z) (da : list Z) (dp : Z) : option nat :=
  match scan IPmatchexact (fun c => (sp =? rport c) && (dp =? lport c)
      && negb (ipcmp sa (raddr c)) && negb (ipcmp da (laddr c))) (ht (iphash sa sp da dp)) with
  | Some c => Some c
  | None =>
  match scan IPmatchpa (fun c => (dp =? lport c) && negb (ipcmp da (laddr c)))
      (ht (iphash IPnoaddr 0 da dp)) with
  | Some c => Some c
  | None =>
  match scan IPmatchport (fun c => dp =? lport c) (ht (iphash IPnoaddr 0 IPnoaddr dp)) with
  | Some c => Some c
  | None =>
  match scan IPmatchaddr (fun c => negb (ipcmp da (laddr c))) (ht (iphash IPnoaddr 0 da 0)) with
  | Some c => Some c
  | None => scan IPmatchany (fun _ => true) (ht (iphash IPnoaddr 0 IPnoaddr 0))
  end end end end.

(** *** Specification: a list of conversations, the newest first *)

Inductive HtOp := HtAdd (c : nat) | HtRem (c : nat).

Definition run_ht (ht : Ipht) (o : HtOp) : Ipht :=
  match o with HtAdd c => iphtadd ht c | HtRem c => iphtrem ht c end.
Definition ht_empty : Ipht := fun _ => [].

Fixpoint remove_first (c : nat) (l : list nat) : list nat :=
  match l with [] => [] | x :: l => if Nat.eqb x c then l else x :: remove_first c l end.
Definition run_list (l : list nat) (o : HtOp) : list nat :=
  match o with HtAdd c => c :: l | HtRem c => remove_first c l end.

(** Does a conversation accept a packet, and how closely. *)
Definition accepts (k : IPmatch) (sa : list Z) (sp : Z) (da : list Z) (dp : Z) (c : Conv) : bool :=
  bool_decide (match_kind c = k) &&
  match k with
  | IPmatchexact => bool_decide (raddr c = sa) && (rport c =? sp)
      && bool_decide (laddr c = da) && (lport c =? dp)
  | IPmatchpa => bool_decide (laddr c = da) && (lport c =? dp)
  | IPmatchport => lport c =? dp
  | IPmatchaddr => bool_decide (laddr c = da)
  | IPmatchany => true
  end.

Definition first_that (P : Conv -> bool) (l : list nat) : option nat :=
  List.find (fun c => P (convs c)) l.
Definition precedence : list IPmatch :=
  [IPmatchexact; IPmatchpa; IPmatchport; IPmatchaddr; IPmatchany].

(** The newest conversation of the closest kind that accepts the packet. *)
Definition best (sa : list Z) (sp : Z) (da : list Z) (dp : Z) (l : list nat) : option nat :=
  foldr (fun k r => match first_that (accepts k sa sp da dp) l with Some c => Some c | None => r end)
    None precedence.

(** An announced conversation, which has no remote address, has no remote port. *)
Definition conv_ok (c : Conv) : Prop :=
  length (raddr c) = IPaddrlen /\ length (laddr c) = IPaddrlen /\
  (raddr c = IPnoaddr -> rport c = 0).

(** *** Proofs *)

Lemma ipcmp_eq x y : length x = IPaddrlen -> length y = IPaddrlen ->
  ipcmp x y = negb (bool_decide (x = y)).
Proof.
  intros Hx Hy. unfold ipcmp. rewrite !take_ge by (rewrite ?Hx, ?Hy; done).
  destruct (bool_decide_reflect (x = y)) as [->|N]; [by rewrite Z.eqb_refl|].
  cbn [negb]. by rewrite orb_true_r.
Qed.

Definition entry (c : nat) : Iphash := mkIphash (match_kind (convs c)) c.

(** The table holds the listed conversations, each in its own chain. *)
Definition ht_rep (ht : Ipht) (l : list nat) : Prop :=
  forall hv, ht hv = entry <$>
    filter (fun c => conv_hash (convs c) = hv) l.

Lemma ht_rep_add ht l c : ht_rep ht l -> ht_rep (iphtadd ht c) (c :: l).
Proof.
  intros H hv. unfold iphtadd, upd. rewrite filter_cons.
  destruct (Z.eqb_spec hv (conv_hash (convs c))) as [->|N].
  - rewrite decide_True by done. rewrite fmap_cons, H. done.
  - rewrite decide_False by congruence. apply H.
Qed.

Lemma unlink_rep hv l c : conv_hash (convs c) = hv ->
  unlink c (entry <$>
    filter (fun c => conv_hash (convs c) = hv) l) =
  entry <$>
    filter (fun c => conv_hash (convs c) = hv) (remove_first c l).
Proof.
  intros Hc. induction l as [|x l IH]; [done|]. cbn [remove_first]. rewrite filter_cons.
  destruct (Nat.eqb_spec x c) as [->|N].
  - rewrite decide_True by done. rewrite fmap_cons. cbn [unlink hc entry]. by rewrite Nat.eqb_refl.
  - rewrite filter_cons. case_decide; [|done]. rewrite !fmap_cons. cbn [unlink hc entry].
    destruct (Nat.eqb_spec x c); [done|]. by rewrite IH.
Qed.
Lemma filter_remove_other hv l c : conv_hash (convs c) <> hv ->
  filter (fun c => conv_hash (convs c) = hv) (remove_first c l) =
  filter (fun c => conv_hash (convs c) = hv) l.
Proof.
  intros Hc. induction l as [|x l IH]; [done|]. cbn [remove_first].
  destruct (Nat.eqb_spec x c) as [->|N].
  - rewrite filter_cons, decide_False by done. done.
  - rewrite !filter_cons. case_decide; by rewrite IH.
Qed.
Lemma ht_rep_rem ht l c : ht_rep ht l -> ht_rep (iphtrem ht c) (remove_first c l).
Proof.
  intros H hv. unfold iphtrem, upd.
  destruct (Z.eqb_spec hv (conv_hash (convs c))) as [->|N].
  - rewrite H. by apply unlink_rep.
  - rewrite filter_remove_other by congruence. apply H.
Qed.
Lemma ht_rep_run ops ht l : ht_rep ht l -> ht_rep (foldl run_ht ht ops) (foldl run_list l ops).
Proof.
  revert ht l. induction ops as [|o ops IH]; intros ht l H; [done|]. cbn [foldl].
  apply IH. destruct o; [by apply ht_rep_add | by apply ht_rep_rem].
Qed.

Lemma scan_rep ht l hv k ok P : ht_rep ht l ->
  Forall (fun c => P (convs c) = true -> conv_hash (convs c) = hv) l ->
  Forall (fun c => P (convs c) = bool_decide (match_kind (convs c) = k) && ok (convs c)) l ->
  scan k ok (ht hv) = first_that P l.
Proof.
  intros H. rewrite H. clear H ht. induction l as [|x l IH]; intros H1 H2; [done|].
  apply Forall_cons in H1 as [E1 H1]. apply Forall_cons in H2 as [E2 H2]. specialize (IH H1 H2).
  rewrite filter_cons. unfold first_that in *. cbn [List.find].
  destruct (decide (conv_hash (convs x) = hv)) as [Hd|Hd].
  - rewrite fmap_cons. cbn [scan hmatch hc entry]. rewrite E2, IH.
    destruct (bool_decide_reflect (match_kind (convs x) = k)) as [Ek|Ek].
    + rewrite bool_decide_eq_false_2 by auto. cbn [andb]. by destruct (ok (convs x)).
    + rewrite bool_decide_eq_true_2 by auto. done.
  - destruct (P (convs x)); [exfalso; auto | done].
Qed.

Lemma first_that_none P l : Forall (fun c => P (convs c) = false) l -> first_that P l = None.
Proof. induction 1 as [|c l E H IH]; [done|]. unfold first_that in *. cbn [List.find]. by rewrite E. Qed.

(** What a kind of match says of the addresses that are not compared. *)
Lemma announced_remote c :
  conv_ok c -> match_kind c <> IPmatchexact -> raddr c = IPnoaddr /\ rport c = 0.
Proof.
  intros (Hr & _ & Hp). unfold match_kind. rewrite ipcmp_eq by done.
  destruct (bool_decide_reflect (raddr c = IPnoaddr)); cbn [negb]; [auto | done].
Qed.
Lemma any_addr c :
  conv_ok c -> match_kind c = IPmatchport \/ match_kind c = IPmatchany -> laddr c = IPnoaddr.
Proof.
  intros (Hr & Hl & Hp). unfold match_kind. rewrite !ipcmp_eq by done.
  destruct (bool_decide_reflect (raddr c = IPnoaddr)), (bool_decide_reflect (laddr c = IPnoaddr));
    cbn [negb]; destruct (lport c =? 0); intuition congruence.
Qed.
Lemma any_port c :
  match_kind c = IPmatchaddr \/ match_kind c = IPmatchany -> lport c = 0.
Proof.
  unfold match_kind. destruct (ipcmp (raddr c) IPnoaddr), (ipcmp (laddr c) IPnoaddr),
    (Z.eqb_spec (lport c) 0); intuition congruence.
Qed.

(** The five scans of the hash table find, for every packet, the newest
    conversation of the closest kind among those added and not removed:
    connected to the sender, then listening on the address and port, the
    port, the address, anything. *)
Theorem iphtlook_precedence ops sa sp da dp :
  let l := foldl run_list [] ops in
  Forall (fun c => conv_ok (convs c)) l ->
  length sa = IPaddrlen -> length da = IPaddrlen ->
  iphtlook (foldl run_ht ht_empty ops) sa sp da dp = best sa sp da dp l.
Proof.
  intros l Hok Hsa Hda. set (ht := foldl run_ht ht_empty ops).
  assert (ht_rep ht l) as Hrep by (apply ht_rep_run; intros hv; done). clearbody ht l.
  unfold iphtlook, best, precedence. cbn [foldr].
  assert (forall k hv ok,
    (forall c, conv_ok (convs c) -> match_kind (convs c) = k -> ok (convs c) = true ->
      conv_hash (convs c) = hv) ->
    (forall c, conv_ok (convs c) -> match_kind (convs c) = k ->
      accepts k sa sp da dp (convs c) = ok (convs c)) ->
    scan k ok (ht hv) = first_that (accepts k sa sp da dp) l) as Hscan.
  { intros k hv ok H1 H2. apply scan_rep; [done| |].
    - eapply Forall_impl; [done|]. cbv beta. intros c Hc Ha.
      assert (match_kind (convs c) = k) as Hk.
      { unfold accepts in Ha. by destruct (bool_decide_reflect (match_kind (convs c) = k)). }
      apply H1; try done. by rewrite <- H2.
    - eapply Forall_impl; [done|]. cbv beta. intros c Hc.
      destruct (bool_decide_reflect (match_kind (convs c) = k)) as [Hk|Hk]; cbn [andb]; [by apply H2|].
      unfold accepts. by rewrite bool_decide_eq_false_2. }
  rewrite !Hscan; [by destruct (first_that (accepts IPmatchany sa sp da dp) l)|..]; clear Hscan; intros c Hc Hk.
  all: pose proof Hc as (Hr & Hl & _); try (destruct (announced_remote _ Hc) as [Er Ep]; [congruence|]).
  all: try (assert (laddr (convs c) = IPnoaddr) as El by (apply any_addr; auto)).
  all: try (assert (lport (convs c) = 0) as Elp by (apply any_port; auto)).
  all: unfold accepts, conv_hash; rewrite ?Er, ?Ep, ?El, ?Elp, ?(bool_decide_eq_true_2 _ Hk).
  all: rewrite ?ipcmp_eq by done; rewrite ?negb_involutive; cbn [andb]; try done.
  all: rewrite ?(Z.eqb_sym dp), ?(Z.eqb_sym sp).
  all: rewrite ?andb_true_iff, ?bool_decide_eq_true, ?Z.eqb_eq.
  all: try (intros; destruct_and?; congruence).
  all: rewrite ?(bool_decide_ext (da = laddr (convs c)) (laddr (convs c) = da)) by done.
  all: rewrite ?(bool_decide_ext (sa = raddr (convs c)) (raddr (convs c) = sa)) by done.
  all: try done.
  all: repeat match goal with
    | |- context [bool_decide ?P] => destruct (bool_decide P)
    | |- context [?a =? ?b] => destruct (a =? b)
    end; reflexivity.
Qed.
End Ipht.

(** ** Instances *)

Definition demo_chain : list Block :=
  [mkBlock 0 (replicate 10 0 ++ [69; 0; 0; 60; 28] ++ replicate 5 0) 10 15 0 false 0;
   mkBlock 1 ([70; 64; 0; 64; 6; 0; 0; 172; 16; 10; 99; 172; 16; 10; 12] ++ replicate 3 0) 0 15 0 false 0].
Definition demo_flat : list Block :=
  [mkBlock 2 [69; 0; 0; 60; 28; 70; 64; 0; 64; 6; 177; 230; 172; 16; 10; 99; 172; 16; 10; 12] 0 20 0 false 0].

(** A test for [bytes_ok]. *)
Definition bytes_okb (b : Block) : bool :=
  (0 <=? rp b) && (rp b <=? wpt b) && (wpt b <=? lim b) &&
  forallb (fun x => (0 <=? x) && (x <? 2 ^ 8)) (buf b).
Lemma bytes_okb_sound bl : forallb bytes_okb bl = true -> Forall bytes_ok bl.
Proof.
  rewrite forallb_forall. intros H. apply Forall_forall. intros b Hb.
  apply list_elem_of_In in Hb. apply H in Hb. unfold bytes_okb in Hb.
  rewrite !andb_true_iff, !Z.leb_le, forallb_forall in Hb. destruct Hb as [[[H1 H2] H3] H4].
  split; [unfold wfb; lia|]. apply Forall_forall. intros x Hx. apply list_elem_of_In, H4 in Hx.
  rewrite andb_true_iff, Z.leb_le, Z.ltb_lt in Hx. exact Hx.
Qed.

Lemma ptclcsum_of_chain_witness :
  ptclcsum true (fun _ => 0) demo_chain 0 20 = 45542 /\
  ptclcsum true (fun _ => 0) demo_chain 0 20
    = 65535 - canon (wordsum true (slice 0 20 (cdata demo_chain))).
Proof.
  split; [by vm_compute|].
  refine (proj1 (ptclcsum_of_chain true (fun _ => 0) demo_chain 0 20 _ _ _ _) _).
  - apply bytes_okb_sound. by vm_compute.
  - lia.
  - lia.
  - by vm_compute.
  - right. by vm_compute.
Defined.

Lemma checksum_verifies_and_detects_witness : ptclcsum true (fun _ => 0) demo_flat 0 20 = 0.
Proof.
  refine (proj1 (checksum_verifies_and_detects true (fun _ => 0)
    [69; 0; 0; 60; 28; 70; 64; 0; 64; 6] [172; 16; 10; 99; 172; 16; 10; 12] 0 45542
    demo_chain demo_flat 20 _ _ _ _ _ _ _ _ _) _ _).
  - apply bytes_okb_sound. by vm_compute.
  - apply bytes_okb_sound. by vm_compute.
  - reflexivity.
  - lia.
  - lia.
  - by vm_compute.
  - by vm_compute.
  - by vm_compute.
  - lia.
  - reflexivity.
  - by vm_compute.
Defined.

Definition demo_convs (c : nat) : Conv :=
  match c with
  | 0%nat => mkConv IPnoaddr 0 IPnoaddr 80
  | _ => mkConv (replicate 15 0 ++ [7]) 4321 (replicate 15 0 ++ [9]) 80
  end.
Lemma iphtlook_precedence_witness :
  iphtlook demo_convs (foldl (run_ht demo_convs) ht_empty [HtAdd 1; HtAdd 0])
    (replicate 15 0 ++ [7]) 4321 (replicate 15 0 ++ [9]) 80 = Some 1%nat.
Proof.
  rewrite (iphtlook_precedence demo_convs [HtAdd 1; HtAdd 0]); [by vm_compute | | done | done].
  repeat constructor; done.
Defined.
