(* ===== verification/Iproute.v ===== *)
(** * ip/iproute.c: the routing tables

    A table is a forest of 2^Lroot ternary search trees of address ranges; a
    range sits in every tree its hash interval meets.  The left subtree of a
    node precedes its range, the right one follows it and the middle one is
    contained in it.  Adding a range that contains a node replaces the node
    and queues its subtree to be merged back from the root ([addnode],
    [walkadd]); deleting does the same with the children.

    Nodes carry the address [rid] of their storage, so that the free lists are
    part of the state.  [findipifc] and the media notifications of
    ip/ipifc.c are an argument and an event; the IP library's address parsers
    are arguments. *)

From stdpp Require Import base list gmap strings.
From Stdlib Require Import ZArith Lia.
From S2P Require Import Prelude Block Ipaux.
Open Scope Z_scope.
Open Scope nix_scope.

(** ** Data (ip/ip.h) *)

Definition Rv4 : Z := 1.
Definition Rifc : Z := 2.
Definition Rptpt : Z := 4.
Definition Runi : Z := 8.
Definition Rbcast : Z := 16.
Definition Rmulti : Z := 32.
Definition Rproxy : Z := 64.

Definition Lroot : Z := 10.
Definition IPllen : nat := 4.
Definition IPv4off : nat := 12.

(** [type & bit] *)
Definition tbit (type bit : Z) : bool := negb (Z.land type bit =? 0).

Record V4route := mkV4 { address4 : Z; endaddress4 : Z; gate4 : list Z }.
Record V6route := mkV6 { address6 : list Z; endaddress6 : list Z; gate6 : list Z }.

(** [v4] and [v6] are a union; the [Rv4] bit of the type says which is in use. *)
Record Route := mkRoute {
  rid : nat;
  rtype : Z;
  ifcid : Z;
  ifc : option nat;
  tag : list Z;
  ref : Z;
  v4 : V4route;
  v6 : V6route
}.

Definition set_type (x : Z) (r : Route) : Route :=
  mkRoute (rid r) x (ifcid r) (ifc r) (tag r) (ref r) (v4 r) (v6 r).
Definition set_ifcid (x : Z) (r : Route) : Route :=
  mkRoute (rid r) (rtype r) x (ifc r) (tag r) (ref r) (v4 r) (v6 r).
Definition set_ifc (x : option nat) (r : Route) : Route :=
  mkRoute (rid r) (rtype r) (ifcid r) x (tag r) (ref r) (v4 r) (v6 r).
Definition set_tag (x : list Z) (r : Route) : Route :=
  mkRoute (rid r) (rtype r) (ifcid r) (ifc r) x (ref r) (v4 r) (v6 r).
Definition set_ref (x : Z) (r : Route) : Route :=
  mkRoute (rid r) (rtype r) (ifcid r) (ifc r) (tag r) x (v4 r) (v6 r).
Definition set_v4 (x : V4route) (r : Route) : Route :=
  mkRoute (rid r) (rtype r) (ifcid r) (ifc r) (tag r) (ref r) x (v6 r).
Definition set_v6 (x : V6route) (r : Route) : Route :=
  mkRoute (rid r) (rtype r) (ifcid r) (ifc r) (tag r) (ref r) (v4 r) x.

(** A [Route*] with what hangs off it; [depth] is a byte. *)
Inductive tree :=
  | Leaf
  | Node (depth : Z) (r : Route) (lft mid rgt : tree).

Definition depth (t : tree) : Z := match t with Leaf => 0 | Node d _ _ _ _ => d end.

(** What the media of the interfaces are told. *)
Inductive MediaCall :=
  | MediaAdd (vers : Z) (addr mask gate : list Z) (type : Z)
  | MediaRem (vers : Z) (addr mask : list Z).

Record Fs := mkFs {
  v4root : Z -> tree;
  v6root : Z -> tree;
  queue : list (Route * tree);
  v4freelist : list nat;
  v6freelist : list nat;
  brk : nat;
  v4routegeneration : Z;
  v6routegeneration : Z;
  media : list MediaCall
}.

Definition with_queue q (f : Fs) : Fs :=
  mkFs (v4root f) (v6root f) q (v4freelist f) (v6freelist f) (brk f)
    (v4routegeneration f) (v6routegeneration f) (media f).
Definition with_mem l4 l6 b (f : Fs) : Fs :=
  mkFs (v4root f) (v6root f) (queue f) l4 l6 b
    (v4routegeneration f) (v6routegeneration f) (media f).
Definition with_gen g4 g6 (f : Fs) : Fs :=
  mkFs (v4root f) (v6root f) (queue f) (v4freelist f) (v6freelist f) (brk f) g4 g6 (media f).
Definition with_media l (f : Fs) : Fs :=
  mkFs (v4root f) (v6root f) (queue f) (v4freelist f) (v6freelist f) (brk f)
    (v4routegeneration f) (v6routegeneration f) l.

(** The forest of a family ([true] for version 4) and the store to one of its trees. *)
Definition root (fam : bool) (f : Fs) : Z -> tree := if fam then v4root f else v6root f.
Definition setroot (fam : bool) (h : Z) (t : tree) (f : Fs) : Fs :=
  let upd g := fun x => if x =? h then t else g x in
  mkFs (if fam then upd (v4root f) else v4root f) (if fam then v6root f else upd (v6root f))
    (queue f) (v4freelist f) (v6freelist f) (brk f)
    (v4routegeneration f) (v6routegeneration f) (media f).

(** ** Storage *)

Definition freeroute (r : Route) : M Fs () := modify (fun f =>
  if tbit (rtype r) Rv4 then with_mem (rid r :: v4freelist f) (v6freelist f) (brk f) f
  else with_mem (v4freelist f) (rid r :: v6freelist f) (brk f) f).

Definition zero4 : V4route := mkV4 0 0 (replicate 4 0).
Definition zero6 : V6route := mkV6 (replicate 4 0) (replicate 4 0) (replicate 16 0).

Section Routes.
(** Whether the kernel allocator has memory for the [n]th node. *)
Context (mem_ok : nat -> bool).

Definition allocroute (type : Z) : M Fs Route := fun f =>
  let v4p := tbit type Rv4 in
  let '(id, f) :=
    match (if v4p then v4freelist f else v6freelist f) with
    | id :: l =>
      (Some id, if v4p then with_mem l (v6freelist f) (brk f) f
                else with_mem (v4freelist f) l (brk f) f)
    | [] =>
      if mem_ok (brk f)
      then (Some (brk f), with_mem (v4freelist f) (v6freelist f) (S (brk f)) f)
      else (None, f)
    end in
  match id with
  | None => Panic "out of routing nodes"%string
  | Some id => Ret (mkRoute id (u8 type) 0 None (replicate 4 0) 1 zero4 zero6) f
  end.

(** [f->queue] is the only queue. *)
Definition addqueue (r : tree) : M Fs () :=
  match r with
  | Leaf => ret tt
  | Node _ p _ _ _ =>
    l <- allocroute (rtype p) ;;
    modify (fun f => with_queue ((l, r) :: queue f) f)
  end.

(** ** Ranges *)

(** Compare two version 6 addresses, word by word. *)
Fixpoint lcmp (a b : list Z) : Z :=
  match a, b with
  | x :: a, y :: b => if y <? x then 1 else if x <? y then -1 else lcmp a b
  | _, _ => 0
  end.

Inductive Rcmp := Rpreceeds | Rfollows | Requals | Rcontains | Rcontained.

Definition rangecompare (a b : Route) : Rcmp :=
  if tbit (rtype a) Rv4 then
    if endaddress4 (v4 a) <? address4 (v4 b) then Rpreceeds
    else if endaddress4 (v4 b) <? address4 (v4 a) then Rfollows
    else if (address4 (v4 a) <=? address4 (v4 b)) && (endaddress4 (v4 b) <=? endaddress4 (v4 a)) then
      if (address4 (v4 a) =? address4 (v4 b)) && (endaddress4 (v4 a) =? endaddress4 (v4 b))
      then Requals else Rcontains
    else Rcontained
  else if lcmp (endaddress6 (v6 a)) (address6 (v6 b)) <? 0 then Rpreceeds
  else if 0 <? lcmp (address6 (v6 a)) (endaddress6 (v6 b)) then Rfollows
  else if (lcmp (address6 (v6 a)) (address6 (v6 b)) <=? 0)
       && (0 <=? lcmp (endaddress6 (v6 a)) (endaddress6 (v6 b))) then
    if (lcmp (address6 (v6 a)) (address6 (v6 b)) =? 0)
       && (lcmp (endaddress6 (v6 a)) (endaddress6 (v6 b)) =? 0)
    then Requals else Rcontains
  else Rcontained.

Definition copygate (old new : Route) : Route :=
  if tbit (rtype new) Rv4
  then set_v4 (mkV4 (address4 (v4 old)) (endaddress4 (v4 old)) (gate4 (v4 new))) old
  else set_v6 (mkV6 (address6 (v6 old)) (endaddress6 (v6 old)) (gate6 (v6 new))) old.

(** ** Trees *)

Definition calcd (p : tree) : tree :=
  match p with
  | Leaf => Leaf
  | Node _ r lft mid rgt =>
    Node (u8 (Z.max (Z.max (depth lft) (depth rgt)) (depth mid) + 1)) r lft mid rgt
  end.

Definition balancetree (cur : tree) : tree :=
  match cur with
  | Leaf => Leaf
  | Node d p lft mid rgt =>
    let dl := depth lft in
    let dr := depth rgt in
    match lft, rgt with
    | Node ld lr ll lm lrt, _ =>
      if dl >? dr + 1 then
        calcd (Node ld lr ll lm (calcd (Node d p lrt mid rgt)))
      else
        match rgt with
        | Node rd rr rl rm rrt =>
          if dr >? dl + 1 then calcd (Node rd rr (calcd (Node d p lft mid rl)) rm rrt)
          else calcd cur
        | Leaf => calcd cur
        end
    | Leaf, Node rd rr rl rm rrt =>
      if dr >? dl + 1 then calcd (Node rd rr (calcd (Node d p lft mid rl)) rm rrt)
      else calcd cur
    | Leaf, Leaf => calcd cur
    end
  end.

(** The old entry is superseded unless it is a local interface. *)
Definition supersede (p new : Route) : Route :=
  if negb (tbit (rtype p) Rifc) then copygate (set_ifcid (u8 (-1)) (set_type (rtype new) p)) new
  else if tbit (rtype new) Rifc then set_ref (ref p + 1) p
  else p.

(** [new] comes with its own subtrees. *)
Fixpoint addnode (cur : tree) (new : Route) (nl nm nr : tree) : M Fs tree :=
  match cur with
  | Leaf => ret (Node 1 new nl nm nr)
  | Node d p lft mid rgt =>
    t <- match rangecompare new p with
         | Rpreceeds => lft <- addnode lft new nl nm nr ;; ret (Node d p lft mid rgt)
         | Rfollows => rgt <- addnode rgt new nl nm nr ;; ret (Node d p lft mid rgt)
         | Rcontains => addqueue cur ;; ret (Node 1 new nl nm nr)
         | Requals => freeroute new ;; ret (Node d (supersede p new) lft mid rgt)
         | Rcontained => mid <- addnode mid new nl nm nr ;; ret (Node d p lft mid rgt)
         end ;;
    ret (balancetree t)
  end.

(** Walk down a tree adding its nodes, each with its middle subtree, back in. *)
Fixpoint walkadd (root : tree) (p : tree) : M Fs tree :=
  match p with
  | Leaf => ret root
  | Node _ r lft mid rgt =>
    root <- addnode root r Leaf mid Leaf ;;
    root <- walkadd root lft ;;
    walkadd root rgt
  end.

(** [while(p = f->queue)] *)
Fixpoint requeue (fuel : nat) (fam : bool) (h : Z) : M Fs () :=
  match fuel with
  | O => undef "fuel"%string
  | S fuel =>
    q <- gets queue ;;
    match q with
    | [] => ret tt
    | (p, t) :: q =>
      modify (with_queue q) ;;
      r <- gets (fun f => root fam f h) ;;
      r <- walkadd r t ;;
      modify (setroot fam h r) ;;
      freeroute p ;;
      requeue fuel fam h
    end
  end.

(** The nodes of a tree. *)
Fixpoint elems (t : tree) : list Route :=
  match t with Leaf => [] | Node _ r l m rt => r :: elems l ++ elems m ++ elems rt end.

(** Ample for the queue loop: at most three subtrees are queued, and merging
    them back queues nothing when the ranges nest. *)
Definition queue_fuel (t : tree) : nat := 5 + length (elems t) * length (elems t).

(** ** Adding *)

Definition V4H (a : Z) : Z := Z.shiftr (Z.land a 134217727) (32 - Lroot - 5).
Definition V6H (a : list Z) : Z :=
  Z.shiftr (Z.land (nth (IPllen - 1) a 0) 134217727) (32 - Lroot - 5).

(** [for(h = lo; h <= hi; h++)] *)
Fixpoint for_h (n : nat) (h : Z) (body : Z -> M Fs ()) : M Fs () :=
  match n with
  | O => ret tt
  | S n => body h ;; for_h n (h + 1) body
  end.
Definition for_hash (lo hi : Z) (body : Z -> M Fs ()) : M Fs () :=
  for_h (Z.to_nat (hi - lo + 1)) lo body.

(** What both [v4addroute] and [v6addroute] do with a filled in node. *)
Definition insert_node (fam : bool) (h : Z) (p : Route) : M Fs () :=
  cur <- gets (fun f => root fam f h) ;;
  t <- addnode cur p Leaf Leaf Leaf ;;
  modify (setroot fam h t) ;;
  requeue (queue_fuel cur) fam h.

Definition ipifcaddroute (vers : Z) (addr mask gate : list Z) (type : Z) : M Fs () :=
  modify (fun f => with_media (media f ++ [MediaAdd vers addr mask gate type]) f).
Definition ipifcremroute (vers : Z) (addr mask : list Z) : M Fs () :=
  modify (fun f => with_media (media f ++ [MediaRem vers addr mask]) f).

Definition v4addroute (tg a mask gate : list Z) (type : Z) : M Fs () :=
  let m := nhgetl mask in
  let sa := Z.land (nhgetl a) m in
  let ea := Z.lor sa (u32 (Z.lnot m)) in
  for_hash (V4H sa) (V4H ea) (fun h =>
    p <- allocroute (Z.lor Rv4 type) ;;
    insert_node true h (set_tag (take 4 tg) (set_v4 (mkV4 sa ea (take 4 gate)) p))) ;;
  modify (fun f => with_gen (u32 (v4routegeneration f + 1)) (v6routegeneration f) f) ;;
  ipifcaddroute Rv4 a mask gate type.

(** The four words of an address. *)
Definition words (a : list Z) : list Z :=
  (fun h => nhgetl (drop (4 * h) a)) <$> seq 0 IPllen.

Definition v6range (a mask : list Z) : list Z * list Z :=
  (zip_with Z.land (words a) (words mask),
   zip_with (fun x y => Z.lor x (u32 (Z.lnot y))) (words a) (words mask)).

Definition v6addroute (tg a mask gate : list Z) (type : Z) : M Fs () :=
  let '(sa, ea) := v6range a mask in
  for_hash (V6H sa) (V6H ea) (fun h =>
    p <- allocroute type ;;
    insert_node false h (set_tag (take 4 tg) (set_v6 (mkV6 sa ea (take 16 gate)) p))) ;;
  modify (fun f => with_gen (v4routegeneration f) (u32 (v6routegeneration f + 1)) f) ;;
  ipifcaddroute 0 a mask gate type.

(** ** Deleting *)

Inductive dir := DL | DM | DR.

(** The [Route**] a search ends at: the way down from the root. *)
Fixpoint looknode (cur : tree) (r : Route) : option (list dir) :=
  match cur with
  | Leaf => None
  | Node _ p lft mid rgt =>
    match rangecompare r p with
    | Rcontains => None
    | Rpreceeds => cons DL <$> looknode lft r
    | Rfollows => cons DR <$> looknode rgt r
    | Rcontained => cons DM <$> looknode mid r
    | Requals => Some []
    end
  end.

Fixpoint subtree (t : tree) (p : list dir) : tree :=
  match p, t with
  | [], _ => t
  | DL :: p, Node _ _ l _ _ => subtree l p
  | DM :: p, Node _ _ _ m _ => subtree m p
  | DR :: p, Node _ _ _ _ r => subtree r p
  | _, Leaf => Leaf
  end.

(** [*cur = x]; nothing on the way is rebalanced. *)
Fixpoint store (t : tree) (p : list dir) (x : tree) : tree :=
  match p, t with
  | [], _ => x
  | DL :: p, Node d n l m r => Node d n (store l p x) m r
  | DM :: p, Node d n l m r => Node d n l (store m p x) r
  | DR :: p, Node d n l m r => Node d n l m (store r p x)
  | _, Leaf => Leaf
  end.

Definition delete_node (fam : bool) (h : Z) (rt : Route) : M Fs () :=
  cur <- gets (fun f => root fam f h) ;;
  match looknode cur rt with
  | None => ret tt
  | Some r =>
    match subtree cur r with
    | Leaf => undef "nil route"%string
    | Node d p lft mid rgt =>
      let p := set_ref (ref p - 1) p in
      if ref p =? 0 then
        modify (setroot fam h (store cur r Leaf)) ;;
        addqueue lft ;; addqueue mid ;; addqueue rgt ;;
        freeroute p ;;
        requeue (queue_fuel cur) fam h
      else modify (setroot fam h (store cur r (Node d p lft mid rgt)))
    end
  end.

Definition v4delroute (a mask : list Z) : M Fs () :=
  let m := nhgetl mask in
  let sa := Z.land (nhgetl a) m in
  let ea := Z.lor sa (u32 (Z.lnot m)) in
  let rt := mkRoute 0 Rv4 0 None [] 0 (mkV4 sa ea []) zero6 in
  for_hash (V4H sa) (V4H ea) (fun h => delete_node true h rt) ;;
  modify (fun f => with_gen (u32 (v4routegeneration f + 1)) (v6routegeneration f) f) ;;
  ipifcremroute Rv4 a mask.

Definition v6delroute (a mask : list Z) : M Fs () :=
  let '(sa, ea) := v6range a mask in
  let rt := mkRoute 0 0 0 None [] 0 zero4 (mkV6 sa ea []) in
  for_hash (V6H sa) (V6H ea) (fun h => delete_node false h rt) ;;
  modify (fun f => with_gen (v4routegeneration f) (u32 (v6routegeneration f + 1)) f) ;;
  ipifcremroute 0 a mask.

(** ** Looking up *)

Fixpoint v4walk (la : Z) (p : tree) (q : option Route) : option Route :=
  match p with
  | Leaf => q
  | Node _ r lft mid rgt =>
    if la >=? address4 (v4 r) then
      if la <=? endaddress4 (v4 r) then v4walk la mid (Some r)
      else v4walk la rgt q
    else v4walk la lft q
  end.

(** Does the word by word loop leave [p] for a subtree: [x < y] at the first difference. *)
Fixpoint below (la a : list Z) : bool :=
  match la, a with
  | x :: la, y :: a => if x =? y then below la a else x <? y
  | _, _ => false
  end.

Fixpoint v6walk (la : list Z) (p : tree) (q : option Route) : option Route :=
  match p with
  | Leaf => q
  | Node _ r lft mid rgt =>
    if below la (address6 (v6 r)) then v6walk la lft q
    else if below (endaddress6 (v6 r)) la then v6walk la rgt q
    else v6walk la mid (Some r)
  end.

(** [*r = new], wherever the node is. *)
Fixpoint map_route (id : nat) (g : Route -> Route) (t : tree) : tree :=
  match t with
  | Leaf => Leaf
  | Node d r l m rt =>
    Node d (if Nat.eqb (rid r) id then g r else r)
      (map_route id g l) (map_route id g m) (map_route id g rt)
  end.

Definition v4prefix : list Z := [0; 0; 0; 0; 0; 0; 0; 0; 0; 0; 255; 255].

Section Lookup.
(** ip/ipifc.c: the interface for an address, and an interface's generation byte. *)
Context (findipifc : list Z -> Z -> option nat) (ifc_ifcid : nat -> Z).

(** The address the interface of a route is looked up by. *)
Definition ifc_addr (fam : bool) (q : Route) : list Z :=
  if fam then
    if tbit (rtype q) Rifc then v4prefix ++ hnputl (address4 (v4 q)) else v4prefix ++ gate4 (v4 q)
  else if tbit (rtype q) Rifc then concat (hnputl <$> address6 (v6 q)) else gate6 (v6 q).

(** [if(q && (q->ifc == nil || q->ifcid != q->ifc->ifcid))]: find the interface
    again; the store is to the node in the tree. *)
Definition revalidate (fam : bool) (h : Z) (q : option Route) : M Fs (option Route) :=
  match q with
  | None => ret None
  | Some r =>
    if match ifc r with None => true | Some i => negb (ifcid r =? ifc_ifcid i) end then
      match findipifc (ifc_addr fam r) (rtype r) with
      | None => ret None
      | Some i =>
        let g := fun r => set_ifcid (ifc_ifcid i) (set_ifc (Some i) r) in
        modify (fun f => setroot fam h (map_route (rid r) g (root fam f h)) f) ;;
        ret (Some (g r))
      end
    else ret (Some r)
  end.

(** What a conversation remembers: the last route, by its address, and the
    generation it was found in. *)
Record Rcache := mkRcache { c_r : option nat; rgen : Z }.

(** [*c->r] *)
Definition deref (id : nat) (f : Fs) : option Route :=
  List.find (fun r => Nat.eqb (rid r) id)
    (concat ((fun h => elems (v4root f (Z.of_nat h))) <$> seq 0 (Z.to_nat (2 ^ Lroot))) ++
     concat ((fun h => elems (v6root f (Z.of_nat h))) <$> seq 0 (Z.to_nat (2 ^ Lroot)))).

(** [c != nil && c->r != nil && c->r->ifc != nil && c->rgen == routegeneration] *)
Definition cached (fam : bool) (c : option Rcache) : M Fs (option Route) := fun f =>
  match c with
  | Some (mkRcache (Some id) g) =>
    if g =? (if fam then v4routegeneration f else v6routegeneration f) then
      match deref id f with
      | Some r => Ret (match ifc r with Some _ => Some r | None => None end) f
      | None => Undef "route freed"%string
      end
    else Ret None f
  | _ => Ret None f
  end.

(** [if(c != nil){ c->r = q; c->rgen = routegeneration; }] *)
Definition remember (fam : bool) (c : option Rcache) (q : option Route) : M Fs (option Rcache) :=
  gets (fun f => match c with
    | None => None
    | Some _ =>
      Some (mkRcache (rid <$> q) (if fam then v4routegeneration f else v6routegeneration f))
    end).

Definition lookup_fresh (fam : bool) (h : Z) (q : option Route) (c : option Rcache)
  : M Fs (option Route * option Rcache) :=
  match q with
  | None => c <- remember fam c None ;; ret (None, c)
  | Some _ =>
    q <- revalidate fam h q ;;
    match q with
    | None => ret (None, c)
    | Some _ => c <- remember fam c q ;; ret (q, c)
    end
  end.

Definition v4lookup (a : list Z) (c : option Rcache) : M Fs (option Route * option Rcache) :=
  hit <- cached true c ;;
  match hit with
  | Some r => ret (Some r, c)
  | None =>
    let la := nhgetl a in
    t <- gets (fun f => v4root f (V4H la)) ;;
    lookup_fresh true (V4H la) (v4walk la t None) c
  end.

Definition v6lookup (a : list Z) (c : option Rcache) : M Fs (option Route * option Rcache) :=
  q <- (if bool_decide (take IPv4off a = v4prefix) then v4lookup (drop IPv4off a) c
        else ret (None, c)) ;;
  match q with
  | (Some q, c) => ret (Some q, c)
  | (None, c) =>
    hit <- cached false c ;;
    match hit with
    | Some r => ret (Some r, c)
    | None =>
      let la := words a in
      t <- gets (fun f => v6root f (V6H la)) ;;
      lookup_fresh false (V6H la) (v6walk la t None) c
    end
  end.

Definition isv4 (ip : list Z) : bool := bool_decide (take IPv4off ip = v4prefix).
Definition iproute (ip : list Z) : M Fs (option Route) :=
  qc <- (if isv4 ip then v4lookup (drop IPv4off ip) None else v6lookup ip None) ;; ret qc.1.
End Lookup.

(** ** Listing and flushing *)

(** Address and mask of a route, as the listing and [delroute] give them. *)
Definition convroute (r : Route) : list Z * list Z * list Z :=
  if tbit (rtype r) Rv4 then
    (v4prefix ++ hnputl (address4 (v4 r)),
     replicate IPv4off 255 ++ hnputl (u32 (Z.lnot (Z.lxor (endaddress4 (v4 r)) (address4 (v4 r))))),
     v4prefix ++ gate4 (v4 r))
  else
    (concat (hnputl <$> address6 (v6 r)),
     concat (zip_with (fun e a => hnputl (u32 (Z.lnot (Z.lxor e a))))
       (endaddress6 (v6 r)) (address6 (v6 r))),
     gate6 (v6 r)).

(** The four characters that show a type. *)
Definition routetype (type : Z) : list Z :=
  let s := [if tbit type Rv4 then 52 else 54] ++
    (if tbit type Rifc then [105] else []) ++
    (if tbit type Runi then [117] else if tbit type Rbcast then [98]
     else if tbit type Rmulti then [109] else []) ++
    (if tbit type Rptpt then [112] else []) in
  s ++ replicate (4 - length s) 32.

(** Descend a tree, applying [walk] to the routes that start in the hash
    class [h]; stop when the buffer is [full]. *)
Section Walk.
Context {W : Type} (full : W -> bool) (walk : Route -> W -> W).

Definition route_hash (r : Route) : Z :=
  if tbit (rtype r) Rv4 then V4H (address4 (v4 r)) else V6H (address6 (v6 r)).

Fixpoint rr (h : Z) (r : tree) (rw : W) : bool * W :=
  if full rw then (false, rw)
  else match r with
  | Leaf => (true, rw)
  | Node _ p lft mid rgt =>
    let '(b, rw) := rr h lft rw in
    if negb b then (false, rw)
    else
      let rw := if route_hash p =? h then walk p rw else rw in
      let '(b, rw) := rr h mid rw in
      if negb b then (false, rw) else rr h rgt rw
  end.

(** [for(rw->h = 0; rw->h < nelem(root); rw->h++) if(rr(root[rw->h], rw) == 0) break;] *)
Fixpoint rr_all (n : nat) (h : Z) (roots : Z -> tree) (rw : W) : W :=
  match n with
  | O => rw
  | S n => let '(b, rw) := rr h (roots h) rw in if b then rr_all n (h + 1) roots rw else rw
  end.

Definition nroots : nat := Z.to_nat (2 ^ Lroot).

Definition ipwalkroutes (f : Fs) (rw : W) : W :=
  let rw := if full rw then rw else rr_all nroots 0 (v4root f) rw in
  if full rw then rw else rr_all nroots 0 (v6root f) rw.
End Walk.

(** The output window of a read: [left] bytes of room, [o] bytes still to skip
    (as a negative number), and what has been produced. *)
Record Routewalk := mkRw { rwo : Z; out : list Z; room : Z }.

(** [seprint(rw->p, rw->e, ...)]: the text, cut to leave room for the NUL. *)
Definition seprint (text : list Z) (rw : Routewalk) : list Z :=
  ztake (room rw - zlen (out rw) - 1) text.

Section Print.
Context (text : Route -> list Z).
Definition sprintroute (r : Route) (rw : Routewalk) : Routewalk :=
  let s := seprint (text r) rw in
  if rwo rw <? 0 then
    let n := zlen s in
    if n >? - rwo rw then mkRw (rwo rw + n) (out rw ++ zdrop (- rwo rw) s) (room rw)
    else mkRw (rwo rw + n) (out rw) (room rw)
  else mkRw (rwo rw) (out rw ++ s) (room rw).

Definition routeread (f : Fs) (offset n : Z) : list Z :=
  out (ipwalkroutes (fun rw => room rw <=? zlen (out rw)) sprintroute f (mkRw (- offset) [] n)).
End Print.

Definition delroute (r : Route) : M Fs () :=
  let '(addr, mask, _) := convroute r in
  if tbit (rtype r) Rv4 then v4delroute (drop IPv4off addr) (drop IPv4off mask)
  else v6delroute addr mask.

(** [strncmp(a, b, n) == 0] *)
Fixpoint strneq (n : nat) (a b : list Z) : bool :=
  match n with
  | O => true
  | S n =>
    let x := hd 0 a in
    if x =? hd 0 b then if x =? 0 then true else strneq n (tail a) (tail b) else false
  end.

(** Delete the first route found that is not an interface's and has the tag. *)
Fixpoint routeflush (r : tree) (tg : option (list Z)) : M Fs bool :=
  match r with
  | Leaf => ret false
  | Node _ p lft mid rgt =>
    b <- routeflush mid tg ;;
    if (b : bool) then ret true else
    b <- routeflush lft tg ;;
    if (b : bool) then ret true else
    b <- routeflush rgt tg ;;
    if (b : bool) then ret true else
    if negb (tbit (rtype p) Rifc) &&
       match tg with None => true | Some t => strneq 4 t (tag p) end
    then delroute p ;; ret true
    else ret false
  end.
End Routes.

(** ** Ranges as intervals of numbers *)

(** The number a list of 32-bit words stands for. *)
Fixpoint num (l : list Z) : Z :=
  match l with [] => 0 | x :: l => x * 2 ^ (32 * zlen l) + num l end.

Definition wfwords (l : list Z) : Prop := length l = IPllen /\ Forall (fun x => 0 <= x < 2 ^ 32) l.

Lemma num_range l : Forall (fun x => 0 <= x < 2 ^ 32) l -> 0 <= num l < 2 ^ (32 * zlen l).
Proof.
  induction 1 as [|x l Hx H IH]; cbn [num]; [split; [lia | reflexivity]|].
  rewrite zlen_cons, Z.mul_add_distr_l, Z.pow_add_r by (pose proof (zlen_nonneg l); lia).
  change (2 ^ (32 * 1)) with (2 ^ 32). set (P := 2 ^ (32 * zlen l)) in *.
  assert (x * P <= (2 ^ 32 - 1) * P) by (apply Z.mul_le_mono_nonneg_r; lia).
  assert (0 <= x * P) by (apply Z.mul_nonneg_nonneg; lia). lia.
Qed.

Lemma lcmp_num a c : length a = length c ->
  Forall (fun x => 0 <= x < 2 ^ 32) a -> Forall (fun x => 0 <= x < 2 ^ 32) c ->
  (lcmp a c = -1 /\ num a < num c) \/ (lcmp a c = 0 /\ num a = num c) \/ (lcmp a c = 1 /\ num a > num c).
Proof.
  revert c. induction a as [|x a IH]; intros [|y c] Hl Ha Hc; try done; [cbn; auto|].
  apply Forall_cons in Ha as [Hx Ha]. apply Forall_cons in Hc as [Hy Hc].
  pose proof (num_range a Ha). pose proof (num_range c Hc).
  assert (zlen a = zlen c) as El by (unfold zlen; cbn in Hl; lia). rewrite El in *.
  cbn [lcmp num]. rewrite El. set (P := 2 ^ (32 * zlen c)) in *.
  destruct (Z.ltb_spec y x); [right; right; nia|].
  destruct (Z.ltb_spec x y); [left; nia|].
  destruct (IH c ltac:(cbn in Hl; lia) Ha Hc) as [?|[?|?]]; assert (x = y) by lia; subst; lia.
Qed.

Lemma below_num a c : length a = length c ->
  Forall (fun x => 0 <= x < 2 ^ 32) a -> Forall (fun x => 0 <= x < 2 ^ 32) c ->
  below a c = (num a <? num c).
Proof.
  revert c. induction a as [|x a IH]; intros [|y c] Hl Ha Hc; try done.
  apply Forall_cons in Ha as [Hx Ha]. apply Forall_cons in Hc as [Hy Hc].
  pose proof (num_range a Ha). pose proof (num_range c Hc).
  assert (zlen a = zlen c) as El by (unfold zlen; cbn in Hl; lia). rewrite El in *.
  cbn [below num]. rewrite El. set (P := 2 ^ (32 * zlen c)) in *.
  destruct (Z.eqb_spec x y) as [->|N].
  - rewrite IH by (try done; cbn in Hl; lia). destruct (Z.ltb_spec (num a) (num c)); symmetry;
      [apply Z.ltb_lt | apply Z.ltb_ge]; lia.
  - destruct (Z.ltb_spec x y); symmetry; [apply Z.ltb_lt | apply Z.ltb_ge]; nia.
Qed.

Section Trees.
(** [b]: the family of the tree, [true] for version 4. *)
Context (mem_ok : nat -> bool) (Hmem : forall n, mem_ok n = true) (b : bool).

Definition lo (r : Route) : Z := if b then address4 (v4 r) else num (address6 (v6 r)).
Definition hi (r : Route) : Z := if b then endaddress4 (v4 r) else num (endaddress6 (v6 r)).

(** A route of the family with a non-empty range. *)
Definition okr (r : Route) : Prop :=
  tbit (rtype r) Rv4 = b /\ lo r <= hi r /\
  (b = false -> wfwords (address6 (v6 r)) /\ wfwords (endaddress6 (v6 r))).

Definition contains (x y : Route) : Prop := lo x <= lo y /\ hi y <= hi x.
Definition same (x y : Route) : Prop := lo x = lo y /\ hi x = hi y.
Definition apart (x y : Route) : Prop := hi x < lo y \/ hi y < lo x.
Definition nested (x y : Route) : Prop := apart x y \/ contains x y \/ contains y x.

Fixpoint wft (t : tree) : Prop :=
  match t with
  | Leaf => True
  | Node _ r l m rt =>
    okr r /\ Forall (fun x => hi x < lo r) (elems l) /\ Forall (fun x => hi r < lo x) (elems rt) /\
    Forall (fun x => contains r x /\ ~ same r x) (elems m) /\ wft l /\ wft m /\ wft rt
  end.

Lemma rangecompare_spec x y : okr x -> okr y ->
  match rangecompare x y with
  | Rpreceeds => hi x < lo y
  | Rfollows => hi y < lo x
  | Requals => same x y
  | Rcontains => contains x y /\ ~ same x y
  | Rcontained => ~ apart x y /\ ~ contains x y
  end.
Proof.
  intros (Fx & Rx & Wx) (Fy & Ry & Wy). unfold rangecompare, apart, contains, same, lo, hi in *.
  rewrite Fx. destruct b.
  - destruct (Z.ltb_spec (endaddress4 (v4 x)) (address4 (v4 y))); [done|].
    destruct (Z.ltb_spec (endaddress4 (v4 y)) (address4 (v4 x))); [done|].
    destruct (Z.leb_spec (address4 (v4 x)) (address4 (v4 y))),
      (Z.leb_spec (endaddress4 (v4 y)) (endaddress4 (v4 x))); cbn [andb]; try lia.
    destruct (Z.eqb_spec (address4 (v4 x)) (address4 (v4 y))),
      (Z.eqb_spec (endaddress4 (v4 x)) (endaddress4 (v4 y))); cbn [andb]; lia.
  - destruct (Wx eq_refl) as [[Lx1 Wx1] [Lx2 Wx2]]. destruct (Wy eq_refl) as [[Ly1 Wy1] [Ly2 Wy2]].
    destruct (lcmp_num (endaddress6 (v6 x)) (address6 (v6 y))) as [[-> ?]|[[-> ?]|[-> ?]]]; try done; try congruence.
    all: destruct (lcmp_num (address6 (v6 x)) (endaddress6 (v6 y))) as [[-> ?]|[[-> ?]|[-> ?]]]; try done; try congruence; cbn; try lia.
    all: destruct (lcmp_num (address6 (v6 x)) (address6 (v6 y))) as [[-> ?]|[[-> ?]|[-> ?]]]; try done; try congruence; cbn; try lia.
    all: destruct (lcmp_num (endaddress6 (v6 x)) (endaddress6 (v6 y))) as [[-> ?]|[[-> ?]|[-> ?]]]; try done; try congruence; cbn; lia.
Qed.

(** *** Rotations *)

Lemma wft_okr t x : wft t -> x ∈ elems t -> okr x.
Proof.
  induction t as [|d r l IHl m IHm rt IHr]; cbn [wft elems]; [by intros _ ?%elem_of_nil|].
  intros (Hr & _ & _ & _ & Hl & Hm & Hrt) [->|H]%elem_of_cons; [done|].
  apply elem_of_app in H as [H|H]; [auto|]. apply elem_of_app in H as [H|H]; auto.
Qed.

Lemma elems_calcd t : elems (calcd t) = elems t.
Proof. by destruct t. Qed.
Lemma wft_calcd t : wft (calcd t) <-> wft t.
Proof. by destruct t. Qed.
Lemma wft_Node d d' r l m rt : wft (Node d r l m rt) <-> wft (Node d' r l m rt).
Proof. done. Qed.

(** Rotations keep the nodes and the order. *)
Lemma rotate_right d d' ld ld' p lr ll lm lrt m r :
  wft (Node d p (Node ld lr ll lm lrt) m r) ->
  wft (Node ld' lr ll lm (Node d' p lrt m r)) /\
  elems (Node ld' lr ll lm (Node d' p lrt m r)) ≡ₚ elems (Node d p (Node ld lr ll lm lrt) m r).
Proof.
  cbn [wft elems]. rewrite !Forall_cons, !Forall_app.
  intros (Hp & (Hlr & Hll & Hlm & Hlrt) & Hr & Hm & (Hlr' & Hll' & Hlrt' & Hlm' & Wll & Wlm & Wlrt) & Wm & Wr).
  assert (lo p <= hi p) by apply Hp.
  split; [|solve_Permutation].
  refine (conj Hlr' (conj Hll' (conj (conj _ (conj Hlrt' (conj _ _))) (conj Hlm' (conj Wll (conj Wlm _)))))); [lia| | |].
  - eapply Forall_impl; [exact Hm|]. unfold contains. cbv beta. intros x [Hx _]. lia.
  - eapply Forall_impl; [exact Hr|]. cbv beta. intros x Hx. lia.
  - tauto.
Qed.
Lemma rotate_left d d' rd rd' p l m rr rl rm rrt :
  wft (Node d p l m (Node rd rr rl rm rrt)) ->
  wft (Node rd' rr (Node d' p l m rl) rm rrt) /\
  elems (Node rd' rr (Node d' p l m rl) rm rrt) ≡ₚ elems (Node d p l m (Node rd rr rl rm rrt)).
Proof.
  cbn [wft elems]. rewrite !Forall_cons, !Forall_app.
  intros (Hp & Hl & (Hrr & Hrl & Hrm & Hrrt) & Hm & Wl & Wm & (Hrr' & Hrl' & Hrrt' & Hrm' & Wrl & Wrm & Wrrt)).
  assert (lo p <= hi p) by apply Hp.
  split; [|solve_Permutation].
  refine (conj Hrr' (conj (conj _ (conj _ (conj _ Hrl'))) (conj Hrrt' (conj Hrm' (conj _ (conj Wrm Wrrt)))))); [lia| | |].
  - eapply Forall_impl; [exact Hl|]. cbv beta. intros x Hx. lia.
  - eapply Forall_impl; [exact Hm|]. unfold contains. cbv beta. intros x [Hx _]. lia.
  - tauto.
Qed.

Lemma balance_spec t : wft t -> wft (balancetree t) /\ elems (balancetree t) ≡ₚ elems t.
Proof.
  intros H. destruct t as [|d p l m r]; [done|]. unfold balancetree.
  assert (wft (calcd (Node d p l m r)) /\ elems (calcd (Node d p l m r)) ≡ₚ elems (Node d p l m r)) as Hc.
  { by rewrite wft_calcd, elems_calcd. }
  assert (forall rd rr rl rm rrt, r = Node rd rr rl rm rrt ->
    wft (calcd (Node rd rr (calcd (Node d p l m rl)) rm rrt)) /\
    elems (calcd (Node rd rr (calcd (Node d p l m rl)) rm rrt)) ≡ₚ elems (Node d p l m r)) as HR.
  { intros rd rr rl rm rrt ->. rewrite wft_calcd, elems_calcd. by eapply rotate_left. }
  assert (forall ld lr ll lm lrt, l = Node ld lr ll lm lrt ->
    wft (calcd (Node ld lr ll lm (calcd (Node d p lrt m r)))) /\
    elems (calcd (Node ld lr ll lm (calcd (Node d p lrt m r)))) ≡ₚ elems (Node d p l m r)) as HL.
  { intros ld lr ll lm lrt ->. rewrite wft_calcd, elems_calcd. by eapply rotate_right. }
  destruct l, r; try destruct (_ >? _); eauto; destruct (_ >? _); eauto.
Qed.

(** *** Adding a node *)

Lemma okr_range x : okr x -> lo x <= hi x.
Proof. by intros (_ & ? & _). Qed.

(** Where the nodes of a tree lie with respect to its root. *)
Lemma wft_inv d p l m r : wft (Node d p l m r) ->
  okr p /\ wft l /\ wft m /\ wft r /\
  (forall x, x ∈ elems l -> okr x /\ lo x <= hi x < lo p) /\
  (forall x, x ∈ elems r -> okr x /\ hi p < lo x <= hi x) /\
  (forall x, x ∈ elems m -> okr x /\ lo x <= hi x /\ contains p x /\ ~ same p x).
Proof.
  cbn [wft]. intros (Hp & Hl & Hr & Hm & Wl & Wm & Wr). rewrite Forall_forall in Hl, Hr, Hm.
  refine (conj Hp (conj Wl (conj Wm (conj Wr (conj _ (conj _ _)))))); intros x Hx.
  - pose proof (wft_okr _ _ Wl Hx) as Hk. pose proof (okr_range _ Hk). apply Hl in Hx. auto.
  - pose proof (wft_okr _ _ Wr Hx) as Hk. pose proof (okr_range _ Hk). apply Hr in Hx. auto.
  - pose proof (wft_okr _ _ Wm Hx) as Hk. pose proof (okr_range _ Hk). apply Hm in Hx. tauto.
Qed.
Lemma wft_intro d p l m r : okr p -> wft l -> wft m -> wft r ->
  (forall x, x ∈ elems l -> hi x < lo p) -> (forall x, x ∈ elems r -> hi p < lo x) ->
  (forall x, x ∈ elems m -> contains p x /\ ~ same p x) -> wft (Node d p l m r).
Proof. intros. cbn [wft]. rewrite !Forall_forall. auto 10. Qed.

Ltac rlia := unfold nested, apart, contains, same in *; lia.
Ltac elems_in := repeat first
  [ rewrite elem_of_cons in * | rewrite elem_of_app in * ]; intuition (subst; eauto).

Lemma wp_balance (t : tree) (s : Fs) (Q : tree -> Fs -> Prop) :
  Q (balancetree t) s -> wp (ret (balancetree t)) s Q.
Proof. done. Qed.

(** A node that contains none of the tree goes to a leaf. *)
Lemma addnode_fresh cur new mid s :
  wft cur -> okr new -> wft mid ->
  (forall x, x ∈ elems mid -> contains new x /\ ~ same new x) ->
  (forall x, x ∈ elems cur -> nested new x /\ ~ contains new x) ->
  wp (addnode mem_ok cur new Leaf mid Leaf) s (fun t s' =>
    s' = s /\ wft t /\ elems t ≡ₚ new :: elems mid ++ elems cur).
Proof.
  revert s. induction cur as [|d p l IHl m IHm r IHr]; intros s W Hn Wm Hm Hc; cbn [addnode].
  { apply wp_ret. split; [done|]. cbn [elems]. rewrite !app_nil_r, app_nil_l.
    split; [|done]. apply wft_intro; try done; by intros x ?%elem_of_nil. }
  apply wft_inv in W as (Hp & Wl & Wmm & Wr & El & Er & Em). cbn [elems] in Hc.
  assert (forall x, x ∈ elems mid -> contains new x /\ lo x <= hi x) as Hm'.
  { intros x Hx. split; [by apply Hm | apply okr_range; by eapply wft_okr]. }
  pose proof (okr_range _ Hp). pose proof (okr_range _ Hn).
  destruct (Hc p ltac:(elems_in)) as [Hnp Hnc].
  pose proof (rangecompare_spec new p Hn Hp) as Hcmp.
  apply wp_bind. destruct (rangecompare new p); try rlia; wp_steps;
    match goal with IH : context [addnode _ ?c] |- wp (addnode _ ?c _ _ _ _) _ _ =>
      eapply wp_mono; [apply IH; try done; intros x Hx; apply Hc; elems_in |] end;
    intros t s' (-> & Wt & Et); wp_steps; (split; [done|]).
  all: match goal with |- wft (balancetree ?n) /\ _ =>
    assert (wft n) as Wn; [| destruct (balance_spec n Wn) as [? ->]; split; [done|];
      cbn [elems]; rewrite Et; solve_Permutation] end.
  all: apply wft_intro; try done; intros x Hx; rewrite ?Et in Hx;
    try (by apply El); try (by apply Er); try (by apply Em).
  all: rewrite elem_of_cons, elem_of_app in Hx; destruct Hx as [->|[Hx|Hx]];
    try (by apply El); try (by apply Er); try (by apply Em); try rlia.
  all: apply Hm' in Hx; rlia.
Qed.

(** What a store of [new] does to the routes of a tree: an equal range is
    superseded; otherwise [new] is there, and a subtree [sub] it displaced is
    queued, none of whose routes contains a route that stayed. *)
Definition added (new : Route) (cur t : tree) (s s' : Fs) : Prop :=
  (exists p E, elems cur ≡ₚ p :: E /\ same p new /\ elems t ≡ₚ supersede p new :: E
     /\ freeroute new s = Ret tt s')
  \/ ((forall x, x ∈ elems cur -> ~ same x new) /\
      exists sub E, elems cur ≡ₚ elems sub ++ E /\ elems t ≡ₚ new :: E /\ wft sub /\
        (forall x y, x ∈ elems sub -> y ∈ elems t -> nested x y /\ ~ contains x y) /\
        addqueue mem_ok sub s = Ret tt s').

Lemma lo_supersede p new : lo (supersede p new) = lo p.
Proof.
  unfold supersede, copygate, lo. destruct (tbit (rtype p) Rifc), (tbit (rtype new) Rifc),
    (tbit (rtype new) Rv4), b; done.
Qed.
Lemma hi_supersede p new : hi (supersede p new) = hi p.
Proof.
  unfold supersede, copygate, hi. destruct (tbit (rtype p) Rifc), (tbit (rtype new) Rifc),
    (tbit (rtype new) Rv4), b; done.
Qed.
Lemma okr_supersede p new : okr p -> okr new -> okr (supersede p new).
Proof.
  intros Hp Hn. pose proof (okr_range _ Hp). split; [|split].
  - destruct Hp as [Hp _], Hn as [Hn _]. unfold supersede, copygate.
    destruct (tbit (rtype p) Rifc), (tbit (rtype new) Rifc), (tbit (rtype new) Rv4) eqn:E; cbn; congruence.
  - by rewrite lo_supersede, hi_supersede.
  - destruct Hp as (_ & _ & Hw). intros Hb. specialize (Hw Hb). unfold supersede, copygate.
    destruct (tbit (rtype p) Rifc), (tbit (rtype new) Rifc), (tbit (rtype new) Rv4) eqn:E; done.
Qed.

Lemma wp_addqueue t s (Q : () -> Fs -> Prop) :
  (forall s', addqueue mem_ok t s = Ret tt s' -> Q tt s') -> wp (addqueue mem_ok t) s Q.
Proof.
  intros H. unfold wp. destruct (addqueue mem_ok t s) as [[] s'| | |] eqn:E; [by apply H| | |];
    exfalso; revert E; unfold addqueue; destruct t; try done;
    unfold bind, allocroute; destruct (if tbit (rtype r) Rv4 then _ else _); try done; by rewrite Hmem.
Qed.

(** [cur] is replaced by [new], which contains its root. *)
Lemma displaced new d p l m r s s' : let cur := Node d p l m r in
  wft cur -> okr new -> (forall x, x ∈ elems cur -> nested new x) ->
  contains new p /\ ~ same new p -> addqueue mem_ok cur s = Ret tt s' ->
  wft (Node 1 new Leaf Leaf Leaf) /\ added new cur (Node 1 new Leaf Leaf Leaf) s s'.
Proof.
  intros cur W Hn Hc Hcmp Hq. pose proof (okr_range _ Hn).
  split; [apply wft_intro; try done; by intros x ?%elem_of_nil|].
  right. pose proof W as W'. apply wft_inv in W' as (Hp & _ & _ & _ & El & Er & Em).
  pose proof (okr_range _ Hp).
  assert (forall x, x ∈ elems cur -> ~ contains x new) as Hnc.
  { subst cur. intros x Hx Hx'. cbn [elems] in Hx.
    apply elem_of_cons in Hx as [->|Hx]; [rlia|]. apply elem_of_app in Hx as [Hx|Hx].
    - apply El in Hx. rlia.
    - apply elem_of_app in Hx as [Hx|Hx]; [apply Em in Hx | apply Er in Hx]; rlia. }
  split; [intros x Hx; specialize (Hnc x Hx); rlia|].
  exists cur, []. rewrite app_nil_r. cbn [elems app].
  refine (conj _ (conj _ (conj W (conj _ Hq)))); [done | done |].
  intros x y Hx ->%list_elem_of_singleton. specialize (Hc x Hx). specialize (Hnc x Hx). rlia.
Qed.

(** Every route of the new tree was in the old one, or has the range added. *)
Lemma added_elems new cur t s s' y : added new cur t s s' -> y ∈ elems t -> same y new \/ y ∈ elems cur.
Proof.
  intros [(p & E & H1 & H2 & H3 & _)|(_ & sub & E & H1 & H2 & _)] Hy.
  - rewrite H3 in Hy. rewrite H1. apply elem_of_cons in Hy as [->|Hy]; [left | right; by constructor].
    unfold same in *. by rewrite lo_supersede, hi_supersede.
  - rewrite H2 in Hy. rewrite H1, elem_of_app. apply elem_of_cons in Hy as [->|Hy]; [left | auto].
    done.
Qed.

(** [added] in a subtree is [added] in the tree, the rest [E0] lying apart from
    what the subtree holds, or around it. *)
Lemma added_frame new cur cur' t t' E0 s s' :
  elems cur' ≡ₚ elems cur ++ E0 -> elems t' ≡ₚ elems t ++ E0 ->
  (forall x, x ∈ E0 -> ~ same x new) ->
  (forall x y, x ∈ elems cur -> y ∈ E0 -> nested x y /\ ~ contains x y) ->
  added new cur t s s' -> added new cur' t' s s'.
Proof.
  intros Ec Et Hn Hx [(p & E & H1 & H2 & H3 & H4)|(Hs & sub & E & H1 & H2 & H3 & H4 & H5)].
  - left. exists p, (E ++ E0). rewrite Ec, Et, H1, H3. done.
  - right. split.
    { intros x. rewrite Ec, elem_of_app. intros [?|?]; auto. }
    exists sub, (E ++ E0). refine (conj _ (conj _ (conj H3 (conj _ H5)))).
    { by rewrite Ec, H1, app_assoc. }
    { by rewrite Et, H2. }
    intros x y Hxs. rewrite Et, elem_of_app. intros [Hy|Hy]; [by apply H4|].
    apply Hx; [rewrite H1; apply elem_of_app; by left | done].
Qed.

Lemma addnode_spec cur new s :
  wft cur -> okr new -> (forall x, x ∈ elems cur -> nested new x) ->
  wp (addnode mem_ok cur new Leaf Leaf Leaf) s (fun t s' => wft t /\ added new cur t s s').
Proof.
  revert s. induction cur as [|d p l IHl m IHm r IHr]; intros s W Hn Hc; cbn [addnode].
  { apply wp_ret. split; [apply wft_intro; try done; by intros x ?%elem_of_nil|].
    right. split; [by intros x ?%elem_of_nil|]. exists Leaf, []. repeat split; try done.
    all: by apply elem_of_nil in H. }
  pose proof W as W'. apply wft_inv in W as (Hp & Wl & Wmm & Wr & El & Er & Em).
  pose proof (okr_range _ Hp). pose proof (okr_range _ Hn).
  pose proof (Hc p ltac:(cbn; elems_in)) as Hnp.
  pose proof (rangecompare_spec new p Hn Hp) as Hcmp.
  assert (forall t s', wft t /\ added new (Node d p l m r) t s s' ->
    wft (balancetree t) /\ added new (Node d p l m r) (balancetree t) s s') as Hbal.
  { intros t s' [Wt [(q & E & ? & ? & Et & ?)|(? & sub & E & ? & Et & ? & Hsub & ?)]];
      destruct (balance_spec t Wt) as [? Eb]; (split; [done|]).
    - left. exists q, E. by rewrite Eb.
    - right. split; [done|]. exists sub, E. repeat split; try done; [by rewrite Eb| |];
        apply Hsub; try done; by rewrite <- Eb. }
  apply wp_bind. eapply wp_mono; [|intros t s' Ht; apply wp_ret, Hbal, Ht].
  destruct (rangecompare new p).
  - wp_steps. eapply wp_mono; [apply IHl; try done; intros x Hx; apply Hc; cbn; elems_in|].
    intros t s' (Wt & Ht). wp_steps.
    split.
    + apply wft_intro; try done; intros x Hx; [|by apply Er | by apply Em].
      destruct (added_elems _ _ _ _ _ _ Ht Hx) as [?|?%El]; rlia.
    + eapply (added_frame new l _ t _ (p :: elems m ++ elems r)); try done; cbn [elems];
        [solve_Permutation | solve_Permutation | |].
      * intros x Hx. rewrite elem_of_cons, elem_of_app in Hx.
        destruct Hx as [->|[?%Em|?%Er]]; rlia.
      * intros x y ?%El Hy. rewrite elem_of_cons, elem_of_app in Hy.
        destruct Hy as [->|[?%Em|?%Er]]; rlia.
  - wp_steps. eapply wp_mono; [apply IHr; try done; intros x Hx; apply Hc; cbn; elems_in|].
    intros t s' (Wt & Ht). wp_steps. split.
    + apply wft_intro; try done; intros x Hx; [by apply El | | by apply Em].
      destruct (added_elems _ _ _ _ _ _ Ht Hx) as [?|?%Er]; rlia.
    + eapply (added_frame new r _ t _ (p :: elems l ++ elems m)); try done; cbn [elems];
        [solve_Permutation | solve_Permutation | |].
      * intros x Hx. rewrite elem_of_cons, elem_of_app in Hx.
        destruct Hx as [->|[?%El|?%Em]]; rlia.
      * intros x y ?%Er Hy. rewrite elem_of_cons, elem_of_app in Hy.
        destruct Hy as [->|[?%El|?%Em]]; rlia.
  - wp_steps. unfold wp, freeroute, modify. wp_steps. split.
    + assert (same (supersede p new) p) as Hs by (unfold same; by rewrite lo_supersede, hi_supersede).
      apply wft_intro; try done; [by apply okr_supersede| | |]; intros x Hx;
        [apply El in Hx | apply Er in Hx | apply Em in Hx]; rlia.
    + left. exists p, (elems l ++ elems m ++ elems r). repeat split; try done; rlia.
  - wp_steps. apply wp_addqueue. intros s' Hq. wp_steps. by eapply displaced.
  - wp_steps. eapply wp_mono; [apply IHm; try done; intros x Hx; apply Hc; cbn; elems_in|].
    intros t s' (Wt & Ht). wp_steps. split.
    + apply wft_intro; try done; intros x Hx; [by apply El | by apply Er|].
      destruct (added_elems _ _ _ _ _ _ Ht Hx) as [?|?%Em]; rlia.
    + eapply (added_frame new m _ t _ (p :: elems l ++ elems r)); try done; cbn [elems];
        [solve_Permutation | solve_Permutation | |].
      * intros x Hx. rewrite elem_of_cons, elem_of_app in Hx.
        destruct Hx as [->|[?%El|?%Er]]; rlia.
      * intros x y ?%Em Hy. rewrite elem_of_cons, elem_of_app in Hy.
        destruct Hy as [->|[?%El|?%Er]]; rlia.
Qed.

(** *** Merging subtrees back *)

Definition clear_of (x y : Route) : Prop := nested x y /\ ~ contains x y.

Lemma walkadd_spec p rt s :
  wft p -> wft rt -> (forall x y, x ∈ elems p -> y ∈ elems rt -> clear_of x y) ->
  wp (walkadd mem_ok rt p) s (fun t s' => s' = s /\ wft t /\ elems t ≡ₚ elems p ++ elems rt).
Proof.
  unfold clear_of. revert rt s. induction p as [|d r l IHl m _ rgt IHr]; intros rt s W Wr Hc; cbn [walkadd].
  { apply wp_ret. by rewrite app_nil_l. }
  apply wft_inv in W as (Hp & Wl & Wm & Wrr & El & Er & Em).
  pose proof (okr_range _ Hp). cbn [elems] in Hc.
  apply wp_bind. eapply wp_mono; [apply addnode_fresh; try done|].
  { intros x Hx. by apply Em. }
  { intros x Hx. apply Hc; [elems_in | done]. }
  intros t s' (-> & Wt & Et). apply wp_bind. eapply wp_mono; [apply IHl; try done|].
  { intros x y Hx Hy. rewrite Et, elem_of_cons, elem_of_app in Hy. pose proof (El _ Hx).
    destruct Hy as [->|[?%Em|Hy]]; [rlia | rlia | apply Hc; [elems_in | done]]. }
  intros t' s' (-> & Wt' & Et'). eapply wp_mono; [apply IHr; try done|].
  { intros x y Hx Hy. rewrite Et', Et, elem_of_app, elem_of_cons, elem_of_app in Hy. pose proof (Er _ Hx).
    destruct Hy as [?%El|[->|[?%Em|Hy]]]; [rlia | rlia | rlia | apply Hc; [elems_in | done]]. }
  intros t'' s' (-> & Wt'' & Et''). split; [done|]. split; [done|].
  rewrite Et'', Et', Et. cbn [elems]. solve_Permutation.
Qed.

(** Everything but one tree and the storage of nodes. *)
Definition others (h : Z) (f f' : Fs) : Prop :=
  root (negb b) f' = root (negb b) f /\ (forall h', h' <> h -> root b f' h' = root b f h') /\
  v4routegeneration f' = v4routegeneration f /\ v6routegeneration f' = v6routegeneration f /\
  media f' = media f.
#[export] Instance others_preorder h : PreOrder (others h).
Proof.
  split; [done|]. intros f g k (A & B & C & D & E) (A' & B' & C' & D' & E').
  repeat split; try congruence. intros h' Hh. by rewrite B', B.
Qed.

Lemma others_queue h q f : others h f (with_queue q f).
Proof. done. Qed.
Lemma others_setroot h t f : others h f (setroot b h t f).
Proof.
  unfold others, setroot, root. destruct b; cbn; repeat split; try done;
    intros h' Hh; destruct (Z.eqb_spec h' h); done.
Qed.
Lemma root_setroot h t f : root b (setroot b h t f) h = t.
Proof. unfold root, setroot. destruct b; cbn; by rewrite Z.eqb_refl. Qed.
Lemma queue_setroot h t f : queue (setroot b h t f) = queue f.
Proof. done. Qed.
Lemma root_freeroute r f f' : freeroute r f = Ret tt f' ->
  (forall fam, root fam f' = root fam f) /\ queue f' = queue f /\ (forall h, others h f f').
Proof.
  unfold freeroute, modify. intros [= <-]. unfold others, root.
  destruct (tbit (rtype r) Rv4); cbn; done.
Qed.
Lemma wp_freeroute r s (Q : () -> Fs -> Prop) :
  (forall s', freeroute r s = Ret tt s' -> Q tt s') -> wp (freeroute r) s Q.
Proof. intros H. unfold wp. destruct (freeroute r s) as [[] s'| | |] eqn:E; try done. by apply H. Qed.

Lemma allocroute_frame ty s : wp (allocroute mem_ok ty) s (fun r s' =>
  (forall fam, root fam s' = root fam s) /\ queue s' = queue s /\ (forall h, others h s s') /\
  r = mkRoute (rid r) (u8 ty) 0 None (replicate 4 0) 1 zero4 zero6).
Proof.
  unfold wp, allocroute. destruct (if tbit ty Rv4 then v4freelist s else v6freelist s).
  - rewrite Hmem. done.
  - unfold others, root. destruct (tbit ty Rv4); done.
Qed.
Lemma addqueue_spec t s : wp (addqueue mem_ok t) s (fun _ s' =>
  (forall fam, root fam s' = root fam s) /\ (forall h, others h s s') /\
  match t with Leaf => queue s' = queue s | _ => exists w, queue s' = (w, t) :: queue s end).
Proof.
  unfold addqueue. destruct t as [|d p l m r]; [by apply wp_ret|].
  apply wp_bind. eapply wp_mono; [apply allocroute_frame|].
  intros w s' (Hr & Hq & Ho & _). wp_steps. refine (conj Hr (conj Ho _)).
  exists w. cbn. by rewrite Hq.
Qed.
Lemma addqueue_run t s s' : addqueue mem_ok t s = Ret tt s' ->
  (forall fam, root fam s' = root fam s) /\ (forall h, others h s s') /\
  match t with Leaf => queue s' = queue s | _ => exists w, queue s' = (w, t) :: queue s end.
Proof. intros H. pose proof (addqueue_spec t s) as Hs. unfold wp in Hs. by rewrite H in Hs. Qed.

(** Queued subtrees that can be merged, in this order, into a tree holding [E]. *)
Fixpoint mergeable (q : list tree) (E : list Route) : Prop :=
  match q with
  | [] => True
  | t :: q => wft t /\ (forall x y, x ∈ elems t -> y ∈ E -> clear_of x y) /\ mergeable q (elems t ++ E)
  end.
#[export] Instance mergeable_proper q : Proper (Permutation ==> iff) (mergeable q).
Proof.
  induction q as [|t q IH]; intros E E' HE; cbn [mergeable]; [done|].
  rewrite (IH (elems t ++ E) (elems t ++ E')) by (by rewrite HE). by setoid_rewrite HE.
Qed.

Lemma requeue_spec fuel h s :
  (length (queue s) < fuel)%nat -> wft (root b s h) -> mergeable (queue s).*2 (elems (root b s h)) ->
  wp (requeue mem_ok fuel b h) s (fun _ s' =>
    queue s' = [] /\ others h s s' /\ wft (root b s' h) /\
    elems (root b s' h) ≡ₚ concat (elems <$> (queue s).*2) ++ elems (root b s h)).
Proof.
  revert s. induction fuel as [|fuel IH]; intros s Hf Wr Hm; [lia|]. cbn [requeue]. wp_steps.
  destruct (queue s) as [|[p t] q] eqn:Eq.
  { wp_steps. cbn. done. }
  cbn [fmap list_fmap snd mergeable] in Hm. destruct Hm as (Wt & Hc & Hm).
  wp_steps. eapply wp_mono; [apply walkadd_spec; done|].
  intros t' s' (-> & Wt' & Et'). wp_steps. apply wp_freeroute. intros s' Hs'.
  apply root_freeroute in Hs' as (Er & Eq' & Ho').
  assert (root b s' h = t') as Ert by (rewrite Er; apply root_setroot).
  assert (queue s' = q) as Eqq by (by rewrite Eq').
  eapply wp_mono; [apply IH|].
  - rewrite Eqq. cbn [length] in Hf. lia.
  - by rewrite Ert.
  - by rewrite Eqq, Ert, Et'.
  - intros _ s'' (Hq & Ho & W & E). split; [done|]. split; [|split; [done|]].
    + etransitivity; [|exact Ho]. etransitivity; [|apply Ho'].
      etransitivity; [apply (others_queue h q)|apply others_setroot].
    + rewrite E, Eqq, Ert, Et'. cbn [fmap list_fmap snd concat]. fold (@fmap list _ (Route*tree) tree snd q).
      solve_Permutation.
Qed.

(** *** One tree of the forest *)

(** What adding [new] does to the routes of a tree. *)
Definition inserted (new : Route) (E E' : list Route) : Prop :=
  (exists p F, E ≡ₚ p :: F /\ same p new /\ E' ≡ₚ supersede p new :: F)
  \/ ((forall x, x ∈ E -> ~ same x new) /\ E' ≡ₚ new :: E).

Lemma insert_node_spec h new s :
  queue s = [] -> wft (root b s h) -> okr new ->
  (forall x, x ∈ elems (root b s h) -> nested new x) ->
  wp (insert_node mem_ok b h new) s (fun _ s' =>
    queue s' = [] /\ others h s s' /\ wft (root b s' h) /\
    inserted new (elems (root b s h)) (elems (root b s' h))).
Proof.
  intros Hq W Hn Hc. unfold insert_node. wp_steps. eapply wp_mono; [by apply addnode_spec|].
  intros t s1 (Wt & Ht). wp_steps. set (cur := root b s h) in *.
  assert (exists sub, wft sub /\ (forall x y, x ∈ elems sub -> y ∈ elems t -> clear_of x y) /\
    others h s s1 /\ match sub with Leaf => queue s1 = [] | _ => exists w, queue s1 = [(w, sub)] end /\
    inserted new (elems cur) (elems sub ++ elems t)) as (sub & Ws & Hcl & Ho & Hqs & Hi).
  { destruct Ht as [(p & E & H1 & H2 & H3 & H4)|(H1 & sub & E & H2 & H3 & H4 & H5 & H6)].
    - exists Leaf. apply root_freeroute in H4 as (_ & Eq & Ho). rewrite Eq, Hq.
      refine (conj I (conj _ (conj (Ho h) (conj eq_refl _)))); [by intros x y ?%elem_of_nil|].
      left. by exists p, E.
    - exists sub. apply addqueue_run in H6 as (_ & Ho & Eq). rewrite Hq in Eq.
      refine (conj H4 (conj H5 (conj (Ho h) (conj Eq _)))). right. split; [done|].
      rewrite H3, H2. solve_Permutation. }
  eapply wp_mono; [apply requeue_spec|].
  - rewrite queue_setroot. unfold queue_fuel. destruct sub; [rewrite Hqs | destruct Hqs as [w ->]]; cbn; lia.
  - by rewrite root_setroot.
  - rewrite queue_setroot, root_setroot.
    destruct sub; [by rewrite Hqs | destruct Hqs as [w ->]]; cbn [fmap list_fmap snd mergeable]. done.
  - intros _ s' (Hq' & Ho' & W' & E'). rewrite queue_setroot, root_setroot in E'.
    refine (conj Hq' (conj _ (conj W' _))).
    { etransitivity; [exact Ho|]. etransitivity; [apply others_setroot | exact Ho']. }
    assert (elems (root b s' h) ≡ₚ elems sub ++ elems t) as E.
    { rewrite E'. destruct sub; [by rewrite Hqs | destruct Hqs as [w ->]].
      cbn [fmap list_fmap snd concat]. by rewrite app_nil_r. }
    destruct Hi as [(p & F & ? & ? & ?)|[? ?]]; [left; exists p, F | right]; by rewrite E.
Qed.

(** *** Deleting a node *)

Lemma looknode_spec cur rt : wft cur -> okr rt ->
  match looknode cur rt with
  | Some p => exists d q l m r, subtree cur p = Node d q l m r /\ same rt q
  | None => forall x, x ∈ elems cur -> ~ same x rt
  end.
Proof.
  intros W Hk. pose proof (okr_range _ Hk).
  induction cur as [|d p l IHl m IHm r IHr]; [by intros x ?%elem_of_nil|].
  apply wft_inv in W as (Hp & Wl & Wm & Wr & El & Er & Em).
  pose proof (okr_range _ Hp). pose proof (rangecompare_spec rt p Hk Hp) as Hcmp.
  specialize (IHl Wl). specialize (IHm Wm). specialize (IHr Wr).
  cbn [looknode]. destruct (rangecompare rt p).
  - destruct (looknode l rt); cbn [fmap option_fmap option_map subtree]; [done|].
    intros x Hx. cbn [elems] in Hx. rewrite elem_of_cons, !elem_of_app in Hx.
    destruct Hx as [->|[?|[?%Em|?%Er]]]; [rlia | by apply IHl | rlia | rlia].
  - destruct (looknode r rt); cbn [fmap option_fmap option_map subtree]; [done|].
    intros x Hx. cbn [elems] in Hx. rewrite elem_of_cons, !elem_of_app in Hx.
    destruct Hx as [->|[?%El|[?%Em|?]]]; [rlia | rlia | rlia | by apply IHr].
  - by exists d, p, l, m, r.
  - intros x Hx. cbn [elems] in Hx. rewrite elem_of_cons, !elem_of_app in Hx.
    destruct Hx as [->|[?%El|[?%Em|?%Er]]]; rlia.
  - destruct (looknode m rt); cbn [fmap option_fmap option_map subtree]; [done|].
    intros x Hx. cbn [elems] in Hx. rewrite elem_of_cons, !elem_of_app in Hx.
    destruct Hx as [->|[?%El|[?|?%Er]]]; [rlia | rlia | by apply IHm | rlia].
Qed.

(** A tree is a subtree and the rest, which lies around the subtree or apart;
    the subtree can be replaced by one with ranges it had. *)
Lemma subtree_split cur p sub : wft cur -> subtree cur p = sub -> sub <> Leaf ->
  exists E, elems cur ≡ₚ elems sub ++ E /\
    (forall x y, x ∈ elems sub -> y ∈ E -> clear_of x y) /\ wft sub /\
    (forall t, wft t -> (forall y, y ∈ elems t -> exists x, x ∈ elems sub /\ same x y) ->
      wft (store cur p t) /\ elems (store cur p t) ≡ₚ elems t ++ E).
Proof.
  intros W. revert p. induction cur as [|d q l IHl m IHm r IHr]; intros p <- Hne.
  { by destruct p as [|[]]. }
  pose proof W as W'. apply wft_inv in W as (Hp & Wl & Wm & Wr & El & Er & Em).
  pose proof (okr_range _ Hp). unfold clear_of in *.
  destruct p as [|[] p]; cbn [subtree store] in *.
  - exists []. rewrite app_nil_r. refine (conj _ (conj _ (conj W' _))); [done | by intros x y _ ?%elem_of_nil|].
    intros t Wt _. by rewrite app_nil_r.
  - destruct (IHl Wl p eq_refl Hne) as (E & EE & HE & Ws & Hst).
    assert (forall x, x ∈ elems (subtree l p) -> x ∈ elems l) as Hin
      by (intros x Hx; rewrite EE, elem_of_app; by left).
    exists (E ++ q :: elems m ++ elems r). refine (conj _ (conj _ (conj Ws _))).
    + cbn [elems]. rewrite EE. solve_Permutation.
    + intros x y Hx Hy. rewrite elem_of_app, elem_of_cons, elem_of_app in Hy.
      pose proof (El _ (Hin _ Hx)). destruct Hy as [?|[->|[?%Em|?%Er]]]; [auto | rlia | rlia | rlia].
    + intros t Wt Ht. destruct (Hst t Wt Ht) as [Wst Est]. split; [|cbn [elems]; rewrite Est; solve_Permutation].
      apply wft_intro; try done; intros x Hx; [|by apply Er | by apply Em].
      rewrite Est, elem_of_app in Hx. destruct Hx as [Hx|Hx].
      * destruct (Ht _ Hx) as (x' & ?%Hin%El & ?). rlia.
      * apply El. rewrite EE, elem_of_app. by right.
  - destruct (IHm Wm p eq_refl Hne) as (E & EE & HE & Ws & Hst).
    assert (forall x, x ∈ elems (subtree m p) -> x ∈ elems m) as Hin
      by (intros x Hx; rewrite EE, elem_of_app; by left).
    exists (E ++ q :: elems l ++ elems r). refine (conj _ (conj _ (conj Ws _))).
    + cbn [elems]. rewrite EE. solve_Permutation.
    + intros x y Hx Hy. rewrite elem_of_app, elem_of_cons, elem_of_app in Hy.
      pose proof (Em _ (Hin _ Hx)). destruct Hy as [?|[->|[?%El|?%Er]]]; [auto | rlia | rlia | rlia].
    + intros t Wt Ht. destruct (Hst t Wt Ht) as [Wst Est]. split; [|cbn [elems]; rewrite Est; solve_Permutation].
      apply wft_intro; try done; intros x Hx; [by apply El | by apply Er|].
      rewrite Est, elem_of_app in Hx. destruct Hx as [Hx|Hx].
      * destruct (Ht _ Hx) as (x' & ?%Hin%Em & ?). rlia.
      * apply Em. rewrite EE, elem_of_app. by right.
  - destruct (IHr Wr p eq_refl Hne) as (E & EE & HE & Ws & Hst).
    assert (forall x, x ∈ elems (subtree r p) -> x ∈ elems r) as Hin
      by (intros x Hx; rewrite EE, elem_of_app; by left).
    exists (E ++ q :: elems l ++ elems m). refine (conj _ (conj _ (conj Ws _))).
    + cbn [elems]. rewrite EE. solve_Permutation.
    + intros x y Hx Hy. rewrite elem_of_app, elem_of_cons, elem_of_app in Hy.
      pose proof (Er _ (Hin _ Hx)). destruct Hy as [?|[->|[?%El|?%Em]]]; [auto | rlia | rlia | rlia].
    + intros t Wt Ht. destruct (Hst t Wt Ht) as [Wst Est]. split; [|cbn [elems]; rewrite Est; solve_Permutation].
      apply wft_intro; try done; intros x Hx; [by apply El | | by apply Em].
      rewrite Est, elem_of_app in Hx. destruct Hx as [Hx|Hx].
      * destruct (Ht _ Hx) as (x' & ?%Hin%Er & ?). rlia.
      * apply Er. rewrite EE, elem_of_app. by right.
Qed.

(** What deleting the range of [rt] does to the routes of a tree. *)
Definition deleted (rt : Route) (E E' : list Route) : Prop :=
  (exists p F, E ≡ₚ p :: F /\ same p rt /\
     E' ≡ₚ if ref p - 1 =? 0 then F else set_ref (ref p - 1) p :: F)
  \/ ((forall x, x ∈ E -> ~ same x rt) /\ E' ≡ₚ E).

Definition nonleaf (t : tree) : list tree := match t with Leaf => [] | _ => [t] end.
Lemma concat_nonleaf t : concat (elems <$> nonleaf t) = elems t.
Proof. destruct t; [done|]. cbn [nonleaf fmap list_fmap concat]. apply app_nil_r. Qed.
Lemma wp_addqueue_nonleaf t s (Q : () -> Fs -> Prop) :
  (forall s', (forall fam, root fam s' = root fam s) -> (forall h, others h s s') ->
    (queue s').*2 = nonleaf t ++ (queue s).*2 -> Q tt s') ->
  wp (addqueue mem_ok t) s Q.
Proof.
  intros H. eapply wp_mono; [apply addqueue_spec|]. intros [] s' (Hr & Ho & Hq).
  apply H; [done | done|]. destruct t; [by rewrite Hq | destruct Hq as [w ->]; done].
Qed.

Lemma delete_node_spec h rt s :
  queue s = [] -> wft (root b s h) -> okr rt ->
  wp (delete_node mem_ok b h rt) s (fun _ s' =>
    queue s' = [] /\ others h s s' /\ wft (root b s' h) /\
    deleted rt (elems (root b s h)) (elems (root b s' h))).
Proof.
  intros Hq W Hk. unfold delete_node. wp_steps. set (cur := root b s h) in *.
  pose proof (looknode_spec cur rt W Hk) as Hl. destruct (looknode cur rt) as [path|]; [|].
  2: { apply wp_ret. refine (conj Hq (conj _ (conj W _))); [done|]. right. by split. }
  destruct Hl as (d & p & l & m & r & Hsub & Hs). rewrite Hsub.
  destruct (subtree_split cur path _ W Hsub ltac:(done)) as (E & EE & HE & Ws & Hst).
  pose proof Ws as Ws'. apply wft_inv in Ws as (Hp & Wl & Wm & Wr & El & Er & Em).
  pose proof (okr_range _ Hp). cbn [elems] in EE.
  change (ref (set_ref (ref p - 1) p)) with (ref p - 1).
  destruct (Z.eqb_spec (ref p - 1) 0) as [E1|E1].
  - destruct (Hst Leaf I) as [W1 E2]; [by intros y ?%elem_of_nil|]. cbn [elems app] in E2.
    wp_steps. apply wp_addqueue_nonleaf. intros s1 R1 O1 Q1. wp_steps.
    apply wp_addqueue_nonleaf. intros s2 R2 O2 Q2. wp_steps.
    apply wp_addqueue_nonleaf. intros s3 R3 O3 Q3. wp_steps.
    apply wp_freeroute. intros s4 (R4 & Q4 & O4)%root_freeroute.
    assert (root b s4 h = store cur path Leaf) as Er4 by (rewrite R4, R3, R2, R1; apply root_setroot).
    assert ((queue s4).*2 = nonleaf r ++ nonleaf m ++ nonleaf l) as Eq4.
    { by rewrite Q4, Q3, Q2, Q1, queue_setroot, Hq, app_nil_r. }
    assert (elems cur ≡ₚ p :: (elems r ++ elems m ++ elems l) ++ E) as EP by (rewrite EE; solve_Permutation).
    eapply wp_mono; [apply requeue_spec|].
    + rewrite <- (length_fmap snd), Eq4. unfold queue_fuel. destruct r, m, l; cbn; lia.
    + by rewrite Er4.
    + rewrite Eq4, Er4, E2.
      assert (forall x y, x ∈ elems l ++ elems m ++ elems r -> y ∈ E -> clear_of x y) as HE'.
      { intros x y Hx. apply HE. cbn [elems]. by right. }
      assert (forall t q F, (t <> Leaf -> wft t /\ (forall x y, x ∈ elems t -> y ∈ F -> clear_of x y)) ->
        mergeable q (elems t ++ F) -> mergeable (nonleaf t ++ q) F) as Hcons.
      { intros t q F Ht Hm. destruct t; [done|]. destruct (Ht ltac:(done)). done. }
      apply Hcons; [intros _; split; [done|]; intros x y Hx; apply HE'; elems_in|].
      apply Hcons.
      { intros _. split; [done|]. intros x y Hx. rewrite elem_of_app. intros [Hy|Hy]; [|apply HE'; elems_in].
        apply Em in Hx. apply Er in Hy. unfold clear_of. rlia. }
      rewrite <- (app_nil_r (nonleaf l)). apply Hcons; [|done].
      intros _. split; [done|]. intros x y Hx. rewrite !elem_of_app.
      intros [Hy|[Hy|Hy]]; [| |apply HE'; elems_in]; apply El in Hx; unfold clear_of;
        [apply Em in Hy | apply Er in Hy]; rlia.
    + intros _ s' (Hq' & Ho' & W' & E'). refine (conj Hq' (conj _ (conj W' _))).
      * etransitivity; [apply others_setroot|]. etransitivity; [apply O1|]. etransitivity; [apply O2|].
        etransitivity; [apply O3|]. etransitivity; [apply O4 | done].
      * left. exists p, ((elems r ++ elems m ++ elems l) ++ E).
        rewrite (proj2 (Z.eqb_eq _ _) E1). refine (conj EP (conj _ _)); [rlia|].
        rewrite E', Eq4, Er4, E2, !fmap_app, !concat_app, !concat_nonleaf. done.
  - wp_steps. destruct (Hst (Node d (set_ref (ref p - 1) p) l m r)) as [W1 E2].
    + cbn [wft] in *. exact Ws'.
    + intros y Hy. cbn [elems] in Hy. apply elem_of_cons in Hy as [->|Hy].
      * exists p. split; [cbn; by left | done].
      * exists y. split; [cbn; by right | done].
    + rewrite queue_setroot, root_setroot. refine (conj Hq (conj (others_setroot _ _ _) (conj W1 _))).
      left. exists p, ((elems l ++ elems m ++ elems r) ++ E).
      rewrite (proj2 (Z.eqb_neq _ _) E1). refine (conj EE (conj _ _)); [rlia|]. by rewrite E2.
Qed.

(** *** Searching *)

(** The search, on numbers. *)
Fixpoint search (la : Z) (t : tree) (q : option Route) : option Route :=
  match t with
  | Leaf => q
  | Node _ r l m rt =>
    if la <? lo r then search la l q
    else if hi r <? la then search la rt q
    else search la m (Some r)
  end.

Definition hit (la : Z) (x : Route) : Prop := lo x <= la <= hi x.

(** The search ends at the smallest range around the address. *)
Lemma search_spec la t q : wft t ->
  (exists r, r ∈ elems t /\ hit la r /\ search la t q = Some r /\
     forall y, y ∈ elems t -> hit la y -> contains y r)
  \/ ((forall y, y ∈ elems t -> ~ hit la y) /\ search la t q = q).
Proof.
  revert q. unfold hit.
  induction t as [|d p l IHl m IHm r IHr]; intros q W; [right; split; [by intros y ?%elem_of_nil | done]|].
  apply wft_inv in W as (Hp & Wl & Wm & Wr & El & Er & Em). pose proof (okr_range _ Hp).
  cbn [search elems]. setoid_rewrite elem_of_cons. setoid_rewrite elem_of_app. setoid_rewrite elem_of_app.
  destruct (Z.ltb_spec la (lo p)) as [L|L]; [|destruct (Z.ltb_spec (hi p) la) as [L'|L']].
  - destruct (IHl q Wl) as [(x & Hx & Hh & E & Hmin)|[Hno E]]; [left; exists x | right]; rewrite E.
    + refine (conj (or_intror (or_introl Hx)) (conj Hh (conj eq_refl _))).
      intros y [->|[?|[?%Em|?%Er]]]; intros; [rlia | auto | rlia | rlia].
    + split; [|done]. intros y [->|[?|[?%Em|?%Er]]]; intros; [rlia | by apply (Hno y) | rlia | rlia].
  - destruct (IHr q Wr) as [(x & Hx & Hh & E & Hmin)|[Hno E]]; [left; exists x | right]; rewrite E.
    + refine (conj (or_intror (or_intror (or_intror Hx))) (conj Hh (conj eq_refl _))).
      intros y [->|[?%El|[?%Em|?]]]; intros; [rlia | rlia | rlia | auto].
    + split; [|done]. intros y [->|[?%El|[?%Em|?]]]; intros; [rlia | rlia | rlia | by apply (Hno y)].
  - left. destruct (IHm (Some p) Wm) as [(x & Hx & Hh & E & Hmin)|[Hno E]]; [exists x | exists p]; rewrite E.
    + refine (conj (or_intror (or_intror (or_introl Hx))) (conj Hh (conj eq_refl _))).
      pose proof (Em _ Hx) as Hx'.
      intros y [->|[?%El|[?|?%Er]]]; intros; [rlia | rlia | auto | rlia].
    + refine (conj (or_introl eq_refl) (conj _ (conj eq_refl _))); [rlia|].
      intros y [->|[?%El|[Hy|?%Er]]]; intros; [rlia | rlia | by destruct (Hno y Hy) | rlia].
Qed.

(** *** The routes of a tree as a table *)

Definition range (r : Route) : Z * Z := (lo r, hi r).

Lemma wft_NoDup t : wft t -> NoDup (range <$> elems t).
Proof.
  induction t as [|d p l IHl m IHm r IHr]; intros W; [constructor|].
  apply wft_inv in W as (Hp & Wl & Wm & Wr & El & Er & Em). pose proof (okr_range _ Hp).
  cbn [elems]. rewrite fmap_cons, !fmap_app. unfold range in *.
  rewrite NoDup_cons, !NoDup_app. repeat setoid_rewrite elem_of_app.
  repeat setoid_rewrite list_elem_of_fmap. refine (conj _ (conj (IHl Wl) (conj _ (conj (IHm Wm) (conj _ (IHr Wr)))))).
  - intros [(x & [= E1 E2] & ?%El)|[(x & [= E1 E2] & ?%Em)|(x & [= E1 E2] & ?%Er)]]; rlia.
  - intros [a c] (x & [= -> ->] & ?%El) [(y & [= E1 E2] & ?%Em)|(y & [= E1 E2] & ?%Er)]; rlia.
  - intros [a c] (x & [= -> ->] & ?%Em) (y & [= E1 E2] & ?%Er); rlia.
Qed.
Lemma wft_unique t p F x : wft t -> elems t ≡ₚ p :: F -> x ∈ F -> ~ same x p.
Proof.
  intros W%wft_NoDup E Hx [H1 H2]. rewrite E, fmap_cons, NoDup_cons in W. destruct W as [W _].
  apply W, list_elem_of_fmap. exists x. split; [|done]. unfold range. by rewrite H1, H2.
Qed.
End Trees.

(** ** Prefixes *)

(** Bits in the address of the family. *)
Definition width (b : bool) : Z := if b then 32 else 128.

(** The range of a prefix: 2^k addresses from a multiple of 2^k. *)
Definition prefix (lo hi : Z) : Prop :=
  exists k, 0 <= k /\ 0 <= lo /\ lo mod 2 ^ k = 0 /\ hi = lo + 2 ^ k - 1.

Lemma prefix_le lo hi : prefix lo hi -> lo <= hi.
Proof.
  intros (k & Hk & _ & _ & ->). assert (0 < 2 ^ k) by (apply Z.pow_pos_nonneg; lia). lia.
Qed.
Lemma prefix_nested lo hi lo' hi' : prefix lo hi -> prefix lo' hi' ->
  (hi < lo' \/ hi' < lo) \/ (lo <= lo' /\ hi' <= hi) \/ (lo' <= lo /\ hi <= hi').
Proof.
  assert (forall k k' lo lo', 0 <= k <= k' -> lo mod 2 ^ k = 0 -> lo' mod 2 ^ k' = 0 ->
    lo + 2 ^ k - 1 < lo' \/ lo' + 2 ^ k' - 1 < lo \/ (lo' <= lo /\ lo + 2 ^ k - 1 <= lo' + 2 ^ k' - 1)) as H.
  { intros k k' x y Hk Hx Hy. assert (0 < 2 ^ k) by (apply Z.pow_pos_nonneg; lia).
    replace (2 ^ k') with (2 ^ k * 2 ^ (k' - k)) in * by (rewrite <- Z.pow_add_r by lia; f_equal; lia).
    assert (0 < 2 ^ (k' - k)) by (apply Z.pow_pos_nonneg; lia).
    set (P := 2 ^ k) in *. set (Q := 2 ^ (k' - k)) in *.
    apply Z.mod_divide in Hx as [u ->]; [|lia]. apply Z.mod_divide in Hy as [v ->]; [|nia].
    destruct (Z_lt_le_dec u (v * Q)); [left; nia|].
    destruct (Z_lt_le_dec u (v * Q + Q)); [right; right; nia | right; left; nia]. }
  intros (k & Hk & _ & Hm & ->) (k' & Hk' & _ & Hm' & ->).
  destruct (Z_le_gt_dec k k') as [L|L];
    [specialize (H k k' lo lo' ltac:(lia) Hm Hm') | specialize (H k' k lo' lo ltac:(lia) Hm' Hm)]; lia.
Qed.

Lemma V4H_div x : V4H x = x mod 2 ^ 27 / 2 ^ 17.
Proof.
  unfold V4H, Lroot. change 134217727 with (Z.ones 27). rewrite Z.land_ones by lia.
  by rewrite Z.shiftr_div_pow2.
Qed.
Lemma V4H_range x : 0 <= V4H x < 2 ^ Lroot.
Proof. rewrite V4H_div. unfold Lroot. Z.div_mod_to_equations. lia. Qed.

(** The hash classes of the addresses of a prefix lie between those of its ends. *)
Lemma prefix_hash lo hi x : prefix lo hi -> lo <= x <= hi -> V4H lo <= V4H x <= V4H hi.
Proof.
  intros (k & Hk & H0 & Hm & ->) Hx. rewrite !V4H_div.
  assert (forall a b, a <= b -> a / 2 ^ 17 <= b / 2 ^ 17) as Hmono by (intros; apply Z.div_le_mono; lia).
  assert (0 < 2 ^ k) by (apply Z.pow_pos_nonneg; lia).
  destruct (Z_le_gt_dec k 27) as [L|L].
  - assert (2 ^ 27 = 2 ^ k * 2 ^ (27 - k)) as E by (rewrite <- Z.pow_add_r by lia; f_equal; lia).
    assert (0 < 2 ^ (27 - k)) by (apply Z.pow_pos_nonneg; lia).
    set (P := 2 ^ k) in *. set (Q := 2 ^ (27 - k)) in *.
    apply Z.mod_divide in Hm as [u ->]; [|lia].
    assert (u * P + P - 1 = x + (u * P + P - 1 - x)) as Ex by lia.
    assert (forall y, u * P <= y < u * P + P -> y / 2 ^ 27 = u / Q) as Hdiv.
    { intros y Hy. rewrite E. rewrite <- Z.div_div by lia. f_equal.
      symmetry. apply (Z.div_unique _ _ _ (y - u * P)); [lia|lia]. }
    pose proof (Hdiv (u * P) ltac:(lia)). pose proof (Hdiv x ltac:(lia)).
    pose proof (Hdiv (u * P + P - 1) ltac:(lia)).
    split; apply Hmono; rewrite !Z.mod_eq by lia; lia.
  - assert (2 ^ k = 2 ^ 27 * 2 ^ (k - 27)) as E by (rewrite <- Z.pow_add_r by lia; f_equal; lia).
    assert (0 < 2 ^ (k - 27)) by (apply Z.pow_pos_nonneg; lia). set (Q := 2 ^ (k - 27)) in *.
    rewrite E in *. apply Z.mod_divide in Hm as [u ->]; [|lia].
    pose proof (Z.mod_pos_bound x (2 ^ 27) ltac:(lia)). split; apply Hmono.
    + replace (u * (2 ^ 27 * Q)) with (u * Q * 2 ^ 27) by lia. rewrite Z.mod_mul by lia. lia.
    + replace (u * (2 ^ 27 * Q) + 2 ^ 27 * Q - 1) with (2 ^ 27 - 1 + (u * Q + Q - 1) * 2 ^ 27) by lia.
      rewrite Z.mod_add, (Z.mod_small (2 ^ 27 - 1)) by lia. lia.
Qed.

(** A contiguous mask of [w] bits. *)
Lemma mask_range w k a : 0 <= k <= w -> 0 <= a < 2 ^ w ->
  let m := 2 ^ w - 2 ^ k in
  Z.land a m = a / 2 ^ k * 2 ^ k /\ Z.lor a (2 ^ w - 1 - m) = a / 2 ^ k * 2 ^ k + 2 ^ k - 1 /\
  Z.lor (Z.land a m) (2 ^ w - 1 - m) = a / 2 ^ k * 2 ^ k + 2 ^ k - 1.
Proof.
  intros Hk Ha m. assert (2 ^ w - 1 - m = Z.ones k) as -> by (rewrite Z.ones_equiv; lia).
  assert (0 < 2 ^ k) by (apply Z.pow_pos_nonneg; lia).
  assert (m = Z.ldiff (Z.ones w) (Z.ones k)) as ->.
  { assert (Z.land (Z.ones w) (Z.ones k) = Z.ones k) as E.
    { rewrite Z.land_comm, Z.land_ones by lia. apply Z.mod_small. rewrite !Z.ones_equiv.
      pose proof (Z.pow_le_mono_r 2 k w). lia. }
    rewrite <- Z.sub_nocarry_ldiff; [rewrite !Z.ones_equiv; lia|].
    apply Z.bits_inj'. intros n Hn. rewrite Z.ldiff_spec, Z.bits_0.
    pose proof (f_equal (fun z => Z.testbit z n) E) as En. cbv beta in En. rewrite Z.land_spec in En.
    by destruct (Z.testbit (Z.ones w) n), (Z.testbit (Z.ones k) n). }
  assert (Z.land a (Z.ldiff (Z.ones w) (Z.ones k)) = Z.ldiff a (Z.ones k)) as ->.
  { apply Z.bits_inj'. intros n Hn. rewrite Z.land_spec, !Z.ldiff_spec.
    destruct (Z_lt_le_dec n w).
    - by rewrite (Z.ones_spec_low w n) by lia.
    - rewrite <- (Z.mod_small a (2 ^ w)) by lia. by rewrite Z.mod_pow2_bits_high by lia. }
  assert (Z.ldiff a (Z.ones k) = a / 2 ^ k * 2 ^ k) as E
    by (by rewrite Z.ldiff_ones_r, Z.shiftl_mul_pow2, Z.shiftr_div_pow2 by lia).
  assert (Z.lor a (Z.ones k) = Z.lor (Z.ldiff a (Z.ones k)) (Z.ones k)) as ->.
  { apply Z.bits_inj'. intros n Hn. rewrite !Z.lor_spec, Z.ldiff_spec.
    by destruct (Z.testbit a n), (Z.testbit (Z.ones k) n). }
  assert (Z.lor (Z.ldiff a (Z.ones k)) (Z.ones k) = a / 2 ^ k * 2 ^ k + 2 ^ k - 1) as ->; [|done].
  rewrite E, (lor_add _ _ k); [rewrite Z.ones_equiv; lia | lia | apply Z.mod_mul; lia |].
  rewrite Z.ones_equiv. lia.
Qed.

(** Bitwise operations on addresses, word by word. *)
Lemma split_bit x n j i : 0 <= n < 2 ^ j -> 0 <= j -> 0 <= i ->
  Z.testbit (x * 2 ^ j + n) i = if i <? j then Z.testbit n i else Z.testbit x (i - j).
Proof.
  intros Hn Hj Hi. destruct (Z.ltb_spec i j).
  - rewrite <- (Z.mod_pow2_bits_low _ j) by lia. rewrite Z.add_comm, Z.mod_add by lia.
    by rewrite Z.mod_small.
  - replace i with (i - j + j) at 1 by lia. rewrite <- Z.div_pow2_bits by lia. f_equal.
    rewrite Z.div_add_l by lia. rewrite Z.div_small by lia. lia.
Qed.

Section Words.
Context (f : Z -> Z -> Z) (g : bool -> bool -> bool)
  (f_bits : forall x y i, 0 <= i -> Z.testbit (f x y) i = g (Z.testbit x i) (Z.testbit y i))
  (f_range : forall j x y, 0 <= j -> 0 <= x < 2 ^ j -> 0 <= y < 2 ^ j -> 0 <= f x y < 2 ^ j).

Lemma num_zip a c : length a = length c ->
  Forall (fun x => 0 <= x < 2 ^ 32) a -> Forall (fun x => 0 <= x < 2 ^ 32) c ->
  num (zip_with f a c) = f (num a) (num c) \/ a = [].
Proof.
  revert c. induction a as [|x a IH]; intros [|y c] Hl Ha Hc; try done; [by right|]. left.
  apply Forall_cons in Ha as [Hx Ha]. apply Forall_cons in Hc as [Hy Hc].
  pose proof (num_range a Ha) as Na. pose proof (num_range c Hc) as Nc.
  assert (zlen a = zlen c) as El by (unfold zlen; cbn in Hl; lia).
  assert (zlen (zip_with f a c) = zlen c) as Ez
    by (unfold zlen; rewrite length_zip_with; cbn in Hl; f_equal; lia).
  cbn [zip_with num]. rewrite Ez, El in *. pose proof (zlen_nonneg c).
  set (j := 32 * zlen c) in *. assert (0 <= j) by lia.
  assert (a = [] \/ num (zip_with f a c) = f (num a) (num c)) as [-> | ->]
    by (destruct (IH c ltac:(cbn in Hl; lia) Ha Hc); auto).
  - destruct c; [|cbn in Hl; lia]. cbn. subst j. cbn. rewrite !Z.mul_1_r, !Z.add_0_r. done.
  - assert (0 <= f (num a) (num c) < 2 ^ j) as Hf by (apply f_range; lia).
    apply Z.bits_inj'. intros i Hi. rewrite f_bits, !split_bit by lia.
    destruct (i <? j) eqn:E; [by rewrite f_bits|]. apply Z.ltb_ge in E. by rewrite f_bits by lia.
Qed.
End Words.

Lemma land_range j x y : 0 <= j -> 0 <= x < 2 ^ j -> 0 <= y < 2 ^ j -> 0 <= Z.land x y < 2 ^ j.
Proof.
  intros Hj Hx Hy. split; [apply Z.land_nonneg; lia|].
  assert (Z.land x y = Z.land x y mod 2 ^ j) as ->; [|apply Z.mod_pos_bound; lia].
  rewrite <- Z.land_ones, <- Z.land_assoc, Z.land_ones, (Z.mod_small y) by lia. done.
Qed.
Lemma lor_range j x y : 0 <= j -> 0 <= x < 2 ^ j -> 0 <= y < 2 ^ j -> 0 <= Z.lor x y < 2 ^ j.
Proof.
  intros Hj Hx Hy. split; [apply Z.lor_nonneg; lia|].
  assert (Z.lor x y = Z.lor x y mod 2 ^ j) as ->; [|apply Z.mod_pos_bound; lia].
  rewrite <- Z.land_ones, Z.land_lor_distr_l, !Z.land_ones, (Z.mod_small x), (Z.mod_small y) by lia. done.
Qed.

Definition word (x : Z) : Prop := 0 <= x < 2 ^ 32.
Lemma u32_lnot y : word y -> u32 (Z.lnot y) = 2 ^ 32 - 1 - y.
Proof. intros H. unfold u32, Z.lnot, word in *. symmetry. apply (Z.mod_unique _ _ (-1)); lia. Qed.

Lemma num_not c : Forall word c ->
  num ((fun y => u32 (Z.lnot y)) <$> c) = 2 ^ (32 * zlen c) - 1 - num c.
Proof.
  induction 1 as [|y c Hy Hc IH]; [done|]. rewrite fmap_cons. cbn [num]. rewrite IH, u32_lnot by done.
  assert (zlen ((fun y => u32 (Z.lnot y)) <$> c) = zlen c) as -> by (unfold zlen; by rewrite length_fmap).
  rewrite zlen_cons, Z.mul_add_distr_l, Z.pow_add_r by (pose proof (zlen_nonneg c); lia).
  change (2 ^ (32 * 1)) with (2 ^ 32). lia.
Qed.
Lemma wf_not c : Forall word c -> Forall word ((fun y => u32 (Z.lnot y)) <$> c).
Proof.
  intros H. apply Forall_fmap. eapply Forall_impl; [exact H|]. cbv beta. intros y _.
  unfold compose, u32, word. apply Z.mod_pos_bound. lia.
Qed.

Lemma Forall_zip (f : Z -> Z -> Z) a c : (forall x y, word x -> word y -> word (f x y)) ->
  Forall word a -> Forall word c -> Forall word (zip_with f a c).
Proof.
  intros Hf Ha. revert c. induction Ha as [|x a Hx Ha IH]; intros c Hc; [constructor|].
  destruct Hc; cbn [zip_with]; [constructor|]. constructor; auto.
Qed.

Lemma words_wf a : Forall isbyte a -> wfwords (words a).
Proof.
  intros H. split; [done|]. unfold words. apply Forall_fmap, Forall_forall. intros h _.
  apply nhgetl_range. by apply Forall_drop.
Qed.

(** Address and mask of the family as numbers, and the range they give. *)
Definition addr_num (b : bool) (a : list Z) : Z := if b then nhgetl a else num (words a).
Definition range_of (b : bool) (a mask : list Z) : Z * Z :=
  (Z.land (addr_num b a) (addr_num b mask),
   Z.lor (addr_num b a) (2 ^ width b - 1 - addr_num b mask)).

(** The mask is the one of a prefix. *)
Definition contiguous (b : bool) (mask : list Z) : Prop :=
  exists k, 0 <= k <= width b /\ addr_num b mask = 2 ^ width b - 2 ^ k.

Lemma addr_num_range b a : Forall isbyte a -> 0 <= addr_num b a < 2 ^ width b.
Proof.
  intros H. destruct b; [by apply nhgetl_range|]. unfold addr_num.
  destruct (words_wf a H) as [Hl Hw]. pose proof (num_range _ Hw). unfold zlen in *. by rewrite Hl in *.
Qed.

Lemma range_prefix b a mask : Forall isbyte a -> contiguous b mask ->
  prefix (range_of b a mask).1 (range_of b a mask).2.
Proof.
  intros Ha (k & Hk & E). pose proof (addr_num_range b a Ha).
  destruct (mask_range (width b) k (addr_num b a) Hk H) as (E1 & E2 & _).
  unfold range_of. cbn [fst snd]. rewrite E, E1, E2. assert (0 < 2 ^ k) by (apply Z.pow_pos_nonneg; lia).
  exists k. refine (conj _ (conj _ (conj _ eq_refl))); [lia | | apply Z.mod_mul; lia].
  apply Z.mul_nonneg_nonneg; [apply Z.div_pos|]; lia.
Qed.

Lemma v4_range a mask : Forall isbyte a -> Forall isbyte mask -> contiguous true mask ->
  (Z.land (nhgetl a) (nhgetl mask),
   Z.lor (Z.land (nhgetl a) (nhgetl mask)) (u32 (Z.lnot (nhgetl mask)))) = range_of true a mask.
Proof.
  intros Ha Hm (k & Hk & E). pose proof (addr_num_range true a Ha) as Hr.
  rewrite u32_lnot by (by apply nhgetl_range). unfold range_of, addr_num, width in *. rewrite E.
  destruct (mask_range 32 k (nhgetl a) Hk Hr) as (_ & E2 & E3). by rewrite E2, E3.
Qed.
Lemma v6_range a mask : Forall isbyte a -> Forall isbyte mask ->
  let '(sa, ea) := v6range a mask in
  (num sa, num ea) = range_of false a mask /\ wfwords sa /\ wfwords ea.
Proof.
  intros Ha Hm. destruct (words_wf a Ha) as [La Wa]. destruct (words_wf mask Hm) as [Lm Wm].
  unfold v6range. set (nm := (fun y => u32 (Z.lnot y)) <$> words mask).
  assert (zip_with (fun x y => Z.lor x (u32 (Z.lnot y))) (words a) (words mask) = zip_with Z.lor (words a) nm) as ->
    by (subst nm; by rewrite zip_with_fmap_r).
  assert (Forall word nm) as Wn by (by apply wf_not).
  assert (length nm = 4%nat) as Ln by (subst nm; by rewrite length_fmap).
  split; [|split].
  - unfold range_of, addr_num, width. f_equal.
    + destruct (num_zip Z.land andb) with (a := words a) (c := words mask) as [E|E];
        [intros; apply Z.land_spec | apply land_range | by rewrite La | done | done | done | done].
    + destruct (num_zip Z.lor orb) with (a := words a) (c := nm) as [E|E];
        [intros; apply Z.lor_spec | apply lor_range | by rewrite La | done | done | | done].
      rewrite E. f_equal. subst nm. rewrite num_not by done. unfold zlen. by rewrite Lm.
  - split; [rewrite length_zip_with, La, Lm; done|].
    apply Forall_zip; [|done|done]. intros x y Hx Hy. by apply land_range.
  - split; [rewrite length_zip_with, La, Ln; done|].
    apply Forall_zip; [|done|done]. intros x y Hx Hy. by apply lor_range.
Qed.

Lemma V6H_num w : wfwords w -> V6H w = V4H (num w).
Proof.
  intros [Hl Hw]. destruct w as [|w0 [|w1 [|w2 [|w3 [|]]]]]; try done.
  unfold V6H, V4H, IPllen. cbn [nth Nat.sub]. f_equal. change 134217727 with (Z.ones 27).
  rewrite !Z.land_ones by lia. cbn [num zlen]. unfold zlen. cbn [length].
  change (2 ^ (32 * Z.of_nat 3)) with (2 ^ 69 * 2 ^ 27). change (2 ^ (32 * Z.of_nat 2)) with (2 ^ 37 * 2 ^ 27).
  change (2 ^ (32 * Z.of_nat 1)) with (2 ^ 5 * 2 ^ 27). change (2 ^ (32 * Z.of_nat 0)) with 1.
  replace (w0 * (2 ^ 69 * 2 ^ 27) + (w1 * (2 ^ 37 * 2 ^ 27) + (w2 * (2 ^ 5 * 2 ^ 27) + (w3 * 1 + 0))))
    with (w3 + (w0 * 2 ^ 69 + w1 * 2 ^ 37 + w2 * 2 ^ 5) * 2 ^ 27) by lia.
  by rewrite Z.mod_add by lia.
Qed.

(** ** Specification: a finite map from ranges to entries *)

Record Info := mkInfo { i_type : Z; i_gate : list Z; i_tag : list Z; i_ref : Z }.
Abbreviation Table := (gmap (Z * Z) Info).

Definition merge_info (i n : Info) : Info :=
  if negb (tbit (i_type i) Rifc) then mkInfo (i_type n) (i_gate n) (i_tag i) (i_ref i)
  else if tbit (i_type n) Rifc then mkInfo (i_type i) (i_gate i) (i_tag i) (i_ref i + 1)
  else i.
Definition spec_add (T : Table) (rg : Z * Z) (n : Info) : Table :=
  <[rg := match T !! rg with None => n | Some i => merge_info i n end]> T.
Definition spec_del (T : Table) (rg : Z * Z) : Table :=
  match T !! rg with
  | None => T
  | Some i =>
    if i_ref i - 1 =? 0 then delete rg T
    else <[rg := mkInfo (i_type i) (i_gate i) (i_tag i) (i_ref i - 1)]> T
  end.

Inductive RtOp :=
  | RtAdd (tg a mask gate : list Z) (type : Z)
  | RtDel (a mask : list Z).

Definition run_rt (mem_ok : nat -> bool) (b : bool) (o : RtOp) : M Fs () :=
  match o with
  | RtAdd tg a mask gate type =>
    if b then v4addroute mem_ok tg a mask gate type else v6addroute mem_ok tg a mask gate type
  | RtDel a mask => if b then v4delroute mem_ok a mask else v6delroute mem_ok a mask
  end.
Fixpoint run_rts (mem_ok : nat -> bool) (b : bool) (l : list RtOp) : M Fs () :=
  match l with [] => ret tt | o :: l => run_rt mem_ok b o ;; run_rts mem_ok b l end.

Definition new_type (b : bool) (type : Z) : Z := u8 (if b then Z.lor Rv4 type else type).
Definition spec_rt (b : bool) (T : Table) (o : RtOp) : Table :=
  match o with
  | RtAdd tg a mask gate type =>
    spec_add T (range_of b a mask)
      (mkInfo (new_type b type) (take (if b then 4 else 16) gate) (take 4 tg) 1)
  | RtDel a mask => spec_del T (range_of b a mask)
  end.

(** Byte strings, a prefix mask, and the family bit only where it belongs. *)
Definition rt_ok (b : bool) (o : RtOp) : Prop :=
  match o with
  | RtAdd _ a mask _ type => Forall isbyte a /\ Forall isbyte mask /\ contiguous b mask /\
      (b = false -> tbit (u8 type) Rv4 = false)
  | RtDel a mask => Forall isbyte a /\ Forall isbyte mask /\ contiguous b mask
  end.

Section Forest.
Context (mem_ok : nat -> bool) (Hmem : forall n, mem_ok n = true) (b : bool).

Definition info (r : Route) : Info :=
  mkInfo (rtype r) (if b then gate4 (v4 r) else gate6 (v6 r)) (tag r) (ref r).
#[local] Abbreviation range := (range b).
#[local] Abbreviation wft := (wft b).

(** Tree [h] holds the entries whose hash interval contains [h]. *)
Definition hashed (h : Z) (rg : Z * Z) : Prop := V4H rg.1 <= h <= V4H rg.2.
Definition bucket (T : Table) (h : Z) (t : tree) : Prop :=
  wft t /\
  (forall r, r ∈ elems t -> T !! range r = Some (info r) /\ hashed h (range r)) /\
  (forall rg i, T !! rg = Some i -> hashed h rg -> exists r, r ∈ elems t /\ range r = rg).

(** The forest of the family represents the table. *)
Definition forest (T : Table) (f : Fs) : Prop :=
  queue f = [] /\ (forall rg i, T !! rg = Some i -> prefix rg.1 rg.2) /\
  (forall h, bucket T h (root b f h)).

Lemma info_supersede p new : tbit (rtype new) Rv4 = b -> info (supersede p new) = merge_info (info p) (info new).
Proof.
  intros E. unfold supersede, merge_info, info, copygate. cbn [i_type].
  destruct (tbit (rtype p) Rifc); cbn [negb]; [by destruct (tbit (rtype new) Rifc)|].
  rewrite E. by destruct b.
Qed.
Lemma range_same x y : same b x y <-> range x = range y.
Proof. unfold same, range. split; [intros [-> ->]; done | intros [= -> ->]; done]. Qed.
Lemma range_supersede p new : range (supersede p new) = range p.
Proof. unfold range. by rewrite lo_supersede, hi_supersede. Qed.

Lemma bucket_nested T h t new : (forall rg i, T !! rg = Some i -> prefix rg.1 rg.2) ->
  bucket T h t -> prefix (lo b new) (hi b new) -> forall x, x ∈ elems t -> nested b new x.
Proof.
  intros HT (_ & Hin & _) Hn x Hx. destruct (Hin x Hx) as [E _]. apply HT in E. unfold range in E.
  cbn [fst snd] in E. unfold nested, apart, contains.
  destruct (prefix_nested _ _ _ _ Hn E) as [?|[?|?]]; auto.
Qed.

(** Entries of other ranges do not matter to a tree a range is not hashed to. *)
Lemma bucket_other T T' h t rg : ~ hashed h rg -> (forall rg', rg' <> rg -> T' !! rg' = T !! rg') ->
  bucket T h t -> bucket T' h t.
Proof.
  intros Hh HT (W & H1 & H2). refine (conj W (conj _ _)).
  - intros r Hr. destruct (H1 r Hr) as [? ?]. split; [|done]. rewrite HT; [done | by intros <-].
  - intros rg' i Hi Hh'. apply (H2 rg' i); [|done]. rewrite <- HT; [done | by intros ->].
Qed.

Lemma spec_add_ne T rg n rg' : rg' <> rg -> spec_add T rg n !! rg' = T !! rg'.
Proof. intros. unfold spec_add. by rewrite lookup_insert_ne. Qed.
Lemma spec_del_ne T rg rg' : rg' <> rg -> spec_del T rg !! rg' = T !! rg'.
Proof.
  intros. unfold spec_del. destruct (T !! rg); [|done].
  destruct (_ =? 0); [by rewrite lookup_delete_ne | by rewrite lookup_insert_ne].
Qed.

Lemma bucket_inserted T h t t' new : tbit (rtype new) Rv4 = b -> hashed h (range new) -> wft t' ->
  inserted b new (elems t) (elems t') -> bucket T h t ->
  bucket (spec_add T (range new) (info new)) h t'.
Proof.
  intros Hty Hh W' Hi (W & H1 & H2). refine (conj W' (conj _ _)).
  - intros r Hr. destruct Hi as [(p & F & E & Hs & E')|[Hno E']].
    + apply range_same in Hs. destruct (H1 p ltac:(rewrite E; by left)) as [Hp _].
      rewrite E' in Hr. apply elem_of_cons in Hr as [->|Hr].
      * rewrite range_supersede, Hs. split; [|done]. unfold spec_add. rewrite lookup_insert_eq.
        rewrite <- Hs, Hp. by rewrite info_supersede.
      * pose proof (wft_unique b t p F r W E Hr) as Hu. rewrite range_same in Hu.
        rewrite spec_add_ne by congruence. apply H1. rewrite E. by right.
    + rewrite E' in Hr. apply elem_of_cons in Hr as [->|Hr].
      * split; [|done]. unfold spec_add. rewrite lookup_insert_eq.
        destruct (T !! range new) as [i|] eqn:ET; [|done].
        destruct (H2 _ _ ET Hh) as (x & Hx & Hrx). apply range_same in Hrx. by destruct (Hno x Hx).
      * rewrite spec_add_ne; [by apply H1|]. intros Er. apply range_same in Er. by apply (Hno r Hr).
  - intros rg i Hl Hhr. destruct (decide (rg = range new)) as [->|N].
    + destruct Hi as [(p & F & E & Hs & E')|[Hno E']].
      * exists (supersede p new). rewrite E', range_supersede. split; [by left | by apply range_same].
      * exists new. rewrite E'. split; [by left | done].
    + rewrite spec_add_ne in Hl by done. destruct (H2 _ _ Hl Hhr) as (r & Hr & <-).
      destruct Hi as [(p & F & E & Hs & E')|[Hno E']].
      * exists r. rewrite E'. split; [|done]. rewrite E in Hr.
        apply elem_of_cons in Hr as [->|Hr]; [|by right]. apply range_same in Hs. done.
      * exists r. rewrite E'. split; [by right | done].
Qed.

Lemma bucket_deleted T h t t' rt : hashed h (range rt) -> wft t' ->
  deleted b rt (elems t) (elems t') -> bucket T h t -> bucket (spec_del T (range rt)) h t'.
Proof.
  intros Hh W' Hd (W & H1 & H2). destruct Hd as [(p & F & E & Hs & E')|[Hno E']].
  - apply range_same in Hs. destruct (H1 p ltac:(rewrite E; by left)) as [Hp _]. rewrite Hs in Hp.
    assert (forall r, r ∈ F -> range r <> range rt) as Hu.
    { intros r Hr Er. apply (wft_unique b t p F r W E Hr), range_same. congruence. }
    refine (conj W' (conj _ _)).
    + intros r Hr. rewrite E' in Hr. unfold spec_del. rewrite Hp. cbn [i_ref info].
      destruct (Z.eqb_spec (ref p - 1) 0) as [Ez|Ez].
      * rewrite lookup_delete_ne by (by apply not_eq_sym, Hu). apply H1. rewrite E. by right.
      * apply elem_of_cons in Hr as [->|Hr].
        -- change (range (set_ref (ref p - 1) p)) with (range p). rewrite Hs, lookup_insert_eq. done.
        -- rewrite lookup_insert_ne by (by apply not_eq_sym, Hu). apply H1. rewrite E. by right.
    + intros rg i Hl Hhr. destruct (decide (rg = range rt)) as [->|N].
      * unfold spec_del in Hl. rewrite Hp in Hl. cbn [i_ref info] in Hl.
        destruct (Z.eqb_spec (ref p - 1) 0) as [Ez|Ez]; [by rewrite lookup_delete_eq in Hl|].
        exists (set_ref (ref p - 1) p). rewrite E'. split; [by left | done].
      * rewrite spec_del_ne in Hl by done. destruct (H2 _ _ Hl Hhr) as (r & Hr & <-).
        exists r. split; [|done]. rewrite E in Hr. apply elem_of_cons in Hr as [->|Hr]; [done|].
        rewrite E'. destruct (ref p - 1 =? 0); [done | by right].
  - assert (T !! range rt = None) as EN.
    { destruct (T !! range rt) as [i|] eqn:ET; [|done]. destruct (H2 _ _ ET Hh) as (x & Hx & Hr).
      apply range_same in Hr. by destruct (Hno x Hx). }
    unfold spec_del. rewrite EN. refine (conj W' (conj _ _)).
    + intros r Hr. apply H1. by rewrite <- E'.
    + intros rg i Hl Hhr. destruct (H2 _ _ Hl Hhr) as (r & Hr & Er). exists r. by rewrite E'.
Qed.

(** *** One operation: a sweep over the trees its range is hashed to *)

Lemma for_h_spec (I : Z -> Fs -> Prop) n h body s :
  (forall x f, h <= x < h + Z.of_nat n -> I x f -> wp (body x) f (fun _ f' => I (x + 1) f')) ->
  I h s -> wp (for_h n h body) s (fun _ s' => I (h + Z.of_nat n) s').
Proof.
  revert h s. induction n as [|n IH]; intros h s Hb HI; cbn [for_h].
  { apply wp_ret. by rewrite Z.add_0_r. }
  apply wp_bind. eapply wp_mono; [apply Hb; [lia | done]|]. cbv beta. intros _ f Hf.
  replace (h + Z.of_nat (S n)) with (h + 1 + Z.of_nat n) by lia.
  apply IH; [|done]. intros x g Hx. apply Hb. lia.
Qed.

(** Trees below [h] hold the new table, those from [h] on still the old one. *)
Definition sweep (T T' : Table) (f0 : Fs) (h : Z) (f : Fs) : Prop :=
  queue f = [] /\ (forall x, x < h -> bucket T' x (root b f x)) /\
  (forall x, h <= x -> bucket T x (root b f x)) /\
  root (negb b) f = root (negb b) f0 /\ v4routegeneration f = v4routegeneration f0 /\
  v6routegeneration f = v6routegeneration f0 /\ media f = media f0.

Lemma sweep_spec T T' lo hi body f :
  let rg := (lo, hi) in
  V4H lo <= V4H hi -> forest T f ->
  (forall rg', rg' <> rg -> T' !! rg' = T !! rg') ->
  (forall x g, hashed x rg -> queue g = [] -> bucket T x (root b g x) ->
    wp (body x) g (fun _ g' => queue g' = [] /\ others b x g g' /\ bucket T' x (root b g' x))) ->
  wp (for_hash (V4H lo) (V4H hi) body) f (fun _ f' => sweep T T' f (V4H hi + 1) f').
Proof.
  intros rg Hle (Hq & HT & Hb) Hne Hbody. unfold for_hash.
  replace (V4H hi + 1) with (V4H lo + Z.of_nat (Z.to_nat (V4H hi - V4H lo + 1))) by lia.
  apply (for_h_spec (sweep T T' f)).
  - intros x g Hx (Gq & G1 & G2 & G3 & G4 & G5 & G6).
    assert (hashed x rg) as Hh by (unfold hashed, rg; cbn; lia).
    eapply wp_mono; [apply Hbody; [done | done | apply G2; lia]|].
    intros _ g' (Q & (O1 & O2 & O3 & O4 & O5) & B).
    refine (conj Q (conj _ (conj _ (conj _ (conj _ (conj _ _)))))); try congruence.
    + intros y Hy. destruct (Z.eq_dec y x) as [->|N]; [done|]. rewrite O2 by done. apply G1. lia.
    + intros y Hy. rewrite O2 by lia. apply G2. lia.
  - refine (conj Hq (conj _ (conj (fun x _ => Hb x) _))); [|done].
    intros x Hx. apply (bucket_other T T' x _ rg); [unfold hashed, rg; cbn; lia | done | done].
Qed.

Lemma sweep_done T T' lo hi f f' : let rg := (lo, hi) in
  (forall rg', rg' <> rg -> T' !! rg' = T !! rg') ->
  (forall i, T' !! rg = Some i -> prefix lo hi) -> forest T f ->
  sweep T T' f (V4H hi + 1) f' -> forest T' f'.
Proof.
  intros rg Hne Hp (_ & HT & _) (Q & B1 & B2 & _). refine (conj Q (conj _ _)).
  - intros rg' i E. destruct (decide (rg' = rg)) as [->|N]; [by eapply Hp|].
    rewrite Hne in E by done. by eapply HT.
  - intros h. destruct (Z_lt_le_dec h (V4H hi + 1)); [by apply B1|].
    apply (bucket_other T T' h _ rg); [unfold hashed, rg; cbn; lia | done | by apply B2].
Qed.

(** Adding a filled in node to every tree of its hash interval. *)
Lemma add_sweep T f ty (fill : Route -> Route) l h n :
  prefix l h -> forest T f ->
  (forall r : Route, r = mkRoute (rid r) (u8 ty) 0 None (replicate 4 0) 1 zero4 zero6 ->
    okr b (fill r) /\ range (fill r) = (l, h) /\ info (fill r) = n) ->
  wp (for_hash (V4H l) (V4H h) (fun h =>
    p <- allocroute mem_ok ty ;; insert_node mem_ok b h (fill p))) f
    (fun _ f' => sweep T (spec_add T (l, h) n) f (V4H h + 1) f').
Proof.
  intros Hp Hf Hfill. pose proof Hf as (_ & HT & _). pose proof (prefix_le _ _ Hp) as Hle.
  apply sweep_spec; [apply (prefix_hash l h h Hp); lia | done | intros; by apply spec_add_ne |].
  intros x g Hh Hq Hb. apply wp_bind. eapply wp_mono; [by apply allocroute_frame with (b := b)|].
  intros r g' (Hr & Hq' & Ho & Er). destruct (Hfill r Er) as (Hk & Hrg & <-).
  assert (prefix (lo b (fill r)) (hi b (fill r))) as Hpf by (by injection Hrg as -> ->).
  rewrite <- Hrg in *.
  assert (bucket T x (root b g' x)) as Hb' by (by rewrite Hr).
  eapply wp_mono; [apply insert_node_spec; try done|].
  - by rewrite Hq'.
  - by apply Hb'.
  - eapply bucket_nested; done.
  - intros _ g'' (Q & O & W & Hi). refine (conj Q (conj _ _)).
    + etransitivity; [apply Ho | done].
    + eapply bucket_inserted; [by apply Hk | done | done | exact Hi | done].
Qed.

(** Deleting the range of [rt] from every tree of its hash interval. *)
Lemma del_sweep T f rt :
  prefix (lo b rt) (hi b rt) -> okr b rt -> forest T f ->
  wp (for_hash (V4H (lo b rt)) (V4H (hi b rt)) (fun h => delete_node mem_ok b h rt)) f
    (fun _ f' => sweep T (spec_del T (range rt)) f (V4H (hi b rt) + 1) f').
Proof.
  intros Hp Hk Hf. pose proof (prefix_le _ _ Hp) as Hle.
  apply sweep_spec; [apply (prefix_hash _ _ (hi b rt) Hp); lia | done | intros; by apply spec_del_ne |].
  intros x g Hh Hq Hb. eapply wp_mono; [apply delete_node_spec; try done; by apply Hb|].
  intros _ g' (Q & O & W & Hd). refine (conj Q (conj O _)). by eapply bucket_deleted.
Qed.

(** What an operation leaves besides the forest of its family: the other
    family untouched, a new generation, and the media told once. *)
Definition op_frame (o : RtOp) (f f' : Fs) : Prop :=
  root (negb b) f' = root (negb b) f /\
  v4routegeneration f' = (if b then u32 (v4routegeneration f + 1) else v4routegeneration f) /\
  v6routegeneration f' = (if b then v6routegeneration f else u32 (v6routegeneration f + 1)) /\
  media f' = media f ++ [match o with
    | RtAdd _ a mask gate type => MediaAdd (if b then Rv4 else 0) a mask gate type
    | RtDel a mask => MediaRem (if b then Rv4 else 0) a mask
    end].

Lemma spec_add_has T rg n : is_Some (spec_add T rg n !! rg).
Proof. unfold spec_add. rewrite lookup_insert_eq. eauto. Qed.

Lemma forest_gen T g4 g6 f : forest T (with_gen g4 g6 f) <-> forest T f.
Proof. by destruct b. Qed.
Lemma forest_media T l f : forest T (with_media l f) <-> forest T f.
Proof. by destruct b. Qed.

Lemma tbit_Rv4 x : tbit x Rv4 = Z.testbit x 0.
Proof.
  unfold tbit, Rv4. change 1 with (Z.ones 1). rewrite Z.land_ones, <- Z.bit0_mod by lia.
  by destruct (Z.testbit x 0).
Qed.
Lemma tbit_u8 x : tbit (u8 x) Rv4 = tbit x Rv4.
Proof. rewrite !tbit_Rv4. unfold u8. by rewrite Z.mod_pow2_bits_low by lia. Qed.
Lemma tbit_Rv4_or x : tbit (u8 (Z.lor Rv4 x)) Rv4 = true.
Proof. rewrite tbit_u8, tbit_Rv4, Z.lor_spec. done. Qed.

Lemma sweep_frame T T' f h f' : sweep T T' f h f' ->
  root (negb b) f' = root (negb b) f /\ v4routegeneration f' = v4routegeneration f /\
  v6routegeneration f' = v6routegeneration f /\ media f' = media f.
Proof. unfold sweep. tauto. Qed.

(** The last steps of an operation: the new generation and the notice to the media. *)
Lemma op_end o T f f' h Told g4 g6 l :
  forest T f' -> sweep Told T f h f' ->
  g4 = (if b then u32 (v4routegeneration f' + 1) else v4routegeneration f') ->
  g6 = (if b then v6routegeneration f' else u32 (v6routegeneration f' + 1)) ->
  l = media f' ++ [match o with
    | RtAdd _ a mask gate type => MediaAdd (if b then Rv4 else 0) a mask gate type
    | RtDel a mask => MediaRem (if b then Rv4 else 0) a mask
    end] ->
  forest T (with_media l (with_gen g4 g6 f')) /\ op_frame o f (with_media l (with_gen g4 g6 f')).
Proof.
  intros Hf (Hr & H4 & H6 & Hm)%sweep_frame -> -> ->. split; [by apply forest_media, forest_gen|].
  unfold op_frame, root in *. destruct b; cbn in *; by rewrite Hr, ?H4, ?H6, ?Hm.
Qed.

End Forest.

Section Table.
Context (mem_ok : nat -> bool) (Hmem : forall n, mem_ok n = true).

Lemma op_refines b o T f :
  rt_ok b o -> forest b T f ->
  wp (run_rt mem_ok b o) f (fun _ f' => forest b (spec_rt b T o) f' /\ op_frame b o f f').
Proof.
  intros Ho Hf.
  assert (forall T' l h (m : M Fs ()), (forall rg', rg' <> (l, h) -> T' !! rg' = T !! rg') -> prefix l h ->
    wp m f (fun _ f' => sweep b T T' f (V4H h + 1) f') ->
    forall Q, (forall f', sweep b T T' f (V4H h + 1) f' -> forest b T' f' -> Q tt f') -> wp m f Q) as Hstep.
  { intros T' l h m Hne Hp Hm Q HQ. eapply wp_mono; [exact Hm|]. intros [] f' Hs. apply HQ; [done|].
    by eapply (sweep_done b T T' l h f f'). }
  destruct o as [tg a mask gate type|a mask]; cbn [rt_ok run_rt spec_rt] in *.
  - destruct Ho as (Ha & Hm & Hc & Hty). pose proof (range_prefix b a mask Ha Hc) as Hp.
    destruct b.
    + pose proof (v4_range a mask Ha Hm Hc) as E. unfold v4addroute. cbv zeta in *. rewrite <- E in *.
      set (sa := Z.land _ _) in *. set (ea := Z.lor sa _) in *. clearbody sa ea. wp_steps.
      eapply (Hstep (spec_add T (sa, ea) (mkInfo (new_type true type) (take 4 gate) (take 4 tg) 1)) sa ea);
        [intros; by apply spec_add_ne | exact Hp | |].
      * eapply (add_sweep mem_ok Hmem true T f (Z.lor Rv4 type)
          (fun p => set_tag (take 4 tg) (set_v4 (mkV4 sa ea (take 4 gate)) p)) sa ea); [exact Hp | done|].
        intros r ->. refine (conj (conj _ (conj (prefix_le _ _ Hp) _)) (conj eq_refl eq_refl)); [|done].
        apply tbit_Rv4_or.
      * intros f' Hs Hf'. wp_steps. by eapply op_end.
    + pose proof (v6_range a mask Ha Hm) as E. unfold v6addroute. destruct (v6range a mask) as [sa ea].
      destruct E as (E & Ws & We). rewrite <- E, !V6H_num in * by done. wp_steps.
      eapply (Hstep (spec_add T (num sa, num ea) (mkInfo (new_type false type) (take 16 gate) (take 4 tg) 1))
        (num sa) (num ea)); [intros; by apply spec_add_ne | exact Hp | |].
      * eapply (add_sweep mem_ok Hmem false T f type
          (fun p => set_tag (take 4 tg) (set_v6 (mkV6 sa ea (take 16 gate)) p)) (num sa) (num ea)); [exact Hp | done|].
        intros r ->. refine (conj (conj _ (conj (prefix_le _ _ Hp) _)) (conj eq_refl eq_refl)); [|done].
        by apply Hty.
      * intros f' Hs Hf'. wp_steps. by eapply op_end.
  - destruct Ho as (Ha & Hm & Hc). pose proof (range_prefix b a mask Ha Hc) as Hp.
    destruct b.
    + pose proof (v4_range a mask Ha Hm Hc) as E. unfold v4delroute. cbv zeta in *. rewrite <- E in *.
      set (sa := Z.land _ _) in *. set (ea := Z.lor sa _) in *. clearbody sa ea. wp_steps.
      eapply (Hstep (spec_del T (sa, ea)) sa ea); [intros; by apply spec_del_ne | exact Hp | |].
      * eapply (del_sweep mem_ok Hmem true T f (mkRoute 0 Rv4 0 None [] 0 (mkV4 sa ea []) zero6)); [exact Hp | | done].
        refine (conj eq_refl (conj (prefix_le _ _ Hp) _)). done.
      * intros f' Hs Hf'. wp_steps. by eapply op_end.
    + pose proof (v6_range a mask Ha Hm) as E. unfold v6delroute. destruct (v6range a mask) as [sa ea].
      destruct E as (E & Ws & We). rewrite <- E, !V6H_num in * by done. wp_steps.
      eapply (Hstep (spec_del T (num sa, num ea)) (num sa) (num ea)); [intros; by apply spec_del_ne | exact Hp | |].
      * eapply (del_sweep mem_ok Hmem false T f (mkRoute 0 0 0 None [] 0 zero4 (mkV6 sa ea []))); [exact Hp | | done].
        refine (conj eq_refl (conj (prefix_le _ _ Hp) _)). done.
      * intros f' Hs Hf'. wp_steps. by eapply op_end.
Qed.

Lemma op_keeps_forest b o T f : rt_ok b o -> forest b T f ->
  wp (run_rt mem_ok b o) f (fun _ f' => forest b (spec_rt b T o) f').
Proof. intros Ho Hf. eapply wp_mono; [by apply op_refines|]. cbv beta. tauto. Qed.

(** C7: [v4addroute], [v6addroute], [v4delroute] and [v6delroute] implement
    insertion and deletion in a finite map from prefixes to entries: an equal
    prefix is superseded or counted, a deletion counts down before it removes,
    every other entry is kept.  Every tree stays a well formed search tree with
    the entries hashed to it and no others, the requeueing loop always ends,
    the generation advances and the media are told exactly once. *)
Theorem route_op_refines_map b o T f :
  rt_ok b o -> forest b T f ->
  wp (run_rt mem_ok b o) f (fun _ f' => forest b (spec_rt b T o) f' /\ op_frame b o f f').
Proof. apply op_refines. Qed.

Lemma run_rts_spec b l T f : Forall (rt_ok b) l -> forest b T f ->
  wp (run_rts mem_ok b l) f (fun _ f' => forest b (foldl (spec_rt b) T l) f').
Proof.
  revert T f. induction l as [|o l IH]; intros T f Hl Hf; cbn [run_rts foldl]; [by apply wp_ret|].
  apply Forall_cons in Hl as [Ho Hl]. apply wp_bind. unfold wp at 1.
  pose proof (op_keeps_forest b o T f Ho Hf) as H. unfold wp in H.
  destruct (run_rt mem_ok b o f); [|done..]. by apply IH.
Qed.
End Table.

(** *** Searching the forest *)

Lemma v4walk_search la t q : v4walk la t q = search true la t q.
Proof.
  revert q. induction t as [|d r l IHl m IHm rt IHr]; intros q; [done|]. cbn [v4walk search lo hi].
  rewrite Z.geb_leb, IHl, IHm, IHr.
  destruct (Z.leb_spec (address4 (v4 r)) la), (Z.ltb_spec la (address4 (v4 r))); try lia;
    destruct (Z.leb_spec la (endaddress4 (v4 r))), (Z.ltb_spec (endaddress4 (v4 r)) la); try lia; done.
Qed.
Lemma v6walk_search w t q : wfwords w -> wft false t -> v6walk w t q = search false (num w) t q.
Proof.
  intros [Lw Ww]. revert q. induction t as [|d r l IHl m IHm rt IHr]; intros q W; [done|].
  apply wft_inv in W as ((_ & _ & Hw) & Wl & Wm & Wr & _). destruct (Hw eq_refl) as [[L1 W1] [L2 W2]].
  cbn [v6walk search lo hi]. rewrite !below_num by (done || congruence). by rewrite IHl, IHm, IHr.
Qed.

Definition lookup_walk (b : bool) (a : list Z) (t : tree) : option Route :=
  if b then v4walk (nhgetl a) t None else v6walk (words a) t None.
Lemma lookup_walk_search b a t : Forall isbyte a -> wft b t ->
  lookup_walk b a t = search b (addr_num b a) t None.
Proof.
  intros Ha W. destruct b; [apply v4walk_search|].
  apply v6walk_search; [by apply words_wf | done].
Qed.

(** Changes that leave the range and the entry of a route alone. *)
Definition same_entry (r r' : Route) : Prop :=
  rtype r' = rtype r /\ tag r' = tag r /\ ref r' = ref r /\ v4 r' = v4 r /\ v6 r' = v6 r.

Lemma same_entry_facts b r r' : same_entry r r' ->
  range b r' = range b r /\ info b r' = info b r /\ (okr b r -> okr b r').
Proof.
  intros (Ht & Hg & Hr & H4 & H6). unfold range, info, okr, lo, hi. by rewrite Ht, Hg, Hr, H4, H6.
Qed.

Section MapRoute.
Context (b : bool) (id : nat) (g : Route -> Route) (Hg : forall r, same_entry r (g r)).
Let g' (r : Route) : Route := if Nat.eqb (rid r) id then g r else r.

Lemma g'_entry r : same_entry r (g' r).
Proof. unfold g'. destruct (Nat.eqb (rid r) id); [apply Hg | done]. Qed.
Lemma elems_map_route t : elems (map_route id g t) = g' <$> elems t.
Proof.
  induction t as [|d r l IHl m IHm rt IHr]; [done|]. cbn [map_route elems].
  by rewrite IHl, IHm, IHr, fmap_cons, !fmap_app.
Qed.
Lemma wft_map_route t : wft b t -> wft b (map_route id g t).
Proof.
  induction t as [|d r l IHl m IHm rt IHr]; [done|]. intros W.
  apply wft_inv in W as (Hr & Wl & Wm & Wr & El & Er & Em). cbn [map_route]. fold (g' r).
  destruct (same_entry_facts b r _ (g'_entry r)) as (Erg & _ & Hk).
  unfold range in Erg. injection Erg as Elo Ehi.
  apply wft_intro; auto; intros x; rewrite elems_map_route; intros (y & -> & Hy)%list_elem_of_fmap;
    destruct (same_entry_facts b y _ (g'_entry y)) as (Ey & _ & _); injection Ey as Eylo Eyhi;
    [apply El in Hy | apply Er in Hy | apply Em in Hy]; unfold contains, same in *; lia.
Qed.
Lemma bucket_map_route T h t : bucket b T h t -> bucket b T h (map_route id g t).
Proof.
  intros (W & H1 & H2). refine (conj (wft_map_route t W) (conj _ _)).
  - intros x. rewrite elems_map_route. intros (y & -> & Hy)%list_elem_of_fmap.
    destruct (same_entry_facts b y _ (g'_entry y)) as (-> & -> & _). by apply H1.
  - intros rg i Hi Hh. destruct (H2 _ _ Hi Hh) as (y & Hy & <-). exists (g' y).
    rewrite elems_map_route. split; [by apply list_elem_of_fmap_2|].
    by destruct (same_entry_facts b y _ (g'_entry y)) as (-> & _ & _).
Qed.
End MapRoute.

(** [r] is the entry of the longest prefix around the address [x]. *)
Definition longest_prefix (b : bool) (T : Table) (x : Z) (r : Route) : Prop :=
  T !! range b r = Some (info b r) /\ lo b r <= x <= hi b r /\
  forall rg i, T !! rg = Some i -> rg.1 <= x <= rg.2 -> rg.1 <= lo b r /\ hi b r <= rg.2.

Lemma lookup_walk_spec b T f a : Forall isbyte a -> forest b T f ->
  match lookup_walk b a (root b f (V4H (addr_num b a))) with
  | Some r => longest_prefix b T (addr_num b a) r /\ r ∈ elems (root b f (V4H (addr_num b a)))
  | None => forall rg i, T !! rg = Some i -> ~ rg.1 <= addr_num b a <= rg.2
  end.
Proof.
  intros Ha (_ & HT & Hb). set (x := addr_num b a). destruct (Hb (V4H x)) as (W & H1 & H2).
  rewrite lookup_walk_search by done. fold x.
  assert (forall rg i, T !! rg = Some i -> rg.1 <= x <= rg.2 ->
    exists y, y ∈ elems (root b f (V4H x)) /\ range b y = rg) as Hfind.
  { intros rg i Hi Hx. apply (H2 rg i Hi). unfold hashed.
    by apply prefix_hash; [apply (HT rg i Hi)|]. }
  destruct (search_spec b x (root b f (V4H x)) None W) as [(r & Hr & Hh & -> & Hmin)|[Hno ->]].
  - split; [|done]. destruct (H1 r Hr) as [Hi _]. refine (conj Hi (conj Hh _)).
    intros rg i Hrg Hx. destruct (Hfind rg i Hrg Hx) as (y & Hy & <-). by apply (Hmin y Hy).
  - intros rg i Hrg Hx. destruct (Hfind rg i Hrg Hx) as (y & Hy & <-). by apply (Hno y Hy).
Qed.

Section LookupSpec.
Context (findipifc : list Z -> Z -> option nat) (ifc_ifcid : nat -> Z).

Definition lookup (b : bool) (a : list Z) (c : option Rcache) : M Fs (option Route * option Rcache) :=
  if b then v4lookup findipifc ifc_ifcid a c else v6lookup findipifc ifc_ifcid a c.

(** The route the conversation's cache answers with: one of the current generation that has an interface. *)
Definition cache_hit (b : bool) (c : option Rcache) (f : Fs) : option Route :=
  match c with
  | Some (mkRcache (Some id) g) =>
    if g =? (if b then v4routegeneration f else v6routegeneration f) then
      match deref id f with Some r => match ifc r with Some _ => Some r | None => None end | None => None end
    else None
  | _ => None
  end.
(** A cache of the current generation names a route that has not been freed. *)
Definition cache_live (b : bool) (c : option Rcache) (f : Fs) : Prop :=
  forall id, c = Some (mkRcache (Some id) (if b then v4routegeneration f else v6routegeneration f)) -> deref id f <> None.
Lemma cached_hit b c f : cache_live b c f -> cached b c f = Ret (cache_hit b c f) f.
Proof.
  intros H. unfold cached, cache_hit. destruct c as [[[id|] g]|]; try done. destruct (Z.eqb_spec g (if b then v4routegeneration f else v6routegeneration f)) as [->|]; [|done].
  specialize (H id eq_refl). by destruct (deref id f) as [r|].
Qed.

(** The interface remembered in a route is current. *)
Definition current_ifc (r : Route) : Prop := exists i, ifc r = Some i /\ ifcid r = ifc_ifcid i.

Lemma revalidate_spec b T h f r : forest b T f ->
  wp (revalidate findipifc ifc_ifcid b h (Some r)) f (fun q f' =>
    forest b T f' /\ v4routegeneration f' = v4routegeneration f /\
    v6routegeneration f' = v6routegeneration f /\
    match q with
    | Some r' => same_entry r r' /\ current_ifc r'
    | None => findipifc (ifc_addr b r) (rtype r) = None
    end).
Proof.
  intros Hf. unfold revalidate.
  destruct (match ifc r with None => true | Some i => negb (ifcid r =? ifc_ifcid i) end) eqn:E.
  - destruct (findipifc (ifc_addr b r) (rtype r)) as [i|] eqn:Ef; [|by apply wp_ret].
    wp_steps. destruct Hf as (Hq & HT & Hb). refine (conj _ (conj eq_refl (conj eq_refl _))).
    + refine (conj Hq (conj HT _)). intros x. destruct (Z.eq_dec x h) as [->|N].
      * rewrite root_setroot. apply bucket_map_route; [|apply Hb]. done.
      * destruct (others_setroot b h (map_route (rid r)
          (fun r => set_ifcid (ifc_ifcid i) (set_ifc (Some i) r)) (root b f h)) f) as (_ & O & _).
        rewrite O by done. apply Hb.
    + split; [done|]. by exists i.
  - apply wp_ret. refine (conj Hf (conj eq_refl (conj eq_refl (conj _ _)))); [done|].
    destruct (ifc r) as [i|] eqn:Ei; [|done]. exists i. split; [done|].
    apply negb_false_iff, Z.eqb_eq in E. done.
Qed.

(** C12: a lookup that the conversation's cache answers returns the route of the cache and changes nothing; one
    that the cache does not answer returns the
    entry of the longest prefix around the address, with its interface brought
    up to date, and remembers it; it fails only when no entry is around the
    address, or no interface serves the one that is. An IPv6 address is one that does not stand for an IPv4 address. *)
Theorem lookup_longest_prefix b T f a c :
  forest b T f -> Forall isbyte a -> (b = false -> isv4 a = false) -> cache_live b c f ->
  wp (lookup b a c) f (fun qc f' =>
    match cache_hit b c f with
    | Some r => qc = (Some r, c) /\ f' = f
    | None => forest b T f' /\
      match qc with
      | (Some r, c') => longest_prefix b T (addr_num b a) r /\ current_ifc r /\
          (c <> None -> c' = Some (mkRcache (Some (rid r)) (if b then v4routegeneration f else v6routegeneration f)))
      | (None, _) =>
          (forall rg i, T !! rg = Some i -> ~ rg.1 <= addr_num b a <= rg.2) \/
          (exists r, longest_prefix b T (addr_num b a) r /\ findipifc (ifc_addr b r) (rtype r) = None)
      end
    end).
Proof.
  intros Hf Ha Hv Hc. destruct (cache_hit b c f) as [r|] eqn:Eh.
  { unfold wp, lookup. destruct b; [unfold v4lookup|unfold v6lookup, isv4 in *; rewrite Hv by done]; unfold bind, ret; by rewrite cached_hit, Eh. }
  assert (lookup b a c f = lookup_fresh findipifc ifc_ifcid b (V4H (addr_num b a))
    (lookup_walk b a (root b f (V4H (addr_num b a)))) c f) as E.
  { unfold lookup, lookup_walk. destruct b.
    - unfold v4lookup, bind. by rewrite cached_hit, Eh.
    - unfold v6lookup. unfold isv4 in Hv. rewrite Hv by done. unfold bind, ret.
      rewrite cached_hit, Eh by done. cbn [gets addr_num root]. by rewrite V6H_num by (by apply words_wf). }
  unfold wp. rewrite E. fold (wp (lookup_fresh findipifc ifc_ifcid b (V4H (addr_num b a))
    (lookup_walk b a (root b f (V4H (addr_num b a)))) c) f (fun qc f' => forest b T f' /\
    match qc with
    | (Some r, c') => longest_prefix b T (addr_num b a) r /\ current_ifc r /\
        (c <> None -> c' = Some (mkRcache (Some (rid r)) (if b then v4routegeneration f else v6routegeneration f)))
    | (None, _) =>
        (forall rg i, T !! rg = Some i -> ~ rg.1 <= addr_num b a <= rg.2) \/
        (exists r, longest_prefix b T (addr_num b a) r /\ findipifc (ifc_addr b r) (rtype r) = None)
    end)).
  pose proof (lookup_walk_spec b T f a Ha Hf) as Hw. unfold lookup_fresh, remember.
  destruct (lookup_walk b a _) as [r|].
  2: { wp_steps. auto. }
  destruct Hw as [Hlp _]. wp_steps. eapply wp_mono; [by apply (revalidate_spec b T)|].
  intros [r'|] f' (Hf' & G4 & G6 & Hq); wp_steps; [|eauto].
  destruct Hq as [Hs Hi]. pose proof (same_entry_facts b r r' Hs) as (Er & Ei & _).
  refine (conj Hf' (conj _ (conj Hi _))).
  - unfold longest_prefix in *. rewrite Er, Ei. unfold range in Er. injection Er as -> ->. done.
  - intros Hn. destruct c; [|done]. cbn. by rewrite G4, G6.
Qed.
End LookupSpec.

(** *** Listing *)

Fixpoint inorder (t : tree) : list Route :=
  match t with Leaf => [] | Node _ r l m rt => inorder l ++ r :: inorder m ++ inorder rt end.
Lemma inorder_elems t : inorder t ≡ₚ elems t.
Proof.
  induction t as [|d r l IHl m IHm rt IHr]; [done|]. cbn [inorder elems].
  rewrite IHl, IHm, IHr. solve_Permutation.
Qed.

Lemma elem_of_concat {A} (x : A) (ls : list (list A)) : x ∈ concat ls <-> exists l, l ∈ ls /\ x ∈ l.
Proof. rewrite list_elem_of_In, in_concat. by setoid_rewrite list_elem_of_In. Qed.

(** The routes a walk of the forest visits, in order. *)
Definition visited (roots : Z -> tree) (n : nat) (h : Z) : list Route :=
  concat ((fun i => filter (fun r => route_hash r = h + Z.of_nat i) (inorder (roots (h + Z.of_nat i)))) <$> seq 0 n).

Lemma visited_S roots n h : visited roots (S n) h =
  filter (fun r => route_hash r = h) (inorder (roots h)) ++ visited roots n (h + 1).
Proof.
  unfold visited. cbn [seq]. rewrite fmap_cons, <- fmap_S_seq, <- list_fmap_compose. cbn [concat].
  rewrite Z.add_0_r. f_equal. f_equal. apply list_fmap_ext. intros i x _. unfold compose.
  by replace (h + Z.of_nat (S x)) with (h + 1 + Z.of_nat x) by lia.
Qed.

Section WalkSpec.
Context {W : Type} (full : W -> bool) (walk : Route -> W -> W) (I : W -> Prop).
Context (I_full : forall w, I w -> full w = false) (I_walk : forall r w, I w -> I (walk r w)).

Lemma foldl_I l w : I w -> I (foldl (fun w r => walk r w) w l).
Proof. revert w. induction l; cbn [foldl]; auto. Qed.

Lemma rr_fold h t w : I w ->
  rr full walk h t w = (true, foldl (fun w r => walk r w) w (filter (fun r => route_hash r = h) (inorder t))).
Proof.
  revert w. induction t as [|d r l IHl m IHm rt IHr]; intros w Hw; cbn [rr inorder]; rewrite (I_full w Hw); [done|].
  rewrite IHl by done. cbn [negb]. rewrite filter_app, foldl_app, filter_cons, filter_app.
  set (w1 := foldl _ w _). assert (I w1) as H1 by (by apply foldl_I).
  destruct (Z.eqb_spec (route_hash r) h) as [E|E].
  - rewrite decide_True by done. cbn [foldl]. rewrite IHm by auto. cbn [negb].
    rewrite IHr by (apply foldl_I; auto). by rewrite foldl_app.
  - rewrite decide_False by done. rewrite IHm by auto. cbn [negb].
    rewrite IHr by (apply foldl_I; auto). by rewrite foldl_app.
Qed.
Lemma rr_all_fold n h roots w : I w ->
  rr_all full walk n h roots w = foldl (fun w r => walk r w) w (visited roots n h).
Proof.
  revert h w. induction n as [|n IH]; intros h w Hw; cbn [rr_all]; [done|].
  rewrite rr_fold by done. rewrite visited_S, foldl_app. apply IH. by apply foldl_I.
Qed.
Lemma ipwalkroutes_fold f w : I w ->
  ipwalkroutes full walk f w =
  foldl (fun w r => walk r w) w (visited (v4root f) nroots 0 ++ visited (v6root f) nroots 0).
Proof.
  intros Hw. unfold ipwalkroutes. cbv zeta. rewrite (I_full w Hw). rewrite rr_all_fold by done.
  rewrite I_full by (by apply foldl_I). rewrite rr_all_fold by (by apply foldl_I). by rewrite foldl_app.
Qed.
End WalkSpec.

Definition entry_of (b : bool) (r : Route) : (Z * Z) * Info := (range b r, info b r).

Lemma route_hash_lo b r : okr b r -> route_hash r = V4H (lo b r).
Proof.
  intros (Ht & _ & Hw). unfold route_hash, lo. rewrite Ht. destruct b; [done|].
  apply V6H_num. by apply Hw.
Qed.

Lemma visited_table b T f : forest b T f ->
  entry_of b <$> visited (root b f) nroots 0 ≡ₚ map_to_list T.
Proof.
  intros (_ & HT & Hb). apply NoDup_Permutation.
  - apply (NoDup_fmap_1 fst). rewrite <- list_fmap_compose. change (fst ∘ entry_of b) with (range b).
    unfold visited. generalize 0%Z as h. generalize nroots as n.
    intros n. induction n as [|n IH]; intros h; [constructor|].
    fold (visited (root b f) (S n) h). rewrite visited_S, fmap_app, NoDup_app.
    refine (conj _ (conj _ (IH (h + 1)))).
    + destruct (Hb h) as (W & _). apply wft_NoDup in W. rewrite <- inorder_elems in W.
      eapply sublist_NoDup; [exact W|]. apply fmap_sublist, sublist_filter.
    + intros rg (r & -> & Hr)%list_elem_of_fmap (r' & E & Hr')%list_elem_of_fmap.
      apply list_elem_of_filter in Hr as [Hh Hr]. unfold visited in Hr'.
      apply elem_of_concat in Hr' as (l & (i & -> & _)%list_elem_of_fmap & Hl).
      apply list_elem_of_filter in Hl as [Hh' Hr'].
      rewrite inorder_elems in Hr, Hr'.
      rewrite (route_hash_lo b) in Hh by (eapply wft_okr; [apply Hb | exact Hr]).
      rewrite (route_hash_lo b) in Hh' by (eapply wft_okr; [apply Hb | exact Hr']).
      unfold range in E. injection E as E _. rewrite E in Hh. lia.
  - apply NoDup_map_to_list.
  - intros [rg i]. rewrite elem_of_map_to_list, list_elem_of_fmap. split.
    + intros (r & [= -> ->] & Hr). unfold visited in Hr.
      apply elem_of_concat in Hr as (l & (j & -> & _)%list_elem_of_fmap & Hl).
      apply list_elem_of_filter in Hl as [_ Hr]. rewrite inorder_elems in Hr.
      destruct (Hb (0 + Z.of_nat j)) as (_ & H1 & _). by apply H1.
    + intros Hi. pose proof (HT _ _ Hi) as Hp. pose proof (prefix_le _ _ Hp).
      pose proof (V4H_range rg.1) as Hr.
      destruct (Hb (V4H rg.1)) as (W & H1 & H2). destruct (H2 rg i Hi) as (r & Hin & <-).
      { unfold hashed. split; [done|]. apply (prefix_hash _ _ rg.2 Hp). lia. }
      exists r. destruct (H1 r Hin) as [Hl _]. rewrite Hi in Hl. injection Hl as ->. split; [done|].
      unfold visited. apply elem_of_concat. eexists. split.
      * apply list_elem_of_fmap. exists (Z.to_nat (V4H (lo b r))). split; [done|].
        apply elem_of_seq. unfold nroots. cbn [range fst] in Hr. lia.
      * cbn [range fst] in *. rewrite Z2Nat.id, Z.add_0_l by lia. apply list_elem_of_filter.
        rewrite inorder_elems. split; [|done]. apply route_hash_lo. by eapply wft_okr.
Qed.

(** The window of the listing: what is skipped, then what fits. *)
Section Window.
Context (text : Route -> list Z) (offset n : Z).

Definition window_ok (done_ : list Z) (rw : Routewalk) : Prop :=
  room rw = n /\ rwo rw = (if zlen done_ <? offset then zlen done_ - offset else Z.max (rwo rw) 0) /\
  out rw = ztake (n - 1) (zdrop offset done_).

Lemma sprintroute_window d r rw :
  0 <= offset -> 0 < n -> zlen (text r) <= n - 1 -> window_ok d rw ->
  window_ok (d ++ text r) (sprintroute text r rw).
Proof.
  intros Ho Hn Ht (Hr & Hrwo & Hout). unfold sprintroute, seprint, window_ok in *. rewrite Hr in *.
  pose proof (zlen_nonneg d). pose proof (zlen_nonneg (text r)).
  destruct (Z.ltb_spec (zlen d) offset) as [L|L].
  - rewrite zdrop_ge in Hout by lia. unfold ztake in Hout. rewrite take_nil in Hout. rewrite Hout.
    change (zlen []) with 0. rewrite ztake_ge by lia.
    destruct (Z.ltb_spec (rwo rw) 0); [|lia].
    rewrite Z.gtb_ltb. destruct (Z.ltb_spec (- rwo rw) (zlen (text r))) as [L2|L2];
      cbn [room rwo out]; rewrite zlen_app.
    + destruct (Z.ltb_spec (zlen d + zlen (text r)) offset); [lia|].
      refine (conj eq_refl (conj _ _)); [lia|]. rewrite app_nil_l.
      rewrite zdrop_app_ge by lia. rewrite Hrwo. replace (- (zlen d - offset)) with (offset - zlen d) by lia.
      rewrite ztake_ge; [done|]. rewrite zlen_zdrop. lia.
    + destruct (Z.ltb_spec (zlen d + zlen (text r)) offset).
      * refine (conj eq_refl (conj _ _)); [lia|]. rewrite zdrop_ge by (rewrite zlen_app; lia).
        unfold ztake. by rewrite take_nil.
      * refine (conj eq_refl (conj _ _)); [lia|]. rewrite zdrop_ge by (rewrite zlen_app; lia).
        unfold ztake. by rewrite take_nil.
  - destruct (Z.ltb_spec (rwo rw) 0); [lia|]. cbn [room rwo out]. rewrite zlen_app.
    destruct (Z.ltb_spec (zlen d + zlen (text r)) offset); [lia|].
    refine (conj eq_refl (conj _ _)); [lia|]. rewrite zdrop_app_le by lia.
    assert (zlen (out rw) = Z.min (n - 1) (zlen (zdrop offset d))) as El
      by (rewrite Hout, zlen_ztake; pose proof (zlen_nonneg (zdrop offset d)); lia).
    rewrite Hout. set (dd := zdrop offset d) in *. rewrite Hout in El. rewrite El.
    pose proof (zlen_nonneg dd). destruct (Z_le_gt_dec (zlen dd) (n - 1)).
    + rewrite (ztake_ge (n - 1) dd), (ztake_app_ge (n - 1)) by lia. rewrite Z.min_r by lia.
      do 2 f_equal. lia.
    + rewrite Z.min_l by lia. rewrite (ztake_le _ (text r)), app_nil_r by lia.
      by rewrite (ztake_app_le (n - 1)) by lia.
Qed.
End Window.

(** A read of the routing table walks every entry of both families once,
    at the tree its first address is hashed to, and returns the bytes of the
    concatenated lines from the offset on, as many as fit before the final NUL. *)
Theorem routeread_lists_table T4 T6 f text offset n :
  forest true T4 f -> forest false T6 f ->
  0 <= offset -> 0 < n -> (forall r, zlen (text r) <= n - 1) ->
  exists l4 l6, entry_of true <$> l4 ≡ₚ map_to_list T4 /\ entry_of false <$> l6 ≡ₚ map_to_list T6 /\
    routeread text f offset n = slice offset (n - 1) (concat (text <$> l4 ++ l6)).
Proof.
  intros H4 H6 Ho Hn Ht. exists (visited (v4root f) nroots 0), (visited (v6root f) nroots 0).
  refine (conj (visited_table true T4 f H4) (conj (visited_table false T6 f H6) _)).
  set (l := visited (v4root f) nroots 0 ++ visited (v6root f) nroots 0). unfold routeread.
  set (I := fun rw => exists d, window_ok offset n d rw).
  assert (forall r rw, I rw -> I (sprintroute text r rw)) as HI.
  { intros r rw [d Hd]. exists (d ++ text r). by apply sprintroute_window. }
  assert (window_ok offset n [] (mkRw (- offset) [] n)) as H0.
  { unfold window_ok. cbn [room rwo out]. change (zlen []) with 0. refine (conj eq_refl (conj _ _)).
    - destruct (Z.ltb_spec 0 offset); lia.
    - unfold ztake, zdrop. by rewrite drop_nil, take_nil. }
  rewrite (ipwalkroutes_fold _ _ I); [| |done|by exists []].
  - fold l. assert (forall k d rw, window_ok offset n d rw ->
      window_ok offset n (d ++ concat (text <$> k)) (foldl (fun w r => sprintroute text r w) rw k)) as Hfold.
    { induction k as [|r k IH]; intros d rw Hd; cbn [foldl]; [by rewrite app_nil_r|].
      rewrite fmap_cons. cbn [concat]. rewrite app_assoc. apply IH. by apply sprintroute_window. }
    by destruct (Hfold l [] _ H0) as (_ & _ & ->).
  - intros rw [d (Hr & _ & ->)]. rewrite Hr, zlen_ztake. apply Z.leb_gt.
    pose proof (zlen_nonneg (zdrop offset d)). lia.
Qed.

(** ** Instances *)

Definition fs0 : Fs := mkFs (fun _ => Leaf) (fun _ => Leaf) [] [] [] 0 0 0 [].
Definition always : nat -> bool := fun _ => true.

Lemma forest_fs0 b : forest b ∅ fs0.
Proof.
  refine (conj eq_refl (conj _ _)); [by intros rg i; rewrite lookup_empty|].
  intros h. replace (root b fs0 h) with Leaf by (by destruct b).
  refine (conj I (conj _ _)); [by intros r ?%elem_of_nil|].
  intros rg i. by rewrite lookup_empty.
Qed.

Definition demo_rts : list RtOp :=
  [RtAdd [110; 111; 110; 101] [10; 1; 0; 0] [255; 255; 0; 0] [10; 0; 0; 2] 0;
   RtAdd [110; 111; 110; 101] [10; 0; 0; 0] [255; 0; 0; 0] [10; 0; 0; 1] 0;
   RtAdd [110; 111; 110; 101] [10; 1; 2; 0] [255; 255; 255; 0] [10; 0; 0; 3] 0].
Definition demo_add6 : RtOp :=
  RtAdd [110; 111; 110; 101] (32 :: replicate 15 0) (replicate 8 255 ++ replicate 8 0)
    (replicate 15 0 ++ [1]) 0.
Definition demo_ifc (a : list Z) (type : Z) : option nat := Some 0%nat.
Definition demo_ifcid (i : nat) : Z := 5.

Lemma bytes_of l : forallb (fun x => (0 <=? x) && (x <? 2 ^ 8)) l = true -> Forall isbyte l.
Proof.
  rewrite forallb_forall. intros H. apply Forall_forall. intros x Hx%list_elem_of_In.
  apply H in Hx. rewrite andb_true_iff, Z.leb_le, Z.ltb_lt in Hx. exact Hx.
Qed.
Lemma contiguous_of b mask k :
  (0 <=? k) && (k <=? width b) && (addr_num b mask =? 2 ^ width b - 2 ^ k) = true -> contiguous b mask.
Proof. rewrite !andb_true_iff, !Z.leb_le, Z.eqb_eq. intros [Hk E]. exists k. split; [lia | done]. Qed.

Lemma demo_rts_ok : Forall (rt_ok true) demo_rts.
Proof.
  repeat first [apply Forall_cons; split | apply Forall_nil; exact I].
  all: cbn [rt_ok]; split; [by apply bytes_of|]; split; [by apply bytes_of|]; split; [|done].
  - by apply (contiguous_of true _ 16).
  - by apply (contiguous_of true _ 24).
  - by apply (contiguous_of true _ 8).
Qed.
Lemma demo_add6_ok : rt_ok false demo_add6.
Proof.
  cbn [rt_ok demo_add6]. split; [by apply bytes_of|]; split; [by apply bytes_of|]; split; [|done].
  by apply (contiguous_of false _ 64).
Qed.

Lemma route_op_refines_map_witness :
  wp (run_rt always false demo_add6) fs0 (fun _ f' =>
    forest false (spec_rt false ∅ demo_add6) f' /\ op_frame false demo_add6 fs0 f').
Proof. exact (route_op_refines_map always (fun _ => eq_refl) false demo_add6 ∅ fs0 demo_add6_ok (forest_fs0 false)). Defined.

Lemma lookup_longest_prefix_witness :
  wp (run_rts always true demo_rts ;; lookup demo_ifc demo_ifcid true [10; 1; 9; 9] None) fs0
    (fun qc _ => match qc.1 with
      | Some r => longest_prefix true (foldl (spec_rt true) ∅ demo_rts) (addr_num true [10; 1; 9; 9]) r
      | None => forall rg i, foldl (spec_rt true) ∅ demo_rts !! rg = Some i ->
          ~ rg.1 <= addr_num true [10; 1; 9; 9] <= rg.2
      end).
Proof.
  apply wp_bind. eapply wp_mono; [exact (run_rts_spec always (fun _ => eq_refl) true demo_rts ∅ fs0 demo_rts_ok (forest_fs0 true))|].
  cbv beta. intros _ f Hf. eapply wp_mono.
  - exact (lookup_longest_prefix demo_ifc demo_ifcid true _ f [10; 1; 9; 9] None Hf
      (bytes_of [10; 1; 9; 9] eq_refl) (fun H => match Bool.diff_true_false H with end) (fun id H => match H in _ = c return match c with None => True | Some _ => deref id f <> None end with eq_refl => I end)).
  - cbv beta. intros [[r|] c] f' [_ H]; cbn [fst].
    + exact (proj1 H).
    + destruct H as [H|(r & _ & H)]; [exact H | discriminate H].
Defined.

(** The address is inside all but the /24. *)
Example demo_lookup :
  match (run_rts always true demo_rts ;; lookup demo_ifc demo_ifcid true [10; 1; 9; 9] None) fs0 with
  | Ret (Some r, _) _ => gate4 (v4 r)
  | _ => []
  end = [10; 0; 0; 2].
Proof. vm_compute. reflexivity. Qed.

Lemma routeread_lists_table_witness :
  exists l4 l6, entry_of true <$> l4 ≡ₚ map_to_list (∅ : Table) /\
    entry_of false <$> l6 ≡ₚ map_to_list (∅ : Table) /\
    routeread (fun _ => [65; 10]) fs0 0 10 = slice 0 9 (concat ((fun _ => [65; 10]) <$> l4 ++ l6)).
Proof.
  apply (routeread_lists_table ∅ ∅ fs0 (fun _ => [65; 10]) 0 10 (forest_fs0 true) (forest_fs0 false)).
  - lia.
  - lia.
  - intros r. reflexivity || (vm_compute; discriminate).
Defined.
