(* ===== verification/Ip4.v ===== *)
(** * IP version 4: ip/ip.c

    Sending ([ipoput4], with fragmentation), receiving ([ipiput4]) and the
    reassembly of fragments ([ip4reassemble] with its pool of queues).

    A packet is a chain of blocks of [Block]; header fields are read and written
    in the storage of the block, and so are the offset and length that
    reassembly keeps at the base of a block ([BKFG]).  Routing is an argument,
    as are the interfaces (their limits, whether they have a medium and can be
    locked), the test for a local address and the table of protocols; the blocks
    handed to a medium or to a protocol are logged. *)

From stdpp Require Import base list gmap strings.
From Stdlib Require Import ZArith Lia.
From S2P Require Import Prelude Block Ipaux Iproute.
Open Scope Z_scope.
Open Scope nix_scope.

Definition IP_VER4 : Z := 64.
Definition IP_HLEN4 : Z := 5.
Definition IP_DF : Z := 16384.
Definition IP_MF : Z := 8192.
Definition IP4HDR : Z := 20.
Definition IP_MAX : Z := 64 * 1024.
Definition IPFRAGSZ : Z := 4.
Definition Bipck : Z := 4.

Inductive Ipstat :=
  | Forwarding | DefaultTTL | InReceives | InHdrErrors | InAddrErrors | ForwDatagrams | InUnknownProtos
  | InDiscards | InDelivers | OutRequests | OutDiscards | OutNoRoutes | ReasmTimeout | ReasmReqds
  | ReasmOKs | ReasmFails | FragOKs | FragFails | FragCreates.
#[export] Instance Ipstat_eq_dec : EqDecision Ipstat.
Proof. solve_decision. Defined.

(** A reassembly queue; [fid] is its address. *)
Record Fragment4 := mkFragment4 { fid : nat; blist : list Block; src : Z; dst : Z; id : Z; age : Z }.
Definition set_blist x f := mkFragment4 (fid f) x (src f) (dst f) (id f) (age f).

Record IP := mkIP {
  stats : Ipstat -> Z;
  flisthead4 : list Fragment4;
  fragfree4 : list Fragment4;
  id4 : Z;
  iprouting : bool
}.

(** What leaves: to a medium ([bwrite] with the gateway), to a protocol's
    [rcv], to [ipiput6], [icmpcantfrag] and [icmpttlexceeded]. *)
Inductive Out :=
  | ToMedium (ifc : nat) (b : list Block) (gate : list Z)
  | ToProto (proto : Z) (bp : list Block)
  | ToIp6 (bp : list Block)
  | CantFrag (mtu : Z)
  | TtlExceeded.

Record Is := mkIs { ip : IP; mem : Bst; outs : list Out }.

Definition onmem {A} (m : M Bst A) : M Is A := fun s =>
  match m (mem s) with
  | Ret a x => Ret a (mkIs (ip s) x (outs s))
  | Error e x => Error e (mkIs (ip s) x (outs s))
  | Panic msg => Panic msg
  | Undef msg => Undef msg
  end.
Definition upd_ip (g : IP -> IP) : M Is () := modify (fun s => mkIs (g (ip s)) (mem s) (outs s)).
Definition output (o : Out) : M Is () := modify (fun s => mkIs (ip s) (mem s) (outs s ++ [o])).

Definition count (k : Ipstat) : M Is () := upd_ip (fun i =>
  mkIP (fun k' => if decide (k' = k) then u64 (stats i k + 1) else stats i k')
    (flisthead4 i) (fragfree4 i) (id4 i) (iprouting i)).
Definition set_lists l fr (i : IP) : IP := mkIP (stats i) l fr (id4 i) (iprouting i).
(** [incref(&ip->id4)] *)
Definition next_id4 : M Is Z :=
  i <- gets ip ;;
  let n := s32 (id4 i + 1) in
  upd_ip (fun i => mkIP (stats i) (flisthead4 i) (fragfree4 i) n (iprouting i)) ;; ret n.

(** ** Headers *)

(** Field offsets of [Ip4hdr]. *)
Definition o_vihl : Z := 0.
Definition o_tos : Z := 1.
Definition o_length : Z := 2.
Definition o_id : Z := 4.
Definition o_frag : Z := 6.
Definition o_ttl : Z := 8.
Definition o_proto : Z := 9.
Definition o_cksum : Z := 10.
Definition o_src : Z := 12.
Definition o_dst : Z := 16.

(** [n] bytes of the header at [o], a byte of it, and a store to it. *)
Definition hget (b : Block) (o n : Z) : M Is (list Z) := onmem (bread b (rp b + o) n).
Definition hgetb (b : Block) (o : Z) : M Is Z := d <- hget b o 1 ;; ret (byte d 0).
Definition hput (b : Block) (o : Z) (d : list Z) : M Is Block := onmem (bwrite b (rp b + o) d).

(** [while(len > 0)] over the header's 16-bit words. *)
Fixpoint ipcsum_loop (addr : list Z) (sum : Z) : Z :=
  match addr with
  | a :: b :: rest => ipcsum_loop rest (u32 (sum + Z.lor (Z.shiftl a 8) b))
  | _ => sum
  end.
Definition ipcsum (addr : list Z) : Z :=
  let len := Z.shiftl (Z.land (byte addr 0) 15) 2 in
  let sum := ipcsum_loop (ztake len addr) 0 in
  let sum := u32 (Z.land sum 65535 + Z.shiftr sum 16) in
  let sum := u32 (Z.land sum 65535 + Z.shiftr sum 16) in
  u16 (Z.lxor sum 65535).
(** [ipcsum(&h->vihl)] *)
Definition ipcsum_at (b : Block) : M Is Z :=
  v <- hgetb b o_vihl ;;
  d <- hget b 0 (Z.shiftl (Z.land v 15) 2) ;;
  ret (ipcsum d).
(** [h->cksum[0] = 0; h->cksum[1] = 0; hnputs(h->cksum, ipcsum(&h->vihl))] *)
Definition put_cksum (b : Block) : M Is Block :=
  b <- hput b o_cksum [0; 0] ;;
  c <- ipcsum_at b ;;
  hput b o_cksum (hnputs c).

(** [BKFG(b)], in the storage below the packet. *)
Definition ushort_get (d : list Z) : Z := byte d 0 + 256 * byte d 1.
Definition ushort_put (v : Z) : list Z := [u8 v; u8 (Z.shiftr v 8)].
Definition foff (b : Block) : Z := ushort_get (slice 0 2 (buf b)).
Definition flen (b : Block) : Z := ushort_get (slice 2 2 (buf b)).
Definition set_foff (v : Z) (b : Block) : M Is Block := onmem (bwrite b 0 (ushort_put v)).
Definition set_flen (v : Z) (b : Block) : M Is Block := onmem (bwrite b 2 (ushort_put v)).

(** ** The pool of reassembly queues *)

(** [initfrag]: [size] entries, all free. *)
Definition initfrag (size : nat) (i : IP) : IP :=
  set_lists [] ((fun n => mkFragment4 n [] 0 0 0 0) <$> seq 0 size) i.

(** [iprouting] *)
Definition set_iprouting (on : bool) : M Is () := upd_ip (fun i =>
  mkIP (fun k => if decide (k = Forwarding) then (if on then 1 else 2) else stats i k)
    (flisthead4 i) (fragfree4 i) (id4 i) on).

Definition ipfragfree4 (frag : Fragment4) : M Is () :=
  onmem (freeblist (blist frag)) ;;
  upd_ip (fun i => set_lists (filter (fun f => fid f <> fid frag) (flisthead4 i))
    (mkFragment4 (fid frag) [] 0 (dst frag) 0 (age frag) :: fragfree4 i) i).

Section Ip4.
Context `{MA : Malloc}.

(** The new queue, at the head of the list. *)
Definition ipfragallo4 (now : Z) (s d i : Z) (bl : list Block) : M Is () :=
  x <- gets ip ;;
  (match fragfree4 x with
   | [] =>
     match last (flisthead4 x) with
     | None => undef "ipfragallo4: no queues"%string
     | Some f => ipfragfree4 f
     end
   | _ => ret tt
   end) ;;
  x <- gets ip ;;
  match fragfree4 x with
  | [] => undef "ipfragallo4"%string
  | f :: rest =>
    upd_ip (set_lists (mkFragment4 (fid f) bl s d i (u32 (now + 30000)) :: flisthead4 x) rest)
  end.

(** The queue of a datagram; the ones that are too old are freed on the way. *)
Definition is_queue (s d i : Z) (f : Fragment4) : bool := (src f =? s) && (dst f =? d) && (id f =? i).
Fixpoint find_queue (now s d i : Z) (l : list Fragment4) : M Is (option Fragment4) :=
  match l with
  | [] => ret None
  | f :: l =>
    if is_queue s d i f then ret (Some f)
    else
      (if age f <? now then count ReasmTimeout ;; ipfragfree4 f else ret tt) ;;
      find_queue now s d i l
  end.

Definition set_queue (f : Fragment4) (bl : list Block) : M Is () := upd_ip (fun i =>
  set_lists ((fun g => if decide (fid g = fid f) then set_blist bl g else g) <$> flisthead4 i) (fragfree4 i) i).

(** ** Reassembly *)

(** The fragments before [off] and the rest. *)
Fixpoint frag_pos (off : Z) (bl : list Block) : list Block * list Block :=
  match bl with
  | [] => ([], [])
  | b :: rest => if off >? foff b then let '(x, y) := frag_pos off rest in (b :: x, y) else ([], bl)
  end.

(** Take out what [fend] covers of the fragments that follow. *)
Fixpoint uncover (fend : Z) (bl : list Block) : M Is (list Block) :=
  match bl with
  | [] => ret []
  | b :: rest =>
    let ovlap := fend - foff b in
    if ovlap <=? 0 then ret bl
    else if ovlap <? flen b then
      b <- set_flen (u16 (flen b - ovlap)) b ;;
      b <- set_foff (u16 (foff b + ovlap)) b ;;
      (* move up ih hdrs *)
      h <- hget b 0 IP4HDR ;;
      b <- hput b ovlap h ;;
      ret (set_rp (rp b + ovlap) b :: rest)
    else onmem (freeb b) ;; uncover fend rest
  end.

(** Trim the fragment before to the start of [b]; [None]: [b] is covered. *)
Definition trim_prev (pre : list Block) (b : Block) : M Is (option (list Block)) :=
  match last pre with
  | None => ret (Some pre)
  | Some prev =>
    let ovlap := foff prev + flen prev - foff b in
    if ovlap >? 0 then
      if ovlap >=? flen b then ret None
      else
        prev <- set_flen (u16 (flen prev - ovlap)) prev ;;
        ret (Some (removelast pre ++ [prev]))
    else ret (Some pre)
  end.

(** Is there a complete packet: [for(bl = f->blist; bl; bl = bl->next)]? *)
Fixpoint complete (bl : list Block) (pktposn : Z) : M Is bool :=
  match bl with
  | [] => ret false
  | b :: rest =>
    if negb (foff b =? pktposn) then ret false
    else
      fr <- hgetb b o_frag ;;
      if Z.land fr (Z.shiftr IP_MF 8) =? 0 then ret true
      else complete rest (pktposn + flen b)
  end.

(** Pull up the headers of the fragments after the first. *)
Definition pull_header (b : Block) : Block :=
  let r := rp b + IP4HDR in set_wp (r + flen b) (set_rp r b).
Definition assemble (bl : list Block) : M Is (list Block) :=
  match bl with
  | [] => undef "assemble"%string
  | b :: rest =>
    l <- hget b o_length 2 ;;
    let len := nhgets l in
    let b := set_wp (rp b + len) b in
    let len := fold_left (fun n b => n + flen b) rest len in
    b <- hput b o_length (hnputs len) ;;
    ret (b :: (pull_header <$> rest))
  end.

(** [offset] is the header's [frag] field, [tos] was set to the MF bit. *)
Definition ip4reassemble (now offset : Z) (bp : list Block) : M Is (option (list Block)) :=
  match bp with
  | [] => undef "ip4reassemble"%string
  | b :: next =>
    s <- hget b o_src 4 ;; d <- hget b o_dst 4 ;; i <- hget b o_id 2 ;;
    let s := nhgetl s in let d := nhgetl d in let i := nhgets i in
    (* block lists are too hard *)
    bp <- (match next with
           | [] => ret bp
           | _ => r <- onmem (pullupblock bp (blocklen bp)) ;;
                  match r with Some bp => ret bp | None => undef "ip4reassemble: nil"%string end
           end) ;;
    x <- gets ip ;;
    f <- find_queue now s d i (flisthead4 x) ;;
    match bp with
    | [] => undef "ip4reassemble"%string
    | b :: _ =>
      tos <- hgetb b o_tos ;;
      if (tos =? 0) && (Z.land offset (Z.lnot (Z.lor IP_MF IP_DF)) =? 0) then
        match f with
        | Some f => ipfragfree4 f ;; count ReasmFails
        | None => ret tt
        end ;;
        ret (Some bp)
      else
        b <- (if IPFRAGSZ >=? rp b then
                r <- onmem (padblock bp IPFRAGSZ) ;;
                match r with
                | [b'] => if decide (bid b' = bid b) then ret (set_rp (rp b' + IPFRAGSZ) b')
                          else undef "ih points to a freed block"%string
                | _ => undef "ip4reassemble"%string
                end
              else ret b) ;;
        b <- set_foff (u16 (Z.shiftl offset 3)) b ;;
        l <- hget b o_length 2 ;;
        b <- set_flen (u16 (nhgets l - IP4HDR)) b ;;
        match f with
        | None =>
          (* First fragment allocates a reassembly queue *)
          ipfragallo4 now s d i [b] ;; count ReasmReqds ;; ret None
        | Some f =>
          let '(pre, post) := frag_pos (foff b) (blist f) in
          pre <- trim_prev pre b ;;
          match pre with
          | None => onmem (freeb b) ;; ret None
          | Some pre =>
            post <- uncover (foff b + flen b) post ;;
            let bl := pre ++ b :: post in
            c <- complete bl 0 ;;
            if c : bool then
              bl <- assemble bl ;;
              ipfragfree4 (set_blist [] f) ;;
              count ReasmOKs ;;
              ret (Some bl)
            else set_queue f bl ;; ret None
          end
        end
    end
  end.
End Ip4.

(** ** Sending and receiving *)

(** The rest of the system, as these routines see it: [v4lookup], an interface
    by its address: can it be read-locked, has it a medium, its [maxtu] and its
    medium's [hsize], does it want forwarded packets reassembled; the test
    [ipforme] and whether a protocol has an [rcv]. *)
Class Net := {
  v4lookup : list Z -> option Route;
  canrlock : nat -> bool;
  medium : nat -> bool;
  maxtu : nat -> Z;
  hsize : nat -> Z;
  reassemble : nat -> bool;
  ipforme : list Z -> bool;
  has_rcv : Z -> bool
}.

Section Send.
Context `{MA : Malloc, N : Net}.

(** Copy up the data area; [None]: the chain is too short. *)
Fixpoint copy_up (nb : Block) (xs : list Block) (chunk : Z) : M Bst (Block * option (list Block)) :=
  if chunk =? 0 then ret (nb, Some xs)
  else
    match xs with
    | [] => ret (nb, None)
    | xp :: rest =>
      let blklen := if BLEN xp <? chunk then BLEN xp else chunk in
      d <- bread xp (rp xp) blklen ;;
      nb <- bappend nb d ;;
      let xp := set_rp (rp xp + blklen) xp in
      if rp xp =? wpt xp then copy_up nb rest (chunk - blklen)
      else (* more than [chunk] bytes were there *) ret (nb, Some (xp :: rest))
    end.

(** The header of a fragment, with its own fields, and its data. *)
Definition fill_fragment (nb : Block) (hdr : list Z) (lid seglen frag : Z) (xs : list Block)
    : M Is (Block * option (list Block)) :=
  nb <- onmem (bappend nb hdr) ;;
  nb <- hput nb o_frag (hnputs frag) ;;
  nb <- hput nb o_length (hnputs (seglen + IP4HDR)) ;;
  nb <- hput nb o_id (hnputs lid) ;;
  onmem (copy_up nb xs seglen).

(** [for(; fragoff < dlen; fragoff += seglen)]; [false]: out of data. *)
Fixpoint frag_loop (fuel : nat) (hdr : list Z) (lid seglen dlen fragoff : Z) (xs : list Block)
    (ifc : nat) (gate : list Z) : M Is bool :=
  match fuel with
  | O => undef "fuel"%string
  | S fuel =>
    if fragoff <? dlen then
      nb <- onmem (allocb (IP4HDR + seglen)) ;;
      let final := fragoff + seglen >=? dlen in
      let seglen := if final then dlen - fragoff else seglen in
      let* (nb, r) := fill_fragment nb hdr lid seglen
        (if final then Z.shiftr fragoff 3 else Z.lor (Z.shiftr fragoff 3) IP_MF) xs in
      match r with
      | None => count OutDiscards ;; count FragFails ;; onmem (freeb nb) ;; ret false
      | Some xs =>
        nb <- put_cksum nb ;;
        output (ToMedium ifc [nb] gate) ;;
        count FragCreates ;;
        frag_loop fuel hdr lid seglen dlen (fragoff + seglen) xs ifc gate
      end
    else ret true
  end.

(** [while(xp != nil && offset && offset >= BLEN(xp))], then [xp->rp += offset] *)
Fixpoint skip_header (xs : list Block) (offset : Z) : M Is (list Block) :=
  match xs with
  | [] => undef "ipoput4: nil"%string
  | xp :: rest =>
    if negb (offset =? 0) && (offset >=? BLEN xp) then skip_header rest (offset - BLEN xp)
    else ret (set_rp (rp xp + offset) xp :: rest)
  end.

(** [raise: free:] *)
Definition drop_packet (bp : list Block) (rv : Z) : M Is Z := onmem (freeblist bp) ;; ret rv.

Definition fragment (bp : list Block) (b : Block) (gating : bool) (len medialen : Z) (ifc : nat)
    (gate : list Z) : M Is Z :=
  fr <- hgetb b o_frag ;;
  if negb (Z.land fr (Z.shiftr IP_DF 8) =? 0) then
    count FragFails ;; count OutDiscards ;; output (CantFrag medialen) ;; drop_packet bp 0
  else
    let seglen := Z.land (medialen - IP4HDR) (Z.lnot 7) in
    if seglen <? 8 then count FragFails ;; count OutDiscards ;; drop_packet bp 0
    else
      let dlen := len - IP4HDR in
      lid <- (if gating then d <- hget b o_id 2 ;; ret (nhgets d) else next_id4) ;;
      xs <- skip_header (b :: tail bp) IP4HDR ;;
      fragoff <- (if gating then d <- hget b o_frag 2 ;; ret (Z.shiftl (nhgets d) 3) else ret 0) ;;
      hdr <- hget b 0 IP4HDR ;;
      ok <- frag_loop (S (Z.to_nat dlen)) hdr lid seglen (dlen + fragoff) fragoff xs ifc gate ;;
      (if ok : bool then count FragOKs else ret tt) ;;
      drop_packet bp 0.

(** If we dont need to fragment just send it. *)
Definition transmit (b : Block) (next : list Block) (gating : bool) (len medialen : Z) (ifc : nat)
    (gate : list Z) : M Is Z :=
  if len <=? medialen then
    b <- (if gating then ret b else n <- next_id4 ;; hput b o_id (hnputs n)) ;;
    b <- hput b o_length (hnputs len) ;;
    b <- (if gating then ret b else hput b o_frag [0; 0]) ;;
    b <- put_cksum b ;;
    match next with
    | [] => output (ToMedium ifc [b] gate) ;; ret 0
    | _ => panic "assert: bp->next == nil"%string
    end
  else fragment (b :: next) b gating len medialen ifc gate.

(** Where a packet for [d] goes by the route [r]: the gateway and the interface. *)
Definition next_hop (b : Block) (d : list Z) (r : Route) : M Is (list Z * option nat) :=
  if tbit (rtype r) Rifc || tbit (rtype r) Runi then ret (d, ifc r)
  else if tbit (rtype r) Rbcast || tbit (rtype r) Rmulti then
    s <- hget b o_src 4 ;;
    ret (d, match v4lookup s with
            | Some sr => if tbit (rtype sr) Runi then ifc sr else ifc r
            | None => ifc r
            end)
  else ret (gate4 (v4 r), ifc r).

Definition put_header (b : Block) (gating : bool) (ttl tos : Z) : M Is Block :=
  b <- (if gating then ret b else hput b o_vihl [Z.lor IP_VER4 IP_HLEN4]) ;;
  b <- hput b o_ttl [u8 ttl] ;;
  if gating then ret b else hput b o_tos [u8 tos].

(** [maxfragsize]: the conversation's, 0 without one. *)
Definition ipoput4 (bp : list Block) (gating : bool) (ttl tos maxfragsize : Z) : M Is Z :=
  count OutRequests ;;
  match bp with
  | [] => undef "ipoput4: nil"%string
  | b :: next =>
    let len := blocklen bp in
    chunk <- (if gating then d <- hget b o_length 2 ;; ret (nhgets d) else ret len) ;;
    if chunk >? len then count OutDiscards ;; drop_packet bp 0
    else
    let len := if chunk <? len then chunk else len in
    if len >=? IP_MAX then count OutDiscards ;; drop_packet bp 0
    else
      d <- hget b o_dst 4 ;;
      match v4lookup d with
      | None => count OutNoRoutes ;; drop_packet bp (-1)
      | Some r =>
        let* (gate, i) := next_hop b d r in
        match i with
        | None => undef "ipoput4: no interface"%string
        | Some i =>
          b <- put_header b gating ttl tos ;;
          if negb (canrlock i) then drop_packet (b :: next) 0
          else if negb (medium i) then drop_packet (b :: next) 0
          else
            let medialen :=
              (if negb (maxfragsize =? 0) && (maxfragsize <? maxtu i) then maxfragsize else maxtu i) - hsize i in
            transmit b next gating len medialen i gate
        end
      end
  end.

Definition IPv6prefix : list Z := replicate 10 0 ++ [255; 255].
Definition v4tov6 (a : list Z) : list Z := IPv6prefix ++ a.

(** [h->tos = MF bit], then reassembly if it is a fragment. *)
Definition maybe_reassemble (now : Z) (bp : list Block) (b : Block) : M Is (option (list Block)) :=
  d <- hget b o_frag 2 ;;
  let frag := nhgets d in
  if frag =? 0 then ret (Some bp)
  else
    b <- hput b o_tos [if Z.land frag IP_MF =? 0 then 0 else 1] ;;
    ip4reassemble now frag (b :: tail bp).

(** Strip the options off: the header moves up to the data. *)
Definition strip_options (b : Block) (hl : Z) : M Is Block :=
  d <- hget b o_length 2 ;;
  let dp := hl - Z.shiftl IP_HLEN4 2 in
  h <- hget b 0 (Z.shiftl IP_HLEN4 2) ;;
  b <- hput b dp h ;;
  let b := set_rp (rp b + dp) b in
  b <- hput b o_vihl [Z.lor IP_VER4 IP_HLEN4] ;;
  hput b o_length (hnputs (nhgets d - hl + Z.shiftl IP_HLEN4 2)).

(** [ifc] is the interface the packet came in on. *)
Definition ipiput4 (now : Z) (ifc0 : nat) (bp : list Block) : M Is () :=
  match bp with
  | [] => undef "ipiput4: nil"%string
  | b :: _ =>
    v <- hgetb b o_vihl ;;
    if negb (Z.land v 240 =? IP_VER4) then output (ToIp6 bp)
    else
    count InReceives ;;
    r <- (if BLEN b <? 64 then
            let hl := blocklen bp in
            let hl := if hl <? IP4HDR then IP4HDR else hl in
            let hl := if hl >? 64 then 64 else hl in
            onmem (pullupblock bp hl)
          else ret (Some bp)) ;;
    match r with
    | None => ret tt
    | Some [] => undef "ipiput4: nil"%string
    | Some (b :: next) =>
      c <- (if Z.land (flag b) Bipck =? 0 then ipcsum_at b else ret 0) ;;
      if negb (c =? 0) then count InHdrErrors ;; onmem (freeblist (b :: next))
      else
      d <- hget b o_dst 4 ;;
      let notforme := negb (ipforme (v4tov6 d)) in
      v <- hgetb b o_vihl ;;
      let hl := Z.shiftl (Z.land v 15) 2 in
      if negb (Z.land v 15 =? IP_HLEN4) && (hl <? Z.shiftl IP_HLEN4 2) then
        count InHdrErrors ;; onmem (freeblist (b :: next))
      else
      b <- (if negb (Z.land v 15 =? IP_HLEN4) && negb notforme then strip_options b hl else ret b) ;;
      if notforme then
        x <- gets ip ;;
        if negb (iprouting x) then onmem (freeblist (b :: next))
        else
          d <- hget b o_dst 4 ;;
          match v4lookup d with
          | None => count OutDiscards ;; onmem (freeblist (b :: next))
          | Some r =>
            if bool_decide (ifc r = Some ifc0) then count OutDiscards ;; onmem (freeblist (b :: next))
            else
              hop <- hgetb b o_ttl ;;
              if hop <? 1 then
                count InHdrErrors ;; output TtlExceeded ;; onmem (freeblist (b :: next))
              else
                match ifc r with
                | None => panic "nil route rfc"%string
                | Some i =>
                  r <- (if reassemble i then maybe_reassemble now (b :: next) b else ret (Some (b :: next))) ;;
                  match r with
                  | None => ret tt
                  | Some [] => undef "ipiput4: nil"%string
                  | Some (b :: next) =>
                    count ForwDatagrams ;;
                    tos <- hgetb b o_tos ;; hop <- hgetb b o_ttl ;;
                    ipoput4 (b :: next) true (hop - 1) tos 0 ;; ret tt
                  end
                end
          end
      else
        r <- maybe_reassemble now (b :: next) b ;;
        match r with
        | None => ret tt
        | Some [] => undef "ipiput4: nil"%string
        | Some (b :: next) =>
          (* don't let any frag info go up the stack *)
          b <- hput b o_frag [0; 0] ;;
          proto <- hgetb b o_proto ;;
          if has_rcv proto then count InDelivers ;; output (ToProto proto (b :: next))
          else count InDiscards ;; count InUnknownProtos ;; onmem (freeblist (b :: next))
        end
    end
  end.
End Send.
