(* ===== verification/Ip4reass.v ===== *)
(** * Reassembly of IP fragments: the proofs about [Ip4]'s [ip4reassemble]

    A fragment in a queue is a block that holds a packet ([holds]); the queue of
    a datagram is the fragments received so far, in the order of their offsets.
    Whatever the order and repetition of the fragments, the one that completes
    the set gives the datagram. *)

From stdpp Require Import base list gmap strings sorting.
From Stdlib Require Import ZArith Lia Sorted.
From S2P Require Import Prelude Block Ipaux Iproute Ip4.
Open Scope Z_scope.
Open Scope nix_scope.

(** ** Storage of a block *)

(** A field of the packet in [b]. *)
Definition field (b : Block) (o n : Z) : list Z := slice (rp b + o) n (buf b).

Lemma wp_ip_onmem {A} (m : M Bst A) s (Q : A -> Is -> Prop) :
  wp m (mem s) (fun a x => Q a (mkIs (ip s) x (outs s))) -> wp (onmem m) s Q.
Proof. unfold wp, onmem. by destruct (m (mem s)). Qed.
Lemma wp_upd_ip g s (Q : () -> Is -> Prop) : Q tt (mkIs (g (ip s)) (mem s) (outs s)) -> wp (upd_ip g) s Q.
Proof. done. Qed.
Lemma wp_output o s (Q : () -> Is -> Prop) : Q tt (mkIs (ip s) (mem s) (outs s ++ [o])) -> wp (output o) s Q.
Proof. done. Qed.

Lemma wp_hget b o n s (Q : list Z -> Is -> Prop) : 0 <= rp b + o -> 0 <= n -> rp b + o + n <= lim b ->
  Q (field b o n) s -> wp (hget b o n) s Q.
Proof.
  intros Ho Hn Hl HQ. apply wp_ip_onmem. unfold bread.
  destruct (Z.leb_spec 0 (rp b + o)); [|lia]. destruct (Z.leb_spec 0 n); [|lia].
  destruct (Z.leb_spec (rp b + o + n) (lim b)); [|lia]. apply wp_ret. by destruct s.
Qed.
Lemma wp_hgetb b o s (Q : Z -> Is -> Prop) : 0 <= rp b + o -> rp b + o + 1 <= lim b ->
  Q (byte (field b o 1) 0) s -> wp (hgetb b o) s Q.
Proof. intros. unfold hgetb. wp_steps. apply wp_hget; [lia..|]. by apply wp_ret. Qed.

(** Storing [d] at [p] of the storage. *)
Definition stored (p : Z) (d : list Z) (b : Block) : Block := set_buf (splice p d (buf b)) b.

Lemma wp_store b p d s (Q : Block -> Is -> Prop) : 0 <= p -> p + zlen d <= lim b ->
  Q (stored p d b) s -> wp (onmem (bwrite b p d)) s Q.
Proof.
  intros Hp Hl HQ. apply wp_ip_onmem. unfold bwrite.
  destruct (Z.leb_spec 0 p); [|lia]. destruct (Z.leb_spec (p + zlen d) (lim b)); [|lia].
  apply wp_ret. by destruct s.
Qed.

Lemma lim_stored p d b : 0 <= p -> p + zlen d <= lim b -> lim (stored p d b) = lim b.
Proof. intros. unfold lim, stored. cbn. rewrite zlen_splice; unfold lim in *; lia. Qed.
Lemma wfb_stored p d b : 0 <= p -> p + zlen d <= lim b -> wfb b -> wfb (stored p d b).
Proof. intros Hp Hl [? ?]. split; [done|]. by rewrite lim_stored. Qed.
Lemma charge_stored p d b : 0 <= p -> p + zlen d <= lim b -> charge (stored p d b) = charge b.
Proof. intros. unfold charge, BALLOC. by rewrite lim_stored. Qed.
Lemma acct_stored p d b F s : 0 <= p -> p + zlen d <= lim b -> acct (b :: F) s -> acct (stored p d b :: F) s.
Proof. intros. eapply acct_same_ids; [| |done]; [done | by apply charge_stored]. Qed.

Lemma slice_stored_other p d b o n : 0 <= o -> 0 <= n -> 0 <= p -> p + zlen d <= lim b ->
  o + n <= p \/ p + zlen d <= o -> slice o n (buf (stored p d b)) = slice o n (buf b).
Proof.
  intros Ho Hn Hp Hl [H|H]; cbn; [by apply slice_splice_before | by apply slice_splice_after].
Qed.
Lemma bdata_stored_below p d b : wfb b -> 0 <= p -> p + zlen d <= rp b -> bdata (stored p d b) = bdata b.
Proof.
  intros [H1 H2] Hp Hl. unfold bdata. apply slice_stored_other; unfold BLEN; lia.
Qed.
Lemma field_bdata b o n : 0 <= o -> 0 <= n -> o + n <= BLEN b -> 0 <= rp b -> field b o n = slice o n (bdata b).
Proof. intros. unfold field, bdata. rewrite slice_slice by lia. done. Qed.

Lemma slice_splice_inside {A} r o n (d l : list A) : 0 <= r -> 0 <= o -> o + zlen d <= n -> r + n <= zlen l ->
  slice r n (splice (r + o) d l) = splice o d (slice r n l).
Proof.
  intros Hr Ho Hd Hl. pose proof (zlen_nonneg d). unfold splice.
  assert (zlen (ztake (r + o) l) = r + o) as E1 by (rewrite zlen_ztake; lia).
  unfold slice at 1. rewrite zdrop_app_le by lia. rewrite zdrop_ztake by lia. replace (r + o - r) with o by lia.
  assert (zlen (slice r o l) = o) as E2 by (rewrite zlen_slice_in; lia).
  rewrite ztake_app_ge by lia. rewrite E2, ztake_app_ge by lia. f_equal; [|f_equal].
  - unfold slice. by rewrite ztake_ztake by lia.
  - unfold slice. rewrite zdrop_ztake by lia. unfold slice. rewrite zdrop_zdrop by lia.
    f_equal; [lia | f_equal; lia].
Qed.
Lemma bdata_stored_inside o d b : wfb b -> 0 <= o -> o + zlen d <= BLEN b ->
  bdata (stored (rp b + o) d b) = splice o d (bdata b).
Proof.
  intros [H1 H2] Ho Hl. unfold bdata, BLEN in *. cbn. apply slice_splice_inside; unfold lim in *; lia.
Qed.

Lemma splice_app_l {A} o (d a c : list A) : 0 <= o -> o + zlen d <= zlen a -> splice o d (a ++ c) = splice o d a ++ c.
Proof.
  intros Ho Hl. pose proof (zlen_nonneg d). unfold splice. rewrite ztake_app_le, zdrop_app_le by lia.
  by rewrite <- !app_assoc.
Qed.
Lemma acct_same L L' R s : ids L' = ids L -> charges L' = charges L -> acct (L ++ R) s -> acct (L' ++ R) s.
Proof. unfold acct, ids. rewrite !fmap_app, !charges_app. by intros -> ->. Qed.

Lemma ushort_get_put v rest : 0 <= v < 2 ^ 16 -> ushort_get (ushort_put v ++ rest) = v.
Proof.
  intros H. unfold ushort_get, ushort_put, byte, u8. cbn [nth app]. rewrite Z.shiftr_div_pow2 by lia.
  Z.div_mod_to_equations. lia.
Qed.
Lemma zlen_ushort_put v : zlen (ushort_put v) = 2.
Proof. done. Qed.
Lemma slice_stored_same p d b : 0 <= p -> p + zlen d <= lim b -> slice p (zlen d) (buf (stored p d b)) = d.
Proof. intros. by apply slice_splice_same. Qed.

Lemma foff_stored v b : 4 <= lim b -> 0 <= v < 2 ^ 16 -> foff (stored 0 (ushort_put v) b) = v.
Proof.
  intros Hl Hv. unfold foff. change 2 with (zlen (ushort_put v)) at 1.
  rewrite slice_stored_same by (rewrite ?zlen_ushort_put; lia). rewrite <- (app_nil_r (ushort_put v)).
  by apply ushort_get_put.
Qed.
Lemma flen_stored v b : 4 <= lim b -> 0 <= v < 2 ^ 16 -> flen (stored 2 (ushort_put v) b) = v.
Proof.
  intros Hl Hv. unfold flen. change 2 with (zlen (ushort_put v)) at 2.
  rewrite slice_stored_same by (rewrite ?zlen_ushort_put; lia). rewrite <- (app_nil_r (ushort_put v)).
  by apply ushort_get_put.
Qed.
Lemma flen_foff_stored v b : 4 <= lim b -> flen (stored 0 (ushort_put v) b) = flen b.
Proof. intros Hl. unfold flen. rewrite slice_stored_other by (rewrite ?zlen_ushort_put; lia). done. Qed.
Lemma foff_flen_stored v b : 4 <= lim b -> foff (stored 2 (ushort_put v) b) = foff b.
Proof. intros Hl. unfold foff. rewrite slice_stored_other by (rewrite ?zlen_ushort_put; lia). done. Qed.

(** ** The pool *)

(** The blocks that wait in the queues. *)
Definition waiting (i : IP) : list Block := concat (blist <$> flisthead4 i).
Definition key (f : Fragment4) : Z * Z * Z := (src f, dst f, id f).
Definition queues (i : IP) : list nat := (fid <$> flisthead4 i) ++ (fid <$> fragfree4 i).

(** The queues are those [initfrag] made, each in use or free; the ones in use
    are for different datagrams, and [F] and the blocks in them are the ones
    allocated. *)
Record pool_ok (size : nat) (F : list Block) (s : Is) : Prop := {
  po_queues : queues (ip s) ≡ₚ seq 0 size;
  po_keys : NoDup (key <$> flisthead4 (ip s));
  po_acct : acct (waiting (ip s) ++ F) (mem s)
}.

(** What reassembly never touches. *)
Definition same_env (s s' : Is) : Prop :=
  outs s' = outs s /\ id4 (ip s') = id4 (ip s) /\ iprouting (ip s') = iprouting (ip s).
#[export] Instance same_env_preorder : PreOrder same_env.
Proof. unfold same_env. split; [done|]. intros x y z. intuition congruence. Qed.

Lemma wp_ip_count k s (Q : () -> Is -> Prop) :
  (forall st, Q tt (mkIs (mkIP st (flisthead4 (ip s)) (fragfree4 (ip s)) (id4 (ip s)) (iprouting (ip s))) (mem s) (outs s))) ->
  wp (count k) s Q.
Proof. intros H. apply wp_upd_ip, H. Qed.

Lemma pool_count size F s st : pool_ok size F s ->
  pool_ok size F (mkIs (mkIP st (flisthead4 (ip s)) (fragfree4 (ip s)) (id4 (ip s)) (iprouting (ip s))) (mem s) (outs s)).
Proof. by intros [? ? ?]. Qed.

Lemma queues_NoDup size F s : pool_ok size F s -> NoDup (fid <$> flisthead4 (ip s)).
Proof.
  intros [Hq _ _]. assert (NoDup (queues (ip s))) as Hn by (rewrite Hq; apply NoDup_seq).
  by apply NoDup_app in Hn as [? _].
Qed.

Lemma filter_id {A} (P : A -> Prop) `{!forall x, Decision (P x)} (l : list A) : (forall x, x ∈ l -> P x) -> filter P l = l.
Proof.
  induction l as [|x l IH]; intros H0; [done|]. rewrite filter_cons_True by (apply H0; left).
  f_equal. apply IH. intros y Hy. apply H0. by right.
Qed.

Lemma fmap_same {A} (g : A -> A) (l : list A) : (forall x, x ∈ l -> g x = x) -> g <$> l = l.
Proof.
  induction l as [|x l IH]; intros Hx; [done|]. rewrite fmap_cons, Hx by left. f_equal. apply IH.
  intros y Hy. apply Hx. by right.
Qed.

(** Freeing the queue [f]; the blocks of [bl] go with it. *)
Lemma wp_ipfragfree4 bl f l1 l2 R s : flisthead4 (ip s) = l1 ++ f :: l2 ->
  NoDup (fid <$> flisthead4 (ip s)) -> acct (bl ++ R) (mem s) ->
  wp (ipfragfree4 (Ip4.set_blist bl f)) s (fun _ s' =>
    flisthead4 (ip s') = l1 ++ l2 /\ queues (ip s') ≡ₚ queues (ip s) /\ acct R (mem s') /\ same_env s s' /\
    exists f', fragfree4 (ip s') = f' :: fragfree4 (ip s)).
Proof.
  intros El Hn HA. unfold ipfragfree4. wp_steps. apply wp_ip_onmem.
  eapply wp_mono; [by apply wp_freeblist|]. intros _ m' [HA' _]. apply wp_upd_ip.
  cbn [ip mem outs flisthead4 fragfree4 set_lists fid set_blist].
  rewrite El in Hn |- *. rewrite fmap_app, fmap_cons in Hn. apply NoDup_app in Hn as (Hn1 & Hx & Hn2).
  apply NoDup_cons in Hn2 as [Hf Hn2].
  assert (filter (fun g => fid g <> fid f) (l1 ++ f :: l2) = l1 ++ l2) as Ef.
  { rewrite filter_app, filter_cons_False by (intros H; by apply H). f_equal; apply filter_id; intros g Hg E.
    - apply (Hx (fid g)); [apply list_elem_of_fmap; by exists g | rewrite E; left].
    - apply Hf. rewrite <- E. apply list_elem_of_fmap. by exists g. }
  split; [exact Ef|]. split; [|split_and!; try done; by eexists].
  unfold queues. simpl. rewrite Ef, El, !fmap_app. simpl. solve_Permutation.
Qed.

(** ** Finding the queue *)

(** The queues left when the search is over. *)
Fixpoint survivors (now s d i : Z) (l : list Fragment4) : list Fragment4 :=
  match l with
  | [] => []
  | f :: l => if is_queue s d i f then f :: l
              else if age f <? now then survivors now s d i l else f :: survivors now s d i l
  end.

Lemma is_queue_key s d i f : is_queue s d i f = true <-> key f = (s, d, i).
Proof.
  unfold is_queue, key. rewrite !andb_true_iff, !Z.eqb_eq. split; [by intros [[-> ->] ->] | by intros [= -> -> ->]].
Qed.
Lemma waiting_app l1 f l2 : concat (blist <$> l1 ++ f :: l2) ≡ₚ blist f ++ concat (blist <$> l1 ++ l2).
Proof. rewrite !fmap_app, fmap_cons, !concat_app. cbn [concat]. solve_Permutation. Qed.

Lemma wp_find_queue size F now sa da i l : forall l1 s, pool_ok size F s -> flisthead4 (ip s) = l1 ++ l ->
  wp (find_queue now sa da i l) s (fun r s' => pool_ok size F s' /\ same_env s s' /\
    flisthead4 (ip s') = l1 ++ survivors now sa da i l /\
    match r with
    | Some f => f ∈ l /\ key f = (sa, da, i) /\ f ∈ survivors now sa da i l
    | None => forall f, f ∈ l -> key f <> (sa, da, i)
    end).
Proof.
  induction l as [|f l IH]; intros l1 s Hp El; cbn [find_queue survivors].
  { apply wp_ret. split_and!; try done. by intros f ?%elem_of_nil. }
  destruct (is_queue sa da i f) eqn:Eq.
  { apply wp_ret. split_and!; try done; [left| |left]. by apply is_queue_key. }
  assert (key f <> (sa, da, i)) as Hk by (intros E%is_queue_key; congruence).
  assert (forall (r : option Fragment4) l', match r with
      | Some g => g ∈ l /\ key g = (sa, da, i) /\ g ∈ survivors now sa da i l
      | None => forall g, g ∈ l -> key g <> (sa, da, i) end -> survivors now sa da i l ⊆ l' ->
    match r with
    | Some g => g ∈ f :: l /\ key g = (sa, da, i) /\ g ∈ l'
    | None => forall g, g ∈ f :: l -> key g <> (sa, da, i) end) as Hr.
  { intros [g|] l'; [intros (? & ? & ?) Hs; split_and!; [by right | done | by apply Hs] |].
    intros H _ g [->|Hg]%elem_of_cons; [done | by apply H]. }
  wp_steps. destruct (age f <? now).
  - wp_steps. apply wp_ip_count. intros st. pose proof (pool_count _ _ _ st Hp) as Hp1.
    set (s1 := mkIs _ _ _) in *. pose proof (queues_NoDup _ _ _ Hp1) as Hn. destruct Hp1 as [Hq Hks HA].
    assert (ipfragfree4 f = ipfragfree4 (Ip4.set_blist (blist f) f)) as -> by (by destruct f).
    eapply wp_mono; [apply (wp_ipfragfree4 (blist f) f l1 l (concat (blist <$> l1 ++ l) ++ F) s1 El Hn)|].
    + unfold waiting in HA. cbn [ip flisthead4 s1] in HA. rewrite El, waiting_app, <- app_assoc in HA. exact HA.
    + intros _ s2 (El2 & Hq2 & HA2 & Henv & _).
      eapply wp_mono; [apply (IH l1 s2); [|exact El2]|].
      * split; [by rewrite Hq2 | | by unfold waiting; rewrite El2].
        cbn [ip flisthead4 s1] in Hks. rewrite El2. rewrite El, fmap_app, fmap_cons in Hks. rewrite fmap_app.
        rewrite <- Permutation_middle in Hks. by apply NoDup_cons in Hks as [_ ?].
      * intros r s' (Hp' & Henv' & El' & Hr'). split; [done|].
        split; [etransitivity; [|exact Henv']; exact Henv|]. split; [exact El' | by eapply Hr].
  - wp_steps. eapply wp_mono; [apply (IH (l1 ++ [f]) s Hp); by rewrite <- app_assoc|].
    intros r s' (Hp' & Henv & El' & Hr'). rewrite <- app_assoc in El'. split_and!; try done.
    eapply Hr; [done|]. intros g Hg. by right.
Qed.

(** ** Fragments *)

(** [b] holds the packet [p] (the medium may have padded it) for offset [off]. *)
Record holds (b : Block) (off : Z) (p : list Z) : Prop := {
  hd_wf : wfb b;
  hd_rp : 4 <= rp b;
  hd_off : foff b = off;
  hd_len : flen b = zlen p - IP4HDR;
  hd_size : IP4HDR < zlen p;
  hd_data : exists pad, bdata b = p ++ pad
}.

Lemma slice_app_l {A} o n (p q : list A) : 0 <= o -> 0 <= n -> o + n <= zlen p -> slice o n (p ++ q) = slice o n p.
Proof.
  intros Ho Hn Hl. unfold slice. rewrite zdrop_app_le by lia. rewrite ztake_app_le; [done|]. rewrite zlen_zdrop. lia.
Qed.
Lemma field_packet b p pad o n : wfb b -> bdata b = p ++ pad -> 0 <= o -> 0 <= n -> o + n <= zlen p ->
  field b o n = slice o n p /\ rp b + o + n <= wpt b.
Proof.
  intros Hw Hd Ho Hn Hl. pose proof Hw as [H1 H2]. pose proof (zlen_bdata b Hw) as Hz. rewrite Hd, zlen_app in Hz.
  pose proof (zlen_nonneg pad). unfold BLEN in Hz. split; [|lia].
  rewrite field_bdata by (unfold BLEN; lia). rewrite Hd. by apply slice_app_l.
Qed.
Lemma holds_field b off p o n : holds b off p -> 0 <= o -> 0 <= n -> o + n <= zlen p ->
  field b o n = slice o n p /\ rp b + o + n <= wpt b.
Proof. intros [Hw _ _ _ _ [pad Hd]]. by apply (field_packet b p pad). Qed.

Lemma wp_hget_packet b p pad o n : wfb b -> bdata b = p ++ pad -> IP4HDR < zlen p ->
  0 <= o -> 0 <= n -> o + n <= IP4HDR -> forall s (Q : list Z -> Is -> Prop), Q (slice o n p) s -> wp (hget b o n) s Q.
Proof.
  intros Hw Hd Hsz Ho Hn Hl s Q HQ. pose proof Hw as [? ?]. destruct (field_packet b p pad o n Hw Hd) as [E ?]; [lia..|].
  apply wp_hget; [lia..|]. by rewrite E.
Qed.

Lemma nhgets_range a : Forall isbyte a -> 0 <= nhgets a < 2 ^ 16.
Proof.
  intros H. rewrite nhgets_sum by done. pose proof (isbyte_nth a 0 H). pose proof (isbyte_nth a 1 H).
  unfold isbyte in *. lia.
Qed.
Lemma isbyte_slice o n (p : list Z) : Forall isbyte p -> Forall isbyte (slice o n p).
Proof. intros H. unfold slice, ztake, zdrop. by apply Forall_take, Forall_drop. Qed.

(** A fragment that is not at the start is a fragment to the code. *)
Lemma offset_nonzero w : 0 <= w < 2 ^ 16 -> u16 (Z.shiftl w 3) <> 0 -> Z.land w (Z.lnot (Z.lor IP_MF IP_DF)) <> 0.
Proof.
  intros Hw Hu E. apply Hu. unfold u16. rewrite Z.shiftl_mul_pow2 by lia.
  assert (w mod 2 ^ 13 = 0) as Hm.
  { apply Z.bits_inj_0. intros n. destruct (Z_lt_le_dec n 0) as [L|L]; [by rewrite Z.testbit_neg_r|].
    destruct (Z_lt_le_dec n 13) as [L'|L']; [|by rewrite Z.mod_pow2_bits_high by lia].
    rewrite Z.mod_pow2_bits_low by lia. pose proof (f_equal (fun x => Z.testbit x n) E) as Hb. cbn beta in Hb.
    rewrite Z.land_spec, Z.lnot_spec, Z.bits_0 in Hb by lia.
    replace (Z.testbit (Z.lor IP_MF IP_DF) n) with false in Hb; [by rewrite andb_true_r in Hb|].
    change (Z.lor IP_MF IP_DF) with (3 * 2 ^ 13). symmetry. by apply Z.mul_pow2_bits_low. }
  Z.div_mod_to_equations. lia.
Qed.

(** ** The fragments of a datagram *)

Section Datagram.
Context `{MA : Malloc, MO : !MallocOk MA}.
(** The packets, in order, and the datagram's key. *)
Context (ps : list (list Z)) (sa da ia : Z).

Definition pdata (p : list Z) : list Z := zdrop IP4HDR p.
Definition poff (i : nat) : Z := zlen (concat (pdata <$> take i ps)).
(** The fields as the routines read them. *)
Definition fragword (p : list Z) : Z := nhgets (slice o_frag 2 p).

Record datagram : Prop := {
  dg_many : (2 <= length ps)%nat;
  dg_bytes : forall i p, ps !! i = Some p -> Forall isbyte p /\ IP4HDR < zlen p;
  dg_total : IP4HDR + poff (length ps) < 2 ^ 16;
  dg_key : forall i p, ps !! i = Some p -> nhgetl (slice o_src 4 p) = sa /\ nhgetl (slice o_dst 4 p) = da /\
    nhgets (slice o_id 2 p) = ia;
  dg_length : forall i p, ps !! i = Some p -> nhgets (slice o_length 2 p) = zlen p;
  dg_offset : forall i p, ps !! i = Some p -> u16 (Z.shiftl (fragword p) 3) = poff i;
  dg_more : forall i p, ps !! i = Some p ->
    (Z.land (byte (slice o_frag 1 p) 0) (Z.shiftr IP_MF 8) =? 0) = bool_decide (S i = length ps);
  dg_tos : forall i p, ps !! i = Some p -> byte (slice o_tos 1 p) 0 = if bool_decide (S i = length ps) then 0 else 1
}.
Hypothesis DG : datagram.

Definition entry (b : Block) (i : nat) : Prop := exists p, ps !! i = Some p /\ holds b (poff i) p.
Definition sorted (js0 : list nat) : Prop := StronglySorted lt js0.

(** The places received so far, with [i]. *)
Fixpoint ins (i : nat) (js0 : list nat) : list nat :=
  match js0 with
  | [] => [i]
  | j :: is' => if decide (i < j)%nat then i :: js0 else if decide (i = j) then js0 else j :: ins i is'
  end.

Lemma poff_S i p : ps !! i = Some p -> poff (S i) = poff i + (zlen p - IP4HDR).
Proof.
  intros Hp. unfold poff. rewrite (take_S_r _ _ _ Hp), fmap_app, concat_app, zlen_app. cbn. rewrite app_nil_r.
  unfold pdata. rewrite zlen_zdrop. destruct (dg_bytes DG i p Hp). unfold IP4HDR in *. lia.
Qed.
Lemma poff_mono i j : (i <= j <= length ps)%nat -> poff i <= poff j.
Proof.
  intros [Hij Hj]. induction Hij as [|j Hij IH]; [lia|].
  destruct (lookup_lt_is_Some_2 ps j ltac:(lia)) as [p Hp]. rewrite (poff_S j p Hp).
  destruct (dg_bytes DG j p Hp). specialize (IH ltac:(lia)). lia.
Qed.
Lemma poff_lt i j : (i < j <= length ps)%nat -> poff i < poff j.
Proof.
  intros [Hij Hj]. destruct (lookup_lt_is_Some_2 ps i ltac:(lia)) as [p Hp].
  pose proof (poff_S i p Hp). pose proof (poff_mono (S i) j ltac:(lia)). destruct (dg_bytes DG i p Hp). lia.
Qed.
Lemma poff_inj i j : (i <= length ps)%nat -> (j <= length ps)%nat -> poff i = poff j -> i = j.
Proof.
  intros Hi Hj E. destruct (lt_eq_lt_dec i j) as [[L|L]|L]; [|done|].
  - pose proof (poff_lt i j ltac:(lia)). lia.
  - pose proof (poff_lt j i ltac:(lia)). lia.
Qed.
Lemma poff_range i : (i <= length ps)%nat -> 0 <= poff i < 2 ^ 16 - IP4HDR.
Proof.
  intros Hi. split; [apply zlen_nonneg|]. pose proof (poff_mono i (length ps) ltac:(lia)). pose proof (dg_total DG). lia.
Qed.

Lemma entry_lt b i : entry b i -> (i < length ps)%nat.
Proof. intros (p & Hp & _). by eapply lookup_lt_Some. Qed.
Lemma entry_foff b i : entry b i -> foff b = poff i.
Proof. intros (p & _ & H). apply (hd_off _ _ _ H). Qed.
Lemma entry_end b i : entry b i -> foff b + flen b = poff (S i).
Proof. intros (p & Hp & H). rewrite (hd_off _ _ _ H), (hd_len _ _ _ H), (poff_S i p Hp). done. Qed.

Lemma frag_pos_spec b i bl js0 : entry b i -> Forall2 entry bl js0 -> sorted js0 ->
  exists pre post is1 is2, frag_pos (foff b) bl = (pre, post) /\ bl = pre ++ post /\ js0 = is1 ++ is2 /\
    Forall2 entry pre is1 /\ Forall2 entry post is2 /\ Forall (fun j => j < i)%nat is1 /\ Forall (fun j => i <= j)%nat is2.
Proof.
  intros Hb. induction 1 as [|c j bl js0 Hc Hbl IH]; intros Hs; cbn [frag_pos].
  { exists [], [], [], []. by split_and!; try constructor. }
  apply StronglySorted_inv in Hs as [Hs Hj]. pose proof (entry_lt _ _ Hb). pose proof (entry_lt _ _ Hc).
  rewrite (entry_foff _ _ Hb), (entry_foff _ _ Hc), Z.gtb_ltb in *.
  destruct (Z.ltb_spec (poff j) (poff i)) as [L|L].
  - assert (j < i)%nat.
    { destruct (le_lt_dec i j) as [L'|]; [|done]. pose proof (poff_mono i j ltac:(lia)). lia. }
    destruct (IH Hs) as (pre & post & is1 & is2 & -> & -> & -> & ? & ? & ? & ?).
    exists (c :: pre), post, (j :: is1), is2. by split_and!; try constructor.
  - assert (i <= j)%nat.
    { destruct (le_lt_dec i j) as [|L']; [done|]. pose proof (poff_lt j i ltac:(lia)). lia. }
    exists [], (c :: bl), [], (j :: js0). split_and!; try done; constructor; try done.
    eapply Forall_impl; [exact Hj|]. cbn. lia.
Qed.

Lemma trim_prev_spec b i pre is1 s : entry b i -> Forall2 entry pre is1 -> Forall (fun j => j < i)%nat is1 ->
  wp (trim_prev pre b) s (fun r s' => r = Some pre /\ s' = s).
Proof.
  intros Hb Hpre Hlt. unfold trim_prev. destruct (last pre) as [prev|] eqn:El; [|by apply wp_ret].
  apply last_Some in El as [pre' ->]. apply Forall2_app_inv_l in Hpre as (js0 & js1 & _ & Hp & ->).
  apply Forall2_cons_inv_l in Hp as (j & ? & Hj & _ & ->). apply Forall_app in Hlt as [_ Hlt].
  apply Forall_cons in Hlt as [Hlt _]. rewrite (entry_end _ _ Hj), (entry_foff _ _ Hb).
  pose proof (entry_lt _ _ Hb). pose proof (poff_mono (S j) i ltac:(lia)).
  rewrite Z.gtb_ltb. destruct (Z.ltb_spec 0 (poff (S j) - poff i)); [lia|]. by apply wp_ret.
Qed.

(** Of the fragments from [i] on, one for [i] itself is dropped. *)
Lemma uncover_spec b i post is2 R s : entry b i -> Forall2 entry post is2 -> sorted is2 ->
  Forall (fun j => i <= j)%nat is2 -> acct (post ++ R) (mem s) ->
  wp (uncover (foff b + flen b) post) s (fun post' s' => exists is2',
    Forall2 entry post' is2' /\ i :: is2' = ins i is2 /\ sorted (i :: is2') /\
    acct (post' ++ R) (mem s') /\ ip s' = ip s /\ outs s' = outs s).
Proof.
  intros Hb Hpost Hs Hge HA. rewrite (entry_end _ _ Hb).
  assert (forall js0, sorted js0 -> Forall (lt i) js0 -> forall bl, Forall2 entry bl js0 ->
    forall s, wp (uncover (poff (S i)) bl) s (fun bl' s' => bl' = bl /\ s' = s)) as Hstop.
  { intros [|j js0] _ Hlt bl Hbl s1; [apply Forall2_nil_inv_r in Hbl as ->; by apply wp_ret|].
    apply Forall2_cons_inv_r in Hbl as (c & bl' & Hc & _ & ->). cbn [uncover]. rewrite (entry_foff _ _ Hc).
    apply Forall_cons in Hlt as [Hlt _]. pose proof (entry_lt _ _ Hc). pose proof (poff_mono (S i) j ltac:(lia)).
    destruct (Z.leb_spec (poff (S i) - poff j) 0); [|lia]. by apply wp_ret. }
  destruct Hpost as [|c j post js0 Hc Hpost].
  { apply wp_ret. exists []. split_and!; try done; repeat constructor. }
  apply StronglySorted_inv in Hs as [Hs Hj]. apply Forall_cons in Hge as [Hge _]. cbn [ins].
  destruct (decide (i < j)%nat) as [L|L].
  - assert (Forall (lt i) (j :: js0)) as Hlt.
    { constructor; [done|]. eapply Forall_impl; [exact Hj|]. cbn. lia. }
    eapply wp_mono; [apply (Hstop (j :: js0)); [by constructor | done | by constructor]|]. intros ? ? [-> ->].
    exists (j :: js0). split_and!; try done; [by constructor | by constructor; [constructor|]].
  - assert (j = i) as -> by lia. rewrite decide_True by done. cbn [uncover].
    pose proof Hc as (p & Hp & Hh). pose proof (poff_S i p Hp). destruct (dg_bytes DG i p Hp) as [_ Hsz].
    rewrite (hd_off _ _ _ Hh), (hd_len _ _ _ Hh).
    destruct (Z.leb_spec (poff (S i) - poff i) 0); [lia|].
    destruct (Z.ltb_spec (poff (S i) - poff i) (zlen p - IP4HDR)); [lia|].
    wp_steps. apply wp_ip_onmem. eapply wp_mono; [by apply wp_freeb|]. intros _ m' [HA' _].
    eapply wp_mono; [by apply (Hstop js0 Hs Hj)|]. intros ? ? [-> ->]. exists js0. split_and!; try done. by constructor.
Qed.

Lemma entry_room b i o n : entry b i -> 0 <= o -> 0 <= n -> o + n <= IP4HDR ->
  exists p, ps !! i = Some p /\ field b o n = slice o n p /\ 0 <= rp b + o /\ rp b + o + n <= lim b.
Proof.
  intros (p & Hp & Hh) Ho Hn Hl. exists p. destruct (dg_bytes DG i p Hp) as [_ Hsz].
  destruct (holds_field b (poff i) p o n Hh Ho Hn ltac:(lia)) as [-> Hr]. destruct (hd_wf _ _ _ Hh) as [? ?].
  split_and!; [done..| |]; lia.
Qed.

(** The queue is complete when it holds every place. *)
Lemma complete_spec bl : forall m js s, Forall2 entry bl js -> sorted js -> (m < length ps)%nat ->
  wp (complete bl (poff m)) s (fun r s' => r = bool_decide (js = seq m (length ps - m)) /\ s' = s).
Proof.
  induction bl as [|b bl IH]; intros m js s Hbl Hs Hm; cbn [complete].
  { apply Forall2_nil_inv_l in Hbl as ->. apply wp_ret. rewrite bool_decide_eq_false_2; [done|].
    destruct (length ps - m)%nat eqn:E; [lia | done]. }
  apply Forall2_cons_inv_l in Hbl as (j & js' & Hb & Hbl & ->). apply StronglySorted_inv in Hs as [Hs Hj].
  pose proof (entry_lt _ _ Hb) as Hjl. rewrite (entry_foff _ _ Hb).
  replace (length ps - m)%nat with (S (length ps - S m)) by lia. cbn [seq].
  destruct (Z.eqb_spec (poff j) (poff m)) as [E|N]; cbn [negb].
  2: { apply wp_ret. rewrite bool_decide_eq_false_2; [done|]. by intros [= -> _]. }
  apply poff_inj in E as ->; [|lia..].
  destruct (entry_room b m o_frag 1 Hb) as (p & Hp & Hf & Hr1 & Hr2); [done..|].
  wp_steps. apply wp_hgetb; [done..|]. rewrite Hf, (dg_more DG m p Hp).
  destruct (bool_decide_reflect (S m = length ps)) as [E|N].
  - apply wp_ret. split; [|done]. rewrite bool_decide_eq_true_2; [done|]. replace (length ps - S m)%nat with O by lia.
    destruct js' as [|j js']; [done|]. apply Forall2_cons_inv_r in Hbl as (c & ? & Hc & _ & _).
    apply Forall_cons in Hj as [Hj _]. pose proof (entry_lt _ _ Hc). lia.
  - rewrite <- (entry_foff _ _ Hb), (entry_end _ _ Hb). eapply wp_mono; [apply (IH (S m) js'); [done..|lia]|].
    intros r s' [-> ->]. split; [|done]. apply bool_decide_ext. split; [by intros -> | by intros [= ->]].
Qed.

Lemma sum_flen bl : forall m, Forall2 entry bl (seq m (length bl)) ->
  fold_left (fun n b => n + flen b) bl (IP4HDR + poff m) = IP4HDR + poff (m + length bl).
Proof.
  induction bl as [|b bl IH]; intros m Hbl; cbn [length seq fold_left] in *; [by rewrite Nat.add_0_r|].
  apply Forall2_cons in Hbl as [Hb Hbl]. replace (IP4HDR + poff m + flen b) with (IP4HDR + poff (S m)).
  - rewrite IH by done. by rewrite Nat.add_succ_r.
  - rewrite <- (entry_end _ _ Hb), (entry_foff _ _ Hb). lia.
Qed.

(** The datagram: the first packet's header with the total length, and all the data. *)
Definition total : Z := IP4HDR + poff (length ps).
Definition whole : list Z :=
  splice o_length (hnputs total) (ztake IP4HDR (default [] (head ps))) ++ concat (pdata <$> ps).

Lemma pull_header_spec b i p : ps !! i = Some p -> entry b i ->
  wfb (pull_header b) /\ bdata (pull_header b) = pdata p /\ bid (pull_header b) = bid b /\
  charge (pull_header b) = charge b.
Proof.
  intros Hp (p' & Hp' & Hh). rewrite Hp in Hp'. injection Hp' as <-. destruct (dg_bytes DG i p Hp) as [_ Hsz].
  destruct (hd_data _ _ _ Hh) as [pad Hd]. pose proof (hd_wf _ _ _ Hh) as Hw. pose proof (zlen_bdata b Hw) as Hz.
  rewrite Hd, zlen_app in Hz. pose proof (zlen_nonneg pad). destruct Hw as [? ?]. unfold BLEN in Hz.
  unfold IP4HDR in *. unfold pull_header, IP4HDR. rewrite (hd_len _ _ _ Hh). unfold IP4HDR. split_and!; [split; cbn; unfold lim in *; cbn; lia | | done..].
  unfold bdata, BLEN. cbn. unfold IP4HDR in *.
  replace (rp b + 20 + (zlen p - 20) - (rp b + 20)) with (zlen p - 20) by lia.
  change (slice (rp b + 20) (zlen p - 20) (buf b)) with (field b 20 (zlen p - 20)).
  destruct (holds_field b _ p 20 (zlen p - 20) Hh) as [-> _]; [lia..|].
  unfold pdata, slice. apply ztake_ge. rewrite zlen_zdrop. unfold IP4HDR. lia.
Qed.

Lemma pull_headers_spec bl : forall m, Forall2 entry bl (seq m (length bl)) -> (m + length bl = length ps)%nat ->
  Forall wfb (pull_header <$> bl) /\ cdata (pull_header <$> bl) = concat (pdata <$> drop m ps) /\
  ids (pull_header <$> bl) = ids bl /\ charges (pull_header <$> bl) = charges bl.
Proof.
  induction bl as [|b bl IH]; intros m Hbl Hm; cbn [length seq] in *.
  { rewrite drop_ge by lia. done. }
  apply Forall2_cons in Hbl as [Hb Hbl]. destruct (IH (S m) Hbl ltac:(lia)) as (H1 & H2 & H3 & H4).
  pose proof Hb as (p & Hp & _). destruct (pull_header_spec b m p Hp Hb) as (G1 & G2 & G3 & G4).
  rewrite fmap_cons. split; [by constructor|]. split; [|split].
  - rewrite cdata_cons, G2, H2, (drop_S _ _ _ Hp). done.
  - unfold ids in *. rewrite !fmap_cons, G3, H3. done.
  - by rewrite !charges_cons, G4, H4.
Qed.

Lemma assemble_spec bl R s : Forall2 entry bl (seq 0 (length ps)) -> acct (bl ++ R) (mem s) ->
  wp (assemble bl) s (fun bl' s' => s' = s /\ Forall wfb bl' /\ cdata bl' = whole /\ acct (bl' ++ R) (mem s) /\ bl' <> []).
Proof.
  intros Hbl HA. pose proof (Forall2_length _ _ _ Hbl) as Hlen. rewrite length_seq in Hlen.
  pose proof (dg_many DG). destruct bl as [|b bl]; [cbn in Hlen; lia|]. cbn [length] in Hlen.
  rewrite <- Hlen in Hbl. cbn [seq] in Hbl. apply Forall2_cons in Hbl as [Hb Hbl].
  destruct (entry_room b 0 o_length 2 Hb) as (p & Hp & Hf & Hr1 & Hr2); [done..|].
  pose proof Hb as (p' & Hp' & Hh). rewrite Hp in Hp'. injection Hp' as <-.
  destruct (dg_bytes DG 0 p Hp) as [_ Hsz]. unfold assemble. wp_steps. apply wp_hget; [done..|]. wp_steps.
  rewrite Hf, (dg_length DG 0 p Hp).
  pose proof (poff_S 0 p Hp) as H1. change (poff 0) with 0 in H1.
  assert (fold_left (fun n b => n + flen b) bl (zlen p) = total) as Ef.
  { replace (zlen p) with (IP4HDR + poff 1) by lia. rewrite (sum_flen bl 1 Hbl). unfold total. do 3 f_equal. lia. }
  rewrite Ef.
  destruct (hd_data _ _ _ Hh) as [pad Hd]. pose proof (hd_wf _ _ _ Hh) as Hw. pose proof (zlen_bdata b Hw) as Hz.
  rewrite Hd, zlen_app in Hz. pose proof (zlen_nonneg pad). pose proof Hw as [? ?]. unfold BLEN in Hz. pose proof (zlen_nonneg p).
  assert (wfb (set_wp (rp b + zlen p) b)) as Hw1 by (split; cbn; unfold lim in *; cbn; lia).
  assert (bdata (set_wp (rp b + zlen p) b) = p) as Hd1.
  { rewrite bdata_cut by (try done; unfold BLEN; lia). rewrite Hd, ztake_app_le by lia. by apply ztake_ge. }
  wp_steps. apply wp_store; [done | exact Hr2|]. wp_steps. set (b1 := stored _ _ _).
  assert (wfb b1) as Hw2 by (by apply wfb_stored).
  assert (bdata b1 = splice o_length (hnputs total) p) as Hd2.
  { rewrite <- Hd1. apply (bdata_stored_inside o_length (hnputs total) (set_wp (rp b + zlen p) b)); [done..|].
    change (zlen (hnputs total)) with 2. unfold BLEN, o_length, IP4HDR in *. cbn. lia. }
  destruct (pull_headers_spec bl 1 Hbl ltac:(lia)) as (P1 & P2 & P3 & P4).
  wp_steps. split; [done|]. split; [by constructor|]. split; [|split; [|done]].
  - rewrite cdata_cons, Hd2, P2. unfold whole.
    assert (ps = p :: drop 1 ps) as Eps by (rewrite <- (drop_S ps p 0 Hp); by rewrite drop_0).
    rewrite Eps at 2 3. cbn [head default fmap list_fmap concat]. unfold Datatypes.id. rewrite app_assoc. f_equal.
    unfold pdata. rewrite <- (ztake_zdrop IP4HDR p) at 1. apply splice_app_l; [done|].
    rewrite zlen_ztake. change (zlen (hnputs total)) with 2. unfold o_length, IP4HDR in *. lia.
  - apply (acct_same (b :: bl)); [by unfold ids in *; rewrite !fmap_cons, P3 | | done].
    rewrite !charges_cons, P4. unfold b1. rewrite charge_stored by done. done.
Qed.

(** ** One fragment *)

Definition dkey : Z * Z * Z := (sa, da, ia).
(** The queue of the datagram holds the fragments of places [js]. *)
Definition received (js : list nat) (s : Is) : Prop :=
  sorted js /\
  match js with
  | [] => forall f, f ∈ flisthead4 (ip s) -> key f <> dkey
  | _ => exists f, f ∈ flisthead4 (ip s) /\ key f = dkey /\ Forall2 entry (blist f) js
  end.
(** The block of fragment [i] as it comes from a medium. *)
Definition arrives (b : Block) (i : nat) : Prop := exists p pad,
  ps !! i = Some p /\ wfb b /\ IPFRAGSZ < rp b /\ bdata b = p ++ pad.

Lemma wp_set_queue size F bl f s : f ∈ flisthead4 (ip s) ->
  queues (ip s) ≡ₚ seq 0 size -> NoDup (key <$> flisthead4 (ip s)) -> NoDup (fid <$> flisthead4 (ip s)) ->
  (forall l1 l2, flisthead4 (ip s) = l1 ++ f :: l2 -> acct (bl ++ concat (blist <$> l1 ++ l2) ++ F) (mem s)) ->
  wp (set_queue f bl) s (fun _ s' => pool_ok size F s' /\ same_env s s' /\
    Ip4.set_blist bl f ∈ flisthead4 (ip s')).
Proof.
  intros Hf Hq Hk Hn HA. apply list_elem_of_split in Hf as (l1 & l2 & El). unfold set_queue. apply wp_upd_ip.
  cbn [ip flisthead4 fragfree4 set_lists mem].
  assert (((fun g => if decide (fid g = fid f) then Ip4.set_blist bl g else g) <$> flisthead4 (ip s)) =
    l1 ++ Ip4.set_blist bl f :: l2) as E.
  { rewrite El in Hn |- *. rewrite fmap_app, fmap_cons in Hn. rewrite fmap_app, fmap_cons. apply NoDup_app in Hn as (_ & Hx & Hn).
    apply NoDup_cons in Hn as [Hy _]. rewrite decide_True by done. f_equal; [|f_equal];
      apply fmap_same; intros g Hg; (rewrite decide_False; [done|]); intros E.
    - apply (Hx (fid g)); [apply list_elem_of_fmap; by exists g | rewrite E; left].
    - apply Hy. rewrite <- E. apply list_elem_of_fmap. by exists g. }
  split; [|split; [done | rewrite E; set_solver]].
  split; unfold queues, waiting; cbn [ip flisthead4 fragfree4 set_lists mem]; rewrite E.
  - unfold queues in Hq. rewrite El in Hq. rewrite fmap_app, fmap_cons in Hq. rewrite fmap_app, fmap_cons. done.
  - rewrite El in Hk. rewrite fmap_app, fmap_cons in Hk. rewrite fmap_app, fmap_cons. done.
  - rewrite waiting_app. cbn [blist set_blist]. rewrite <- app_assoc. by apply HA.
Qed.

Lemma wp_ipfragallo4 size F now bl s : (0 < size)%nat -> pool_ok size (bl ++ F) s ->
  (forall f, f ∈ flisthead4 (ip s) -> key f <> dkey) ->
  wp (ipfragallo4 now sa da ia bl) s (fun _ s' => pool_ok size F s' /\ same_env s s' /\
    exists f, f ∈ flisthead4 (ip s') /\ key f = dkey /\ blist f = bl).
Proof.
  intros Hsz Hp Hk. unfold ipfragallo4. wp_steps.
  eapply (wp_mono _ _ (fun _ s1 => pool_ok size (bl ++ F) s1 /\ same_env s s1 /\ fragfree4 (ip s1) <> [] /\
    forall f, f ∈ flisthead4 (ip s1) -> key f <> dkey)).
  { destruct (fragfree4 (ip s)) as [|f0 fr] eqn:Ef; [|by apply wp_ret; rewrite Ef].
    pose proof (queues_NoDup _ _ _ Hp) as Hn. destruct Hp as [Hq Hks HA].
    destruct (last (flisthead4 (ip s))) as [f|] eqn:El.
    2: { apply last_None in El. exfalso. apply Permutation_length in Hq. unfold queues in Hq.
         rewrite El, Ef in Hq. cbn in Hq. rewrite length_seq in Hq. lia. }
    apply last_Some in El as [l1 El].
    assert (ipfragfree4 f = ipfragfree4 (Ip4.set_blist (blist f) f)) as -> by (by destruct f).
    eapply wp_mono; [apply (wp_ipfragfree4 (blist f) f l1 [] (concat (blist <$> l1 ++ []) ++ bl ++ F) s El Hn)|].
    - unfold waiting in HA. rewrite El, waiting_app, <- app_assoc in HA. exact HA.
    - intros _ s1 (El1 & Hq1 & HA1 & Henv & f' & Ef'). rewrite app_nil_r in *. split_and!; [|done|by rewrite Ef'|].
      + split; [by rewrite Hq1 | | unfold waiting; by rewrite El1].
        rewrite El1. rewrite El, fmap_app in Hks. by apply NoDup_app in Hks as [? _].
      + intros g Hg. apply Hk. rewrite El. rewrite El1 in Hg. set_solver. }
  intros _ s1 (Hp1 & Henv & Hne & Hk1). wp_steps. destruct (fragfree4 (ip s1)) as [|f0 fr] eqn:Ef; [done|].
  apply wp_upd_ip. cbn [ip flisthead4 fragfree4 set_lists mem]. destruct Hp1 as [Hq Hks HA].
  split; [|split; [exact Henv|]].
  - split; unfold queues, waiting; cbn [ip flisthead4 fragfree4 set_lists mem fmap list_fmap fid blist concat].
    + rewrite <- Hq. unfold queues. rewrite Ef. cbn. solve_Permutation.
    + constructor; [|done]. intros Hin. apply list_elem_of_fmap in Hin as (g & Eg & Hg). by apply (Hk1 g Hg).
    + eapply acct_proper; [|reflexivity|exact HA]. unfold waiting. solve_Permutation.
  - eexists. split; [left|]. done.
Qed.

Lemma ins_app i js1 js2 : Forall (fun j => j < i)%nat js1 -> ins i (js1 ++ js2) = js1 ++ ins i js2.
Proof.
  induction 1 as [|j js Hj _ IH]; [done|]. cbn [app ins]. rewrite !decide_False by lia. by rewrite IH.
Qed.
Lemma sorted_app js1 js2 i : sorted js1 -> Forall (fun j => j < i)%nat js1 -> sorted (i :: js2) -> sorted (js1 ++ i :: js2).
Proof.
  intros H1 Hlt H2. induction H1 as [|j js Hs IH Hj]; [done|]. apply Forall_cons in Hlt as [Hji Hlt].
  cbn [app]. constructor; [by apply IH|]. apply Forall_app. split; [done|]. constructor; [done|].
  apply StronglySorted_inv in H2 as [_ H2]. eapply Forall_impl; [exact H2|]. cbn. lia.
Qed.
Lemma sorted_app_inv js1 js2 : sorted (js1 ++ js2) -> sorted js1 /\ sorted js2.
Proof.
  induction js1 as [|j js IH]; intros H; [by split; [constructor|]|]. cbn [app] in H.
  apply StronglySorted_inv in H as [H Hj]. apply Forall_app in Hj as [Hj _]. destruct (IH H). split; [by constructor | done].
Qed.

Lemma same_key size F s f g : pool_ok size F s -> f ∈ flisthead4 (ip s) -> g ∈ flisthead4 (ip s) -> key f = key g -> f = g.
Proof.
  intros [_ Hk _] Hf Hg E. apply list_elem_of_lookup in Hf as [m Hm]. apply list_elem_of_lookup in Hg as [n Hn].
  assert (m = n) as ->; [|congruence]. eapply (NoDup_lookup _ m n (key f) Hk); rewrite list_lookup_fmap, ?Hm, ?Hn; cbn; congruence.
Qed.
Lemma key_gone size F s f l1 l2 g : pool_ok size F s -> flisthead4 (ip s) = l1 ++ f :: l2 -> g ∈ l1 ++ l2 -> key g <> key f.
Proof.
  intros [_ Hk _] El Hg E. rewrite El, fmap_app, fmap_cons, <- Permutation_middle in Hk. apply NoDup_cons in Hk as [Hk _].
  apply Hk. rewrite <- E, <- fmap_app. apply list_elem_of_fmap. by exists g.
Qed.

(** The stores of [foff] and [flen] make an arrived block an entry. *)
Lemma arrives_entry b i p : arrives b i -> ps !! i = Some p ->
  let b1 := stored 0 (ushort_put (poff i)) b in
  let b2 := stored 2 (ushort_put (zlen p - IP4HDR)) b1 in
  entry b2 i /\ charge b2 = charge b /\ (4 <= lim b)%Z /\ lim b1 = lim b /\ field b1 o_length 2 = slice o_length 2 p.
Proof.
  intros (p' & pad & Hp' & Hw & Hr & Hd) Hp. rewrite Hp in Hp'. injection Hp' as <-. intros b1 b2.
  unfold IPFRAGSZ in Hr. destruct (dg_bytes DG i p Hp) as [_ Hsz]. pose proof Hw as [? ?].
  assert (i < length ps)%nat as Hi by (by eapply lookup_lt_Some).
  pose proof (poff_range i ltac:(lia)). pose proof (poff_range (S i) ltac:(lia)). pose proof (poff_S i p Hp).
  assert (lim b1 = lim b) as El by (apply lim_stored; rewrite ?zlen_ushort_put; lia).
  assert (wfb b1) as Hw1 by (apply wfb_stored; rewrite ?zlen_ushort_put; try done; lia).
  assert (bdata b1 = p ++ pad) as Hd1 by (rewrite <- Hd; apply bdata_stored_below; rewrite ?zlen_ushort_put; try done; lia).
  unfold IP4HDR in *. split; [|split_and!; try lia].
  - exists p. split; [done|]. split.
    + apply wfb_stored; rewrite ?zlen_ushort_put, ?El; try done; lia.
    + cbn. lia.
    + unfold b2. rewrite foff_flen_stored by lia. apply foff_stored; lia.
    + unfold b2. rewrite flen_stored; unfold IP4HDR; lia.
    + done.
    + exists pad. rewrite <- Hd1. apply bdata_stored_below; [done | lia |]. rewrite zlen_ushort_put. cbn. lia.
  - unfold b2. rewrite charge_stored by (rewrite ?zlen_ushort_put, ?El; lia). apply charge_stored; rewrite ?zlen_ushort_put; lia.
  - apply (field_packet b1 p pad o_length 2 Hw1 Hd1); unfold o_length; lia.
Qed.

Lemma not_whole_packet i p : ps !! i = Some p ->
  (byte (slice o_tos 1 p) 0 =? 0) && (Z.land (fragword p) (Z.lnot (Z.lor IP_MF IP_DF)) =? 0) = false.
Proof.
  intros Hp. rewrite (dg_tos DG i p Hp). destruct (bool_decide_reflect (S i = length ps)) as [E|N]; [|done].
  cbn [Z.eqb andb]. apply Z.eqb_neq, offset_nonzero.
  - apply nhgets_range, isbyte_slice. apply (dg_bytes DG i p Hp).
  - rewrite (dg_offset DG i p Hp). pose proof (dg_many DG). pose proof (poff_lt 0 i ltac:(lia)).
    change (poff 0) with 0 in *. lia.
Qed.

(** What one fragment does: the datagram, or one more place received. *)
Definition step_post (size : nat) (F : list Block) (i : nat) (js : list nat) (s : Is)
    (r : option (list Block)) (s' : Is) : Prop :=
  same_env s s' /\
  if bool_decide (ins i js = seq 0 (length ps)) then
    exists bl, r = Some bl /\ bl <> [] /\ Forall wfb bl /\ cdata bl = whole /\ pool_ok size (bl ++ F) s' /\ received [] s'
  else r = None /\ pool_ok size F s' /\ received (ins i js) s'.

(** The fragment [b], with its fields set, enters the queue [f]. *)
Lemma enter_queue size F b i f js s : entry b i -> f ∈ flisthead4 (ip s) -> key f = dkey ->
  pool_ok size (b :: F) s -> js <> [] -> sorted js -> Forall2 entry (blist f) js ->
  wp (let '(pre, post) := frag_pos (foff b) (blist f) in
      pre <- trim_prev pre b ;;
      match pre with
      | None => onmem (freeb b) ;; ret None
      | Some pre =>
        post <- uncover (foff b + flen b) post ;;
        let bl := pre ++ b :: post in
        c <- complete bl 0 ;;
        if c : bool then
          bl <- assemble bl ;; ipfragfree4 (Ip4.set_blist [] f) ;; count ReasmOKs ;; ret (Some bl)
        else set_queue f bl ;; ret None
      end) s (step_post size F i js s).
Proof.
  intros Hb Hf Hk Hp Hne Hs Hbl. pose proof (queues_NoDup _ _ _ Hp) as Hn. pose proof (entry_lt _ _ Hb) as Hi.
  destruct (frag_pos_spec b i (blist f) js Hb Hbl Hs) as (pre & post & js1 & js2 & -> & Ebl & -> & Hpre & Hpost & Hlt & Hge).
  apply sorted_app_inv in Hs as [Hs1 Hs2].
  wp_steps. eapply wp_mono; [by eapply trim_prev_spec|]. intros ? ? [-> ->].
  pose proof Hf as Hf'. apply list_elem_of_split in Hf' as (l1 & l2 & El).
  pose proof (po_acct _ _ _ Hp) as HA. unfold waiting in HA. rewrite El, waiting_app, Ebl in HA.
  set (O := concat (blist <$> l1 ++ l2)) in *.
  wp_steps. eapply wp_mono; [apply (uncover_spec b i post js2 (pre ++ b :: O ++ F) s Hb Hpost Hs2 Hge)|].
  { eapply acct_proper; [|reflexivity|exact HA]. solve_Permutation. }
  intros post' s1 (js2' & Hpost' & Eins & Hs' & HA1 & Eip & Eout).
  assert (Forall2 entry (pre ++ b :: post') (ins i (js1 ++ js2))) as Hall.
  { rewrite ins_app by done. rewrite <- Eins. apply Forall2_app; [done|]. by apply Forall2_cons. }
  assert (sorted (ins i (js1 ++ js2))) as Hsall.
  { rewrite ins_app by done. rewrite <- Eins. by apply sorted_app. }
  assert (acct ((pre ++ b :: post') ++ O ++ F) (mem s1)) as HA2.
  { eapply acct_proper; [|reflexivity|exact HA1]. solve_Permutation. }
  wp_steps. pose proof (dg_many DG) as Hmany.
  apply wp_bind. change (complete (pre ++ b :: post') 0) with (complete (pre ++ b :: post') (poff 0)).
  eapply wp_mono; [apply (complete_spec _ 0 _ s1 Hall Hsall); lia|]. intros c ? [-> ->]. rewrite Nat.sub_0_r.
  unfold step_post. destruct (bool_decide_reflect (ins i (js1 ++ js2) = seq 0 (length ps))) as [E|N].
  - rewrite E in Hall. wp_steps. eapply wp_mono; [by apply assemble_spec|].
    intros bl ? (-> & Hw & Hd & HA3 & Hne3). wp_steps.
    eapply wp_mono; [apply (wp_ipfragfree4 [] f l1 l2 (bl ++ O ++ F) s1)|]; [by rewrite Eip | by rewrite Eip | exact HA3|].
    intros _ s2 (El2 & Hq2 & HA4 & Henv & _). wp_steps. apply wp_ip_count. intros st. wp_steps.
    split; [by destruct Henv as (? & ? & ?); unfold same_env in *; cbn in *; rewrite <- Eout, <- Eip|].
    exists bl. split_and!; try done.
    + apply pool_count. split.
      * rewrite Hq2, Eip. apply (po_queues _ _ _ Hp).
      * rewrite El2. pose proof (po_keys _ _ _ Hp) as Hks. rewrite El, fmap_app, fmap_cons, <- Permutation_middle in Hks.
        apply NoDup_cons in Hks as [_ Hks]. by rewrite fmap_app.
      * unfold waiting. rewrite El2. eapply acct_proper; [|reflexivity|exact HA4]. unfold O. solve_Permutation.
    + split; [constructor|]. intros g Hg. cbn in Hg. rewrite El2 in Hg. rewrite <- Hk. by eapply key_gone.
  - wp_steps. eapply wp_mono; [apply (wp_set_queue size F (pre ++ b :: post') f s1)|].
    + by rewrite Eip.
    + rewrite Eip. apply (po_queues _ _ _ Hp).
    + rewrite Eip. apply (po_keys _ _ _ Hp).
    + by rewrite Eip.
    + intros k1 k2 Ek. rewrite Eip in Ek. assert (concat (blist <$> k1 ++ k2) ≡ₚ O) as ->; [|done].
      apply (Permutation_app_inv_l (blist f)). unfold O. rewrite <- (waiting_app k1), <- (waiting_app l1). by rewrite <- El, <- Ek.
    + intros _ s2 (Hp2 & Henv & Hf2). wp_steps.
      split; [by destruct Henv as (? & ? & ?); unfold same_env; rewrite <- Eout, <- Eip|].
      split; [done|]. split; [done|]. split; [done|]. destruct (ins i (js1 ++ js2)) eqn:Ei.
      { by apply Forall2_nil_inv_r in Hall; destruct pre. }
      exists (Ip4.set_blist (pre ++ b :: post') f). by split_and!.
Qed.

Lemma survivors_sub now l : survivors now sa da ia l ⊆ l.
Proof.
  induction l as [|g l IH]; [done|]. cbn. destruct (is_queue _ _ _ _); [done|].
  destruct (age g <? now); intros x; rewrite ?elem_of_cons; specialize (IH x); tauto.
Qed.

(** The first fragment makes the queue. *)
Lemma new_queue size F now b i s : (0 < size)%nat -> entry b i -> pool_ok size (b :: F) s -> received [] s ->
  wp (ipfragallo4 now sa da ia [b] ;; count ReasmReqds ;; ret None) s (step_post size F i [] s).
Proof.
  intros Hsz Hb Hp [_ Hk]. wp_steps. eapply wp_mono; [by apply (wp_ipfragallo4 size F now [b] s Hsz)|].
  intros _ s2 (Hp3 & Henv2 & f & Hf & Hkf & Hbf). wp_steps. apply wp_ip_count. intros st. wp_steps.
  split; [exact Henv2|]. cbn [ins]. pose proof (dg_many DG).
  rewrite bool_decide_eq_false_2 by (destruct (length ps) as [|[|?]]; [lia..|done]).
  split; [done|]. split; [by apply pool_count|]. split; [repeat constructor|]. exists f. rewrite Hbf. split_and!; try done.
  by repeat constructor.
Qed.

Lemma reassemble_step size F now b i p js s : (0 < size)%nat -> pool_ok size (b :: F) s -> received js s ->
  arrives b i -> ps !! i = Some p ->
  wp (ip4reassemble now (fragword p) [b]) s (step_post size F i js s).
Proof.
  intros Hsz Hp [Hs Hjs] Harr Hpi. pose proof Harr as (p' & pad & Hp' & Hw & Hr & Hd).
  rewrite Hpi in Hp'. injection Hp' as <-. destruct (dg_bytes DG i p Hpi) as [_ Hsize]. unfold IPFRAGSZ in Hr.
  destruct (dg_key DG i p Hpi) as (Ks & Kd & Ki). pose proof Hw as [? ?].
  pose proof (fun o n => wp_hget_packet b p pad o n Hw Hd Hsize) as Hget.
  unfold ip4reassemble. wp_steps. do 3 (apply Hget; [done..|]; wp_steps). rewrite Ks, Kd, Ki.
  eapply wp_mono; [apply (wp_find_queue size (b :: F) now sa da ia (flisthead4 (ip s)) [] s Hp eq_refl)|].
  intros r s1 (Hp1 & Henv1 & El1 & Hr1). cbn [app] in El1.
  wp_steps. unfold hgetb. wp_steps. apply Hget; [done..|]. wp_steps. rewrite (not_whole_packet i p Hpi).
  destruct (Z.geb_spec 4 (rp b)) as [L|L]; unfold IPFRAGSZ; [lia|]. destruct (Z.geb_spec 4 (rp b)); [lia|].
  destruct (arrives_entry b i p Harr Hpi) as (He & Hch & Hl4 & El & Hlen).
  rewrite (dg_offset DG i p Hpi). wp_steps. apply wp_store; [done | rewrite zlen_ushort_put; lia|]. wp_steps.
  apply wp_hget; [cbn; unfold o_length; lia | done | |].
  { rewrite El. destruct (field_packet b p pad o_length 2 Hw Hd) as [_ ?]; unfold o_length, IP4HDR in *; [lia..|]. cbn. lia. }
  rewrite Hlen, (dg_length DG i p Hpi). assert (u16 (zlen p - IP4HDR) = zlen p - IP4HDR) as ->.
  { pose proof (poff_S i p Hpi). assert (i < length ps)%nat by (by eapply lookup_lt_Some).
    pose proof (poff_range i ltac:(lia)). pose proof (poff_range (S i) ltac:(lia)). unfold IP4HDR in *.
    apply u16_small. lia. }
  wp_steps. apply wp_store; [done | rewrite zlen_ushort_put, El; lia|]. set (b2 := stored 2 _ _) in *.
  assert (pool_ok size (b2 :: F) s1) as Hp2.
  { destruct Hp1 as [? ? HA]. split; [done..|]. rewrite (Permutation_app_comm _ (b2 :: F)).
    rewrite (Permutation_app_comm _ (b :: F)) in HA. cbn [app] in *. eapply acct_same_ids; [| |exact HA]; done. }
  assert (forall r s', step_post size F i js s1 r s' -> step_post size F i js s r s') as Htr.
  { intros r' s' [Q1 Q2]. split; [by etransitivity | done]. }
  destruct r as [f|].
  - destruct Hr1 as (Hf & Hk & Hsv). rewrite <- El1 in Hsv.
    assert (js <> [] /\ Forall2 entry (blist f) js) as [Hne Hbl].
    { destruct js as [|j js]; [by apply Hjs in Hf|]. split; [done|]. destruct Hjs as (g & Hg & Hkg & Hbg).
      assert (f = g) as ->; [|done]. eapply same_key; [exact Hp | done | done |]. by rewrite Hkg. }
    eapply wp_mono; [by apply (enter_queue size F b2 i f js s1)|]. by intros; apply Htr.
  - assert (forall f, f ∈ flisthead4 (ip s1) -> key f <> dkey) as Hno.
    { intros f Hf. apply Hr1. rewrite El1 in Hf. by apply survivors_sub in Hf. }
    assert (js = []) as ->.
    { destruct js as [|j js]; [done|]. destruct Hjs as (g & Hg & Hkg & _). by destruct (Hr1 g Hg). }
    eapply wp_mono; [by apply (new_queue size F now b2 i s1)|]. by intros; apply Htr.
Qed.
(** ** Every fragment *)

(** [h->tos] is overwritten with the MF bit before [ip4reassemble]. *)
Definition mark (q : list Z) : list Z :=
  splice o_tos [if Z.land (nhgets (slice o_frag 2 q)) IP_MF =? 0 then 0 else 1] q.
(** Fragment [i] as it comes from a medium, before that. *)
Definition comes (b : Block) (i : nat) : Prop := exists q pad,
  ps !! i = Some (mark q) /\ IP4HDR < zlen q /\ wfb b /\ IPFRAGSZ < rp b /\ bdata b = q ++ pad.

Lemma fragword_mark q : IP4HDR < zlen q -> fragword (mark q) = nhgets (slice o_frag 2 q).
Proof.
  intros H. unfold fragword, mark. f_equal.
  unfold IP4HDR in H. generalize (if Z.land (nhgets (slice o_frag 2 q)) IP_MF =? 0 then 0 else 1). intros v.
  assert (zlen [v] = 1) by done.
  apply slice_splice_after; unfold o_frag, o_tos; lia.
Qed.
Lemma fragword_nonzero i p : ps !! i = Some p -> fragword p <> 0.
Proof.
  intros Hp E. destruct (dg_bytes DG i p Hp) as [Hb Hsz]. pose proof (dg_offset DG i p Hp) as Ho.
  rewrite E in Ho. change (u16 (Z.shiftl 0 3)) with (poff 0) in Ho.
  pose proof (dg_many DG). assert (i < length ps)%nat by (by eapply lookup_lt_Some).
  apply poff_inj in Ho as <-; [|lia..].
  pose proof (dg_more DG 0 p Hp) as Hm. rewrite bool_decide_eq_false_2 in Hm by lia. apply Z.eqb_neq in Hm. apply Hm.
  unfold fragword in E. rewrite nhgets_sum in E by (by apply isbyte_slice).
  pose proof (isbyte_nth _ 0 (isbyte_slice o_frag 2 p Hb)) as B0. pose proof (isbyte_nth _ 1 (isbyte_slice o_frag 2 p Hb)) as B1.
  unfold isbyte in *. assert (byte (slice o_frag 1 p) 0 = byte (slice o_frag 2 p) 0) as ->.
  { unfold byte, slice, ztake. by destruct (zdrop o_frag p). }
  unfold byte in *. assert (nth 0 (slice o_frag 2 p) 0 = 0) as -> by lia. done.
Qed.

Lemma maybe_reassemble_step size F now b i js s : (0 < size)%nat -> pool_ok size (b :: F) s -> received js s ->
  comes b i -> wp (maybe_reassemble now [b] b) s (step_post size F i js s).
Proof.
  intros Hsz Hp Hr (q & pad & Hq & Hlq & Hw & Hrp & Hd). unfold maybe_reassemble. wp_steps.
  apply (wp_hget_packet b q pad); [done..|]. wp_steps. rewrite <- fragword_mark by done.
  destruct (Z.eqb_spec (fragword (mark q)) 0) as [E|_]; [by apply fragword_nonzero in Hq|].
  pose proof Hw as [? ?]. pose proof (zlen_bdata b Hw) as Hz. rewrite Hd, zlen_app in Hz. pose proof (zlen_nonneg pad).
  unfold BLEN, IPFRAGSZ, IP4HDR in *. wp_steps. unfold hput.
  match goal with |- context [bwrite _ _ ?d] => set (mk := d) end. assert (zlen mk = 1) as Hmk by done.
  assert (0 <= rp b + o_tos /\ rp b + o_tos + zlen mk <= lim b) as [Q1 Q2] by (unfold o_tos; lia).
  apply wp_store; [done..|]. cbn [tail]. apply (reassemble_step size F now _ i (mark q) js s Hsz); [|done| |done].
  - destruct Hp as [? ? HA]. split; [done..|]. rewrite (Permutation_app_comm _ (_ :: F)).
    rewrite (Permutation_app_comm _ (b :: F)) in HA. cbn [app] in *. by apply acct_stored.
  - exists (mark q), pad. split; [done|]. split; [by apply wfb_stored|]. split; [done|].
    rewrite bdata_stored_inside by (try done; unfold o_tos, BLEN; lia). rewrite Hd.
    rewrite splice_app_l by (unfold o_tos; lia). unfold mark, mk. by rewrite fragword_mark.
Qed.

(** What comes from the media, at the times given. *)
Fixpoint receive (l : list (Z * Block)) : M Is (list (option (list Block))) :=
  match l with
  | [] => ret []
  | (now, b) :: l => r <- maybe_reassemble now [b] b ;; rs <- receive l ;; ret (r :: rs)
  end.

Lemma elem_of_ins j i js : j ∈ ins i js <-> j = i \/ j ∈ js.
Proof.
  induction js as [|k js IH]; cbn [ins]; [by rewrite elem_of_cons|].
  destruct (decide (i < k)%nat); [by rewrite elem_of_cons|].
  destruct (decide (i = k)) as [->|]; rewrite !elem_of_cons; tauto.
Qed.
Lemma sorted_ins i js : sorted js -> sorted (ins i js).
Proof.
  induction 1 as [|k js Hs IH Hk]; cbn [ins]; [repeat constructor|].
  destruct (decide (i < k)%nat) as [L|L]; [|destruct (decide (i = k)) as [->|]; [by constructor|]].
  - constructor; [by constructor|]. constructor; [done|]. eapply Forall_impl; [exact Hk|]. cbn. lia.
  - constructor; [done|]. apply Forall_forall. intros j [->|Hj]%elem_of_ins; [lia|].
    by eapply (proj1 (Forall_forall _ _) Hk).
Qed.
Lemma sorted_NoDup js : sorted js -> NoDup js.
Proof.
  induction 1 as [|j js _ IH Hj]; constructor; [|done]. intros Hin. apply (proj1 (Forall_forall _ _) Hj) in Hin. lia.
Qed.
Lemma sorted_seq n : forall m, sorted (seq m n).
Proof.
  induction n as [|n IH]; intros m; constructor; [apply IH|]. apply Forall_forall. intros j Hj%elem_of_seq. lia.
Qed.
Lemma sorted_all n js : sorted js -> (forall j, j ∈ js <-> (j < n)%nat) -> js = seq 0 n.
Proof.
  intros Hs Hj. apply (StronglySorted_unique_strong lt); [intros; lia | done | apply sorted_seq |].
  apply NoDup_Permutation; [by apply sorted_NoDup | apply NoDup_seq |]. intros j. rewrite Hj, elem_of_seq. lia.
Qed.

(** Until all have come, the places received are noted. *)
Lemma receive_some size F l : forall js0 js s, (0 < size)%nat -> pool_ok size ((snd <$> l) ++ F) s -> received js0 s ->
  Forall2 comes (snd <$> l) js -> (exists i, (i < length ps)%nat /\ (i ∉ js0) /\ (i ∉ js)) ->
  wp (receive l) s (fun rs s' => rs = replicate (length l) None /\ same_env s s' /\ pool_ok size F s' /\
    exists js', received js' s' /\ forall j, j ∈ js' <-> j ∈ js0 \/ j ∈ js).
Proof.
  induction l as [|[now b] l IH]; intros js0 js s Hsz Hp Hr Hl (i & Hi & N1 & N2); cbn [receive].
  - apply Forall2_nil_inv_l in Hl as ->. apply wp_ret. split_and!; try done. exists js0. split; [done|].
    intros j. rewrite elem_of_nil. tauto.
  - cbn in Hl. apply Forall2_cons_inv_l in Hl as (j & js1 & Hb & Hl & ->). wp_steps.
    eapply wp_mono; [by apply (maybe_reassemble_step size ((snd <$> l) ++ F) now b j js0 s)|].
    intros r s1 [Henv1 H1]. rewrite bool_decide_eq_false_2 in H1.
    2: { intros E. assert (i ∈ ins j js0) as Hin by (rewrite E; apply elem_of_seq; lia).
         apply elem_of_ins in Hin as [->|Hin]; [|done]. apply N2. left. }
    destruct H1 as (-> & Hp1 & Hr1). wp_steps.
    eapply wp_mono; [apply (IH (ins j js0) js1 s1 Hsz Hp1 Hr1 Hl)|].
    { exists i. rewrite elem_of_ins. rewrite elem_of_cons in N2. tauto. }
    intros rs s2 (-> & Henv2 & Hp2 & js' & Hr2 & Hj'). wp_steps. split; [done|]. split; [by etransitivity|].
    split; [done|]. exists js'. split; [done|]. intros k. rewrite Hj', elem_of_ins, elem_of_cons. tauto.
Qed.
Lemma receive_app l1 l2 s (Q : list (option (list Block)) -> Is -> Prop) :
  wp (receive l1) s (fun r1 s1 => wp (receive l2) s1 (fun r2 s2 => Q (r1 ++ r2) s2)) -> wp (receive (l1 ++ l2)) s Q.
Proof.
  revert s Q. induction l1 as [|[now b] l1 IH]; intros s Q H; cbn [receive app] in *; [exact H|].
  apply wp_bind. apply wp_bind_inv in H. eapply wp_mono; [exact H|]. intros r s1 H1. apply wp_bind_inv in H1.
  wp_steps. apply IH. eapply wp_mono; [exact H1|]. intros rs s2 H2. eapply wp_mono; [exact H2|]. intros rs' s3 H3.
  by wp_steps.
Qed.

(** The last fragment to come gives the datagram. *)
Lemma receive_all size F l now b i js s : (0 < size)%nat -> pool_ok size ((snd <$> l) ++ b :: F) s -> received [] s ->
  Forall2 comes (snd <$> l) js -> comes b i -> i ∉ js -> (forall j, (j < length ps)%nat -> j = i \/ j ∈ js) ->
  wp (receive (l ++ [(now, b)])) s (fun rs s' => exists bl, rs = replicate (length l) None ++ [Some bl] /\
    Forall wfb bl /\ cdata bl = whole /\ pool_ok size (bl ++ F) s' /\ received [] s').
Proof.
  intros Hsz Hp Hr Hl Hb Hi Hall. pose proof Hb as (q & _ & Hq & _).
  assert (i < length ps)%nat as Hil by (by eapply lookup_lt_Some).
  apply receive_app. eapply wp_mono; [apply (receive_some size (b :: F) l [] js s Hsz Hp Hr Hl); exists i; rewrite elem_of_nil; tauto|].
  intros rs s1 (-> & _ & Hp1 & js' & Hr1 & Hj'). cbn [receive]. wp_steps.
  eapply wp_mono; [by apply (maybe_reassemble_step size F now b i js' s1)|]. intros r s2 [_ H2].
  rewrite bool_decide_eq_true_2 in H2.
  - destruct H2 as (bl & -> & _ & Hw & Hd & Hp2 & Hr2). wp_steps. by exists bl.
  - apply sorted_all; [apply sorted_ins, Hr1|]. intros j. rewrite elem_of_ins, Hj'. split; [|intros H; destruct (Hall j H); auto].
    intros [->|[Hj|Hj]]; [done | by apply elem_of_nil in Hj|]. apply list_elem_of_lookup in Hj as [n Hn].
    destruct (Forall2_lookup_r _ _ _ _ _ Hl Hn) as (b' & _ & q' & _ & Hq' & _). by eapply lookup_lt_Some.
Qed.
End Datagram.

(** C13: whatever the order and the repetitions in which the fragments of a
    datagram come, with or without padding, the one that completes the set
    gives the datagram (the first fragment's header with the total length, and
    the data of all of them in order) and the others give nothing; the
    queue and the blocks that are not part of the datagram are freed. *)
Theorem ip4reassemble_any_order `{MA : Malloc, MO : !MallocOk MA} ps sa da ia size F l now b i js s :
  datagram ps sa da ia -> (0 < size)%nat -> pool_ok size ((snd <$> l) ++ b :: F) s ->
  (forall f, f ∈ flisthead4 (ip s) -> key f <> (sa, da, ia)) ->
  Forall2 (comes ps) (snd <$> l) js -> comes ps b i -> (i ∉ js) ->
  (forall j, (j < length ps)%nat -> j = i \/ j ∈ js) ->
  wp (receive (l ++ [(now, b)])) s (fun rs s' => exists bl, rs = replicate (length l) None ++ [Some bl] /\
    cdata bl = splice o_length (hnputs (IP4HDR + zlen (concat (pdata <$> ps)))) (ztake IP4HDR (default [] (head ps))) ++
               concat (pdata <$> ps) /\
    Forall wfb bl /\ pool_ok size (bl ++ F) s' /\
    (forall f, f ∈ flisthead4 (ip s') -> key f <> (sa, da, ia))).
Proof.
  intros DG Hsz Hp Hno Hl Hb Hi Hall.
  eapply wp_mono; [apply (receive_all ps sa da ia DG size F l now b i js s); try done; by split; [constructor|]|].
  intros rs s' (bl & -> & Hw & Hd & Hp' & _ & Hno'). exists bl. split_and!; try done.
  rewrite Hd. unfold whole, total, poff. by rewrite firstn_all.
Qed.

(** Packets of one datagram: [n] bytes from [from] on. *)
Definition overlap_packet (len mf off from : Z) (n : nat) : list Z :=
  [69; 0; 0; len; 0; 7; mf; off; 64; 17; 0; 0; 10; 0; 0; 1; 10; 0; 0; 2] ++ ((fun i => from + Z.of_nat i) <$> seq 0 n).
Definition empty_pool (blocks : nat) : Is :=
  mkIs (initfrag 2 (mkIP (fun _ => 0) [] [] 0 false)) (with_id blocks bst0) [].

(** Reassembly takes lengths from the headers of the fragments.  When bytes 0
    to 15 and then bytes 8 to 19 of a datagram of 20 bytes come, the first block
    is trimmed to its first 8 bytes, but assembly takes its length from its
    header: bytes 8 to 15 are in the datagram twice and its length is 48, not
    40.  And a length is not checked against its block: when the last of two
    fragments says 1000 bytes and is 23 long, the datagram has a block whose
    [wp] is past the end of its storage. *)
Theorem reassembly_trusts_lengths :
  wp (receive (MA := demo_malloc)
      [(0, demo_block 0 (overlap_packet 36 32 0 0 16)); (1, demo_block 1 (overlap_packet 32 0 1 8 12))])
    (empty_pool 2) (fun rs _ =>
      option_map (fun bl => (nhgets (slice o_length 2 (cdata bl)), zdrop IP4HDR (cdata bl))) <$> rs =
      [None; Some (48, map Z.of_nat (seq 0 16 ++ seq 8 12))]) /\
  wp (receive (MA := demo_malloc)
      [(0, demo_block 0 (overlap_packet 28 32 0 0 8));
       (1, demo_block 1 ([69; 0; 3; 232; 0; 7; 0; 1; 64; 17; 0; 0; 10; 0; 0; 1; 10; 0; 0; 2; 8; 9; 10]))])
    (empty_pool 2) (fun rs _ => map (option_map (map (fun b => lim b <? wpt b))) rs = [None; Some [false; true]]).
Proof. split; vm_compute; reflexivity. Qed.

(** ** Witnesses *)

(** Two fragments of a datagram of 11 bytes of data: 8 and 3. *)
Definition demo_packet (len mf off : Z) (d : list Z) : list Z :=
  [69; 0; 0; len; 0; 7; mf; off; 64; 17; 0; 0; 10; 0; 0; 1; 10; 0; 0; 2] ++ d.
Definition demo_q0 : list Z := demo_packet 28 32 0 [1; 2; 3; 4; 5; 6; 7; 8].
Definition demo_q1 : list Z := demo_packet 23 0 1 [9; 10; 11].
Definition demo_ps : list (list Z) := [mark demo_q0; mark demo_q1].
Lemma demo_datagram : datagram demo_ps 167772161 167772162 7.
Proof.
  split; [done | | vm_compute; done|..]; intros [|[|i]] p Hp; try done; injection Hp as <-; try by vm_compute.
  all: split; [|done]; repeat constructor; done.
Qed.
Lemma demo_comes i k : k = 0%nat \/ k = 1%nat -> comes demo_ps (demo_block i (nth k [demo_q0; demo_q1] [] ++ [0; 0])) k.
Proof.
  intros [-> | ->]; (eexists _, [0; 0]; split; [reflexivity|]); (split; [reflexivity|]); (split; [split; vm_compute; intuition discriminate|]);
    split; reflexivity.
Qed.

(** The second fragment comes twice, then the first. *)
Lemma ip4reassemble_any_order_witness :
  wp (receive [(0, demo_block 0 (demo_q1 ++ [0; 0])); (1, demo_block 1 (demo_q1 ++ [0; 0])); (2, demo_block 2 (demo_q0 ++ [0; 0]))])
    (empty_pool 3) (fun rs _ => exists bl, rs = [None; None; Some bl] /\ zdrop IP4HDR (cdata bl) = [1; 2; 3; 4; 5; 6; 7; 8; 9; 10; 11]).
Proof.
  eapply wp_mono; [apply (ip4reassemble_any_order demo_ps 167772161 167772162 7 2 []
    [(0, demo_block 0 (demo_q1 ++ [0; 0])); (1, demo_block 1 (demo_q1 ++ [0; 0]))] 2 (demo_block 2 (demo_q0 ++ [0; 0])) 0 [1; 1]%nat (empty_pool 3))|].
  - exact demo_datagram.
  - lia.
  - split; [reflexivity | constructor | split; reflexivity].
  - intros f Hf. by apply elem_of_nil in Hf.
  - repeat constructor; apply (demo_comes _ 1); auto.
  - apply (demo_comes _ 0). auto.
  - intros H. by repeat (apply elem_of_cons in H as [?|H]; [done|]); apply elem_of_nil in H.
  - intros [|[|j]]; cbn; [auto | right; left | lia].
  - intros rs s' (bl & -> & E & _). exists bl. split; [reflexivity|]. rewrite E. reflexivity.
Defined.
