(* ===== verification/Ip4frag.v ===== *)
(** * Fragmentation of IP packets: the proofs about [Ip4]'s [ipoput4]

    The header checksum, what [ipoput4] hands to the medium, fragments included,
    and that the fragments of a packet are a [datagram] of [Ip4reass]: whatever
    the order they arrive in, the receiver gets the packet's data back. *)

From stdpp Require Import base list gmap strings.
From Stdlib Require Import ZArith Lia.
From S2P Require Import Prelude Block Ipaux Iproute Ip4 Ip4reass.
Open Scope Z_scope.
Open Scope nix_scope.

(** ** The header checksum *)

Lemma ipcsum_loop_spec h : forall sum, Forall isbyte h -> Nat.even (length h) = true -> 0 <= sum ->
  sum + 65280 * zlen h < 2 ^ 32 -> ipcsum_loop h sum = sum + wordsum true h.
Proof.
  assert (forall n h sum, (length h <= n)%nat -> Forall isbyte h -> Nat.even (length h) = true -> 0 <= sum ->
    sum + 65280 * zlen h < 2 ^ 32 -> ipcsum_loop h sum = sum + wordsum true h) as H; [|by intros; eapply H].
  clear h. induction n as [|n IH]; intros [|a [|b h]] sum Hn Hb He Hs Hl; cbn [length] in *; try lia; try done.
  1,2: cbn; lia.
  apply Forall_cons in Hb as [Ha Hb]. apply Forall_cons in Hb as [Hb Hh]. cbn [ipcsum_loop wordsum negb].
  unfold isbyte in *. rewrite !zlen_cons in Hl. pose proof (zlen_nonneg h).
  assert (Z.lor (Z.shiftl a 8) b = 256 * a + b) as ->.
  { rewrite (lor_add (Z.shiftl a 8) b 8); rewrite ?Z.shiftl_mul_pow2 by lia; try lia. by rewrite Z.mod_mul. }
  unfold u32. rewrite Z.mod_small by lia. rewrite IH; try done; lia.
Qed.

Lemma lxor_65535 x : 0 <= x < 65536 -> Z.lxor x 65535 = 65535 - x.
Proof.
  intros Hx. rewrite <- (land_lnot x Hx). apply Z.bits_inj. intros n.
  destruct (Z_lt_le_dec n 0) as [L|L]; [by rewrite !Z.testbit_neg_r|].
  rewrite Z.lxor_spec, Z.land_spec, Z.lnot_spec by lia.
  change 65535 with (Z.ones 16). rewrite Z.testbit_ones_nonneg by lia.
  destruct (Z.ltb_spec n 16) as [L'|L']; [by destruct (Z.testbit x n)|]. rewrite andb_false_r, xorb_false_r.
  rewrite <- (Z.mod_small x (2 ^ 16)) by lia. apply Z.mod_pow2_bits_high. lia.
Qed.

Lemma land_65535 x : Z.land x 65535 = x mod 2 ^ 16.
Proof. change 65535 with (Z.ones 16). by apply Z.land_ones. Qed.
Lemma ipcsum_canon h : Forall isbyte h -> zlen h = 4 * (byte h 0 mod 16) ->
  ipcsum h = 65535 - canon (wordsum true h).
Proof.
  intros Hh Hl. unfold ipcsum. change 15 with (Z.ones 4). rewrite Z.land_ones, Z.shiftl_mul_pow2 by lia.
  rewrite ztake_ge by (change (2 ^ 2) with 4; change (2 ^ 4) with 16; lia).
  assert (0 <= zlen h <= 60) as Hr by (Z.div_mod_to_equations; lia).
  pose proof (wordsum_nonneg true h Hh) as Hw. pose proof (wordsum_bound true h Hh) as Hw'.
  rewrite (ipcsum_loop_spec h 0 Hh); [| |lia|lia].
  2: { apply Nat.even_spec. exists (Z.to_nat (2 * (byte h 0 mod 16))). unfold zlen in Hl. lia. }
  rewrite Z.add_0_l. set (s := wordsum true h) in *. clearbody s.
  rewrite !land_65535, !Z.shiftr_div_pow2 by lia. unfold u32, u16, canon.
  set (s1 := (s mod 2 ^ 16 + s / 2 ^ 16) mod 2 ^ 32). set (s2 := (s1 mod 2 ^ 16 + s1 / 2 ^ 16) mod 2 ^ 32).
  assert (0 <= s2 < 65536 /\ (if s =? 0 then s2 = 0 else s2 = (s - 1) mod 65535 + 1)) as [B E].
  { subst s1 s2. destruct (Z.eqb_spec s 0); Z.div_mod_to_equations; lia. }
  rewrite lxor_65535 by done. rewrite Z.mod_small by lia. destruct (s =? 0); lia.
Qed.

(** The header with its checksum, as [put_cksum] leaves it. *)
Definition sealed (h : list Z) : list Z :=
  let h0 := splice o_cksum [0; 0] h in splice o_cksum (hnputs (ipcsum h0)) h0.
(** A header: bytes, as many as its length field says. *)
Definition header (h : list Z) : Prop := Forall isbyte h /\ zlen h = 4 * (byte h 0 mod 16) /\ IP4HDR <= zlen h.

Lemma Forall_splice {A} (P : A -> Prop) o d l : Forall P d -> Forall P l -> Forall P (splice o d l).
Proof.
  intros Hd Hl. unfold splice, ztake, zdrop. apply Forall_app. split; [by apply Forall_take|].
  apply Forall_app. split; [done | by apply Forall_drop].
Qed.
Lemma byte_splice_after o d (l : list Z) : 0 < o -> o + zlen d <= zlen l -> byte (splice o d l) 0 = byte l 0.
Proof.
  intros Ho Hl. pose proof (zlen_nonneg d). unfold byte, splice, ztake.
  destruct l as [|x l]; [rewrite zlen_nil in Hl; lia|]. by replace (Z.to_nat o) with (S (Z.to_nat (o - 1))) by lia.
Qed.
Lemma isbyte_hnputs v : Forall isbyte (hnputs v).
Proof. unfold hnputs. repeat constructor; apply isbyte_u8. Qed.
Lemma header_splice h o d : header h -> 0 < o -> o + zlen d <= IP4HDR -> Forall isbyte d -> header (splice o d h).
Proof.
  intros (Hb & Hl & Hz) Ho Hd Hbd. split; [by apply Forall_splice|]. rewrite zlen_splice, byte_splice_after by lia. done.
Qed.
Lemma splice_splice {A} o (d e l : list A) : 0 <= o -> zlen d = zlen e -> o + zlen d <= zlen l ->
  splice o e (splice o d l) = splice o e l.
Proof.
  intros Ho E Hl. pose proof (zlen_nonneg d). unfold splice.
  assert (zlen (ztake o l) = o) as Et by (rewrite zlen_ztake; lia).
  rewrite ztake_app_ge, Et, Z.sub_diag, (ztake_le 0) by lia. rewrite app_nil_r. f_equal. f_equal.
  rewrite zdrop_app_ge by lia. rewrite Et, zdrop_app_ge by lia. rewrite zdrop_le by lia. f_equal. lia.
Qed.

Lemma header_sealed h : header h -> header (sealed h).
Proof.
  intros Hh. unfold sealed. repeat apply header_splice; try done; try apply isbyte_hnputs. repeat constructor; done.
Qed.
(** A header that was sealed verifies. *)
Lemma ipcsum_sealed h : header h -> ipcsum (sealed h) = 0.
Proof.
  intros Hh. pose proof (header_sealed h Hh) as (Hb & Hl & _). rewrite ipcsum_canon by done.
  assert (header (splice o_cksum [0; 0] h)) as (Hb0 & Hl0 & _).
  { apply header_splice; try done. repeat constructor; done. }
  unfold sealed in *. set (h0 := splice o_cksum [0; 0] h) in *. rewrite (ipcsum_canon h0) in * by done.
  destruct Hh as (Hbh & _ & Hz). unfold IP4HDR in Hz.
  set (pre := ztake o_cksum h). set (post := zdrop (o_cksum + 2) h).
  assert (h0 = pre ++ hnputs 0 ++ post) as E0 by done.
  assert (zlen pre = o_cksum) as Ep by (unfold pre; rewrite zlen_ztake; unfold o_cksum; lia).
  assert (forall w, splice o_cksum (hnputs w) h0 = pre ++ hnputs w ++ post) as Es.
  { intros w. unfold h0. rewrite splice_splice; try done. change (zlen [0; 0]) with 2. unfold o_cksum. lia. }
  assert (Nat.even (length pre) = true) as He.
  { unfold zlen in Ep. by replace (length pre) with 10%nat by (unfold o_cksum in Ep; lia). }
  assert (Forall isbyte (pre ++ post)) as Hpp.
  { apply Forall_app. split; [by apply Forall_take | by apply Forall_drop]. }
  rewrite Es. rewrite E0, (wordsum_field pre 0 post He) in * by lia. rewrite Z.add_0_r.
  pose proof (wordsum_nonneg true _ Hpp) as Hs. pose proof (canon_range _ Hs).
  rewrite (wordsum_field pre _ post He) by lia.
  set (s := wordsum true (pre ++ post)) in *. clearbody s. unfold canon in *.
  destruct (Z.eqb_spec s 0) as [->|]; [done|]. destruct (Z.eqb_spec (s + (65535 - ((s - 1) mod 65535 + 1))) 0); Z.div_mod_to_equations; lia.
Qed.

(** ** Stores to the packet in a block *)

(** [b'] is [b] with other bytes. *)
Definition rewritten (b b' : Block) : Prop :=
  wfb b' /\ bid b' = bid b /\ charge b' = charge b /\ lim b' = lim b /\ rp b' = rp b /\ wpt b' = wpt b.
#[export] Instance rewritten_trans : Transitive rewritten.
Proof. unfold rewritten. intros x y z. intuition congruence. Qed.

Lemma wp_hput b o d s : wfb b -> 0 <= o -> o + zlen d <= BLEN b ->
  wp (hput b o d) s (fun b' s' => s' = s /\ rewritten b b' /\ bdata b' = splice o d (bdata b)).
Proof.
  intros Hw Ho Hl. pose proof Hw as [? ?]. unfold BLEN in Hl. apply wp_store; [lia..|]. split; [done|].
  split; [|by apply bdata_stored_inside; unfold BLEN]. unfold rewritten.
  rewrite lim_stored, charge_stored by lia. split_and!; try done. apply wfb_stored; [lia..|done].
Qed.
Lemma wp_hget_data b o n s : wfb b -> 0 <= o -> 0 <= n -> o + n <= BLEN b ->
  wp (hget b o n) s (fun d s' => d = slice o n (bdata b) /\ s' = s).
Proof.
  intros Hw Ho Hn Hl. pose proof Hw as [? ?]. apply wp_hget; [unfold BLEN in *; lia..|].
  split; [|done]. apply field_bdata; lia.
Qed.
Lemma wp_hgetb_data b o s : wfb b -> 0 <= o -> o < BLEN b ->
  wp (hgetb b o) s (fun v s' => v = byte (slice o 1 (bdata b)) 0 /\ s' = s).
Proof.
  intros Hw Ho Hl. unfold hgetb. wp_steps. eapply wp_mono; [apply wp_hget_data; [done..|lia]|].
  intros d ? [-> ->]. by wp_steps.
Qed.

Lemma byte_slice0 (l : list Z) : byte (slice 0 1 l) 0 = byte l 0.
Proof. by destruct l. Qed.
Lemma byte_app (h d : list Z) : 0 < zlen h -> byte (h ++ d) 0 = byte h 0.
Proof. intros H. by destruct h. Qed.
Lemma land_15 x : Z.land x 15 = x mod 16.
Proof. change 15 with (Z.ones 4). by apply Z.land_ones. Qed.

Lemma wp_put_cksum b h d s : wfb b -> bdata b = h ++ d -> header h ->
  wp (put_cksum b) s (fun b' s' => s' = s /\ rewritten b b' /\ bdata b' = sealed h ++ d).
Proof.
  intros Hw Hd Hh. pose proof (zlen_bdata b Hw) as Hz. rewrite Hd, zlen_app in Hz. pose proof (zlen_nonneg d).
  pose proof Hh as (_ & _ & Hlh). unfold IP4HDR in Hlh. unfold put_cksum. wp_steps.
  assert (zlen [0; 0] = 2) as E2 by done.
  eapply wp_mono; [apply wp_hput; [done | done | unfold o_cksum; lia]|]. intros b1 ? (-> & R1 & D1).
  rewrite Hd, splice_app_l in D1 by (unfold o_cksum; lia). set (h0 := splice o_cksum [0; 0] h) in *.
  assert (header h0) as Hh0.
  { apply header_splice; try done. repeat constructor; done. }
  pose proof Hh0 as (_ & Hl0 & Hlh0). unfold IP4HDR in Hlh0. destruct R1 as (Hw1 & R1).
  pose proof (zlen_bdata b1 Hw1) as Hz1. rewrite D1, zlen_app in Hz1.
  wp_steps. unfold ipcsum_at. wp_steps. eapply wp_mono; [apply wp_hgetb_data; [done | done | unfold o_vihl; lia]|].
  intros v ? [-> ->]. wp_steps. unfold o_vihl. rewrite byte_slice0, D1, byte_app by lia.
  rewrite land_15, Z.shiftl_mul_pow2 by lia. replace (byte h0 0 mod 16 * 2 ^ 2) with (zlen h0) by lia.
  eapply wp_mono; [apply wp_hget_data; [done | done | lia..]|]. intros x ? [-> ->]. wp_steps.
  rewrite D1, slice_app_l by lia. assert (slice 0 (zlen h0) h0 = h0) as ->.
  { unfold slice. rewrite zdrop_le by lia. by apply ztake_ge. }
  eapply wp_mono; [apply wp_hput; [done | done | change (zlen (hnputs (ipcsum h0))) with 2; unfold o_cksum; lia]|].
  intros b2 ? (-> & R2 & D2). split; [done|]. split; [by transitivity b1|].
  rewrite D2, D1, splice_app_l; [done | done |]. change (zlen (hnputs (ipcsum h0))) with 2; unfold o_cksum; lia.
Qed.

(** ** Copying the data *)
Section Frag.
Context `{MA : Malloc, MO : !MallocOk MA}.

Lemma cdata_cons_nil b bl : wfb b -> rp b = wpt b -> cdata (b :: bl) = cdata bl.
Proof.
  intros Hw E. rewrite cdata_cons. unfold bdata, BLEN. rewrite E, slice_nil by lia. done.
Qed.

Lemma wp_copy_up xs : forall nb chunk s, Forall wfb xs -> wfb nb -> 0 <= chunk <= zlen (cdata xs) ->
  wpt nb + chunk <= lim nb ->
  wp (copy_up nb xs chunk) s (fun '(nb', r) s' => s' = s /\ grows (ztake chunk (cdata xs)) nb nb' /\
    exists xs', r = Some xs' /\ Forall wfb xs' /\ cdata xs' = zdrop chunk (cdata xs)).
Proof.
  assert (forall nb, wfb nb -> grows [] nb nb) as Hrefl.
  { intros nb Hw. unfold grows. rewrite app_nil_r, zlen_nil. split_and!; try done. lia. }
  assert (forall a b c d e, grows a b c -> grows d c e -> grows (a ++ d) b e) as Htrans.
  { unfold grows. intros a b c d e (?&?&?&?&?&?&?&?&?) (?&?&?&?&?&?&?&?&?). rewrite zlen_app, app_assoc.
    split_and!; try congruence. lia. }
  induction xs as [|xp xs IH]; intros nb chunk s Hxs Hnb Hc Hl; cbn [copy_up].
  - change (zlen (cdata [])) with 0 in Hc. destruct (Z.eqb_spec chunk 0) as [->|]; [|lia].
    apply wp_ret. split; [done|]. split; [by apply Hrefl|]. by exists [].
  - destruct (Z.eqb_spec chunk 0) as [->|Hne].
    { apply wp_ret. split; [done|]. split; [by apply Hrefl|]. exists (xp :: xs). split; [done|]. split; [done|].
      by rewrite zdrop_le. }
    apply Forall_cons in Hxs as [Hxp Hxs]. pose proof (wfb_BLEN xp Hxp). pose proof (zlen_bdata xp Hxp) as Hz.
    rewrite cdata_cons in *. rewrite zlen_app, Hz in Hc. wp_steps. set (n := if _ <? chunk then _ else chunk).
    assert (n = Z.min (BLEN xp) chunk) as En by (subst n; destruct (Z.ltb_spec (BLEN xp) chunk); lia). clearbody n.
    eapply wp_mono; [apply wp_bread; [done | lia]|]. intros d ? [-> ->]. wp_steps.
    assert (zlen (ztake n (bdata xp)) = n) as Ez by (rewrite zlen_ztake; lia).
    eapply wp_mono; [apply wp_bappend; [done | lia]|]. intros nb1 ? [-> G]. wp_steps.
    pose proof G as (Hw1 & _ & _ & _ & El1 & _ & Ew1 & _). cbn [rp set_rp wpt].
    destruct (Z.eqb_spec (rp xp + n) (wpt xp)) as [E|E].
    + assert (n = BLEN xp) as -> by (unfold BLEN; lia). rewrite ztake_ge in G by lia.
      eapply wp_mono; [apply (IH nb1 (chunk - BLEN xp) s Hxs Hw1); lia|].
      intros [nb2 r] ? (-> & G2 & xs' & -> & Hxs' & Ed). split; [done|]. rewrite ztake_app_ge, zdrop_app_ge by lia.
      rewrite Hz. split; [by eapply Htrans | by exists xs'].
    + assert (n = chunk) as -> by (unfold BLEN in *; lia). wp_steps. split; [done|].
      rewrite ztake_app_le, zdrop_app_le by lia. split; [done|]. eexists. split; [done|].
      split; [constructor; [by apply wfb_advance; [|lia] | done]|].
      rewrite cdata_cons. f_equal. by apply bdata_advance_drop; [|lia].
Qed.

(** ** The fragments *)

(** The packet of a fragment: the header of the whole packet [h] with the
    fragment's fields, and its data. *)
Definition frag_header (h : list Z) (lid word n : Z) : list Z :=
  splice o_id (hnputs lid) (splice o_length (hnputs (n + IP4HDR)) (splice o_frag (hnputs word) h)).
Definition frag_packet (h : list Z) (lid word : Z) (d : list Z) : list Z :=
  sealed (frag_header h lid word (zlen d)) ++ d.

(** The packets for the data [d], from [fragoff] on, [seglen] at a time. *)
Fixpoint fragments (fuel : nat) (h : list Z) (lid seglen fragoff : Z) (d : list Z) : list (list Z) :=
  match fuel with
  | O => []
  | S fuel =>
    if 0 <? zlen d then
      if zlen d <=? seglen then [frag_packet h lid (Z.shiftr fragoff 3) d]
      else frag_packet h lid (Z.lor (Z.shiftr fragoff 3) IP_MF) (ztake seglen d) ::
           fragments fuel h lid seglen (fragoff + seglen) (zdrop seglen d)
    else []
  end.

(** A packet's header without options. *)
Definition plain (h : list Z) : Prop := Forall isbyte h /\ zlen h = IP4HDR /\ byte h 0 mod 16 = IP_HLEN4.
Lemma plain_header h : plain h -> header h.
Proof. intros (? & El & E). unfold header, IP4HDR, IP_HLEN4 in *. rewrite E. split; [done | lia]. Qed.
Lemma plain_splice h o d : plain h -> 0 < o -> o + zlen d <= IP4HDR -> Forall isbyte d -> plain (splice o d h).
Proof.
  intros (Hb & Hl & Hz) Ho Hd Hbd. split; [by apply Forall_splice|]. rewrite zlen_splice, byte_splice_after by lia. done.
Qed.
Lemma plain_frag h lid word n : plain h -> plain (frag_header h lid word n).
Proof. intros H. unfold frag_header. by repeat apply plain_splice; try done; try apply isbyte_hnputs. Qed.

(** All but the counters. *)
Definition uncounted (i : IP) : list Fragment4 * list Fragment4 * Z * bool :=
  (flisthead4 i, fragfree4 i, id4 i, iprouting i).

(** Filling a fresh block with one fragment. *)
Lemma wp_fill_fragment nb h lid word n xs s : fresh_block (IP4HDR + n) nb -> plain h -> 0 <= n <= zlen (cdata xs) ->
  Forall wfb xs ->
  wp (fill_fragment nb h lid n word xs) s (fun '(nb', r) s' => s' = s /\
    wfb nb' /\ bid nb' = bid nb /\ charge nb' = charge nb /\ rp nb' = rp nb /\
    bdata nb' = frag_header h lid word n ++ ztake n (cdata xs) /\
    exists xs', r = Some xs' /\ Forall wfb xs' /\ cdata xs' = zdrop n (cdata xs)).
Proof.
  intros Hf Hh Hn Hxs. pose proof (fresh_bdata _ _ Hf) as Hd0. destruct Hf as (Hw & E1 & E2 & _).
  pose proof Hh as (_ & Hlh & _). unfold IP4HDR in *. unfold fill_fragment. wp_steps. apply wp_ip_onmem.
  eapply wp_mono; [apply wp_bappend; [done | lia]|]. intros nb1 ? [-> (Hw1 & D1 & I1 & C1 & L1 & R1 & W1 & _)].
  rewrite Hd0 in D1. cbn [app] in D1. replace (mkIs (ip s) (mem s) (outs s)) with s by (by destruct s).
  assert (forall b b', rewritten b b' -> BLEN b' = BLEN b) as Hlen.
  { unfold rewritten, BLEN. intros b b' (_ & _ & _ & _ & -> & ->). done. }
  assert (BLEN nb1 = 20) as B1 by (unfold BLEN; lia).
  wp_steps. eapply wp_mono; [apply wp_hput; [done | done | by rewrite B1]|]. intros nb2 ? (-> & R2 & D2).
  pose proof R2 as (Hw2 & _). pose proof (Hlen _ _ R2) as B2.
  wp_steps. eapply wp_mono; [apply wp_hput; [done | done | by rewrite B2, B1]|]. intros nb3 ? (-> & R3 & D3).
  pose proof R3 as (Hw3 & _). pose proof (Hlen _ _ R3) as B3.
  wp_steps. eapply wp_mono; [apply wp_hput; [done | done | by rewrite B3, B2, B1]|]. intros nb4 ? (-> & R4 & D4).
  rewrite D3, D2, D1 in D4. assert (rewritten nb1 nb4) as R by (by transitivity nb3; [transitivity nb2|]).
  destruct R as (Hw4 & I4 & C4 & L4 & P4 & W4). apply wp_ip_onmem.
  eapply wp_mono; [apply (wp_copy_up xs nb4 n (mem s) Hxs Hw4 Hn); lia|].
  intros [nb5 r] ? (-> & (Hw5 & D5 & I5 & C5 & _ & P5 & _) & Hr). split; [by destruct s|].
  split; [done|]. split; [congruence|]. split; [congruence|]. split; [congruence|]. split; [by rewrite D5, D4 | done].
Qed.

(** What a routine that sends did: these packets to the medium, in new blocks. *)
Definition sent (ifc : nat) (gate : list Z) (qs : list (list Z)) (F : list Block) (s s' : Is) : Prop :=
  exists nbs, bdata <$> nbs = qs /\ Forall wfb nbs /\ Forall (fun nb => Hdrspc <= rp nb) nbs /\
    outs s' = outs s ++ ((fun nb => ToMedium ifc [nb] gate) <$> nbs) /\ acct (nbs ++ F) (mem s').

Lemma wp_frag_loop fuel h lid dlen ifc gate : plain h -> forall seglen F fragoff xs d s, 0 < seglen ->
  Forall wfb xs -> zlen d = dlen - fragoff -> ztake (zlen d) (cdata xs) = d -> (length d < fuel)%nat ->
  acct F (mem s) ->
  wp (frag_loop fuel h lid seglen dlen fragoff xs ifc gate) s (fun ok s' => ok = true /\
    sent ifc gate (fragments fuel h lid seglen fragoff d) F s s' /\ uncounted (ip s') = uncounted (ip s)).
Proof.
  intros Hh. induction fuel as [|fuel IH]; intros seglen F fragoff xs d s Hseg Hxs Hd Hxd Hfuel HA; [lia|].
  cbn [frag_loop fragments]. pose proof (f_equal zlen Hxd) as Hz. rewrite zlen_ztake in Hz. pose proof (zlen_nonneg d).
  destruct (Z.ltb_spec fragoff dlen), (Z.ltb_spec 0 (zlen d)); try lia.
  2: { apply wp_ret. split; [done|]. split; [|done]. exists []. split_and!; try done; by rewrite ?app_nil_r. }
  wp_steps. apply wp_ip_onmem. eapply wp_mono; [apply (wp_allocb (IP4HDR + seglen) F); [unfold IP4HDR; lia | done]|].
  intros nb m1 (Hf & _ & HA1 & _). rewrite Z.geb_leb.
  set (n := if dlen <=? fragoff + seglen then dlen - fragoff else seglen).
  set (w := if dlen <=? fragoff + seglen then Z.shiftr fragoff 3 else Z.lor (Z.shiftr fragoff 3) IP_MF).
  assert (n = Z.min (zlen d) seglen) as En by (subst n; destruct (Z.leb_spec dlen (fragoff + seglen)); lia).
  assert (fragments (S fuel) h lid seglen fragoff d =
    frag_packet h lid w (ztake n d) :: fragments fuel h lid n (fragoff + n) (zdrop n d)) as Ef.
  { cbn [fragments]. subst w. destruct (Z.ltb_spec 0 (zlen d)); [|lia].
    destruct (Z.leb_spec (zlen d) seglen), (Z.leb_spec dlen (fragoff + seglen)); try lia.
    - rewrite ztake_ge, zdrop_ge by lia. by destruct fuel.
    - by replace n with seglen by lia. }
  cbn [fragments] in Ef. destruct (Z.ltb_spec 0 (zlen d)); [|lia]. rewrite Ef. clear Ef. clearbody n w.
  pose proof Hf as (Hwf & E1 & E2 & E3 & E4).
  wp_steps. eapply wp_mono; [apply (wp_fill_fragment nb h lid w n xs)|]; [|done|lia|done|].
  { split_and!; try done; lia. }
  intros [nb1 r] ? (-> & Hw1 & I1 & C1 & R1 & D1 & xs' & -> & Hxs' & Exs'). wp_steps.
  eapply wp_mono; [by apply wp_put_cksum, plain_header, plain_frag|]. intros nb2 ? (-> & R2 & D2).
  destruct R2 as (Hw2 & I2 & C2 & _ & P2 & _). wp_steps. apply wp_output. wp_steps. apply wp_ip_count. intros st. cbn [ip mem outs].
  set (s1 := mkIs _ _ _).
  assert (ztake n (cdata xs) = ztake n d) as Exd by (rewrite <- Hxd, ztake_ztake by lia; f_equal; lia).
  eapply wp_mono; [apply (IH n (nb2 :: F) (fragoff + n) xs' (zdrop n d) s1)|].
  - lia.
  - done.
  - rewrite zlen_zdrop. lia.
  - rewrite Exs', zlen_zdrop. transitivity (zdrop n (ztake (zlen d) (cdata xs))); [|by rewrite Hxd].
    rewrite zdrop_ztake by lia. unfold slice. f_equal. lia.
  - assert (0 < n) by lia. unfold zdrop. rewrite length_drop. unfold zlen in *. lia.
  - eapply acct_same_ids; [| |exact HA1]; congruence.
  - intros ok s2 (-> & (nbs & Hq & Hws & Hrs & Ho & HA2) & Hu). split; [done|]. split; [|exact Hu].
    exists (nb2 :: nbs). split_and!.
    + rewrite fmap_cons, Hq, D2, Exd. unfold frag_packet. by replace (zlen (ztake n d)) with n by (rewrite zlen_ztake; lia).
    + by constructor.
    + constructor; [lia|done].
    + rewrite Ho. cbn [outs s1]. by rewrite <- app_assoc.
    + eapply acct_proper; [|reflexivity|exact HA2]. solve_Permutation.
Qed.

(** *** What the fragments are *)

(** The header word of fragment [k] of [n]. *)
Definition frag_word (seglen off : Z) (n k : nat) : Z :=
  let w := Z.shiftr (off + Z.of_nat k * seglen) 3 in if decide (S k = n) then w else Z.lor w IP_MF.

Lemma fragments_imap fuel h lid seglen : forall off d, (length d < fuel)%nat -> 0 < seglen -> 
  exists ds, concat ds = d /\
    (forall k dk, ds !! k = Some dk -> 0 < zlen dk <= seglen /\ ((S k < length ds)%nat -> zlen dk = seglen)) /\
    fragments fuel h lid seglen off d = imap (fun k dk => frag_packet h lid (frag_word seglen off (length ds) k) dk) ds.
Proof.
  induction fuel as [|fuel IH]; intros off d Hf Hs; [lia|]. cbn [fragments].
  destruct (Z.ltb_spec 0 (zlen d)) as [L|L].
  2: { exists []. pose proof (zlen_nonneg d). split; [|by split]. symmetry. apply nil_length_inv. unfold zlen in L. lia. }
  destruct (Z.leb_spec (zlen d) seglen) as [L'|L'].
  { exists [d]. split; [by cbn; rewrite app_nil_r|]. split.
    - intros [|k] dk Hk; [|done]. injection Hk as <-. split; [lia | cbn; lia].
    - cbn. unfold frag_word. cbn. by rewrite Z.add_0_r. }
  destruct (IH (off + seglen) (zdrop seglen d)) as (ds & Ed & Hds & ->).
  { unfold zdrop. rewrite length_drop. unfold zlen in *. lia. }
  { done. }
  assert (ds <> []) as Hne.
  { intros ->. cbn in Ed. apply (f_equal zlen) in Ed. rewrite zlen_zdrop in Ed. change (zlen []) with 0 in Ed. lia. }
  exists (ztake seglen d :: ds). split; [cbn; rewrite Ed; apply ztake_zdrop|]. split.
  - intros [|k] dk Hk; cbn in Hk.
    + injection Hk as <-. rewrite zlen_ztake. split; [lia|]. intros _. lia.
    + destruct (Hds k dk Hk) as [? Hf2]. split; [done|]. intros Hl. apply Hf2. cbn in Hl. lia.
  - cbn [imap]. f_equal.
    + unfold frag_word. rewrite decide_False by (destruct ds; [done | cbn; lia]). by rewrite Z.add_0_r.
    + apply imap_ext. intros k dk _. cbn [compose]. f_equal. unfold frag_word. cbn [length].
      replace (off + seglen + Z.of_nat k * seglen) with (off + Z.of_nat (S k) * seglen) by lia.
      destruct (decide (S k = length ds)), (decide (S (S k) = S (length ds))); by try lia.
Qed.

(** The fields of a fragment. *)
Lemma slice_plain o n p d h : plain h -> 0 <= o -> 0 <= n -> 0 <= p -> p + zlen d <= IP4HDR ->
  o + n <= p \/ p + zlen d <= o -> slice o n (splice p d h) = slice o n h.
Proof.
  intros (_ & E & _) Ho Hn Hp Hl [H|H]; [apply slice_splice_before | apply slice_splice_after]; lia.
Qed.
Lemma slice_plain_same p v h : plain h -> 0 <= p -> p + 2 <= IP4HDR -> slice p 2 (splice p (hnputs v) h) = hnputs v.
Proof. intros (_ & E & _) Hp Hl. apply (slice_splice_same p (hnputs v)); [lia|]. change (zlen (hnputs v)) with 2. lia. Qed.

Lemma sealed_fields h o n : plain h -> 0 <= o -> 0 <= n -> o + n <= o_cksum \/ o_src <= o -> slice o n (sealed h) = slice o n h.
Proof.
  intros Hh Ho Hn Hd. assert (plain (splice o_cksum [0; 0] h)) as H1 by (apply plain_splice; try done; repeat constructor; done).
  unfold sealed. rewrite (slice_plain o n o_cksum _ _ H1), (slice_plain o n o_cksum _ _ Hh); done.
Qed.
Lemma plain_sealed h : plain h -> plain (sealed h).
Proof.
  intros Hh. unfold sealed. repeat apply plain_splice; try done; try apply isbyte_hnputs. repeat constructor; done.
Qed.
Lemma frag_header_fields h lid word n : plain h -> let f := frag_header h lid word n in
  slice o_length 2 f = hnputs (n + IP4HDR) /\ slice o_id 2 f = hnputs lid /\ slice o_frag 2 f = hnputs word /\
  slice o_src 4 f = slice o_src 4 h /\ slice o_dst 4 f = slice o_dst 4 h.
Proof.
  intros Hh. unfold frag_header. set (h1 := splice o_frag _ h).
  assert (plain h1) as H1 by (apply plain_splice; try done; apply isbyte_hnputs).
  set (h2 := splice o_length _ h1).
  assert (plain h2) as H2 by (apply plain_splice; try done; apply isbyte_hnputs). cbv zeta. split_and!.
  - rewrite (slice_plain _ _ _ _ h2 H2); try done; [|by left]. by apply slice_plain_same.
  - by apply slice_plain_same.
  - rewrite (slice_plain _ _ _ _ h2 H2); try done; [|by right]. unfold h2.
    rewrite (slice_plain _ _ _ _ h1 H1); try done; [|by right]. by apply slice_plain_same.
  - rewrite (slice_plain _ _ _ _ h2 H2); try done; [|by right]. unfold h2.
    rewrite (slice_plain _ _ _ _ h1 H1); try done; [|by right]. apply slice_plain; try done. by right.
  - rewrite (slice_plain _ _ _ _ h2 H2); try done; [|by right]. unfold h2.
    rewrite (slice_plain _ _ _ _ h1 H1); try done; [|by right]. apply slice_plain; try done. by right.
Qed.

Lemma frag_fields h lid word d : plain h -> let q := frag_packet h lid word d in
  ztake IP4HDR q = sealed (frag_header h lid word (zlen d)) /\ zdrop IP4HDR q = d /\ zlen q = IP4HDR + zlen d /\
  slice o_length 2 q = hnputs (zlen d + IP4HDR) /\ slice o_id 2 q = hnputs lid /\ slice o_frag 2 q = hnputs word /\
  slice o_src 4 q = slice o_src 4 h /\ slice o_dst 4 q = slice o_dst 4 h.
Proof.
  intros Hh q. pose proof (plain_frag h lid word (zlen d) Hh) as Hf. pose proof (plain_sealed _ Hf) as (_ & Hl & _).
  destruct (frag_header_fields h lid word (zlen d) Hh) as (F1 & F2 & F3 & F4 & F5).
  unfold q, frag_packet. rewrite ztake_app_le, zdrop_app_ge, Hl, Z.sub_diag, zdrop_le, ztake_ge, zlen_app, Hl by lia.
  split_and!; try done; rewrite slice_app_l by (rewrite ?Hl; done).
  1,2,3: rewrite sealed_fields; [done | done.. | by left].
  all: rewrite sealed_fields; [done | done.. | by right].
Qed.

(** *** The fragments make a datagram *)

Lemma land_pow2 n w : 0 <= n -> 0 <= w < 2 ^ (n + 1) -> (Z.land w (2 ^ n) =? 0) = (w <? 2 ^ n).
Proof.
  intros Hn Hw. rewrite Z.pow_add_r in Hw by lia. change (2 ^ 1) with 2 in Hw. destruct (Z.ltb_spec w (2 ^ n)) as [L|L].
  - apply Z.eqb_eq, Z.bits_inj_0. intros m. rewrite Z.land_spec, Z.pow2_bits_eqb by done.
    destruct (Z.eqb_spec n m) as [<-|]; [|apply andb_false_r].
    rewrite <- (Z.mod_small w (2 ^ n)) by lia. by rewrite Z.mod_pow2_bits_high by lia.
  - apply Z.eqb_neq. intros E. apply (f_equal (fun x => Z.testbit x n)) in E.
    rewrite Z.land_spec, Z.pow2_bits_true, Z.bits_0, andb_true_r in E by done.
    apply Z.testbit_false in E; [|done]. assert (w / 2 ^ n = 1) as E1; [|by rewrite E1 in E].
    symmetry. apply (Z.div_unique _ _ _ (w - 2 ^ n)); lia.
Qed.

Lemma mark_fields q : IP4HDR < zlen q ->
  zlen (mark q) = zlen q /\ zdrop IP4HDR (mark q) = zdrop IP4HDR q /\
  (forall o n, 2 <= o -> 0 <= n -> slice o n (mark q) = slice o n q) /\
  byte (slice o_tos 1 (mark q)) 0 = (if Z.land (nhgets (slice o_frag 2 q)) IP_MF =? 0 then 0 else 1) /\
  (Forall isbyte q -> Forall isbyte (mark q)).
Proof.
  intros Hq. unfold mark, IP4HDR in *. set (v := if _ =? 0 then 0 else 1).
  assert (isbyte v) as Hv by (subst v; destruct (_ =? 0); done). clearbody v.
  assert (zlen [v] = 1) as E1 by done. unfold o_tos. split_and!.
  - by rewrite zlen_splice by lia.
  - unfold splice. rewrite zdrop_app_ge by (rewrite zlen_ztake; lia). rewrite zlen_ztake, zdrop_app_ge by lia.
    rewrite E1, zdrop_zdrop by lia. f_equal. lia.
  - intros o n Ho Hn. apply slice_splice_after; lia.
  - change (byte (slice 1 (zlen [v]) (splice 1 [v] q)) 0 = v). rewrite slice_splice_same by lia. done.
  - intros Hb. apply Forall_splice; [by constructor|done].
Qed.

(** The header word of a fragment, as the receiver sees it. *)
Lemma frag_word_spec seglen n k : 0 < seglen -> seglen mod 8 = 0 -> Z.of_nat k * seglen < 2 ^ 16 ->
  let w := frag_word seglen 0 n k in let last := bool_decide (S k = n) in
  nhgets (hnputs w) = w /\ u16 (Z.shiftl w 3) = Z.of_nat k * seglen /\
  (Z.land w IP_MF =? 0) = last /\ (Z.land (byte (hnputs w) 0) (Z.shiftr IP_MF 8) =? 0) = last.
Proof.
  intros Hs Hm Hk w last. set (x := Z.of_nat k * seglen / 8).
  assert (Z.of_nat k * seglen = 8 * x /\ 0 <= x < 2 ^ 13) as [Ex Hx].
  { assert ((Z.of_nat k * seglen) mod 8 = 0) as E by (rewrite <- Zmult_mod_idemp_r, Hm, Z.mul_0_r; done).
    unfold x. Z.div_mod_to_equations. lia. }
  assert (w = if last then x else x + 2 ^ 13) as Ew.
  { unfold w, last, frag_word. rewrite Z.add_0_l, Z.shiftr_div_pow2 by lia. change (2 ^ 3) with 8. fold x.
    rewrite (bool_decide_decide (S k = n)). destruct (decide (S k = n)); [done|].
    rewrite Z.lor_comm, (lor_add IP_MF x 13); [unfold IP_MF; lia | lia | done | lia]. }
  clearbody x w. unfold IP_MF. assert (0 <= w < 2 ^ 14) as Hw by (rewrite Ew; destruct last; lia).
  split_and!.
  - rewrite <- (app_nil_r (hnputs w)), nhgets_hnputs by done. apply u16_small. lia.
  - rewrite Ex, Z.shiftl_mul_pow2 by lia. unfold u16. rewrite Ew. destruct last; Z.div_mod_to_equations; lia.
  - change 8192 with (2 ^ 13). rewrite land_pow2 by lia. rewrite Ew. destruct last; lia.
  - change (Z.shiftr 8192 8) with (2 ^ 5). unfold hnputs, byte. cbn [nth]. unfold u8. rewrite Z.shiftr_div_pow2 by lia.
    rewrite land_pow2 by (Z.div_mod_to_equations; lia). rewrite Ew.
    destruct last; [apply Z.ltb_lt | apply Z.ltb_ge]; Z.div_mod_to_equations; lia.
Qed.

(** [ds]: the data cut up, all pieces but the last of [seglen] bytes. *)
Definition pieces (seglen : Z) (ds : list (list Z)) : Prop := forall k dk, ds !! k = Some dk ->
  0 < zlen dk <= seglen /\ ((S k < length ds)%nat -> zlen dk = seglen).
Definition packets (h : list Z) (lid seglen : Z) (ds : list (list Z)) : list (list Z) :=
  imap (fun k dk => frag_packet h lid (frag_word seglen 0 (length ds) k) dk) ds.
Definition marked h lid seglen ds : list (list Z) := mark <$> packets h lid seglen ds.

Lemma marked_lookup h lid seglen ds k p : marked h lid seglen ds !! k = Some p -> exists dk, ds !! k = Some dk /\
  p = mark (frag_packet h lid (frag_word seglen 0 (length ds) k) dk).
Proof.
  unfold marked, packets. rewrite list_lookup_fmap, list_lookup_imap. destruct (ds !! k) as [dk|]; [|done].
  intros [= <-]. by exists dk.
Qed.
Lemma length_marked h lid seglen ds : length (marked h lid seglen ds) = length ds.
Proof. unfold marked, packets. by rewrite length_fmap, length_imap. Qed.
Lemma pieces_offset seglen ds k : pieces seglen ds -> (k < length ds)%nat ->
  zlen (concat (take k ds)) = Z.of_nat k * seglen.
Proof.
  intros Hp. induction k as [|k IH]; intros Hk; [by rewrite take_0|].
  destruct (lookup_lt_is_Some_2 ds k ltac:(lia)) as [dk Hdk]. destruct (Hp k dk Hdk) as [_ E].
  rewrite (take_S_r _ _ _ Hdk), concat_app, zlen_app, IH by lia. cbn [concat]. rewrite app_nil_r, E by lia. lia.
Qed.
Lemma pdata_marked h lid seglen ds : plain h -> pieces seglen ds -> pdata <$> marked h lid seglen ds = ds.
Proof.
  intros Hh Hp. apply list_eq. intros k. rewrite list_lookup_fmap.
  destruct (marked h lid seglen ds !! k) as [p|] eqn:E.
  - apply marked_lookup in E as (dk & Hk & ->). cbn. rewrite Hk. f_equal. unfold pdata.
    destruct (Hp k dk Hk) as [? _].
    destruct (frag_fields h lid (frag_word seglen 0 (length ds) k) dk Hh) as (_ & E & Hl & _).
    rewrite <- E at 2. apply mark_fields. rewrite Hl. lia.
  - cbn. apply lookup_ge_None in E. rewrite length_marked in E. symmetry. by apply lookup_ge_None.
Qed.

Lemma marked_fields h lid seglen ds k p : plain h -> Forall (Forall isbyte) ds -> pieces seglen ds ->
  marked h lid seglen ds !! k = Some p -> exists dk, ds !! k = Some dk /\
    let w := frag_word seglen 0 (length ds) k in
    Forall isbyte p /\ IP4HDR < zlen p /\ zlen p = zlen dk + IP4HDR /\
    slice o_length 2 p = hnputs (zlen p) /\ slice o_id 2 p = hnputs lid /\ slice o_frag 2 p = hnputs w /\
    slice o_src 4 p = slice o_src 4 h /\ slice o_dst 4 p = slice o_dst 4 h /\
    byte (slice o_tos 1 p) 0 = if Z.land (nhgets (hnputs w)) IP_MF =? 0 then 0 else 1.
Proof.
  intros Hh Hb Hp Hk. apply marked_lookup in Hk as (dk & Hdk & ->). exists dk. split; [done|]. intros w. fold w.
  destruct (Hp k dk Hdk) as [Hlen _]. destruct (frag_fields h lid w dk Hh) as (E0 & E1 & E2 & E3 & E4 & E5 & E6 & E7).
  assert (IP4HDR < zlen (frag_packet h lid w dk)) as Hq by lia.
  destruct (mark_fields _ Hq) as (M1 & _ & M3 & M4 & M5). rewrite M1, M4, !M3 by done. rewrite E5.
  split_and!; try done; try lia.
  - apply M5, Forall_app. split; [apply (plain_sealed _ (plain_frag h lid _ _ Hh)) | by eapply (proj1 (Forall_lookup _ _) Hb)].
  - rewrite E3. f_equal. lia.
Qed.
Lemma nhgets_hnputs' v : nhgets (hnputs v) = u16 v.
Proof. rewrite <- (app_nil_r (hnputs v)). by apply nhgets_hnputs. Qed.

Lemma packets_datagram h lid seglen ds : plain h -> Forall (Forall isbyte) ds -> 0 < seglen -> seglen mod 8 = 0 ->
  pieces seglen ds -> (2 <= length ds)%nat -> IP4HDR + zlen (concat ds) < 2 ^ 16 ->
  datagram (marked h lid seglen ds) (nhgetl (slice o_src 4 h)) (nhgetl (slice o_dst 4 h)) (u16 lid).
Proof.
  intros Hh Hb Hs Hm Hp Hn Ht. pose proof (length_marked h lid seglen ds) as Hlm.
  assert (forall i, poff (marked h lid seglen ds) i = zlen (concat (take i ds))) as Hoff.
  { intros i. unfold poff. by rewrite fmap_take, (pdata_marked h lid seglen ds Hh Hp). }
  assert (forall k, (k < length ds)%nat -> Z.of_nat k * seglen < 2 ^ 16) as Hw.
  { intros k Hk. rewrite <- (pieces_offset seglen ds k Hp Hk). rewrite <- (take_drop k ds), concat_app, zlen_app in Ht.
    pose proof (zlen_nonneg (concat (drop k ds))). unfold IP4HDR in Ht. lia. }
  assert (forall k dk, ds !! k = Some dk -> zlen dk + IP4HDR < 2 ^ 16) as Hle.
  { intros k dk Hk. rewrite <- (take_drop_middle ds k dk Hk), concat_app, zlen_app in Ht. cbn [concat] in Ht.
    rewrite zlen_app in Ht. pose proof (zlen_nonneg (concat (take k ds))). pose proof (zlen_nonneg (concat (drop (S k) ds))). lia. }
  split; [by rewrite Hlm | | by rewrite Hoff, Hlm, firstn_all|..]; intros k p Hk;
    destruct (marked_fields h lid seglen ds k p Hh Hb Hp Hk) as (dk & Hdk & B & L & L' & F1 & F2 & F3 & F4 & F5 & F6);
    assert (Hkl : (k < length ds)%nat) by (by eapply lookup_lt_Some);
    destruct (frag_word_spec seglen (length ds) k Hs Hm (Hw k Hkl)) as (W1 & W2 & W3 & W4).
  - done.
  - by rewrite F2, F4, F5, nhgets_hnputs'.
  - rewrite F1, nhgets_hnputs', L'. pose proof (Hle k dk Hdk). pose proof (zlen_nonneg dk). apply u16_small. unfold IP4HDR in *. lia.
  - unfold fragword. by rewrite F3, W1, W2, Hoff, (pieces_offset seglen ds k Hp Hkl).
  - rewrite Hlm, <- W4, <- F3. f_equal. f_equal. unfold byte, slice, ztake. by destruct (zdrop o_frag p).
  - by rewrite F6, W1, W3, Hlm.
Qed.

(** ** [ipoput4] *)

Lemma wp_skip_header xs : forall offset s, Forall wfb xs -> 0 <= offset < zlen (cdata xs) ->
  wp (skip_header xs offset) s (fun xs' s' => s' = s /\ Forall wfb xs' /\ cdata xs' = zdrop offset (cdata xs)).
Proof.
  induction xs as [|xp xs IH]; intros offset s Hxs Ho; [change (zlen (cdata [])) with 0 in Ho; lia|].
  apply Forall_cons in Hxs as [Hxp Hxs]. pose proof (wfb_BLEN xp Hxp). pose proof (zlen_bdata xp Hxp) as Hz.
  rewrite cdata_cons in *. rewrite zlen_app, Hz in Ho. cbn [skip_header]. rewrite Z.geb_leb.
  destruct (Z.eqb_spec offset 0) as [->|Hne]; cbn [negb andb].
  { wp_steps. rewrite Z.add_0_r. split; [done|]. rewrite zdrop_le by lia. split; [constructor; [by destruct xp|done]|].
    rewrite cdata_cons. by destruct xp. }
  destruct (Z.leb_spec (BLEN xp) offset).
  - eapply wp_mono; [apply (IH (offset - BLEN xp) s Hxs); lia|]. intros xs' ? (-> & Hw & E). split; [done|].
    split; [done|]. by rewrite zdrop_app_ge, Hz by lia.
  - wp_steps. split; [done|]. split; [constructor; [apply wfb_advance; [done|lia] | done]|].
    rewrite cdata_cons, zdrop_app_le by lia. f_equal. apply bdata_advance_drop; [done|lia].
Qed.

Lemma wp_freeblist_ip bl F s (Q : () -> Is -> Prop) : acct (bl ++ F) (mem s) ->
  (forall m, acct F m -> Q tt (mkIs (ip s) m (outs s))) -> wp (onmem (freeblist bl)) s Q.
Proof.
  intros HA HQ. apply wp_ip_onmem. eapply wp_mono; [by apply wp_freeblist|]. intros [] m [Hm _]. by apply HQ.
Qed.

(** The identification of the fragments of a packet, and their first offset. *)
Definition frag_lid (gating : bool) (h : list Z) (s : Is) : Z :=
  if gating then nhgets (slice o_id 2 h) else s32 (id4 (ip s) + 1).
Definition frag_off (gating : bool) (h : list Z) : Z :=
  if gating then Z.shiftl (nhgets (slice o_frag 2 h)) 3 else 0.
Definition frag_seglen (medialen : Z) : Z := Z.land (medialen - IP4HDR) (Z.lnot 7).

Lemma seglen_8 x : Z.land x (Z.lnot 7) = 8 * (x / 8).
Proof.
  change 7 with (Z.ones 3). rewrite <- Z.ldiff_land, Z.ldiff_ones_r, Z.shiftl_mul_pow2, Z.shiftr_div_pow2 by lia. change (2 ^ 3) with 8. lia.
Qed.

Lemma wp_fragment b next gating len medialen ifc gate F s : Forall wfb (b :: next) -> IP4HDR <= BLEN b ->
  len <= zlen (cdata (b :: next)) -> let h := ztake IP4HDR (bdata b) in plain h ->
  Z.land (byte (slice o_frag 1 h) 0) (Z.shiftr IP_DF 8) = 0 -> IP4HDR + 8 <= medialen < len ->
  acct ((b :: next) ++ F) (mem s) ->
  wp (fragment (b :: next) b gating len medialen ifc gate) s (fun rv s' => rv = 0 /\
    sent ifc gate (fragments (S (Z.to_nat (len - IP4HDR))) h (frag_lid gating h s) (frag_seglen medialen) (frag_off gating h)
      (slice IP4HDR (len - IP4HDR) (cdata (b :: next)))) F s s').
Proof.
  intros Hw Hb Hlen h Hh Hdf Hm HA. unfold fragment. pose proof Hw as [Hwb _]%Forall_cons.
  assert (forall o n, 0 <= o -> 0 <= n -> o + n <= IP4HDR -> slice o n (bdata b) = slice o n h) as Hfld.
  { intros o n Ho Hn Hon. unfold h, slice. rewrite zdrop_ztake by lia. unfold slice. by rewrite ztake_ztake by lia. }
  unfold IP4HDR in Hm, Hb. wp_steps. eapply wp_mono; [apply wp_hgetb_data; [done | done | unfold o_frag; lia]|].
  intros v ? [-> ->]. rewrite Hfld by done. rewrite Hdf. cbn [Z.eqb negb]. wp_steps.
  unfold frag_seglen. rewrite seglen_8. unfold IP4HDR at 1. destruct (Z.ltb_spec (8 * ((medialen - 20) / 8)) 8) as [L|L]; [Z.div_mod_to_equations; lia|].
  wp_steps. eapply (wp_mono _ _ (fun lid s1 => lid = frag_lid gating h s /\ mem s1 = mem s /\ outs s1 = outs s)).
  { unfold frag_lid, next_id4. destruct gating; wp_steps.
    - eapply wp_mono; [apply wp_hget_data; [done | done | done | unfold o_id; lia]|]. intros d ? [-> ->]. wp_steps.
      by rewrite Hfld.
    - apply wp_upd_ip. by wp_steps. }
  intros lid s1 (-> & Em & Eo). cbn [tail]. wp_steps.
  eapply wp_mono; [apply (wp_skip_header (b :: next) IP4HDR s1 Hw); unfold IP4HDR; lia|]. intros xs ? (-> & Hxs & Exs).
  wp_steps. eapply (wp_mono _ _ (fun off s2 => off = frag_off gating h /\ s2 = s1)).
  { unfold frag_off. destruct gating; wp_steps; [|done].
    eapply wp_mono; [apply wp_hget_data; [done | done | done | unfold o_frag; lia]|]. intros d ? [-> ->]. wp_steps.
    by rewrite Hfld. }
  intros off ? [-> ->]. wp_steps. eapply wp_mono; [apply wp_hget_data; [done | done | done | unfold IP4HDR; lia]|].
  intros h' ? [-> ->]. assert (slice 0 IP4HDR (bdata b) = h) as -> by done. wp_steps.
  set (d := slice IP4HDR (len - IP4HDR) (cdata (b :: next))). set (off := frag_off gating h).
  assert (zlen d = len - IP4HDR) as Hd by (unfold d; rewrite zlen_slice; unfold IP4HDR; lia).
  eapply wp_mono; [apply (wp_frag_loop _ h (frag_lid gating h s) (len - IP4HDR + off) ifc gate Hh _ ((b :: next) ++ F) off xs d s1)|].
  - unfold IP4HDR. lia.
  - done.
  - rewrite Hd. lia.
  - rewrite Hd, Exs. done.
  - unfold zlen in Hd. lia.
  - by rewrite Em.
  - intros ok s2 (-> & (nbs & Hq & Hws & Hrs & Ho & HA2) & _). wp_steps. apply wp_ip_count. intros st. unfold drop_packet. wp_steps.
    eapply (wp_freeblist_ip (b :: next) (nbs ++ F)).
    { eapply acct_proper; [|reflexivity|exact HA2]. solve_Permutation. }
    intros m Hm'. wp_steps. split; [done|]. exists nbs. split_and!; try done. cbn. by rewrite Ho, Eo.
Qed.
End Frag.

Section Output.
Context `{MA : Malloc, MO : !MallocOk MA, N : Net}.

Lemma slice_head {A} o n (h d : list A) : zlen h = IP4HDR -> 0 <= o -> 0 <= n -> o + n <= IP4HDR ->
  slice o n (h ++ d) = slice o n h.
Proof. intros E Ho Hn Hl. apply slice_app_l; lia. Qed.

(** The next hop of a packet with header [h], by the route [r]. *)
Definition hop_for (h : list Z) (r : Route) : list Z * option nat :=
  let d := slice o_dst 4 h in
  if tbit (rtype r) Rifc || tbit (rtype r) Runi then (d, ifc r)
  else if tbit (rtype r) Rbcast || tbit (rtype r) Rmulti then
    (d, match v4lookup (slice o_src 4 h) with
        | Some sr => if tbit (rtype sr) Runi then ifc sr else ifc r
        | None => ifc r
        end)
  else (gate4 (v4 r), ifc r).

(** The header [ipoput4] makes of [h]. *)
Definition out_header (gating : bool) (ttl tos : Z) (h : list Z) : list Z :=
  if gating then splice o_ttl [u8 ttl] h
  else splice o_tos [u8 tos] (splice o_ttl [u8 ttl] (splice o_vihl [Z.lor IP_VER4 IP_HLEN4] h)).

(** A packet [ipoput4] can send to interface [i]: its header [h] in the first
    block, [len] bytes of it to go, a route and an interface that is up. *)
Record sendable (b : Block) (next : list Block) (gating : bool) (h : list Z) (len : Z) (gate : list Z) (i : nat) : Prop := {
  sn_wf : Forall wfb (b :: next);
  sn_header : exists d, bdata b = h ++ d;
  sn_zlen : zlen h = IP4HDR;
  sn_bytes : Forall isbyte h;
  sn_plain : gating = true -> byte h 0 mod 16 = IP_HLEN4;
  sn_len : if gating then nhgets (slice o_length 2 h) = len /\ len <= zlen (cdata (b :: next))
           else len = zlen (cdata (b :: next));
  sn_max : IP4HDR <= len < IP_MAX;
  sn_route : exists r, v4lookup (slice o_dst 4 h) = Some r /\ hop_for h r = (gate, Some i);
  sn_up : canrlock i = true /\ medium i = true
}.

Definition media_len (i : nat) (maxfragsize : Z) : Z :=
  (if negb (maxfragsize =? 0) && (maxfragsize <? maxtu i) then maxfragsize else maxtu i) - hsize i.

Lemma plain_out_header b next gating h len gate i ttl tos : sendable b next gating h len gate i ->
  plain (out_header gating ttl tos h).
Proof.
  intros [_ _ Hl Hb Hp _ _ _ _]. unfold out_header. destruct gating.
  - apply plain_splice; try done; [by split_and!; [| |apply Hp] | by constructor; [apply isbyte_u8|]].
  - assert (plain (splice o_vihl [Z.lor IP_VER4 IP_HLEN4] h)) as H0.
    { split; [apply Forall_splice; [by repeat constructor | done]|]. split; [by rewrite zlen_splice, ?Hl by (rewrite ?Hl; done)|].
      done. }
    apply plain_splice; [apply plain_splice; [done..|] | done..|]; by constructor; [apply isbyte_u8|].
Qed.

Lemma wp_put_header b h d (o v : Z) s : wfb b -> bdata b = h ++ d -> zlen h = IP4HDR -> 0 <= o -> o + 1 <= IP4HDR ->
  wp (hput b o [v]) s (fun b' s' => s' = s /\ rewritten b b' /\ bdata b' = splice o [v] h ++ d).
Proof.
  intros Hw Hd Hl Ho Hon. pose proof (zlen_bdata b Hw) as Hz. rewrite Hd, zlen_app in Hz. pose proof (zlen_nonneg d).
  assert (zlen [v] = 1) as E1 by done. eapply wp_mono; [apply wp_hput; [done | done | lia]|].
  intros b' ? (-> & R & E). split; [done|]. split; [done|]. by rewrite E, Hd, splice_app_l by lia.
Qed.

Lemma wp_out_header b h d gating ttl tos s : wfb b -> bdata b = h ++ d -> zlen h = IP4HDR ->
  wp (put_header b gating ttl tos) s (fun b' s' => s' = s /\ rewritten b b' /\
    bdata b' = out_header gating ttl tos h ++ d).
Proof.
  intros Hw Hd Hl. assert (forall o v, 0 <= o -> o + 1 <= IP4HDR -> forall l : list Z, zlen l = IP4HDR -> zlen (splice o [v] l) = IP4HDR) as Hz.
  { intros o v Ho Hon l E. rewrite zlen_splice; [done | done |]. change (zlen [v]) with 1. lia. }
  unfold put_header, out_header. destruct gating; wp_steps.
  - eapply wp_mono; [by apply (wp_put_header b h d)|]. intros b1 ? (-> & R & E). by wp_steps.
  - eapply wp_mono; [by apply (wp_put_header b h d)|]. intros b1 ? (-> & R1 & E1). wp_steps. pose proof R1 as [Hw1 _].
    eapply wp_mono; [apply (wp_put_header b1 _ d _ _ _ Hw1 E1); [by apply Hz | done..]|]. intros b2 ? (-> & R2 & E2). wp_steps.
    pose proof R2 as [Hw2 _]. eapply wp_mono; [apply (wp_put_header b2 _ d _ _ _ Hw2 E2); [by apply Hz; [..|apply Hz] | done..]|].
    intros b3 ? (-> & R3 & E3). split; [done|]. split; [|done]. transitivity b2; [by transitivity b1 | done].
Qed.

Lemma wp_next_hop b h d r s : wfb b -> bdata b = h ++ d -> zlen h = IP4HDR ->
  wp (next_hop b (slice o_dst 4 h) r) s (fun g s' => g = hop_for h r /\ s' = s).
Proof.
  intros Hw Hd Hl. unfold next_hop, hop_for. destruct (tbit (rtype r) Rifc || tbit (rtype r) Runi); [by wp_steps|].
  destruct (tbit (rtype r) Rbcast || tbit (rtype r) Rmulti); wp_steps; [|done].
  pose proof (zlen_bdata b Hw) as Hz. rewrite Hd, zlen_app in Hz. pose proof (zlen_nonneg d). unfold IP4HDR in Hl.
  eapply wp_mono; [apply wp_hget_data; [done | done | done | unfold o_src; lia]|]. intros x ? [-> ->]. wp_steps.
  by rewrite Hd, slice_head.
Qed.

(** Up to the transmission. *)
Lemma wp_ipoput4 b next gating h len gate i ttl tos mfs s (Q : Z -> Is -> Prop) : sendable b next gating h len gate i ->
  (forall b' d st, rewritten b b' -> bdata b = h ++ d -> bdata b' = out_header gating ttl tos h ++ d ->
    wp (transmit b' next gating len (media_len i mfs) i gate)
      (mkIs (mkIP st (flisthead4 (ip s)) (fragfree4 (ip s)) (id4 (ip s)) (iprouting (ip s))) (mem s) (outs s)) Q) ->
  wp (ipoput4 (b :: next) gating ttl tos mfs) s Q.
Proof.
  intros [Hw [d Hd] Hl Hb _ Hlen Hmax (r & Hr & Hhop) [Hup Hmed]] HQ. unfold ipoput4. wp_steps. apply wp_ip_count. intros st.
  set (s1 := mkIs _ _ _). pose proof Hw as [Hwb _]%Forall_cons. rewrite <- zlen_cdata in * by done.
  pose proof (zlen_bdata b Hwb) as Hz. rewrite Hd, zlen_app in Hz. pose proof (zlen_nonneg d). unfold IP4HDR in Hl.
  wp_steps. set (whole := zlen (cdata (b :: next))) in *.
  eapply (wp_mono _ _ (fun chunk s2 => chunk = len /\ s2 = s1)).
  { destruct gating; [|by wp_steps]. wp_steps.
    eapply wp_mono; [apply wp_hget_data; [done | done | done | unfold o_length; lia]|]. intros x ? [-> ->]. wp_steps.
    rewrite Hd, slice_head by done. by destruct Hlen as [-> _]. }
  intros chunk ? [-> ->]. assert (len <= whole) as Hle by (destruct gating; lia).
  rewrite Z.gtb_ltb. destruct (Z.ltb_spec whole len); [lia|].
  replace (if len <? whole then len else whole) with len by (destruct (Z.ltb_spec len whole); lia).
  rewrite Z.geb_leb. destruct (Z.leb_spec IP_MAX len); [lia|].
  wp_steps. eapply wp_mono; [apply wp_hget_data; [done | done | done | unfold o_dst; lia]|]. intros x ? [-> ->].
  rewrite Hd, slice_head, Hr by done. wp_steps. eapply wp_mono; [by apply (wp_next_hop b h d r)|]. intros g ? [-> ->].
  rewrite Hhop. wp_steps. eapply wp_mono; [by apply (wp_out_header b h d)|]. intros b' ? (-> & R & E).
  rewrite Hup, Hmed. cbn [negb]. by apply (HQ b' d).
Qed.

(** What a packet that fits is sent as. *)
Definition whole_header (gating : bool) (ident len : Z) (h : list Z) : list Z :=
  if gating then splice o_length (hnputs len) h
  else splice o_frag [0; 0] (splice o_length (hnputs len) (splice o_id (hnputs ident) h)).

Lemma wp_put_field b h d o v s : wfb b -> bdata b = h ++ d -> plain h -> 0 < o -> o + zlen v <= IP4HDR -> Forall isbyte v ->
  wp (hput b o v) s (fun b' s' => s' = s /\ rewritten b b' /\ bdata b' = splice o v h ++ d /\ plain (splice o v h)).
Proof.
  intros Hw Hd Hp Ho Hv Hbv. pose proof (zlen_bdata b Hw) as Hz. rewrite Hd, zlen_app in Hz.
  pose proof (zlen_nonneg d). pose proof Hp as (_ & El & _).
  eapply wp_mono; [apply wp_hput; [done | lia | lia]|]. intros b1 ? (-> & R & E). split; [done|]. split; [done|].
  split; [by rewrite E, Hd, splice_app_l by lia | by apply plain_splice].
Qed.

Lemma wp_transmit_whole b h d gating len medialen i gate F s : wfb b -> bdata b = h ++ d -> plain h ->
  len <= medialen -> acct (b :: F) (mem s) ->
  wp (transmit b [] gating len medialen i gate) s (fun rv s' => rv = 0 /\ exists b', wfb b' /\ rp b' = rp b /\
    outs s' = outs s ++ [ToMedium i [b'] gate] /\ acct (b' :: F) (mem s') /\
    bdata b' = sealed (whole_header gating (s32 (id4 (ip s) + 1)) len h) ++ d).
Proof.
  intros Hw Hd Hh Hlen HA. unfold transmit. destruct (Z.leb_spec len medialen); [|lia].
  set (wh := whole_header gating (s32 (id4 (ip s) + 1)) len h).
  assert (forall b1 s1, rewritten b b1 -> bdata b1 = wh ++ d -> plain wh -> mem s1 = mem s -> outs s1 = outs s ->
    wp (b <- put_cksum b1 ;; output (ToMedium i [b] gate) ;; ret 0) s1 (fun rv s' => rv = 0 /\ exists b', wfb b' /\
      rp b' = rp b /\ outs s' = outs s ++ [ToMedium i [b'] gate] /\ acct (b' :: F) (mem s') /\ bdata b' = sealed wh ++ d)) as Hsend.
  { intros b1 s1 R1 E1 Hp1 Em Eo. pose proof R1 as [Hw1 _]. wp_steps.
    eapply wp_mono; [by apply wp_put_cksum, plain_header|]. intros b2 ? (-> & R2 & E2). wp_steps. apply wp_output. wp_steps.
    split; [done|]. assert (rewritten b b2) as (Hw2 & I & C & _ & P & _) by (by transitivity b1).
    exists b2. rewrite Em, Eo. split_and!; try done. eapply acct_same_ids; [done | done | exact HA]. }
  assert (forall v, zlen (hnputs v) = 2) as E2 by done.
  unfold wh, whole_header in *. destruct gating; wp_steps.
  - eapply wp_mono; [by apply wp_put_field; [..|apply isbyte_hnputs]|]. intros b1 ? (-> & R1 & E1 & P1). wp_steps. by apply (wp_bind_inv _ _ _ _ (Hsend b1 s R1 E1 P1 eq_refl eq_refl)).
  - unfold next_id4. wp_steps. apply wp_upd_ip. wp_steps.
    eapply wp_mono; [by apply wp_put_field; [..|apply isbyte_hnputs]|]. intros b1 ? (-> & R1 & E1 & P1). wp_steps. pose proof R1 as [Hw1 _].
    eapply wp_mono; [by eapply wp_put_field; [..|apply isbyte_hnputs]|]. intros b2 ? (-> & R2 & D2 & P2). wp_steps. pose proof R2 as [Hw2 _].
    eapply wp_mono; [by eapply wp_put_field; [..|repeat constructor]|]. intros b3 ? (-> & R3 & D3 & P3). 
    wp_steps. assert (rewritten b b3) as R by (transitivity b2; [by transitivity b1 | done]).
    match goal with |- wp _ ?s1 _ => exact (wp_bind_inv _ _ s1 _ (Hsend b3 s1 R D3 P3 eq_refl eq_refl)) end.
Qed.

Lemma out_header_fields gating ttl tos h o n : zlen h = IP4HDR -> 2 <= o -> 0 <= n -> o + n <= o_ttl \/ o_proto <= o ->
  slice o n (out_header gating ttl tos h) = slice o n h.
Proof.
  intros Hl Ho Hn Hd. unfold out_header, o_ttl, o_proto, o_tos, o_vihl, IP4HDR in *. assert (forall v : Z, zlen [v] = 1) as E1 by done.
  assert (forall p v (l : list Z), zlen l = 20 -> 0 <= p < 20 -> o + n <= p \/ p + 1 <= o ->
    zlen (splice p [v] l) = 20 /\ slice o n (splice p [v] l) = slice o n l) as H.
  { intros p v l El Hp Hdis. rewrite zlen_splice by (rewrite ?E1; lia). split; [done|].
    destruct Hdis; [apply slice_splice_before | apply slice_splice_after]; rewrite ?E1; lia. }
  destruct gating; [apply H; lia|].
  destruct (H 0 (Z.lor IP_VER4 IP_HLEN4) h) as [L1 S1]; [lia..|]. destruct (H 8 (u8 ttl) _ L1) as [L2 S2]; [lia..|].
  destruct (H 1 (u8 tos) _ L2) as [_ S3]; [lia..|]. by rewrite S3, S2.
Qed.

Lemma wp_ipoput4_fragments b next gating h len gate i ttl tos mfs F s : sendable b next gating h len gate i ->
  Z.land (byte (slice o_frag 1 h) 0) (Z.shiftr IP_DF 8) = 0 -> IP4HDR + 8 <= media_len i mfs < len ->
  acct ((b :: next) ++ F) (mem s) -> let h' := out_header gating ttl tos h in let seglen := frag_seglen (media_len i mfs) in
  wp (ipoput4 (b :: next) gating ttl tos mfs) s (fun rv s' => rv = 0 /\ exists ds,
    concat ds = slice IP4HDR (len - IP4HDR) (cdata (b :: next)) /\ pieces seglen ds /\
    sent i gate (imap (fun k dk => frag_packet h' (frag_lid gating h s)
      (frag_word seglen (frag_off gating h) (length ds) k) dk) ds) F s s').
Proof.
  intros Hs Hdf Hm HA h' seglen. pose proof (sn_wf _ _ _ _ _ _ _ Hs) as Hw. pose proof Hw as [Hwb Hwn]%Forall_cons.
  pose proof (sn_zlen _ _ _ _ _ _ _ Hs) as Hl. pose proof (sn_max _ _ _ _ _ _ _ Hs) as Hmax.
  pose proof (sn_len _ _ _ _ _ _ _ Hs) as Hlen.
  apply (wp_ipoput4 b next gating h len gate i); [done|]. intros b' d st R Hd Hd'. fold h' in Hd'.
  set (s1 := mkIs _ _ _).
  assert (plain h') as Hh' by (by eapply plain_out_header). pose proof Hh' as (_ & Hlh' & _).
  unfold transmit. destruct (Z.leb_spec len (media_len i mfs)); [lia|]. destruct R as (Hwb' & I & C & _ & P & W).
  pose proof (zlen_bdata b' Hwb') as Hz. rewrite Hd', zlen_app, Hlh' in Hz. pose proof (zlen_nonneg d).
  assert (ztake IP4HDR (bdata b') = h') as Eh by (rewrite Hd', ztake_app_le, ztake_ge by lia; done).
  assert (slice IP4HDR (len - IP4HDR) (cdata (b' :: next)) = slice IP4HDR (len - IP4HDR) (cdata (b :: next))) as Ed.
  { rewrite !cdata_cons, Hd', Hd, <- !app_assoc. unfold slice.
    rewrite (zdrop_app_ge _ h'), (zdrop_app_ge _ h) by lia. by rewrite Hl, Hlh'. }
  assert (len <= zlen (cdata (b :: next))) as Hle by (destruct gating; lia).
  eapply wp_mono; [apply (wp_fragment b' next gating len (media_len i mfs) i gate F s1)|].
  - by constructor.
  - lia.
  - rewrite cdata_cons, zlen_app, Hd', zlen_app, Hlh'. rewrite cdata_cons, zlen_app, Hd, zlen_app, Hl in Hle. lia.
  - by rewrite Eh.
  - rewrite Eh. unfold h'. rewrite out_header_fields; [done | done | done | done | by left].
  - done.
  - eapply acct_same_ids; [done | done | exact HA].
  - intros rv s2 (-> & Hsent). split; [done|]. rewrite Eh, Ed in Hsent.
    assert (0 < seglen) as Hseg by (unfold seglen, frag_seglen; rewrite seglen_8; Z.div_mod_to_equations; lia).
    set (d' := slice IP4HDR (len - IP4HDR) (cdata (b :: next))) in *.
    assert (length d' < S (Z.to_nat (len - IP4HDR)))%nat as Hf.
    { assert (zlen d' = len - IP4HDR) as E by (unfold d'; rewrite zlen_slice; unfold IP4HDR in *; lia). unfold zlen in E. lia. }
    destruct (fragments_imap _ h' (frag_lid gating h' s1) seglen (frag_off gating h') d' Hf Hseg) as (ds & Eds & Hp & Eq).
    exists ds. split; [done|]. split; [exact Hp|].
    assert (frag_lid gating h' s1 = frag_lid gating h s /\ frag_off gating h' = frag_off gating h) as [<- <-].
    { unfold frag_lid, frag_off, h'. rewrite !out_header_fields by (first [done | by left]). done. }
    rewrite <- Eq. exact Hsent.
Qed.

(** Fragment [k] of the data cut into [ds]. *)
Definition fragment_ok (b : Block) (h : list Z) (lid seglen off : Z) (ds : list (list Z)) (k : nat) : Prop :=
  exists dk, ds !! k = Some dk /\ let q := bdata b in
    zdrop IP4HDR q = dk /\ zlen q <= IP4HDR + seglen /\ ipcsum (ztake IP4HDR q) = 0 /\
    nhgets (slice o_length 2 q) = zlen q /\ nhgets (slice o_id 2 q) = u16 lid /\
    nhgets (slice o_frag 2 q) = u16 (frag_word seglen off (length ds) k) /\
    slice o_src 4 q = slice o_src 4 h /\ slice o_dst 4 q = slice o_dst 4 h.

Lemma packet_ok nb h lid seglen off ds k dk : plain h -> pieces seglen ds -> ds !! k = Some dk ->
  IP4HDR + seglen < 2 ^ 16 -> bdata nb = frag_packet h lid (frag_word seglen off (length ds) k) dk ->
  fragment_ok nb h lid seglen off ds k.
Proof.
  intros Hh Hp Hk Hs E. exists dk. split; [done|]. cbv zeta. rewrite E. destruct (Hp k dk Hk) as [Hl _].
  destruct (frag_fields h lid (frag_word seglen off (length ds) k) dk Hh) as (E0 & -> & Ez & E3 & -> & -> & -> & ->).
  rewrite E0, Ez, E3, !nhgets_hnputs'. split_and!; try done; try lia.
  - apply ipcsum_sealed, plain_header, plain_frag, Hh.
  - rewrite u16_small; unfold IP4HDR in *; lia.
Qed.

Lemma whole_header_fields gating ident len h : plain h -> let w := whole_header gating ident len h in
  plain w /\ slice o_length 2 w = hnputs len /\
  slice o_id 2 w = (if gating then slice o_id 2 h else hnputs ident) /\
  slice o_frag 2 w = (if gating then slice o_frag 2 h else [0; 0]) /\
  slice o_src 4 w = slice o_src 4 h /\ slice o_dst 4 w = slice o_dst 4 h.
Proof.
  intros Hh. unfold whole_header. assert (forall v, zlen (hnputs v) = 2) as E2 by done. destruct gating; cbv zeta.
  - split; [by apply plain_splice, isbyte_hnputs|]. split; [by apply slice_plain_same|].
    split_and!; apply (slice_plain _ _ _ _ h); try done; by right.
  - set (h1 := splice o_id _ h). assert (plain h1) as H1 by (by apply plain_splice, isbyte_hnputs).
    set (h2 := splice o_length _ h1). assert (plain h2) as H2 by (by apply plain_splice, isbyte_hnputs).
    split; [apply plain_splice; try done; by repeat constructor|]. split_and!.
    + rewrite (slice_plain _ _ _ _ h2 H2); try done; [|by left]. by apply slice_plain_same.
    + rewrite (slice_plain _ _ _ _ h2 H2); try done; [|by left]. unfold h2.
      rewrite (slice_plain _ _ _ _ h1 H1); try done; [|by right]. by apply slice_plain_same.
    + destruct H2 as (_ & El & _). change 2 with (zlen [0; 0]) at 1. apply slice_splice_same; [done|]. rewrite El. done.
    + rewrite (slice_plain _ _ _ _ h2 H2); try done; [|by right]. unfold h2.
      rewrite (slice_plain _ _ _ _ h1 H1); try done; [|by right]. apply slice_plain; try done. by right.
    + rewrite (slice_plain _ _ _ _ h2 H2); try done; [|by right]. unfold h2.
      rewrite (slice_plain _ _ _ _ h1 H1); try done; [|by right]. apply slice_plain; try done. by right.
Qed.

(** C14: a packet too long for its interface goes out in fragments: consecutive
    pieces of its data, each but the last the same multiple of 8 bytes, each in
    a packet of its own that fits the medium, with the length, the
    identification and the offset and MF bit of its place, the addresses of the
    packet and a checksum that verifies; the packet's blocks are freed. *)
Theorem ipoput4_fragments b next gating h len gate i ttl tos mfs F s : sendable b next gating h len gate i ->
  Z.land (byte (slice o_frag 1 h) 0) (Z.shiftr IP_DF 8) = 0 -> IP4HDR + 8 <= media_len i mfs < len ->
  acct ((b :: next) ++ F) (mem s) ->
  wp (ipoput4 (b :: next) gating ttl tos mfs) s (fun rv s' => rv = 0 /\ exists ds nbs seglen,
    concat ds = slice IP4HDR (len - IP4HDR) (cdata (b :: next)) /\ length nbs = length ds /\
    pieces seglen ds /\ seglen mod 8 = 0 /\ IP4HDR + seglen <= media_len i mfs /\
    outs s' = outs s ++ ((fun nb => ToMedium i [nb] gate) <$> nbs) /\
    Forall wfb nbs /\ acct (nbs ++ F) (mem s') /\
    (forall k nb, nbs !! k = Some nb -> fragment_ok nb h (frag_lid gating h s) seglen (frag_off gating h) ds k)).
Proof.
  intros Hs Hdf Hm HA. eapply wp_mono; [by eapply wp_ipoput4_fragments|].
  intros rv s' (-> & ds & Ed & Hp & (nbs & Hq & Hw & _ & Ho & HA')). split; [done|].
  set (seglen := frag_seglen (media_len i mfs)) in *. exists ds, nbs, seglen.
  assert (seglen mod 8 = 0 /\ IP4HDR + seglen <= media_len i mfs) as [M1 M2].
  { unfold seglen, frag_seglen. rewrite seglen_8. split; [rewrite Z.mul_comm; apply Z.mod_mul; done | Z.div_mod_to_equations; lia]. }
  assert (length nbs = length ds) as Hln by (by rewrite <- (length_fmap bdata nbs), Hq, length_imap).
  split_and!; try done. intros k nb Hk. pose proof (f_equal (fun l => l !! k) Hq) as E. cbn beta in E. rewrite list_lookup_fmap, Hk, list_lookup_imap in E.
  destruct (ds !! k) as [dk|] eqn:Edk; [|done]. injection E as E.
  pose proof (sn_max _ _ _ _ _ _ _ Hs) as Hmax. unfold IP_MAX in Hmax.
  destruct (packet_ok nb (out_header gating ttl tos h) (frag_lid gating h s) seglen (frag_off gating h) ds k dk) as (dk' & Hdk' & Hok); try done; [by eapply plain_out_header | lia|].
  pose proof (sn_zlen _ _ _ _ _ _ _ Hs) as Hl.
  exists dk'. rewrite !out_header_fields in Hok by (first [done | by right]). done.
Qed.

(** A packet that fits its interface goes out in its own block: the
    header completed (a new identification and no fragment field unless it is
    being forwarded), with its length and a checksum that verifies, and the
    data as it was. *)
Theorem ipoput4_whole b gating h len gate i ttl tos mfs F s : sendable b [] gating h len gate i ->
  len <= media_len i mfs -> acct (b :: F) (mem s) ->
  wp (ipoput4 [b] gating ttl tos mfs) s (fun rv s' => rv = 0 /\ exists b',
    outs s' = outs s ++ [ToMedium i [b'] gate] /\ wfb b' /\ acct (b' :: F) (mem s') /\ let q := bdata b' in
    zdrop IP4HDR q = zdrop IP4HDR (bdata b) /\ zlen q = BLEN b /\ ipcsum (ztake IP4HDR q) = 0 /\
    nhgets (slice o_length 2 q) = len /\
    nhgets (slice o_id 2 q) = (if gating then nhgets (slice o_id 2 h) else u16 (s32 (id4 (ip s) + 1))) /\
    nhgets (slice o_frag 2 q) = (if gating then nhgets (slice o_frag 2 h) else 0) /\
    slice o_src 4 q = slice o_src 4 h /\ slice o_dst 4 q = slice o_dst 4 h).
Proof.
  intros Hs Hm HA. pose proof (sn_wf _ _ _ _ _ _ _ Hs) as Hw. pose proof Hw as [Hwb _]%Forall_cons.
  pose proof (sn_zlen _ _ _ _ _ _ _ Hs) as Hl. pose proof (sn_max _ _ _ _ _ _ _ Hs) as Hmax.
  apply (wp_ipoput4 b [] gating h len gate i); [done|]. intros b1 d st R Hd Hd1.
  assert (plain (out_header gating ttl tos h)) as Hh by (by eapply plain_out_header). pose proof Hh as (_ & Hlh & _).
  destruct R as (Hw1 & I & C & _ & P & W). eapply wp_mono; [apply (wp_transmit_whole b1 (out_header gating ttl tos h) d gating len _ i gate F); try done|].
  { eapply acct_same_ids; [done | done | exact HA]. }
  intros rv s' (-> & b' & Hw' & _ & Ho & HA' & E). split; [done|]. exists b'. cbn [ip id4] in E.
  destruct (whole_header_fields gating (s32 (id4 (ip s) + 1)) len _ Hh) as (Hp & F1 & F2 & F3 & F4 & F5).
  set (w := whole_header _ _ _ _) in *. pose proof (plain_sealed w Hp) as (_ & Hls & _).
  assert (zlen (bdata b') = BLEN b) as Ez.
  { rewrite E, zlen_app, Hls, <- (zlen_bdata b Hwb), Hd, zlen_app, Hl. done. }
  cbv zeta. split_and!; try done; rewrite E.
  - rewrite Hd, (zdrop_app_ge _ h), (zdrop_app_ge _ (sealed w)) by lia. by rewrite Hl, Hls.
  - rewrite ztake_app_le, ztake_ge by lia. apply ipcsum_sealed, plain_header, Hp.
  - rewrite slice_head, sealed_fields, F1, nhgets_hnputs' by (first [done | by left]). apply u16_small. unfold IP4HDR, IP_MAX in *. lia.
  - rewrite slice_head, sealed_fields, F2 by (first [done | by left]). rewrite out_header_fields by (first [done | by left]).
    destruct gating; [done | apply nhgets_hnputs'].
  - rewrite slice_head, sealed_fields, F3 by (first [done | by left]). rewrite out_header_fields by (first [done | by left]).
    by destruct gating.
  - rewrite slice_head, sealed_fields, F4 by (first [done | by right]). by apply out_header_fields; try right.
  - rewrite slice_head, sealed_fields, F5 by (first [done | by right]). by apply out_header_fields; try right.
Qed.

(** [c] holds the bytes of packet [j] of [qs], as a medium delivers them. *)
Definition delivered (qs : list (list Z)) (c : Block) (j : nat) : Prop := exists q pad,
  qs !! j = Some q /\ wfb c /\ IPFRAGSZ < rp c /\ bdata c = q ++ pad.
Definition no_queue (k : Z * Z * Z) (s : Is) : Prop := forall f, f ∈ flisthead4 (ip s) -> key f <> k.

Lemma delivered_comes h lid seglen ds c j : plain h -> pieces seglen ds ->
  delivered (packets h lid seglen ds) c j -> comes (marked h lid seglen ds) c j.
Proof.
  intros Hh Hp (q & pad & Hq & Hw & Hr & Hd). exists q, pad.
  split; [unfold marked; by rewrite list_lookup_fmap, Hq|]. split_and!; try done.
  unfold packets in Hq. rewrite list_lookup_imap in Hq. destruct (ds !! j) as [dj|] eqn:E; [|done]. injection Hq as <-.
  destruct (frag_fields h lid (frag_word seglen 0 (length ds) j) dj Hh) as (_ & _ & -> & _). destruct (Hp j dj E). lia.
Qed.

Lemma whole_marked h lid seglen ds : plain h -> pieces seglen ds -> (2 <= length ds)%nat ->
  zdrop IP4HDR (whole (marked h lid seglen ds)) = concat ds.
Proof.
  intros Hh Hp Hn. unfold whole. rewrite (pdata_marked h lid seglen ds Hh Hp).
  destruct (lookup_lt_is_Some_2 (marked h lid seglen ds) 0) as [p Hpk]; [rewrite length_marked; lia|].
  pose proof Hpk as Hpk'. apply marked_lookup in Hpk' as (dk & Hk & ->).
  destruct (frag_fields h lid (frag_word seglen 0 (length ds) 0) dk Hh) as (_ & _ & Ez & _).
  destruct (Hp 0%nat dk Hk) as [? _]. destruct (mark_fields (frag_packet h lid (frag_word seglen 0 (length ds) 0) dk)) as [Em _]; [lia|].
  destruct (marked h lid seglen ds) as [|p ps]; [done|]. injection Hpk as ->. cbn [head default]. unfold Datatypes.id.
  set (t := splice _ _ _). assert (zlen t = IP4HDR) as Et.
  { unfold t. rewrite zlen_splice; [|done|]; rewrite zlen_ztake, Em, Ez; [unfold IP4HDR; lia|].
    change (zlen (hnputs _)) with 2. unfold o_length, IP4HDR. lia. }
  rewrite zdrop_app_ge, Et by lia. by rewrite zdrop_le by lia.
Qed.

(** The receiver's side. *)
Lemma pieces_reassemble h lid seglen ds : plain h -> Forall (Forall isbyte) ds -> 0 < seglen -> seglen mod 8 = 0 ->
  pieces seglen ds -> seglen < zlen (concat ds) -> IP4HDR + zlen (concat ds) < 2 ^ 16 ->
  let k := (nhgetl (slice o_src 4 h), nhgetl (slice o_dst 4 h), u16 lid) in
  let qs := packets h lid seglen ds in
  forall size G l js now c j r, (0 < size)%nat -> pool_ok size ((snd <$> l) ++ c :: G) r -> no_queue k r ->
    Forall2 (delivered qs) (snd <$> l) js -> delivered qs c j -> (j ∉ js) ->
    (forall j', (j' < length qs)%nat -> j' = j \/ j' ∈ js) ->
    wp (receive (l ++ [(now, c)])) r (fun rs r' => exists bl, rs = replicate (length l) None ++ [Some bl] /\
      zdrop IP4HDR (cdata bl) = concat ds /\ Forall wfb bl /\ pool_ok size (bl ++ G) r' /\ no_queue k r').
Proof.
  intros Hh Hb Hs Hm Hp Hl Ht. assert (2 <= length ds)%nat as Hn.
  { destruct ds as [|d0 [|d1 ds]]; [change (zlen (concat [])) with 0 in Hl; lia | | cbn; lia].
    cbn in Hl. rewrite app_nil_r in Hl. destruct (Hp 0%nat d0 eq_refl). lia. }
  pose proof (packets_datagram h lid seglen ds Hh Hb Hs Hm Hp Hn Ht) as DG.
  intros k qs size G l js now c j r Hsz Hpool Hno Hl' Hc Hj Hall.
  eapply wp_mono; [apply (receive_all _ _ _ _ DG size G l now c j js r Hsz Hpool)|].
  - split; [constructor | exact Hno].
  - eapply Forall2_impl; [exact Hl'|]. intros. by apply delivered_comes.
  - by apply delivered_comes.
  - done.
  - intros j'. rewrite length_marked. unfold qs, packets in Hall. rewrite length_imap in Hall. apply Hall.
  - intros rs r' (bl & -> & Hw & E & Hp' & _ & Hno'). exists bl. rewrite E, whole_marked by done. by split_and!.
Qed.

(** C10: what [ipoput4] cuts up, [ip4reassemble] puts together: when every
    fragment of a packet has come, in whatever order and however often, with or
    without padding, the last one to come gives a packet with the data of the
    original and the others give nothing; the queue and every other block are
    freed. *)
Theorem fragments_reassemble b next h len gate i ttl tos mfs F s : sendable b next false h len gate i ->
  Forall isbyte (cdata (b :: next)) ->
  Z.land (byte (slice o_frag 1 h) 0) (Z.shiftr IP_DF 8) = 0 -> IP4HDR + 8 <= media_len i mfs < len ->
  acct ((b :: next) ++ F) (mem s) ->
  wp (ipoput4 (b :: next) false ttl tos mfs) s (fun _ s' => exists nbs,
    outs s' = outs s ++ ((fun nb => ToMedium i [nb] gate) <$> nbs) /\
    let k := (nhgetl (slice o_src 4 h), nhgetl (slice o_dst 4 h), u16 (s32 (id4 (ip s) + 1))) in
    let qs := bdata <$> nbs in
    forall size G l js now c j r, (0 < size)%nat -> pool_ok size ((snd <$> l) ++ c :: G) r -> no_queue k r ->
      Forall2 (delivered qs) (snd <$> l) js -> delivered qs c j -> (j ∉ js) ->
      (forall j', (j' < length qs)%nat -> j' = j \/ j' ∈ js) ->
      wp (receive (l ++ [(now, c)])) r (fun rs r' => exists bl, rs = replicate (length l) None ++ [Some bl] /\
        zdrop IP4HDR (cdata bl) = zdrop IP4HDR (cdata (b :: next)) /\
        Forall wfb bl /\ pool_ok size (bl ++ G) r' /\ no_queue k r')).
Proof.
  intros Hs Hb Hdf Hm HA. eapply wp_mono; [by eapply wp_ipoput4_fragments|].
  intros rv s' (_ & ds & Ed & Hp & (nbs & Hq & _ & _ & Ho & _)). exists nbs. split; [done|].
  set (h' := out_header false ttl tos h) in *. set (seglen := frag_seglen (media_len i mfs)) in *.
  pose proof (sn_zlen _ _ _ _ _ _ _ Hs) as Hl. pose proof (sn_len _ _ _ _ _ _ _ Hs) as Hlen. cbn in Hlen.
  pose proof (sn_max _ _ _ _ _ _ _ Hs) as Hmax. assert (plain h') as Hh by (by eapply plain_out_header).
  assert (concat ds = zdrop IP4HDR (cdata (b :: next))) as Ed'.
  { rewrite Ed. unfold slice. apply ztake_ge. rewrite zlen_zdrop. unfold IP4HDR in *. lia. }
  assert (zlen (concat ds) = len - IP4HDR) as Ez by (rewrite Ed', zlen_zdrop; unfold IP4HDR in *; lia).
  assert (seglen mod 8 = 0 /\ 0 < seglen < len - IP4HDR) as [M1 [M2 M3]].
  { unfold seglen, frag_seglen. rewrite seglen_8. split; [rewrite Z.mul_comm; apply Z.mod_mul; done | Z.div_mod_to_equations; lia]. }
  assert (Forall (Forall isbyte) ds) as Hbd.
  { apply Forall_concat. rewrite Ed'. unfold zdrop. by apply Forall_drop. }
  cbv zeta. rewrite Hq, <- Ed'.
  pose proof (pieces_reassemble h' (frag_lid false h s) seglen ds Hh Hbd M2 M1 Hp ltac:(lia) ltac:(unfold IP_MAX in Hmax; lia)) as H.
  unfold h' in H. rewrite !out_header_fields in H by (first [done | by right]). exact H.
Qed.
End Output.

(** ** Witnesses *)

(** One interface, with room for 46 bytes after its medium's header. *)
Definition demo_iproute : Route := mkRoute 0 Runi 0 (Some 0%nat) [] 1 (mkV4 0 0 []) (mkV6 [] [] []).
#[export] Instance demo_net : Net := {
  v4lookup _ := Some demo_iproute; canrlock _ := true; medium _ := true; maxtu _ := 60; hsize _ := 14;
  reassemble _ := false; ipforme _ := false; has_rcv _ := false
}.

Definition demo_header : list Z := replicate 12 0 ++ [10; 0; 0; 1; 10; 0; 0; 2].
Definition demo_data (n : nat) : list Z := Z.of_nat <$> seq 0 n.
(** A packet of 50 bytes, in two blocks, and one of 30. *)
Definition demo_long : list Block := [demo_block 0 (demo_header ++ demo_data 10); demo_block 1 (demo_data 20)].
Definition demo_short : Block := demo_block 0 (demo_header ++ demo_data 10).

Lemma demo_wf : Forall wfb demo_long.
Proof. repeat apply Forall_cons_2; [..|apply Forall_nil_2]; split; vm_compute; intuition discriminate. Qed.
Lemma demo_bytes : Forall isbyte (cdata demo_long).
Proof. repeat constructor; vm_compute; intuition discriminate. Qed.
Lemma demo_sendable_long : sendable (demo_block 0 (demo_header ++ demo_data 10)) [demo_block 1 (demo_data 20)] false
  demo_header 50 [10; 0; 0; 2] 0.
Proof.
  split; try done; [exact demo_wf | by exists (demo_data 10) | repeat constructor; vm_compute; intuition discriminate |].
  exists demo_iproute. done.
Qed.
Lemma demo_sendable_short : sendable demo_short [] false demo_header 30 [10; 0; 0; 2] 0.
Proof.
  split; try done; [|by exists (demo_data 10) | repeat constructor; vm_compute; intuition discriminate |].
  - pose proof demo_wf as [? _]%Forall_cons. by constructor.
  - exists demo_iproute. done.
Qed.
Lemma demo_long_acct n : n = 2%nat -> acct (demo_long ++ []) (mem (empty_pool n)).
Proof. intros ->. split; reflexivity. Qed.

Lemma ipoput4_fragments_witness :
  wp (ipoput4 demo_long false 64 0 0) (empty_pool 2) (fun rv s' => rv = 0 /\ exists ds nbs seglen : _,
    concat ds = demo_data 10 ++ demo_data 20 /\ outs s' = (fun nb => ToMedium 0 [nb] [10; 0; 0; 2]) <$> nbs /\
    (forall k nb, nbs !! k = Some nb -> fragment_ok nb demo_header 1 seglen 0 ds k)).
Proof.
  eapply wp_mono; [apply (ipoput4_fragments _ _ false demo_header 50 [10; 0; 0; 2] 0 64 0 0 [] (empty_pool 2) demo_sendable_long)|].
  - reflexivity.
  - vm_compute. intuition discriminate.
  - by apply demo_long_acct.
  - intros rv s' (-> & ds & nbs & seglen & Ed & _ & _ & _ & _ & Ho & _ & _ & Hok). split; [reflexivity|].
    exists ds, nbs, seglen. split; [rewrite Ed; reflexivity|]. split; [exact Ho | exact Hok].
Defined.

Lemma ipoput4_whole_witness :
  wp (ipoput4 [demo_short] false 64 0 0) (empty_pool 1) (fun rv s' => rv = 0 /\ exists b',
    outs s' = [ToMedium 0 [b'] [10; 0; 0; 2]] /\ zdrop IP4HDR (bdata b') = demo_data 10 /\
    ipcsum (ztake IP4HDR (bdata b')) = 0 /\ nhgets (slice o_length 2 (bdata b')) = 30).
Proof.
  eapply wp_mono; [apply (ipoput4_whole _ false demo_header 30 [10; 0; 0; 2] 0 64 0 0 [] (empty_pool 1) demo_sendable_short)|].
  - vm_compute. discriminate.
  - split; reflexivity.
  - intros rv s' (-> & b' & Ho & _ & _ & Hd & _ & Hc & Hl & _). split; [reflexivity|]. exists b'.
    split; [exact Ho|]. split; [rewrite Hd; reflexivity|]. split; [exact Hc | exact Hl].
Defined.

Lemma fragments_reassemble_witness :
  wp (ipoput4 demo_long false 64 0 0) (empty_pool 2) (fun _ s' => exists nbs,
    outs s' = (fun nb => ToMedium 0 [nb] [10; 0; 0; 2]) <$> nbs /\
    forall c0 c1 : Block, length nbs = 2%nat -> delivered (bdata <$> nbs) c0 0 -> delivered (bdata <$> nbs) c1 1 ->
      acct [c1; c0] bst2 ->
      wp (receive [(0, c1); (0, c0)]) (empty_pool 2) (fun rs _ => exists bl, rs = [None; Some bl] /\
        zdrop IP4HDR (cdata bl) = demo_data 10 ++ demo_data 20)).
Proof.
  eapply wp_mono; [apply (fragments_reassemble _ _ demo_header 50 [10; 0; 0; 2] 0 64 0 0 [] (empty_pool 2) demo_sendable_long)|].
  - exact demo_bytes.
  - reflexivity.
  - vm_compute. intuition discriminate.
  - by apply demo_long_acct.
  - intros rv s' (nbs & Ho & Hr). exists nbs. split; [exact Ho|]. intros c0 c1 Hn H0 H1 HA.
    eapply wp_mono; [apply (Hr 2%nat [] [(0, c1)] [1%nat] 0 c0 0%nat (empty_pool 2))|]; try done; try lia.
    + split; [reflexivity | constructor | exact HA].
    + intros f Hf. by apply elem_of_nil in Hf.
    + by repeat constructor.
    + intros H. by apply elem_of_cons in H as [?|H%elem_of_nil].
    + rewrite length_fmap, Hn. intros [|[|j]] Hj; [auto | right; left | lia].
    + intros rs r' (bl & -> & Hd & _). exists bl. split; [reflexivity|]. rewrite Hd. reflexivity.
Defined.
