(* ===== verification/Tcptimer.v ===== *)
(** * The TCP timers of ip/tcp.c

    All running timers of all conversations are on one doubly linked list,
    [Tcppriv.timers], under one lock.  The pointers are modelled as they are: a
    heap of timers, whose [next] and [prev] fields are addresses.  [tick] and
    [fire] are the two halves of the body of [tcpackproc]. *)

From stdpp Require Import base list gmap strings.
From Stdlib Require Import ZArith Lia.
From S2P Require Import Prelude.
Open Scope Z_scope.
Open Scope nix_scope.

Inductive Tstate := TcptimerOFF | TcptimerON | TcptimerDONE.
#[export] Instance Tstate_eq_dec : EqDecision Tstate.
Proof. solve_decision. Defined.

Record Tcptimer := mkTimer {
  next : option nat;
  prev : option nat;
  readynext : option nat;
  tstate : Tstate;
  start : Z;
  count : Z
}.

Definition set_next x t := mkTimer x (prev t) (readynext t) (tstate t) (start t) (count t).
Definition set_prev x t := mkTimer (next t) x (readynext t) (tstate t) (start t) (count t).
Definition set_readynext x t := mkTimer (next t) (prev t) x (tstate t) (start t) (count t).
Definition set_tstate x t := mkTimer (next t) (prev t) (readynext t) x (start t) (count t).
Definition set_count x t := mkTimer (next t) (prev t) (readynext t) (tstate t) (start t) x.

(** [Tcppriv]: the timers and the head of the list. *)
Record Tl := mkTl { heap : gmap nat Tcptimer; timers : option nat }.

Definition deref (t : nat) : M Tl Tcptimer := fun s =>
  match heap s !! t with Some x => Ret x s | None => Undef "bad timer"%string end.
Definition assign (t : nat) (g : Tcptimer -> Tcptimer) : M Tl () := fun s =>
  match heap s !! t with
  | Some x => Ret tt (mkTl (<[t := g x]> (heap s)) (timers s))
  | None => Undef "bad timer"%string
  end.
(** [if(p) p->f = v] *)
Definition assign_if (p : option nat) (g : Tcptimer -> Tcptimer) : M Tl () :=
  match p with Some t => assign t g | None => ret tt end.
Definition set_timers (x : option nat) : M Tl () := modify (fun s => mkTl (heap s) x).

Definition timerstate (t : nat) (newstate : Tstate) : M Tl () :=
  (if bool_decide (newstate <> TcptimerON) then
     x <- deref t ;;
     if bool_decide (tstate x = TcptimerON) then
       (* unchain *)
       hd <- gets timers ;;
       (if bool_decide (hd = Some t) then
          set_timers (next x) ;;
          if bool_decide (prev x <> None) then panic "timerstate1"%string else ret tt
        else ret tt) ;;
       assign_if (next x) (set_prev (prev x)) ;;
       assign_if (prev x) (set_next (next x)) ;;
       assign t (fun y => set_prev None (set_next None y))
     else ret tt
   else
     x <- deref t ;;
     if bool_decide (tstate x <> TcptimerON) then
       (* chain *)
       (if bool_decide (prev x <> None \/ next x <> None) then panic "timerstate2"%string else ret tt) ;;
       assign t (set_prev None) ;;
       hd <- gets timers ;;
       assign t (set_next hd) ;;
       assign_if hd (set_prev (Some t)) ;;
       set_timers (Some t)
     else ret tt) ;;
  assign t (set_tstate newstate).

Definition tcpgo (t : option nat) : M Tl () :=
  match t with
  | None => ret tt
  | Some t =>
    x <- deref t ;;
    if start x =? 0 then ret tt
    else assign t (set_count (start x)) ;; timerstate t TcptimerON
  end.

Definition tcphalt (t : option nat) : M Tl () :=
  match t with None => ret tt | Some t => timerstate t TcptimerOFF end.

(** [for(t = priv->timers; t != nil; t = tp)]; [fuel] counts [loop] down. *)
Fixpoint tick_loop (fuel : nat) (t : option nat) (timeo : option nat) : M Tl (option nat) :=
  match t with
  | None => ret timeo
  | Some t =>
    match fuel with
    | O => panic "tcpackproc1"%string
    | S fuel =>
      x <- deref t ;;
      let tp := next x in
      if bool_decide (tstate x = TcptimerON) then
        assign t (set_count (count x - 1)) ;;
        if count x - 1 =? 0 then
          timerstate t TcptimerDONE ;;
          assign t (set_readynext timeo) ;;
          tick_loop fuel tp (Some t)
        else tick_loop fuel tp timeo
      else tick_loop fuel tp timeo
    end
  end.

(** [loop++ > 10000] lets 10001 rounds through. *)
Definition maxloop : nat := Z.to_nat 10001.
Definition tick : M Tl (option nat) :=
  hd <- gets timers ;; tick_loop maxloop hd None.

(** [for(t = timeo; t != nil; t = t->readynext)]; [func] is the routine of the
    timer's protocol, its errors caught. *)
Section Fire.
Context (func : nat -> M Tl ()).
Fixpoint fire_loop (fuel : nat) (t : option nat) : M Tl () :=
  match t with
  | None => ret tt
  | Some t =>
    match fuel with
    | O => panic "tcpackproc2"%string
    | S fuel =>
      x <- deref t ;;
      (if bool_decide (tstate x = TcptimerDONE) then
         fun s => match func t s with Error _ s' => Ret tt s' | o => o end
       else ret tt) ;;
      y <- deref t ;;
      fire_loop fuel (readynext y)
    end
  end.
Definition fire (timeo : option nat) : M Tl () := fire_loop maxloop timeo.
(** One round of [tcpackproc], after its [tsleep]. *)
Definition tcpackproc : M Tl () := timeo <- tick ;; fire timeo.
End Fire.

(** ** The list *)

(** [l] is the list, in order: exactly the running timers. *)
Record linked (l : list nat) (s : Tl) : Prop := {
  l_head : timers s = l !! 0%nat;
  l_nodup : NoDup l;
  l_in : forall i t, l !! i = Some t -> exists x, heap s !! t = Some x /\ tstate x = TcptimerON /\
    next x = l !! S i /\ prev x = match i with O => None | S j => l !! j end;
  l_out : forall t x, heap s !! t = Some x -> t ∉ l ->
    tstate x <> TcptimerON /\ next x = None /\ prev x = None
}.

Lemma wp_deref t s x Q : heap s !! t = Some x -> Q x s -> wp (deref t) s Q.
Proof. intros H HQ. unfold wp, deref. by rewrite H. Qed.
Lemma wp_assign t g s (Q : () -> Tl -> Prop) : is_Some (heap s !! t) ->
  Q tt (mkTl (alter g t (heap s)) (timers s)) -> wp (assign t g) s Q.
Proof.
  intros [x H] HQ. unfold wp, assign. rewrite H. replace (<[t:=g x]> (heap s)) with (alter g t (heap s)); [done|].
  apply map_eq. intros u. destruct (decide (t = u)) as [->|N].
  - by rewrite lookup_alter_eq, lookup_insert_eq, H.
  - by rewrite lookup_alter_ne, lookup_insert_ne.
Qed.
Definition alter_opt (g : Tcptimer -> Tcptimer) (p : option nat) (h : gmap nat Tcptimer) :=
  match p with Some t => alter g t h | None => h end.
Lemma wp_assign_if p g s (Q : () -> Tl -> Prop) : (forall t, p = Some t -> is_Some (heap s !! t)) ->
  Q tt (mkTl (alter_opt g p (heap s)) (timers s)) -> wp (assign_if p g) s Q.
Proof.
  intros H HQ. destruct p as [t|]; [apply wp_assign; [by apply H | done]|].
  apply wp_ret. by destruct s.
Qed.

Lemma lookup_alter_opt g p h u :
  alter_opt g p h !! u = (if bool_decide (p = Some u) then g else id) <$> h !! u.
Proof.
  destruct p as [t|]; cbn [alter_opt].
  - destruct (decide (t = u)) as [->|N].
    + by rewrite bool_decide_eq_true_2, lookup_alter_eq.
    + rewrite bool_decide_eq_false_2 by congruence. rewrite lookup_alter_ne by done. by rewrite option_fmap_id.
  - rewrite bool_decide_eq_false_2 by done. by rewrite option_fmap_id.
Qed.
Lemma alter_is_opt g t (h : gmap nat Tcptimer) : alter g t h = alter_opt g (Some t) h.
Proof. done. Qed.

(** Assigning outside the link fields. *)
Lemma linked_alter l s t g : linked l s ->
  (forall x, next (g x) = next x /\ prev (g x) = prev x) ->
  (forall x, heap s !! t = Some x -> (tstate (g x) = TcptimerON <-> tstate x = TcptimerON)) ->
  linked l (mkTl (alter g t (heap s)) (timers s)).
Proof.
  intros [H1 H2 H3 H4] Hl Hs. split; cbn [heap timers]; [done | done | |].
  - intros i u Hu. destruct (H3 i u Hu) as (y & Hy & ? & ? & ?). destruct (decide (t = u)) as [->|N].
    + exists (g y). rewrite lookup_alter_eq, Hy. destruct (Hl y) as [-> ->]. rewrite (Hs y Hy). done.
    + exists y. by rewrite lookup_alter_ne.
  - intros u y Hu Hn. destruct (decide (t = u)) as [->|N].
    + rewrite lookup_alter_eq in Hu. apply fmap_Some in Hu as (x & Hx & ->).
      destruct (H4 u x Hx Hn) as (? & ? & ?). destruct (Hl x) as [-> ->]. by rewrite (Hs x Hx).
    + rewrite lookup_alter_ne in Hu by done. by eapply H4.
Qed.

(** The heap after [t], with links [n] and [p], is taken out. *)
Definition unchained (new : Tstate) (t : nat) (n p : option nat) (h : gmap nat Tcptimer) :=
  alter_opt (set_tstate new) (Some t) (alter_opt (fun y => set_prev None (set_next None y)) (Some t)
    (alter_opt (set_next n) p (alter_opt (set_prev p) n h))).

Lemma linked_unchained l s i t x new : linked l s -> new <> TcptimerON ->
  l !! i = Some t -> heap s !! t = Some x ->
  linked (delete i l) (mkTl (unchained new t (next x) (prev x) (heap s))
    (if bool_decide (timers s = Some t) then next x else timers s)).
Proof.
  intros [H1 H2 H3 H4] Hnew Hi Hx. destruct (H3 i t Hi) as (x' & Hx' & Hon & Hn & Hp).
  rewrite Hx in Hx'. injection Hx' as <-.
  assert (forall j k u, l !! j = Some u -> l !! k = Some u -> j = k) as Huniq
    by (intros j k u; apply NoDup_lookup; done).
  split; cbn [heap timers].
  - rewrite H1. destruct i as [|i].
    + rewrite Hi, bool_decide_eq_true_2, Hn by done. by rewrite list_lookup_delete_ge by lia.
    + rewrite list_lookup_delete_lt by lia. rewrite bool_decide_eq_false_2; [done|]. intros E.
      by specialize (Huniq _ _ _ E Hi).
  - eapply sublist_NoDup; [exact H2|]. apply sublist_delete.
  - intros j u Hu.
    assert (exists k, l !! k = Some u /\ k = (if decide (j < i)%nat then j else S j)) as (k & Hk & Ek).
    { destruct (decide (j < i)%nat); [exists j; by rewrite list_lookup_delete_lt in Hu |
        exists (S j); by rewrite list_lookup_delete_ge in Hu by lia]. }
    destruct (H3 k u Hk) as (y & Hy & Hyon & Hyn & Hyp).
    assert (u <> t) as Hut by (intros ->; specialize (Huniq _ _ _ Hk Hi); destruct (decide (j < i)%nat); lia).
    unfold unchained. rewrite !lookup_alter_opt, Hy. cbn [fmap option_fmap option_map].
    rewrite (bool_decide_eq_false_2 (Some t = Some u)) by congruence.
    eexists. split; [reflexivity|]. unfold id.
    assert (prev x = Some u <-> S k = i) as Epv.
    { rewrite Hp. split; [|intros <-; done]. destruct i as [|i']; [done|]. intros E.
      specialize (Huniq _ _ _ E Hk). lia. }
    assert (next x = Some u <-> k = S i) as Enx.
    { rewrite Hn. split; [intros E; by apply (Huniq _ _ _ Hk E) | intros <-; done]. }
    rewrite (bool_decide_ext _ _ Epv), (bool_decide_ext _ _ Enx).
    assert ((k < i)%nat /\ j = k \/ (i < k)%nat /\ k = S j) as Hjk.
    { destruct (decide (j < i)%nat); [left; lia | right; lia]. }
    destruct Hjk as [[Hki ->]|[Hki ->]].
    + rewrite (bool_decide_eq_false_2 (k = S i)) by lia.
      destruct (bool_decide_reflect (S k = i)) as [E|E]; cbn [tstate next prev set_next].
      * subst i. rewrite list_lookup_delete_ge by lia. refine (conj Hyon (conj Hn _)).
        rewrite Hyp. destruct k; [done|]. by rewrite list_lookup_delete_lt by lia.
      * rewrite list_lookup_delete_lt by lia. refine (conj Hyon (conj Hyn _)).
        rewrite Hyp. destruct k; [done|]. by rewrite list_lookup_delete_lt by lia.
    + rewrite (bool_decide_eq_false_2 (S (S j) = i)) by lia. rewrite list_lookup_delete_ge by lia.
      destruct (bool_decide_reflect (S j = S i)) as [E|E]; cbn [tstate next prev set_prev].
      * assert (j = i) as -> by lia. refine (conj Hyon (conj Hyn _)). rewrite Hp.
        destruct i; [done|]. by rewrite list_lookup_delete_lt by lia.
      * refine (conj Hyon (conj Hyn _)). rewrite Hyp. destruct j; [lia|]. by rewrite list_lookup_delete_ge by lia.
  - intros u y. unfold unchained. rewrite !lookup_alter_opt. intros (y1 & Hy1 & ->)%fmap_Some Hout.
    apply fmap_Some in Hy1 as (y2 & Hy2 & ->). apply fmap_Some in Hy2 as (y3 & Hy3 & ->).
    apply fmap_Some in Hy3 as (y4 & Hy4 & ->). destruct (decide (u = t)) as [->|N].
    + rewrite bool_decide_eq_true_2 by done. done.
    + assert (u ∉ l) as Hul.
      { intros [k Hk]%list_elem_of_lookup. apply Hout. destruct (decide (k < i)%nat).
        - apply (list_elem_of_lookup_2 _ k). by rewrite list_lookup_delete_lt.
        - assert (k <> i) by (intros ->; congruence). apply (list_elem_of_lookup_2 _ (k - 1)).
          rewrite list_lookup_delete_ge by lia. by replace (S (k - 1)) with k by lia. }
      rewrite (bool_decide_eq_false_2 (Some t = Some u)) by congruence.
      rewrite (bool_decide_eq_false_2 (prev x = Some u)).
      2: { rewrite Hp. destruct i as [|i']; [done|]. intros E. apply Hul. by eapply list_elem_of_lookup_2. }
      rewrite (bool_decide_eq_false_2 (next x = Some u)).
      2: { rewrite Hn. intros E. apply Hul. by eapply list_elem_of_lookup_2. }
      unfold id. by eapply H4.
Qed.

(** The heap after [t] is put in front of [hd]. *)
Definition chained (t : nat) (hd : option nat) (h : gmap nat Tcptimer) :=
  alter_opt (set_tstate TcptimerON) (Some t) (alter_opt (set_prev (Some t)) hd
    (alter_opt (set_next hd) (Some t) (alter_opt (set_prev None) (Some t) h))).

Lemma linked_chained l s t x : linked l s -> heap s !! t = Some x -> tstate x <> TcptimerON ->
  linked (t :: l) (mkTl (chained t (timers s) (heap s)) (Some t)).
Proof.
  intros [H1 H2 H3 H4] Hx Hoff.
  assert (t ∉ l) as Htl.
  { intros [i Hi]%list_elem_of_lookup. destruct (H3 i t Hi) as (y & Hy & Hon & _). congruence. }
  destruct (H4 t x Hx Htl) as (_ & Hxn & Hxp).
  split; cbn [heap timers]; [done | by constructor | |].
  - intros i u Hu. unfold chained. rewrite !lookup_alter_opt.
    destruct i as [|i]; cbn [lookup list_lookup] in Hu.
    + injection Hu as <-. rewrite Hx. cbn [fmap option_fmap option_map].
      rewrite bool_decide_eq_true_2 by done. rewrite (bool_decide_eq_false_2 (timers s = Some t)).
      2: { rewrite H1. intros E. apply Htl. by eapply list_elem_of_lookup_2. }
      eexists. split; [reflexivity|]. cbn. by rewrite H1.
    + destruct (H3 i u Hu) as (y & Hy & Hon & Hn & Hp). rewrite Hy. cbn [fmap option_fmap option_map].
      assert (t <> u) as Htu by (intros ->; apply Htl; by eapply list_elem_of_lookup_2).
      rewrite (bool_decide_eq_false_2 (Some t = Some u)) by congruence. unfold id.
      eexists. split; [reflexivity|]. rewrite H1.
      destruct (bool_decide_reflect (l !! 0%nat = Some u)) as [E|E]; cbn.
      * assert (i = 0%nat) as -> by (eapply NoDup_lookup; done). done.
      * refine (conj Hon (conj Hn _)). rewrite Hp. destruct i; [by destruct E | done].
  - intros u y. unfold chained. rewrite !lookup_alter_opt.
    rewrite not_elem_of_cons. intros (y1 & Hy1 & ->)%fmap_Some [Hut Hul].
    apply fmap_Some in Hy1 as (y2 & Hy2 & ->). apply fmap_Some in Hy2 as (y3 & Hy3 & ->).
    apply fmap_Some in Hy3 as (y4 & Hy4 & ->).
    rewrite (bool_decide_eq_false_2 (Some t = Some u)) by congruence.
    rewrite (bool_decide_eq_false_2 (timers s = Some u)).
    2: { rewrite H1. intros E. apply Hul. by eapply list_elem_of_lookup_2. }
    unfold id. by eapply H4.
Qed.

(** The fields that are not links. *)
Definition data (x : Tcptimer) : Tstate * Z * Z * option nat := (tstate x, start x, count x, readynext x).
Definition data_at (s : Tl) (t : nat) : option (Tstate * Z * Z * option nat) := data <$> heap s !! t.
Definition with_state (new : Tstate) (d : Tstate * Z * Z * option nat) : Tstate * Z * Z * option nat :=
  let '(_, st, c, r) := d in (new, st, c, r).

(** Only the state of [t] changed. *)
Definition restated (t : nat) (new : Tstate) (s s' : Tl) : Prop :=
  forall u, data_at s' u = (if bool_decide (u = t) then with_state new else id) <$> data_at s u.

Definition without (t : nat) (l : list nat) : list nat := filter (fun u => u <> t) l.
Lemma without_notin t l : t ∉ l -> without t l = l.
Proof.
  unfold without. induction l as [|u l IH]; [done|]. rewrite not_elem_of_cons. intros [Hu Hl].
  rewrite filter_cons, decide_True by auto. by rewrite IH.
Qed.
Lemma delete_without l i t : NoDup l -> l !! i = Some t -> delete i l = without t l.
Proof.
  revert i. unfold without. induction l as [|u l IH]; intros i HN Hi.
  { by rewrite lookup_nil in Hi. }
  apply NoDup_cons in HN as [Hu Hl].
  destruct i as [|i]; cbn in Hi.
  - injection Hi as ->. cbn [delete list_delete]. rewrite filter_cons, decide_False by auto.
    symmetry. by apply without_notin.
  - change (delete (S i) (u :: l)) with (u :: delete i l). rewrite (IH i Hl Hi), filter_cons, decide_True; [done|].
    intros ->. apply Hu. by eapply list_elem_of_lookup_2.
Qed.

Lemma linked_in l s t x : linked l s -> heap s !! t = Some x -> (t ∈ l <-> tstate x = TcptimerON).
Proof.
  intros [_ _ H3 H4] Hx. split.
  - intros [i Hi]%list_elem_of_lookup. destruct (H3 i t Hi) as (y & Hy & Hon & _). congruence.
  - intros Hon. destruct (decide (t ∈ l)); [done|]. by destruct (H4 t x Hx n).
Qed.
Lemma linked_is_some l s t : linked l s -> t ∈ l -> is_Some (heap s !! t).
Proof. intros [_ _ H3 _] [i Hi]%list_elem_of_lookup. destruct (H3 i t Hi) as (y & -> & _). eauto. Qed.

(** The list [timerstate] leaves. *)
Definition relist (t : nat) (old new : Tstate) (l : list nat) : list nat :=
  if bool_decide (new = TcptimerON)
  then (if bool_decide (old = TcptimerON) then l else t :: l) else without t l.

Lemma data_set_links x y : data (set_next y x) = data x /\ data (set_prev y x) = data x.
Proof. done. Qed.

Lemma restated_chained t s hd hd' : restated t TcptimerON s (mkTl (chained t hd (heap s)) hd').
Proof.
  intros u. unfold data_at, chained. cbn [heap]. rewrite !lookup_alter_opt.
  destruct (heap s !! u) as [y|]; [|done]. cbn [fmap option_fmap option_map]. f_equal.
  assert (bool_decide (Some t = Some u) = bool_decide (u = t)) as -> by (apply bool_decide_ext; naive_solver).
  destruct (bool_decide (u = t)), (bool_decide (hd = Some u)); done.
Qed.
Lemma restated_unchained new t s n p hd' : restated t new s (mkTl (unchained new t n p (heap s)) hd').
Proof.
  intros u. unfold data_at, unchained. cbn [heap]. rewrite !lookup_alter_opt.
  destruct (heap s !! u) as [y|]; [|done]. cbn [fmap option_fmap option_map]. f_equal.
  assert (bool_decide (Some t = Some u) = bool_decide (u = t)) as -> by (apply bool_decide_ext; naive_solver).
  destruct (bool_decide (u = t)), (bool_decide (n = Some u)), (bool_decide (p = Some u)); done.
Qed.
Lemma restated_alter t new s : restated t new s (mkTl (alter (set_tstate new) t (heap s)) (timers s)).
Proof.
  intros u. unfold data_at. cbn [heap]. rewrite alter_is_opt, lookup_alter_opt.
  destruct (heap s !! u) as [y|]; [|done]. cbn [fmap option_fmap option_map]. f_equal.
  assert (bool_decide (Some t = Some u) = bool_decide (u = t)) as -> by (apply bool_decide_ext; naive_solver).
  by destruct (bool_decide (u = t)).
Qed.

Lemma alter_opt_some g p t (h : gmap nat Tcptimer) : is_Some (h !! t) -> is_Some (alter_opt g p h !! t).
Proof. rewrite lookup_alter_opt. intros [x ->]. eauto. Qed.

(** [timerstate] keeps the list equal to the running timers; no panic is reachable. *)
Lemma timerstate_keeps l s t x new : linked l s -> heap s !! t = Some x ->
  wp (timerstate t new) s (fun _ s' =>
    linked (relist t (tstate x) new l) s' /\ restated t new s s').
Proof.
  intros Hl Hx. pose proof Hl as [H1 H2 H3 H4]. unfold timerstate, relist. apply wp_bind.
  destruct (bool_decide_reflect (new = TcptimerON)) as [En|En].
  - rewrite bool_decide_eq_false_2 by (by intros ?). subst new.
    apply wp_bind. eapply wp_deref; [done|].
    destruct (bool_decide_reflect (tstate x = TcptimerON)) as [Eon|Eoff].
    + rewrite bool_decide_eq_false_2 by auto. apply wp_ret. apply wp_assign; [eauto|].
      split; [|apply restated_alter]. apply linked_alter; [done | done |]. intros y Hy.
      assert (y = x) as -> by congruence. done.
    + rewrite bool_decide_eq_true_2 by done.
      assert (t ∉ l) as Htl by (rewrite (linked_in l s t x) by done; done).
      destruct (H4 t x Hx Htl) as (_ & Hxn & Hxp).
      rewrite bool_decide_eq_false_2 by (rewrite Hxn, Hxp; intros [?|?]; done).
      assert (forall u, timers s = Some u -> is_Some (heap s !! u)) as Hhd.
      { rewrite H1. intros u Hu. eapply linked_is_some; [done | by eapply list_elem_of_lookup_2]. }
      wp_steps. apply wp_assign; [eauto|]. wp_steps. rewrite !alter_is_opt.
      apply wp_assign; [apply alter_opt_some; eauto|]. wp_steps.
      apply wp_assign_if; [intros u Hu; cbn [heap]; rewrite alter_is_opt; do 2 apply alter_opt_some; auto|].
      wp_steps. apply wp_assign; [cbn [heap]; rewrite alter_is_opt; do 3 apply alter_opt_some; eauto|].
      cbn [heap timers]. rewrite !alter_is_opt. fold (chained t (timers s) (heap s)).
      split; [by eapply linked_chained | apply restated_chained].
  - rewrite bool_decide_eq_true_2 by done. apply wp_bind. eapply wp_deref; [done|].
    destruct (bool_decide_reflect (tstate x = TcptimerON)) as [Eon|Eoff].
    + assert (t ∈ l) as [i Hi]%list_elem_of_lookup by (by apply (linked_in l s t x)).
      destruct (H3 i t Hi) as (y & Hy & _ & Hn & Hp). assert (y = x) as -> by congruence.
      assert (forall u, next x = Some u -> is_Some (heap s !! u)) as Hnx.
      { rewrite Hn. intros u Hu. eapply linked_is_some; [done | by eapply list_elem_of_lookup_2]. }
      assert (forall u, prev x = Some u -> is_Some (heap s !! u)) as Hpx.
      { rewrite Hp. destruct i; [done|]. intros u Hu. eapply linked_is_some; [done | by eapply list_elem_of_lookup_2]. }
      pose proof (linked_unchained l s i t x new Hl En Hi Hx) as Hfin.
      rewrite (delete_without l i t H2 Hi) in Hfin.
      assert (forall hd', (if bool_decide (timers s = Some t) then next x else timers s) = hd' ->
        wp (assign_if (next x) (set_prev (prev x)) ;; assign_if (prev x) (set_next (next x)) ;;
            assign t (fun y => set_prev None (set_next None y))) (mkTl (heap s) hd')
          (fun _ s' => wp (assign t (set_tstate new)) s' (fun _ s'' =>
            linked (without t l) s'' /\ restated t new s s''))) as Hrest.
      { intros hd' E. wp_steps. apply wp_assign_if; [done|]. wp_steps.
        apply wp_assign_if; [intros u Hu; by apply alter_opt_some, Hpx|]. wp_steps.
        apply wp_assign; [do 2 apply alter_opt_some; eauto|].
        apply wp_assign; [cbn [heap]; rewrite alter_is_opt; do 3 apply alter_opt_some; eauto|].
        cbn [heap timers]. rewrite !alter_is_opt. fold (unchained new t (next x) (prev x) (heap s)).
        rewrite <- E. split; [exact Hfin | apply restated_unchained]. }
      wp_steps. destruct (bool_decide_reflect (timers s = Some t)) as [Eh|Eh].
      * wp_steps. unfold set_timers. wp_steps. rewrite bool_decide_eq_false_2; [by apply Hrest|].
        rewrite Hp. destruct i; [by intros ?|]. rewrite H1 in Eh. intros _.
        assert (0%nat = S i) by (by eapply NoDup_lookup). done.
      * apply wp_ret. replace s with (mkTl (heap s) (timers s)) by (by destruct s). by apply Hrest.
    + apply wp_ret. apply wp_assign; [eauto|]. rewrite without_notin by (by rewrite (linked_in l s t x)).
      split; [|apply restated_alter]. apply linked_alter; [done | done |]. intros y Hy.
      assert (y = x) as -> by congruence. cbn. tauto.
Qed.

(** ** A tick *)

Definition core_at (s : Tl) (t : nat) : option (Tstate * Z * Z) :=
  (fun x => (tstate x, start x, count x)) <$> heap s !! t.

(** The timers found expired, chained by [readynext] from [p]. *)
Fixpoint rchain (s : Tl) (p : option nat) (r : list nat) : Prop :=
  match r with
  | [] => p = None
  | t :: r => p = Some t /\ exists x, heap s !! t = Some x /\ rchain s (readynext x) r
  end.

Lemma rchain_ext s s' p r :
  (forall t, t ∈ r -> readynext <$> heap s' !! t = readynext <$> heap s !! t) -> rchain s p r -> rchain s' p r.
Proof.
  revert p. induction r as [|t r IH]; intros p H; [done|]. cbn [rchain]. intros (-> & x & Hx & Hr).
  split; [done|]. pose proof (H t ltac:(by left)) as E. rewrite Hx in E.
  apply fmap_Some in E as (y & Hy & E). exists y. split; [done|]. rewrite <- E.
  apply IH; [|done]. intros u Hu. apply H. by right.
Qed.

(** What one round makes of a running timer whose count was [c]. *)
Definition ticked (c : Z) (d : Tstate * Z * Z) : Tstate * Z * Z :=
  let '(_, st, _) := d in (if c =? 1 then TcptimerDONE else TcptimerON, st, c - 1).

Lemma restated_fields t new s s' u : restated t new s s' ->
  (readynext <$> heap s' !! u = readynext <$> heap s !! u) /\
  core_at s' u = (if bool_decide (u = t) then fun '(_, st, c) => (new, st, c) else id) <$> core_at s u.
Proof.
  intros H. specialize (H u). unfold data_at, core_at, data in *.
  destruct (heap s' !! u) as [x'|], (heap s !! u) as [x|]; try done.
  cbn [fmap option_fmap option_map] in *. destruct (bool_decide (u = t)); unfold with_state, id in H;
    injection H as -> -> -> ->; done.
Qed.

Lemma tick_loop_spec (c : nat -> Z) fuel : forall dn r timeo rl s,
  linked (dn ++ r) s -> (length r <= fuel)%nat -> rchain s timeo rl ->
  (forall t, t ∈ r -> t ∉ rl) ->
  (forall t, t ∈ r -> count <$> heap s !! t = Some (c t)) ->
  wp (tick_loop fuel (r !! 0%nat) timeo) s (fun out s' =>
    linked (dn ++ filter (fun t => c t <> 1) r) s' /\
    rchain s' out (rev (filter (fun t => c t = 1) r) ++ rl) /\
    forall u, core_at s' u = (if bool_decide (u ∈ r) then ticked (c u) else id) <$> core_at s u).
Proof.
  induction fuel as [|fuel IH]; intros dn r timeo rl s Hl Hf Hr Hd Hc.
  { destruct r; [|cbn in Hf; lia]. apply wp_ret. refine (conj _ (conj Hr _)); [done|].
    intros u. by rewrite bool_decide_eq_false_2, option_fmap_id by apply not_elem_of_nil. }
  destruct r as [|t r]; cbn [lookup list_lookup tick_loop].
  { apply wp_ret. refine (conj _ (conj Hr _)); [done|].
    intros u. by rewrite bool_decide_eq_false_2, option_fmap_id by apply not_elem_of_nil. }
  pose proof Hl as [_ HN H3 _]. destruct (H3 (length dn) t) as (x & Hx & Hon & Hn & _).
  { by rewrite list_lookup_middle. }
  assert (next x = r !! 0%nat) as Enx.
  { rewrite Hn, cons_middle, app_assoc, lookup_app_r by (rewrite length_app; cbn; lia).
    rewrite length_app. cbn [length]. f_equal. lia. }
  assert (t ∉ dn ++ r) as Htn by (rewrite <- Permutation_middle in HN; by apply NoDup_cons in HN as [? _]).
  pose proof Htn as Htn'. rewrite elem_of_app in Htn'.
  pose proof (Hc t ltac:(by left)) as Ect. rewrite Hx in Ect. injection Ect as Ect.
  apply wp_bind. eapply wp_deref; [done|]. rewrite bool_decide_eq_true_2 by done.
  apply wp_bind. apply wp_assign; [eauto|]. set (s1 := mkTl (alter (set_count (count x - 1)) t (heap s)) (timers s)).
  assert (linked (dn ++ t :: r) s1) as Hl1 by (by apply linked_alter).
  assert (forall u, u <> t -> heap s1 !! u = heap s !! u) as Hne by (intros u Hu; cbn; by rewrite lookup_alter_ne).
  assert (heap s1 !! t = Some (set_count (count x - 1) x)) as Hx1 by (cbn; by rewrite lookup_alter_eq, Hx).
  rewrite Enx, Ect. rewrite !filter_cons.
  destruct (Z.eqb_spec (c t - 1) 0) as [E1|E1].
  - rewrite (decide_False (P := c t <> 1)) by lia. rewrite (decide_True (P := c t = 1)) by lia.
    apply wp_bind. eapply wp_mono; [by eapply timerstate_keeps|]. cbv beta. intros _ s2 [Hl2 Hres].
    unfold relist in Hl2. rewrite bool_decide_eq_false_2 in Hl2 by done.
    unfold without in Hl2. rewrite filter_app, filter_cons, decide_False in Hl2 by auto.
    fold (without t dn) (without t r) in Hl2. rewrite !without_notin in Hl2 by tauto.
    assert (forall u, (readynext <$> heap s2 !! u = readynext <$> heap s1 !! u) /\
      core_at s2 u = (if bool_decide (u = t) then fun '(_, st, c) => (TcptimerDONE, st, c) else id) <$> core_at s1 u) as Hflds
      by (intros u; by apply restated_fields).
    assert (is_Some (heap s2 !! t)) as [x2 Hx2].
    { destruct (Hflds t) as [E _]. rewrite Hx1 in E. destruct (heap s2 !! t); [eauto | done]. }
    apply wp_bind. apply wp_assign; [eauto|].
    set (s3 := mkTl (alter (set_readynext timeo) t (heap s2)) (timers s2)).
    assert (forall u, core_at s3 u = core_at s2 u) as Hc3.
    { intros u. unfold core_at, s3. cbn. destruct (decide (u = t)) as [->|N];
        [by rewrite lookup_alter_eq, Hx2 | by rewrite lookup_alter_ne]. }
    eapply wp_mono; [apply (IH dn r (Some t) (t :: rl) s3)|].
    + by apply linked_alter.
    + cbn in Hf. lia.
    + cbn [rchain]. split; [done|]. exists (set_readynext timeo x2). cbn.
      rewrite lookup_alter_eq, Hx2. split; [done|]. eapply rchain_ext; [|exact Hr].
      intros u Hu. assert (u <> t) by (intros ->; by apply (Hd t); [left|]).
      cbn. rewrite lookup_alter_ne by done. destruct (Hflds u) as [-> _]. by rewrite Hne.
    + intros u Hu. rewrite not_elem_of_cons. split; [intros ->; tauto | apply Hd; by right].
    + intros u Hu. assert (u <> t) by (intros ->; tauto).
      assert (core_at s3 u = core_at s u) as Ec.
      { rewrite Hc3. destruct (Hflds u) as [_ ->]. rewrite bool_decide_eq_false_2, option_fmap_id by done.
        unfold core_at. by rewrite Hne. }
      pose proof (Hc u ltac:(by right)) as Hcu. unfold core_at in Ec.
      destruct (heap s3 !! u), (heap s !! u); try done. cbn in *. injection Ec as _ _ ->. done.
    + cbv beta. intros out s' (Hl' & Hr' & Hu'). refine (conj Hl' (conj _ _)).
      { cbn [rev]. by rewrite <- app_assoc. }
      intros u. rewrite Hu', Hc3. destruct (Hflds u) as [_ ->]. unfold core_at.
      destruct (decide (u = t)) as [->|N].
      * rewrite (bool_decide_eq_false_2 (t ∈ r)) by tauto. rewrite !bool_decide_eq_true_2 by (done || by left).
        rewrite Hx1, Hx. cbn. rewrite Ect. destruct (Z.eqb_spec (c t) 1); [done | lia].
      * rewrite (bool_decide_eq_false_2 (u = t)), option_fmap_id, Hne by done.
        f_equal. rewrite (bool_decide_ext (u ∈ t :: r) (u ∈ r)); [done|]. rewrite elem_of_cons. tauto.
  - rewrite (decide_True (P := c t <> 1)) by lia. rewrite (decide_False (P := c t = 1)) by lia.
    eapply wp_mono; [apply (IH (dn ++ [t]) r timeo rl s1)|].
    + by rewrite <- app_assoc.
    + cbn in Hf. lia.
    + eapply rchain_ext; [|exact Hr]. intros u Hu. destruct (decide (u = t)) as [->|N]; [by rewrite Hx1, Hx | by rewrite Hne].
    + intros u Hu. apply Hd. by right.
    + intros u Hu. assert (u <> t) by (intros ->; tauto). rewrite Hne by done. apply Hc. by right.
    + cbv beta. intros out s' (Hl' & Hr' & Hu'). rewrite <- app_assoc in Hl'. refine (conj Hl' (conj Hr' _)).
      intros u. rewrite Hu'. unfold core_at. destruct (decide (u = t)) as [->|N].
      * rewrite (bool_decide_eq_false_2 (t ∈ r)) by tauto. rewrite bool_decide_eq_true_2 by (by left).
        rewrite Hx1, Hx. cbn. rewrite Ect, Hon. destruct (Z.eqb_spec (c t) 1); [lia | done].
      * rewrite Hne by done. f_equal. rewrite (bool_decide_ext (u ∈ t :: r) (u ∈ r)); [done|].
        rewrite elem_of_cons. tauto.
Qed.

Definition cnt (s : Tl) (t : nat) : Z := default 0 (count <$> heap s !! t).

Lemma tick_spec l s : linked l s -> (length l <= maxloop)%nat ->
  wp tick s (fun out s' =>
    linked (filter (fun t => cnt s t <> 1) l) s' /\
    rchain s' out (rev (filter (fun t => cnt s t = 1) l)) /\
    forall u, core_at s' u = (if bool_decide (u ∈ l) then ticked (cnt s u) else id) <$> core_at s u).
Proof.
  intros Hl Hlen. unfold tick. wp_steps. rewrite (l_head _ _ Hl).
  eapply wp_mono; [apply (tick_loop_spec (cnt s) maxloop [] l None [] s); try done|].
  - intros t _. apply not_elem_of_nil.
  - intros t Ht. destruct (linked_is_some l s t Hl Ht) as [x Hx]. unfold cnt. by rewrite Hx.
  - cbv beta. intros out s' (H1 & H2 & H3). by rewrite app_nil_r in H2.
Qed.

(** *** The operations on the list *)

Inductive TimerOp := Go (t : nat) | Halt (t : nat) | Tick.
Definition run_timer (o : TimerOp) : M Tl () :=
  match o with Go t => tcpgo (Some t) | Halt t => tcphalt (Some t) | Tick => tick ;; ret tt end.

Definition timer_op_list (o : TimerOp) (s : Tl) (l : list nat) : list nat :=
  match o with
  | Go t => if default 0 (start <$> heap s !! t) =? 0 then l else if bool_decide (t ∈ l) then l else t :: l
  | Halt t => without t l
  | Tick => filter (fun t => cnt s t <> 1) l
  end.
Definition timer_op_ok (o : TimerOp) (s : Tl) : Prop :=
  match o with Go t | Halt t => is_Some (heap s !! t) | Tick => True end.

Lemma tcpgo_spec l s t x : linked l s -> heap s !! t = Some x ->
  wp (tcpgo (Some t)) s (fun _ s' =>
    if start x =? 0 then s' = s
    else linked (if bool_decide (t ∈ l) then l else t :: l) s' /\
      core_at s' t = Some (TcptimerON, start x, start x) /\
      forall u, u <> t -> core_at s' u = core_at s u).
Proof.
  intros Hl Hx. unfold tcpgo. apply wp_bind. eapply wp_deref; [done|].
  destruct (start x =? 0); [by apply wp_ret|]. apply wp_bind. apply wp_assign; [eauto|].
  set (s1 := mkTl _ _). assert (linked l s1) as Hl1 by (by apply linked_alter).
  assert (heap s1 !! t = Some (set_count (start x) x)) as Hx1 by (cbn; by rewrite lookup_alter_eq, Hx).
  eapply wp_mono; [by eapply timerstate_keeps|]. cbv beta. intros _ s' [Hl' Hres].
  assert (relist t (tstate x) TcptimerON l = if bool_decide (t ∈ l) then l else t :: l) as E.
  { unfold relist. rewrite bool_decide_eq_true_2 by done.
    by rewrite (bool_decide_ext _ _ (linked_in l s t x Hl Hx)). }
  cbn [tstate set_count] in Hl'. rewrite E in Hl'. refine (conj Hl' (conj _ _)).
  - destruct (restated_fields _ _ _ _ t Hres) as [_ ->]. rewrite bool_decide_eq_true_2 by done.
    unfold core_at. by rewrite Hx1.
  - intros u Hu. destruct (restated_fields _ _ _ _ u Hres) as [_ ->].
    rewrite bool_decide_eq_false_2, option_fmap_id by done. unfold core_at, s1. cbn. by rewrite lookup_alter_ne.
Qed.

(** C16: starting, halting and ticking keep the doubly linked list exact: it
    holds the running timers and no others, each once, with both links right,
    and a timer off the list has none.  No panic of [timerstate] or of the
    counting loop is reachable with at most 10001 running timers. *)
Theorem timer_list_is_running_timers o l s :
  linked l s -> timer_op_ok o s -> (length l <= maxloop)%nat ->
  wp (run_timer o) s (fun _ s' => linked (timer_op_list o s l) s').
Proof.
  intros Hl Ho Hlen. destruct o as [t|t|]; cbn [run_timer timer_op_list timer_op_ok] in *.
  - destruct Ho as [x Hx]. rewrite Hx. cbn [fmap option_fmap option_map default from_option id].
    eapply wp_mono; [by apply (tcpgo_spec l s t x)|]. cbv beta. intros _ s'.
    destruct (start x =? 0); [by intros -> | by intros [? _]].
  - destruct Ho as [x Hx]. eapply wp_mono; [by eapply timerstate_keeps|]. cbv beta. by intros _ s' [? _].
  - apply wp_bind. eapply wp_mono; [by apply tick_spec|]. cbv beta. intros out s' [? _]. by apply wp_ret.
Qed.

(** *** A started timer *)

(** [k] rounds; the result is the last round's chain of expired timers. *)
Fixpoint ticks (k : nat) : M Tl (option nat) :=
  match k with O => ret None | S k => ticks k ;; tick end.

Lemma ticks_spec l s t n k : linked l s -> (length l <= maxloop)%nat -> t ∈ l ->
  core_at s t = Some (TcptimerON, n, n) -> Z.of_nat k <= n -> 0 < n ->
  wp (ticks k) s (fun out s' => exists l' r,
    linked l' s' /\ (length l' <= length l)%nat /\ rchain s' out r /\
    (Z.of_nat k < n -> t ∈ l' /\ (t ∉ r) /\ core_at s' t = Some (TcptimerON, n, n - Z.of_nat k)) /\
    (Z.of_nat k = n -> (t ∉ l') /\ t ∈ r /\ core_at s' t = Some (TcptimerDONE, n, 0))).
Proof.
  intros Hl Hlen Ht Hc. induction k as [|k IH]; intros Hk Hn; cbn [ticks].
  { apply wp_ret. exists l, []. refine (conj Hl (conj (le_n _) (conj eq_refl (conj _ _)))); [|intros E; exfalso; cbn in E; lia].
    intros _. rewrite Z.sub_0_r. split; [done|]. split; [apply not_elem_of_nil | done]. }
  apply wp_bind. eapply wp_mono; [apply IH; lia|]. cbv beta.
  intros out s1 (l1 & r1 & Hl1 & Hlen1 & _ & Hrun & _). destruct (Hrun ltac:(lia)) as (Ht1 & _ & Hc1).
  eapply wp_mono; [apply (tick_spec l1); [done | lia]|]. cbv beta. intros out' s2 (Hl2 & Hr2 & Hu2).
  assert (cnt s1 t = n - Z.of_nat k) as Ecnt.
  { unfold cnt, core_at in *. destruct (heap s1 !! t); [|done]. cbn in *. by injection Hc1 as _ _ ->. }
  exists (filter (fun t => cnt s1 t <> 1) l1), (rev (filter (fun t => cnt s1 t = 1) l1)).
  refine (conj Hl2 (conj _ (conj Hr2 _))).
  { etransitivity; [apply length_filter | done]. }
  specialize (Hu2 t). rewrite bool_decide_eq_true_2, Hc1 in Hu2 by done.
  assert (t ∈ rev (filter (fun t => cnt s1 t = 1) l1) <-> cnt s1 t = 1) as Er.
  { rewrite list_elem_of_In, <- in_rev, <- list_elem_of_In, list_elem_of_filter. tauto. }
  rewrite list_elem_of_filter, Er, Hu2, Ecnt. cbn [fmap option_fmap option_map ticked].
  split; intros H.
  - destruct (Z.eqb_spec (n - Z.of_nat k) 1); [lia|]. split; [split; [lia | done]|]. split; [lia|].
    by replace (n - Z.of_nat (S k)) with (n - Z.of_nat k - 1) by lia.
  - destruct (Z.eqb_spec (n - Z.of_nat k) 1); [|lia]. split; [intros [? _]; lia|]. split; [lia|].
    by replace (n - Z.of_nat k - 1) with 0 by lia.
Qed.

(** A timer started for [n] rounds and left alone is still running, with
    its count right, after each of the first [n - 1], and it is among those the
    [n]-th round hands over to be called, done and off the list. *)
Theorem timer_fires_on_time l s t x k :
  linked l s -> heap s !! t = Some x -> 0 < start x -> (length l < maxloop)%nat ->
  Z.of_nat k <= start x ->
  wp (tcpgo (Some t) ;; ticks k) s (fun out s' => exists l' r,
    linked l' s' /\ rchain s' out r /\
    (Z.of_nat k < start x -> t ∈ l' /\ (t ∉ r) /\
       core_at s' t = Some (TcptimerON, start x, start x - Z.of_nat k)) /\
    (Z.of_nat k = start x -> (t ∉ l') /\ t ∈ r /\ core_at s' t = Some (TcptimerDONE, start x, 0))).
Proof.
  intros Hl Hx Hs Hlen Hk. apply wp_bind. eapply wp_mono; [by apply (tcpgo_spec l s t x)|].
  cbv beta. intros _ s1. destruct (Z.eqb_spec (start x) 0); [lia|]. intros (Hl1 & Hc1 & _).
  eapply wp_mono; [eapply (ticks_spec _ s1 t (start x) k); try done|].
  - destruct (bool_decide (t ∈ l)); cbn [length]; lia.
  - destruct (bool_decide_reflect (t ∈ l)); [done | by left].
  - cbv beta. intros out s' (l' & r & ? & _ & ? & ? & ?). by exists l', r.
Qed.

(** *** Calling the expired timers *)

Section FireSpec.
Context (func : nat -> M Tl ()).
(** The routine of a timer leaves the chain of expired timers alone. *)
Definition keeps_ready : Prop := forall t s,
  match func t s with
  | Ret _ s' | Error _ s' => forall u, readynext <$> heap s' !! u = readynext <$> heap s !! u
  | _ => True
  end.
Context (Hfunc : keeps_ready).

(** Call one timer, if it is still done, and go on whatever it raises. *)
Definition call (t : nat) : M Tl () :=
  x <- deref t ;;
  if bool_decide (tstate x = TcptimerDONE) then
    fun s => match func t s with Error _ s' => Ret tt s' | o => o end
  else ret tt.
Fixpoint calls (r : list nat) : M Tl () :=
  match r with [] => ret tt | t :: r => call t ;; calls r end.

Lemma fire_loop_calls fuel p r s : rchain s p r -> (length r <= fuel)%nat ->
  fire_loop func fuel p s = calls r s.
Proof.
  revert p r s. induction fuel as [|fuel IH]; intros p r s Hr Hf;
    destruct r as [|t r]; cbn [rchain length] in *; try lia; try (by subst p).
  destruct Hr as (-> & x & Hx & Hr). cbn [fire_loop calls]. unfold call, bind, deref at 1 3. rewrite Hx.
  destruct (bool_decide (tstate x = TcptimerDONE)).
  - pose proof (Hfunc t s) as Hk.
    assert (forall s', (forall u, readynext <$> heap s' !! u = readynext <$> heap s !! u) ->
      match deref t s' with
      | Ret a s'0 => fire_loop func fuel (readynext a) s'0
      | Error e s'0 => Error e s'0
      | Panic msg => Panic msg
      | Undef msg => Undef msg
      end = calls r s') as Hgo.
    { intros s' Hs'. pose proof (Hs' t) as E. rewrite Hx in E. apply fmap_Some in E as (y & Hy & E).
      unfold deref. rewrite Hy, <- E. apply IH; [|lia]. eapply rchain_ext; [|exact Hr]. intros u _. apply Hs'. }
    destruct (func t s) as [[] s'|e s'|msg|msg]; [by apply Hgo | by apply Hgo | done | done].
  - unfold ret, deref. rewrite Hx. apply IH; [done | lia].
Qed.

(** One round of [tcpackproc] ticks every running timer and then calls,
    once each and in turn, exactly those that expired and are still done when
    their turn comes, whatever errors the calls raise. *)
Theorem tcpackproc_calls_expired l s :
  linked l s -> (length l <= maxloop)%nat ->
  tcpackproc func s = (tick ;; calls (rev (filter (fun t => cnt s t = 1) l))) s.
Proof.
  intros Hl Hlen. unfold tcpackproc. pose proof (tick_spec l s Hl Hlen) as Ht. unfold wp, bind in *.
  destruct (tick s) as [out s'| | |]; try done. destruct Ht as (_ & Hr & _).
  unfold fire. apply fire_loop_calls; [done|]. rewrite length_rev.
  etransitivity; [apply length_filter | done].
Qed.
End FireSpec.

(** ** Instances *)

Definition demo_timer (n : option nat) (p : option nat) (c : Z) : Tcptimer := mkTimer n p None TcptimerON 9 c.
Definition tl2 : Tl := mkTl
  (<[0%nat := demo_timer (Some 1%nat) None 1]> (<[1%nat := demo_timer None (Some 0%nat) 4]>
    (<[2%nat := mkTimer None None None TcptimerOFF 3 0]> ∅))) (Some 0%nat).

Lemma linked_tl2 : linked [0%nat; 1%nat] tl2.
Proof.
  split.
  - done.
  - apply (bool_decide_unpack _). by vm_compute.
  - intros [|[|i]] t H; cbn in H; [injection H as <- | injection H as <- | done]; eexists; done.
  - intros t x H. unfold tl2, heap in H. rewrite !lookup_insert_Some, lookup_empty in H.
    intros Ht. destruct H as [[<- <-]|[_ [[<- <-]|[_ [[<- <-]|[_ H]]]]]]; [| | |done].
    + exfalso. apply Ht. by left.
    + exfalso. apply Ht. right. by left.
    + done.
Qed.

Lemma timer_list_is_running_timers_witness :
  wp (run_timer (Go 2)) tl2 (fun _ s' => linked [2%nat; 0%nat; 1%nat] s').
Proof.
  exact (timer_list_is_running_timers (Go 2) [0%nat; 1%nat] tl2 linked_tl2
    (ex_intro _ _ eq_refl) (proj1 (Nat.leb_le 2 maxloop) eq_refl)).
Defined.
Lemma timer_fires_on_time_witness :
  wp (tcpgo (Some 2%nat) ;; ticks 3) tl2 (fun out s' => exists l' r,
    linked l' s' /\ rchain s' out r /\ (2%nat ∉ l') /\ 2%nat ∈ r).
Proof.
  eapply wp_mono.
  - exact (timer_fires_on_time [0%nat; 1%nat] tl2 2 _ 3 linked_tl2 eq_refl eq_refl
      (proj1 (Nat.ltb_lt 2 maxloop) eq_refl) (Z.le_refl 3)).
  - cbv beta. intros out s' (l' & r & H1 & H2 & _ & H3). exists l', r.
    refine (conj H1 (conj H2 _)). destruct (H3 eq_refl) as (H4 & H5 & _). exact (conj H4 H5).
Defined.
Lemma tcpackproc_calls_expired_witness :
  tcpackproc (fun t => error "timeout"%string) tl2 = (tick ;; calls (fun t => error "timeout"%string) [0%nat]) tl2.
Proof.
  refine (tcpackproc_calls_expired (fun t => error "timeout"%string) _ [0%nat; 1%nat] tl2 linked_tl2
    (proj1 (Nat.leb_le 2 maxloop) eq_refl)).
  intros t s u. reflexivity.
Defined.
