(* ===== verification/Tcp.v ===== *)
(** * The receive side of ip/tcp.c

    Sequence arithmetic, the trimming of a segment to the receive window
    ([tcptrim]), the resequencing queue ([addreseq], [getreseq]), the delivery
    of text to the receive queue, and the window and timer settings.

    The delivery loop is modelled for its part of the state: [rcv], the
    resequencing queue and the receive queue; the processing of the ACK field
    by the same loop ([update] and the connection states) does not touch these.
    Sequence numbers are 32-bit words; the proofs relate them to positions in
    an unbounded stream. *)

From stdpp Require Import base list gmap strings.
From Stdlib Require Import ZArith Lia Sorted.
From S2P Require Import Prelude Block Qio.
Open Scope Z_scope.
Open Scope nix_scope.

Definition QMAX : Z := 64 * 1024 - 1.
Definition URG : Z := 32.
Definition ACK : Z := 16.
Definition PSH : Z := 8.
Definition RST : Z := 4.
Definition SYN : Z := 2.
Definition FIN : Z := 1.
Definition FORCE : Z := 1.
Definition LOGAGAIN : Z := 3.
Definition LOGDGAIN : Z := 2.
Definition MSPTICK : Z := 50.

Record Tcp := mkTcp {
  source : Z; dest : Z; seq : Z; ack : Z; flags : Z; ws : Z; wnd : Z; urg : Z; mss : Z; tlen : Z
}.
Definition set_seq x t := mkTcp (source t) (dest t) x (ack t) (flags t) (ws t) (wnd t) (urg t) (mss t) (tlen t).
Definition set_flags x t := mkTcp (source t) (dest t) (seq t) (ack t) x (ws t) (wnd t) (urg t) (mss t) (tlen t).
Definition set_urg x t := mkTcp (source t) (dest t) (seq t) (ack t) (flags t) (ws t) (wnd t) x (mss t) (tlen t).
Definition tflag (t : Tcp) (b : Z) : bool := negb (Z.land (flags t) b =? 0).

Record Reseq := mkReseq { rseg : Tcp; rbp : list Block; rlength : Z }.

(** The [rcv] part of a [Tcpctl]. *)
Record Rcv := mkRcv { nxt : Z; rwnd : Z; rurg : Z; blocked : bool; una : Z; rscale : Z }.

(** The fields of a [Tcpctl] the routines below use. *)
Record Tcpctl := mkTcb {
  rcv : Rcv;
  reseq : list Reseq;
  rerecv : Z;
  window : Z;
  tflags : Z;
  irs : Z;
  tmss : Z;
  cwind : Z;
  snd_wnd : Z;
  snd_scale : Z;
  backoff_n : Z;
  mdev : Z;
  srtt : Z;
  timer_start : Z
}.

Definition with_rcv x t := mkTcb x (reseq t) (rerecv t) (window t) (tflags t) (irs t) (tmss t) (cwind t)
  (snd_wnd t) (snd_scale t) (backoff_n t) (mdev t) (srtt t) (timer_start t).
Definition with_reseq x t := mkTcb (rcv t) x (rerecv t) (window t) (tflags t) (irs t) (tmss t) (cwind t)
  (snd_wnd t) (snd_scale t) (backoff_n t) (mdev t) (srtt t) (timer_start t).
Definition with_rerecv x t := mkTcb (rcv t) (reseq t) x (window t) (tflags t) (irs t) (tmss t) (cwind t)
  (snd_wnd t) (snd_scale t) (backoff_n t) (mdev t) (srtt t) (timer_start t).
Definition with_window x t := mkTcb (rcv t) (reseq t) (rerecv t) x (tflags t) (irs t) (tmss t) (cwind t)
  (snd_wnd t) (snd_scale t) (backoff_n t) (mdev t) (srtt t) (timer_start t).
Definition with_tflags x t := mkTcb (rcv t) (reseq t) (rerecv t) (window t) x (irs t) (tmss t) (cwind t)
  (snd_wnd t) (snd_scale t) (backoff_n t) (mdev t) (srtt t) (timer_start t).
Definition with_syn i m c w t := mkTcb (rcv t) (reseq t) (rerecv t) (window t) (tflags t) i m c
  w (snd_scale t) (backoff_n t) (mdev t) (srtt t) (timer_start t).
Definition with_snd_scale x t := mkTcb (rcv t) (reseq t) (rerecv t) (window t) (tflags t) (irs t) (tmss t) (cwind t)
  (snd_wnd t) x (backoff_n t) (mdev t) (srtt t) (timer_start t).
Definition with_timer_start x t := mkTcb (rcv t) (reseq t) (rerecv t) (window t) (tflags t) (irs t) (tmss t) (cwind t)
  (snd_wnd t) (snd_scale t) (backoff_n t) (mdev t) (srtt t) x.

Definition set_nxt x r := mkRcv x (rwnd r) (rurg r) (blocked r) (una r) (rscale r).
Definition set_rwnd x r := mkRcv (nxt r) x (rurg r) (blocked r) (una r) (rscale r).
Definition set_rurg x r := mkRcv (nxt r) (rwnd r) x (blocked r) (una r) (rscale r).
Definition set_blocked x r := mkRcv (nxt r) (rwnd r) (rurg r) x (una r) (rscale r).
Definition set_una x r := mkRcv (nxt r) (rwnd r) (rurg r) (blocked r) x (rscale r).
Definition set_rscale x r := mkRcv (nxt r) (rwnd r) (rurg r) (blocked r) (una r) x.

(** ** Sequence arithmetic *)

Definition seq_within (x low high : Z) : bool :=
  if low <=? high then (low <=? x) && (x <=? high) else (x >=? low) || (x <=? high).
Definition seq_lt (x y : Z) : bool := s32 (x - y) <? 0.
Definition seq_le (x y : Z) : bool := s32 (x - y) <=? 0.
Definition seq_gt (x y : Z) : bool := s32 (x - y) >? 0.
Definition seq_ge (x y : Z) : bool := s32 (x - y) >=? 0.

Definition inwindow (tcb : Tcpctl) (sq : Z) : bool :=
  seq_within sq (nxt (rcv tcb)) (u32 (nxt (rcv tcb) + rwnd (rcv tcb) - 1)).

(** ** Settings *)

Definition backoff (n : Z) : Z := s32 (Z.shiftl 1 n).
Definition tcpsettimer (tcb : Tcpctl) : Tcpctl :=
  let x := Z.quot (s32 (backoff (backoff_n tcb) * s32 (mdev tcb + Z.shiftr (srtt tcb) LOGAGAIN + MSPTICK))) MSPTICK in
  let x :=
    if x <? 500 / MSPTICK then 500 / MSPTICK
    else if x >? 64000 / MSPTICK then 64000 / MSPTICK
    else x in
  with_timer_start x tcb.

(** The new limit of the receive queue, [tcb->window], is set by the caller's [qsetlimit]. *)
Definition tcpsetscale (tcb : Tcpctl) (rcvscale sndscale : Z) : Tcpctl :=
  if negb (rcvscale =? 0) then
    let tcb := with_rcv (set_rscale (Z.land rcvscale 255) (rcv tcb)) tcb in
    let tcb := with_snd_scale (Z.land sndscale 255) tcb in
    with_window (u32 (s32 (Z.shiftl QMAX (snd_scale tcb)))) tcb
  else
    let tcb := with_rcv (set_rscale 0 (rcv tcb)) tcb in
    with_window QMAX (with_snd_scale 0 tcb).

Definition procsyn (tcb : Tcpctl) (seg : Tcp) : Tcpctl :=
  let tcb := with_tflags (Z.lor (tflags tcb) FORCE) tcb in
  let n := u32 (seq seg + 1) in
  let tcb := with_rcv (set_rurg n (set_nxt n (rcv tcb))) tcb in
  let m := if negb (mss seg =? 0) && (mss seg <? tmss tcb) then mss seg else tmss tcb in
  with_syn (s32 (seq seg)) m m (wnd seg) tcb.

Definition tcprcvwin (tcb : Tcpctl) (rq : Queue) : Tcpctl :=
  let w := s32 (window tcb - qlen rq) in
  let w := if w <? 0 then 0 else w in
  let r := set_rwnd w (rcv tcb) in
  with_rcv (if w =? 0 then set_blocked true r else r) tcb.

Section Tcp.
Context `{MA : Malloc}.

(** ** Trimming *)

(** The segment, its data and the length of its data that are left; [None] for
    -1, the data freed. *)
Definition tcptrim (tcb : Tcpctl) (seg : Tcp) (bp : list Block) (length : Z)
  : M Bst (Tcpctl * option (Tcp * list Block * Z)) :=
  let len := length in
  let len := if tflag seg SYN then u16 (len + 1) else len in
  let len := if tflag seg FIN then u16 (len + 1) else len in
  if (rwnd (rcv tcb) =? 0) && (len =? 0) && (seq seg =? nxt (rcv tcb)) then
    ret (tcb, Some (seg, bp, length))
  else
  let accept :=
    if rwnd (rcv tcb) =? 0 then false
    else if inwindow tcb (seq seg) then true
    else if negb (len =? 0) then
      inwindow tcb (u32 (seq seg + len - 1))
      || seq_within (nxt (rcv tcb)) (seq seg) (u32 (seq seg + len - 1))
    else false in
  if negb accept then freeblist bp ;; ret (tcb, None)
  else
    let dupcnt := s32 (nxt (rcv tcb) - seq seg) in
    let* (tcb, seg, bp, length) :=
      (if dupcnt >? 0 then
         let tcb := with_rerecv (s32 (rerecv tcb + dupcnt)) tcb in
         let '(seg, dupcnt) :=
           if tflag seg SYN then
             let seg := set_flags (Z.land (flags seg) (u8 (Z.lnot SYN))) seg in
             let seg := set_seq (u32 (seq seg + 1)) seg in
             let seg := if urg seg >? 1 then set_urg (urg seg - 1) seg
                        else set_flags (Z.land (flags seg) (u8 (Z.lnot URG))) seg in
             (seg, dupcnt - 1)
           else (seg, dupcnt) in
         if dupcnt >? 0 then
           bp <- pullblock bp (u16 dupcnt) 0 ;;
           let seg := set_seq (u32 (seq seg + dupcnt)) seg in
           let length := u16 (length - dupcnt) in
           let seg := if urg seg >? dupcnt then set_urg (u16 (urg seg - dupcnt)) seg
                      else set_urg 0 (set_flags (Z.land (flags seg) (u8 (Z.lnot URG))) seg) in
           ret (tcb, seg, bp.1, length)
         else ret (tcb, seg, bp, length)
       else ret (tcb, seg, bp, length)) in
    let excess := s32 (seq seg + length - (nxt (rcv tcb) + rwnd (rcv tcb))) in
    if excess >? 0 then
      let tcb := with_rerecv (s32 (rerecv tcb + excess)) tcb in
      let length := u16 (length - excess) in
      bp <- trimblock bp 0 length ;;
      match bp with
      | None => panic "presotto is a boofhead"%string
      | Some bp => ret (tcb, Some (set_flags (Z.land (flags seg) (u8 (Z.lnot FIN))) seg, bp, length))
      end
    else ret (tcb, Some (seg, bp, length)).

(** ** Resequencing *)

(** The walk that links [rp] after the last entry that does not follow it;
    [rqlen] sums the lengths walked over. *)
Fixpoint reseq_insert (rp : Reseq) (rp1 : Reseq) (rest : list Reseq) (rqlen : Z) : list Reseq * Z * bool :=
  let rqlen := rqlen + rlength rp1 in
  match rest with
  | [] => ([rp1; rp], rqlen, false)
  | nx :: rest' =>
    if seq_lt (seq (rseg rp)) (seq (rseg nx)) then (rp1 :: rp :: rest, rqlen, true)
    else let '(l, q, o) := reseq_insert rp nx rest' rqlen in (rp1 :: l, q, o)
  end.

Fixpoint free_reseq (l : list Reseq) : M Bst () :=
  match l with [] => ret tt | rp :: l => freeblist (rbp rp) ;; free_reseq l end.

(** [malloc_ok]: whether there was memory for the entry.  The second result
    says whether [stats[OutOfOrder]] is counted, the last is the C result. *)
Definition addreseq (malloc_ok : bool) (tcb : Tcpctl) (seg : Tcp) (bp : list Block) (length : Z)
  : M Bst (Tcpctl * bool * Z) :=
  if negb malloc_ok then freeblist bp ;; ret (tcb, false, 0)
  else
    let rp := mkReseq seg bp length in
    match reseq tcb with
    | [] => ret (with_reseq [rp] tcb, false, 0)
    | rp1 :: rest =>
      if seq_lt (seq seg) (seq (rseg rp1)) then ret (with_reseq (rp :: rp1 :: rest) tcb, true, 0)
      else
        let '(l, rqlen, ooo) := reseq_insert rp rp1 rest 0 in
        let qmax := s32 (Z.shiftl QMAX (rscale (rcv tcb))) in
        if s32 rqlen >? qmax then free_reseq l ;; ret (with_reseq [] tcb, ooo, -1)
        else ret (with_reseq l tcb, ooo, 0)
    end.

Definition getreseq (tcb : Tcpctl) (seg : Tcp) (bp : list Block) (length : Z)
  : Tcpctl * Tcp * list Block * Z :=
  match reseq tcb with
  | [] => (tcb, seg, bp, length)
  | rp :: rest => (with_reseq rest tcb, rseg rp, rbp rp, rlength rp)
  end.

(** ** Delivery *)

(** The control block, the receive queue and the blocks. *)
Record Ts := mkTs { tcb : Tcpctl; rq : Queue; mem : Bst }.

Definition onmem {A} (m : M Bst A) : M Ts A := fun s =>
  match m (mem s) with
  | Ret a x => Ret a (mkTs (tcb s) (rq s) x)
  | Error e x => Error e (mkTs (tcb s) (rq s) x)
  | Panic msg => Panic msg
  | Undef msg => Undef msg
  end.
Definition onrq {A} (m : M Qst A) : M Ts A := fun s =>
  match m (rq s, mem s) with
  | Ret a (q, x) => Ret a (mkTs (tcb s) q x)
  | Error e (q, x) => Error e (mkTs (tcb s) q x)
  | Panic msg => Panic msg
  | Undef msg => Undef msg
  end.
Definition set_tcb (t : Tcpctl) : M Ts () := modify (fun s => mkTs t (rq s) (mem s)).
Definition upd_tcb (g : Tcpctl -> Tcpctl) : M Ts () := modify (fun s => mkTs (g (tcb s)) (rq s) (mem s)).

(** Urgent data. *)
Definition rx_urg (seg : Tcp) (bp : list Block) : M Ts (list Block) :=
  t <- gets tcb ;;
  if tflag seg URG && negb (urg seg =? 0) then
    if seq_gt (u32 (urg seg + seq seg)) (rurg (rcv t)) then
      set_tcb (with_rcv (set_rurg (u32 (urg seg + seq seg)) (rcv t)) t) ;;
      r <- onmem (pullblock bp (urg seg) 0) ;;
      ret (fst r)
    else ret bp
  else
    (if seq_gt (nxt (rcv t)) (rurg (rcv t))
     then set_tcb (with_rcv (set_rurg (nxt (rcv t)) (rcv t)) t) else ret tt) ;;
    ret bp.

(** Text of an open connection: [case Syn_received: case Established: case Finwait1:]. *)
Definition rx_text (bp : list Block) (length : Z) : M Ts () :=
  match bp with
  | [] => ret tt
  | _ =>
    bp <- onmem (packblock bp) ;;
    match bp with
    | [] => panic "tcp packblock"%string
    | _ =>
      onrq (qpassnolim bp) ;;
      upd_tcb (fun t => with_rcv (set_una (una (rcv t) + 1) (rcv t)) t) ;;
      upd_tcb (fun t => if una (rcv t) >=? 2 then with_tflags (Z.lor (tflags t) FORCE) t else t)
    end
  end ;;
  upd_tcb (fun t => with_rcv (set_nxt (u32 (nxt (rcv t) + length)) (rcv t)) t) ;;
  modify (fun s => mkTs (tcprcvwin (tcb s) (rq s)) (rq s) (mem s)).

(** The next segment to process, from the resequencing queue: those that no
    longer fit are dumped. *)
Fixpoint next_segment (fuel : nat) : M Ts (option (Tcp * list Block * Z)) :=
  match fuel with
  | O => undef "fuel"%string
  | S fuel =>
    t <- gets tcb ;;
    match reseq t with
    | [] => ret None
    | rp :: _ =>
      if negb (seq_ge (nxt (rcv t)) (seq (rseg rp))) then ret None
      else
        let '(t, seg, bp, length) := getreseq t (rseg rp) [] 0 in
        set_tcb t ;;
        let* (t, r) := onmem (tcptrim t seg bp length) in
        set_tcb t ;;
        match r with
        | Some x => ret (Some x)
        | None => next_segment fuel
        end
    end
  end.
Definition reseq_fuel (t : Tcpctl) : nat := S (length (reseq t)).

(** [for(;;)]: process a segment and the ones it makes adjacent, for segments
    with ACK and without RST and FIN. *)
Fixpoint rx_loop (fuel : nat) (seg : Tcp) (bp : list Block) (length : Z) : M Ts () :=
  match fuel with
  | O => undef "fuel"%string
  | S fuel =>
    bp <- rx_urg seg bp ;;
    (if length =? 0 then match bp with [] => ret tt | _ => onmem (freeblist bp) end
     else rx_text bp length) ;;
    t <- gets tcb ;;
    r <- next_segment (reseq_fuel t) ;;
    match r with
    | None => ret tt
    | Some (seg, bp, length) => rx_loop fuel seg bp length
    end
  end.

(** What [tcpiput] does with such a segment for an open connection. *)
Definition rx_segment (malloc_ok : bool) (seg : Tcp) (bp : list Block) (length : Z) : M Ts () :=
  t <- gets tcb ;;
  let* (t, r) := onmem (tcptrim t seg bp length) in
  set_tcb t ;;
  match r with
  | None => upd_tcb (fun t => with_tflags (Z.lor (tflags t) FORCE) t)
  | Some (seg, bp, length) =>
    if negb (seq seg =? nxt (rcv t)) && (negb (length =? 0) || tflag seg SYN || tflag seg FIN) then
      let* (t, _, _) := onmem (addreseq malloc_ok t seg bp length) in
      set_tcb (with_tflags (Z.lor (tflags t) FORCE) t)
    else rx_loop (reseq_fuel t) seg bp length
  end.
End Tcp.

(** ** Sequence numbers as positions *)

Lemma u32_k x : exists k, u32 x = x + k * 2 ^ 32.
Proof. exists (- (x / 2 ^ 32)). unfold u32. rewrite Z.mod_eq by lia. lia. Qed.
Lemma u16_k x : exists k, u16 x = x + k * 2 ^ 16.
Proof. exists (- (x / 2 ^ 16)). unfold u16. rewrite Z.mod_eq by lia. lia. Qed.
Lemma s32_eq k x y : x = y + k * 2 ^ 32 -> - 2 ^ 31 <= y < 2 ^ 31 -> s32 x = y.
Proof.
  intros -> Hy. unfold s32, sgn. rewrite Z.mod_add by lia.
  change ((if y mod 2 ^ 32 <? 2 ^ (32 - 1) then y mod 2 ^ 32 else y mod 2 ^ 32 - 2 ^ 32)) with (sgn 32 y).
  by apply sgn_small.
Qed.
Lemma u32_eq k x y : x = y + k * 2 ^ 32 -> 0 <= y < 2 ^ 32 -> u32 x = y.
Proof. intros -> Hy. unfold u32. rewrite Z.mod_add by lia. by apply Z.mod_small. Qed.
Lemma u32_cong k x y : x = y + k * 2 ^ 32 -> u32 x = u32 y.
Proof. intros ->. unfold u32. by rewrite Z.mod_add by lia. Qed.

(** The sequence number of position [p] of a stream whose first is at [b]. *)
Definition seqno (b p : Z) : Z := u32 (b + p).

Lemma seqno_range b p : 0 <= seqno b p < 2 ^ 32.
Proof. apply u32_range. Qed.
Lemma seqno_add b p d : u32 (seqno b p + d) = seqno b (p + d).
Proof. unfold seqno. destruct (u32_k (b + p)) as [k ->]. apply (u32_cong k). lia. Qed.
Lemma s32_seqno b p q : - 2 ^ 31 <= p - q < 2 ^ 31 -> s32 (seqno b p - seqno b q) = p - q.
Proof.
  intros H. unfold seqno. destruct (u32_k (b + p)) as [k ->]. destruct (u32_k (b + q)) as [k' ->].
  apply (s32_eq (k - k')); lia.
Qed.
Lemma seqno_eqb b p q : - 2 ^ 32 < p - q < 2 ^ 32 -> (seqno b p =? seqno b q) = (p =? q).
Proof.
  intros H. unfold seqno. destruct (u32_k (b + p)) as [k E]. destruct (u32_k (b + q)) as [k' E'].
  pose proof (u32_range (b + p)). pose proof (u32_range (b + q)).
  destruct (Z.eqb_spec (u32 (b + p)) (u32 (b + q))), (Z.eqb_spec p q); try done; subst; lia.
Qed.

Lemma seq_within_seqno b x l h : 0 <= h - l < 2 ^ 32 ->
  seq_within (seqno b x) (seqno b l) (seqno b h) = ((x - l) mod 2 ^ 32 <=? h - l).
Proof.
  intros H. unfold seq_within, seqno.
  destruct (u32_k (b + x)) as [kx Ex]. destruct (u32_k (b + l)) as [kl El]. destruct (u32_k (b + h)) as [kh Eh].
  pose proof (u32_range (b + x)). pose proof (u32_range (b + l)). pose proof (u32_range (b + h)).
  set (X := u32 (b + x)) in *. set (L := u32 (b + l)) in *. set (H' := u32 (b + h)) in *.
  assert ((x - l) mod 2 ^ 32 = if L <=? X then X - L else X - L + 2 ^ 32) as ->.
  { destruct (Z.leb_spec L X); symmetry.
    - apply (Z.mod_unique _ _ (kl - kx)); lia.
    - apply (Z.mod_unique _ _ (kl - kx - 1)); lia. }
  rewrite Z.geb_leb.
  assert (h - l = if L <=? H' then H' - L else H' - L + 2 ^ 32) as ->.
  { destruct (Z.leb_spec L H'); lia. }
  destruct (Z.leb_spec L H'), (Z.leb_spec L X), (Z.leb_spec X H'); cbn [andb orb]; symmetry;
    first [apply Z.leb_le; lia | apply Z.leb_gt; lia].
Qed.

(** As long as two positions of the stream are less than 2^31 apart,
    comparing their 32-bit sequence numbers compares the positions, wherever the
    numbers wrap; and a number is within a window exactly when its distance from
    the start of the window, modulo 2^32, is. *)
Theorem sequence_comparisons b p q l h : - 2 ^ 31 < p - q < 2 ^ 31 -> 0 <= h - l < 2 ^ 32 ->
  seq_lt (seqno b p) (seqno b q) = (p <? q) /\ seq_le (seqno b p) (seqno b q) = (p <=? q) /\
  seq_gt (seqno b p) (seqno b q) = (q <? p) /\ seq_ge (seqno b p) (seqno b q) = (q <=? p) /\
  seq_within (seqno b p) (seqno b l) (seqno b h) = ((p - l) mod 2 ^ 32 <=? h - l).
Proof.
  intros H Hw. unfold seq_lt, seq_le, seq_gt, seq_ge. rewrite s32_seqno by lia.
  rewrite Z.gtb_ltb, Z.geb_leb, seq_within_seqno by done.
  repeat split; apply Bool.eq_iff_eq_true; rewrite ?Z.ltb_lt, ?Z.leb_le; lia.
Qed.

(** Whatever the measurements, the retransmission timer is set between
    half a second and 64 seconds. *)
Theorem tcpsettimer_bounds t : 500 <= timer_start (tcpsettimer t) * MSPTICK <= 64000.
Proof.
  unfold tcpsettimer, MSPTICK. cbn [timer_start with_timer_start].
  set (x := Z.quot _ _). destruct (Z.ltb_spec x (500 / 50)); [by cbn|].
  rewrite Z.gtb_ltb. destruct (Z.ltb_spec (64000 / 50) x); [by cbn|].
  change (500 / 50) with 10 in *. change (64000 / 50) with 1280 in *. lia.
Qed.

(** ** The stream *)

Section Stream.
Context `{MA : Malloc, MO : !MallocOk MA}.
(** The sender's bytes, by position, and the sequence number of position 0. *)
Context (str : Z -> Z) (b : Z).

Definition text (p n : Z) : list Z := str <$> seqZ p n.

Lemma zlen_text p n : zlen (text p n) = Z.max 0 n.
Proof. unfold zlen, text. rewrite length_fmap, length_seqZ. lia. Qed.
Lemma text_app p n m : 0 <= n -> 0 <= m -> text p (n + m) = text p n ++ text (p + n) m.
Proof. intros Hn Hm. unfold text. by rewrite seqZ_app, fmap_app by done. Qed.
Lemma text_drop p n k : 0 <= k -> zdrop k (text p n) = text (p + k) (n - k).
Proof.
  intros Hk. destruct (Z_le_gt_dec n k).
  - rewrite zdrop_ge by (rewrite zlen_text; lia). unfold text. by rewrite seqZ_nil by lia.
  - replace n with (k + (n - k)) at 1 by lia. rewrite text_app by lia.
    rewrite zdrop_app_ge by (rewrite zlen_text; lia). rewrite zlen_text, zdrop_le by lia. done.
Qed.
Lemma text_take p n k : 0 <= k <= n -> ztake k (text p n) = text p k.
Proof.
  intros Hk. replace n with (k + (n - k)) at 1 by lia. rewrite text_app by lia.
  rewrite ztake_app_le by (rewrite zlen_text; lia). apply ztake_ge. rewrite zlen_text. lia.
Qed.

(** A segment with the bytes of the stream from [p] on, no flags that occupy
    sequence space, and no urgent data. *)
Record seg_at (p : Z) (seg : Tcp) (bp : list Block) (length : Z) : Prop := {
  sa_seq : seq seg = seqno b p;
  sa_len : 0 <= length < 2 ^ 16 - 2;
  sa_data : cdata bp = text p length;
  sa_wf : Forall wfb bp;
  sa_syn : tflag seg SYN = false;
  sa_fin : tflag seg FIN = false;
  sa_urg : tflag seg URG = false
}.

Lemma tflag_clear seg m f : 0 <= m -> tflag seg f = false -> tflag (set_flags (Z.land (flags seg) m) seg) f = false.
Proof.
  intros Hm H. unfold tflag in *. cbn [flags set_flags]. apply negb_false_iff, Z.eqb_eq in H.
  apply negb_false_iff, Z.eqb_eq. rewrite <- Z.land_assoc, (Z.land_comm m), Z.land_assoc, H. apply Z.land_0_l.
Qed.

(** The window, by positions. *)
Definition in_window (n w p length : Z) : Prop :=
  if length =? 0 then n <= p < n + w \/ (w = 0 /\ p = n) else 0 < w /\ p < n + w /\ n < p + length.

Lemma accept_spec t n p length :
  nxt (rcv t) = seqno b n -> 0 < rwnd (rcv t) <= 2 ^ 30 -> - 2 ^ 30 <= p - n <= 2 ^ 30 -> 0 <= length < 2 ^ 16 ->
  (if inwindow t (seqno b p) then true
   else if negb (length =? 0) then
     inwindow t (u32 (seqno b p + length - 1)) ||
     seq_within (nxt (rcv t)) (seqno b p) (u32 (seqno b p + length - 1))
   else false) = true <-> in_window n (rwnd (rcv t)) p length.
Proof.
  intros En Hw Hp Hl. unfold inwindow. rewrite En.
  replace (seqno b n + rwnd (rcv t) - 1) with (seqno b n + (rwnd (rcv t) - 1)) by lia.
  replace (seqno b p + length - 1) with (seqno b p + (length - 1)) by lia.
  rewrite !seqno_add. rewrite seq_within_seqno by lia.
  unfold in_window. set (w := rwnd (rcv t)) in *.
  assert (forall x m, 0 <= m < 2 ^ 31 -> - 2 ^ 31 < x < 2 ^ 31 -> (x mod 2 ^ 32 <=? m) = (0 <=? x) && (x <=? m)) as Hmod.
  { intros x m Hm Hx. destruct (Z.leb_spec 0 x) as [Lx|Lx]; cbn [andb].
    - by rewrite Z.mod_small by lia.
    - rewrite <- (Z.mod_unique x (2 ^ 32) (-1) (x + 2 ^ 32)) by lia. apply Z.leb_gt. lia. }
  rewrite Hmod by lia. destruct (Z.eqb_spec length 0) as [->|Nl]; cbn [negb].
  - destruct (Z.leb_spec 0 (p - n)), (Z.leb_spec (p - n) (n + (w - 1) - n)); cbn [andb];
      split; intros; try done; try lia.
  - rewrite !seq_within_seqno by lia. rewrite !Hmod by lia.
    repeat match goal with |- context [?x <=? ?y] => destruct (Z.leb_spec x y) end;
      cbn [andb orb]; split; intros; try done; try lia.
Qed.

(** What [tcptrim] leaves of a segment: the part inside the window. *)
Definition trimmed (n w p length : Z) (r : option (Tcp * list Block * Z)) : Prop :=
  match r with
  | None => ~ in_window n w p length
  | Some (seg, bp, len') => in_window n w p length /\ exists p',
      p' = Z.max p n /\ len' = Z.min (p + length) (n + w) - p' /\ seg_at p' seg bp len'
  end.

Lemma s32_pos x k y : x = y + k * 2 ^ 32 -> - 2 ^ 31 <= y < 2 ^ 31 -> s32 x = y.
Proof. apply s32_eq. Qed.

(** The cut at the right edge. *)
Definition cut_right (t : Tcpctl) (seg : Tcp) (bp : list Block) (length : Z)
  : M Bst (Tcpctl * option (Tcp * list Block * Z)) :=
  let excess := s32 (seq seg + length - (nxt (rcv t) + rwnd (rcv t))) in
  if excess >? 0 then
    let t := with_rerecv (s32 (rerecv t + excess)) t in
    let length := u16 (length - excess) in
    bp <- trimblock bp 0 length ;;
    match bp with
    | None => panic "presotto is a boofhead"%string
    | Some bp => ret (t, Some (set_flags (Z.land (flags seg) (u8 (Z.lnot FIN))) seg, bp, length))
    end
  else ret (t, Some (seg, bp, length)).

Lemma cut_right_spec t n p seg bp length F s :
  nxt (rcv t) = seqno b n -> 0 <= rwnd (rcv t) <= 2 ^ 30 -> n <= p <= n + 2 ^ 30 ->
  p < n + rwnd (rcv t) \/ length = 0 /\ p <= n + rwnd (rcv t) ->
  seg_at p seg bp length -> acct (bp ++ F) s ->
  wp (cut_right t seg bp length) s (fun '(t', r) s' => quiet s s' /\ (exists x, t' = with_rerecv x t) /\
    exists seg' bp' len', r = Some (seg', bp', len') /\ acct (bp' ++ F) s' /\
      len' = Z.min (p + length) (n + rwnd (rcv t)) - p /\ seg_at p seg' bp' len').
Proof.
  intros En Hw Hp Hin [Hsq Hln Hd Hwf Hsyn Hfin Hurg] HA. unfold cut_right. rewrite Hsq, En.
  assert (s32 (seqno b p + length - (seqno b n + rwnd (rcv t))) = p + length - (n + rwnd (rcv t))) as ->.
  { unfold seqno. destruct (u32_k (b + p)) as [k ->]. destruct (u32_k (b + n)) as [k' ->].
    apply (s32_eq (k - k')); lia. }
  rewrite Z.gtb_ltb. destruct (Z.ltb_spec 0 (p + length - (n + rwnd (rcv t)))) as [L|L].
  - assert (u16 (length - (p + length - (n + rwnd (rcv t)))) = n + rwnd (rcv t) - p) as ->.
    { rewrite u16_small; lia. }
    apply wp_bind. eapply wp_mono; [apply (wp_trimblock bp 0 _ F s); try done; try lia|].
    { intros ->. unfold cdata in Hd. cbn in Hd. apply (f_equal zlen) in Hd. rewrite zlen_text in Hd.
      change (zlen []) with 0 in Hd. lia. }
    intros [r|] s' [Hq Hr].
    2: { destruct Hr as [Hlt _]. rewrite <- zlen_cdata in Hlt by done. rewrite Hd, zlen_text in Hlt. lia. }
    destruct Hr as (_ & Hwr & HAr & Hdr). apply wp_ret.
    refine (conj Hq (conj (ex_intro _ _ eq_refl) _)). eexists _, r, _. split; [reflexivity|].
    split; [done|]. split; [lia|]. split; try done; try lia.
    + rewrite Hdr, Hd. unfold slice. rewrite zdrop_le, text_take by lia. done.
    + by apply tflag_clear.
    + by apply tflag_clear.
    + by apply tflag_clear.
  - apply wp_ret. refine (conj _ (conj _ _)); [done | exists (rerecv t); by destruct t |].
    exists seg, bp, length. split; [done|]. split; [done|]. split; [lia|]. by split.
Qed.

Lemma tcptrim_spec t n p seg bp length F s :
  nxt (rcv t) = seqno b n -> 0 <= rwnd (rcv t) <= 2 ^ 30 -> - 2 ^ 30 <= p - n <= 2 ^ 30 ->
  seg_at p seg bp length -> acct (bp ++ F) s ->
  wp (tcptrim t seg bp length) s (fun '(t', r) s' => quiet s s' /\ (exists x, t' = with_rerecv x t) /\
    trimmed n (rwnd (rcv t)) p length r /\
    match r with None => acct F s' | Some (_, bp', _) => acct (bp' ++ F) s' end).
Proof.
  intros En Hw Hp Hseg HA. pose proof Hseg as [Hsq Hln Hd Hwf Hsyn Hfin Hurg].
  unfold tcptrim. rewrite Hsyn, Hfin, Hsq, En, seqno_eqb by lia. cbv zeta.
  destruct ((rwnd (rcv t) =? 0) && (length =? 0) && (p =? n)) eqn:E0.
  { rewrite !andb_true_iff, !Z.eqb_eq in E0. destruct E0 as [[Ew El] Epn].
    apply wp_ret. refine (conj _ (conj _ (conj _ HA))); [done | exists (rerecv t); by destruct t|].
    split; [unfold in_window; rewrite El, Z.eqb_refl; lia|]. exists p. split; [lia|]. split; [lia | done]. }
  rewrite <- En.
  match goal with |- wp (if negb ?a then _ else _) _ _ => assert (a = true <-> in_window n (rwnd (rcv t)) p length) as Hacc end.
  { destruct (Z.eqb_spec (rwnd (rcv t)) 0) as [Ew|Ew].
    - rewrite Ew in *. unfold in_window. split; [done|]. destruct (Z.eqb_spec length 0) as [->|]; [|lia].
      intros [?|[_ ->]]; [lia|]. by rewrite !Z.eqb_refl in E0.
    - apply accept_spec; [done | lia | lia | lia]. }
  match goal with |- wp (if negb ?a then _ else _) _ _ => destruct a end; cbn [negb].
  2: { apply wp_bind. eapply wp_mono; [by apply wp_freeblist|]. intros _ s' [HA' Hq]. apply wp_ret.
       refine (conj Hq (conj _ (conj _ HA'))); [exists (rerecv t); by destruct t|].
       cbn. intros Hin. by apply Hacc in Hin. }
  destruct Hacc as [Hin _]. specialize (Hin eq_refl). rewrite En, s32_seqno by lia.
  assert (p < n + rwnd (rcv t) \/ length = 0 /\ p <= n + rwnd (rcv t)) as Hright
    by (unfold in_window in Hin; destruct (Z.eqb_spec length 0); lia).
  rewrite Z.gtb_ltb. destruct (Z.ltb_spec 0 (n - p)) as [L|L].
  - assert (n < p + length /\ 0 < rwnd (rcv t)) as [Hov Hw0]
      by (unfold in_window in Hin; destruct (Z.eqb_spec length 0); lia).
    assert (u16 (n - p) = n - p) as -> by (apply u16_small; lia).
    apply wp_bind. apply wp_bind. eapply wp_mono; [apply (wp_pullblock bp (n - p) 0 F s); try done; lia|].
    intros [bp' k] s' (Hq & Hwf' & HA' & Hd' & _). cbn [fst snd] in *. apply wp_ret.
    rewrite (u16_small (length - (n - p))) by lia. rewrite seqno_add. replace (p + (n - p)) with n by lia.
    set (seg' := if urg _ >? _ then _ else _).
    assert (seg_at n seg' bp' (length - (n - p))) as Hseg'.
    { split; try done; try lia.
      - subst seg'. by destruct (_ >? _).
      - rewrite Hd', Hd, text_drop by lia. do 2 f_equal. lia.
      - subst seg'. destruct (_ >? _); [done|]. apply (tflag_clear _ (u8 (Z.lnot URG))); done.
      - subst seg'. destruct (_ >? _); [done|]. apply (tflag_clear _ (u8 (Z.lnot URG))); done.
      - subst seg'. destruct (_ >? _); [done|]. apply (tflag_clear _ (u8 (Z.lnot URG))); done. }
    change (wp (cut_right (with_rerecv (s32 (rerecv t + (n - p))) t) seg' bp' (length - (n - p))) s'
      (fun '(t', r) s' => quiet s s' /\ (exists x, t' = with_rerecv x t) /\
        trimmed n (rwnd (rcv t)) p length r /\
        match r with None => acct F s' | Some (_, bp', _) => acct (bp' ++ F) s' end)).
    eapply wp_mono; [apply (cut_right_spec _ n n seg' bp' (length - (n - p)) F s'); try done; try lia; cbn; lia|].
    intros [t' r] s'' (Hq' & [x ->] & seg2 & bp2 & len2 & -> & HA2 & Hl2 & Hs2).
    refine (conj _ (conj (ex_intro _ x eq_refl) (conj (conj Hin _) HA2))).
    + etransitivity; done.
    + exists n. split; [lia|]. cbn in Hl2. split; [lia | done].
  - cbn beta iota. change (wp (cut_right t seg bp length) s (fun '(t', r) s' => quiet s s' /\ (exists x, t' = with_rerecv x t) /\
        trimmed n (rwnd (rcv t)) p length r /\
        match r with None => acct F s' | Some (_, bp', _) => acct (bp' ++ F) s' end)).
    eapply wp_mono; [apply (cut_right_spec t n p seg bp length F s); try done; lia|].
    intros [t' r] s'' (Hq' & Ht & seg2 & bp2 & len2 & -> & HA2 & Hl2 & Hs2).
    refine (conj Hq' (conj Ht (conj (conj Hin _) HA2))). exists p. split; [lia|]. done.
Qed.

(** *** The receiver *)

Definition queued (l : list Reseq) : list Block := concat (rbp <$> l).

(** An entry of the resequencing queue for position [p]. *)
Definition entry_at (e : Reseq) (p : Z) : Prop := seg_at p (rseg e) (rbp e) (rlength e).
(** Positions in order, close enough to [n] for their numbers to compare. *)
Definition near (n p : Z) : Prop := - 2 ^ 16 <= p - n <= 2 ^ 30.

Record rinv (n : Z) (ps : list Z) (F : list Block) (s : Ts) : Prop := {
  ri_nxt : nxt (rcv (tcb s)) = seqno b n;
  ri_wnd : 0 <= rwnd (rcv (tcb s));
  ri_sum : qlen (rq s) + rwnd (rcv (tcb s)) <= 2 ^ 30;
  ri_window : 0 <= window (tcb s) <= 2 ^ 30;
  ri_open : has Qclosed (rq s) = false /\ has Qmsg (rq s) = false;
  ri_entries : Forall2 entry_at (reseq (tcb s)) ps;
  ri_sorted : StronglySorted Z.le ps;
  ri_near : Forall (near n) ps;
  ri_mem : qinv (queued (reseq (tcb s)) ++ F) (rq s) (mem s)
}.

Lemma qlen_nonneg F q s : qinv F q s -> 0 <= qlen q.
Proof.
  intros [Hw _ Hd _ _]. unfold qlen. rewrite Hd. by apply blocklen_nonneg.
Qed.

Lemma wp_onmem {A} (m : M Bst A) s (Q : A -> Ts -> Prop) :
  wp m (mem s) (fun a x => Q a (mkTs (tcb s) (rq s) x)) -> wp (onmem m) s Q.
Proof. unfold wp, onmem. by destruct (m (mem s)). Qed.
Lemma wp_onrq {A} (m : M Qst A) s (Q : A -> Ts -> Prop) :
  wp m (rq s, mem s) (fun a '(q, x) => Q a (mkTs (tcb s) q x)) -> wp (onrq m) s Q.
Proof. unfold wp, onrq. destruct (m (rq s, mem s)) as [a [q x]|e [q x]| |]; done. Qed.
Lemma wp_upd_tcb g s (Q : () -> Ts -> Prop) : Q tt (mkTs (g (tcb s)) (rq s) (mem s)) -> wp (upd_tcb g) s Q.
Proof. done. Qed.
Lemma wp_set_tcb t s (Q : () -> Ts -> Prop) : Q tt (mkTs t (rq s) (mem s)) -> wp (set_tcb t) s Q.
Proof. done. Qed.

Lemma qinv_perm F F' q s : F ≡ₚ F' -> qinv F q s -> qinv F' q s.
Proof. intros HF [? ? ? ? HA]. split; try done. by rewrite <- HF. Qed.
Lemma qinv_acct F q s : qinv F q s -> acct (F ++ bfirst q) s.
Proof. intros [_ _ _ _ HA]. by rewrite (Permutation_app_comm F). Qed.
(** The blocks outside the queue may change hands. *)
Lemma qinv_swap_frame F F' q s s' : qinv F q s -> acct (F' ++ bfirst q) s' -> qinv F' q s'.
Proof. intros [? ? ? ? _] HA. split; try done. by rewrite (Permutation_app_comm _ F'). Qed.

(** Text at the receive pointer goes to the queue and moves the pointer. *)
Lemma rx_text_spec n ps F seg bp length s :
  rinv n ps (bp ++ F) s -> seg_at n seg bp length -> 0 < length <= rwnd (rcv (tcb s)) ->
  (forall p, p ∈ ps -> near (n + length) p) ->
  wp (rx_text bp length) s (fun _ s' => rinv (n + length) ps F s' /\
    cdata (bfirst (rq s')) = cdata (bfirst (rq s)) ++ text n length /\ reseq (tcb s') = reseq (tcb s)).
Proof.
  intros [Hn Hw Hsum Hwin Hop He Hs Hnr Hm] Hseg Hl Hnear. pose proof Hseg as [_ Hln Hd Hwf _ _ _].
  unfold rx_text. apply wp_bind.
  assert (bp <> []) as Hne.
  { intros ->. change (cdata []) with (@nil Z) in Hd. apply (f_equal zlen) in Hd.
    rewrite zlen_text in Hd. change (zlen []) with 0 in Hd. lia. }
  destruct bp as [|b1 bp1]; [done|]. set (bp := b1 :: bp1) in *. clearbody bp. clear b1 bp1.
  assert (acct (bp ++ (queued (reseq (tcb s)) ++ F) ++ bfirst (rq s)) (mem s)) as HA.
  { apply qinv_acct in Hm. eapply acct_proper; [|reflexivity|exact Hm]. solve_Permutation. }
  apply wp_bind, wp_onmem. eapply wp_mono; [apply wp_packblock; [exact Hwf | exact HA]|].
  intros r m' (Hq & Hwr & HAr & Hdr%packed_all).
  assert (cdata r = text n length) as Hcr by (unfold cdata in *; by rewrite Hdr).
  assert (r <> []) as Hrne by (intros ->; destruct bp; [done | done]).
  destruct r as [|b1 r1]; [done|]. set (r := b1 :: r1) in *. clearbody r. clear b1 r1.
  assert (qinv (r ++ queued (reseq (tcb s)) ++ F) (rq s) m') as Hm'.
  { eapply qinv_swap_frame; [exact Hm|]. eapply acct_proper; [|reflexivity|exact HAr]. solve_Permutation. }
  apply wp_bind, wp_onrq. cbn [rq mem tcb].
  eapply wp_mono; [by apply (wp_qpassnolim (queued (reseq (tcb s)) ++ F) r)|].
  intros z [q' m'']. rewrite (proj1 Hop). intros ((Hi' & Hmode & _) & _ & Hbf).
  wp_steps. apply wp_upd_tcb. wp_steps. apply wp_upd_tcb. wp_steps. apply wp_upd_tcb. wp_steps.
  cbn [tcb rq mem].
  assert (qlen q' = qlen (rq s) + length) as Eq.
  { unfold qlen. rewrite (qi_dlen _ _ _ Hi'), (qi_dlen _ _ _ Hm), Hbf, blocklen_app.
    rewrite <- (zlen_cdata r), Hcr, zlen_text by done. lia. }
  pose proof (qlen_nonneg _ _ _ Hm). 
  set (t1 := with_rcv (set_una _ _) (tcb s)).
  set (t2 := if una (rcv t1) >=? 2 then _ else t1).
  assert (rcv t2 = set_una (una (rcv (tcb s)) + 1) (rcv (tcb s)) /\ reseq t2 = reseq (tcb s) /\ window t2 = window (tcb s)) as (Er & Ers & Ew)
    by (subst t2 t1; destruct (_ >=? 2); done).
  assert (s32 (window t2 - qlen q') = window t2 - qlen q') as Es by (apply (s32_eq 0); rewrite ?Ew, ?Eq; lia).
  unfold tcprcvwin. cbn [window with_rcv rcv reseq]. rewrite Es, Er, Ers, Ew.
  set (w := if window (tcb s) - qlen q' <? 0 then 0 else window (tcb s) - qlen q').
  assert (0 <= w /\ (w = 0 \/ qlen q' + w = window (tcb s))) as Hw' by (subst w; destruct (Z.ltb_spec (window (tcb s) - qlen q') 0); lia).
  split; [|split; [cbn; by rewrite Hbf, cdata_app, Hcr | done]].
  split; cbn [tcb rq mem rcv reseq window with_rcv]; rewrite ?Er, ?Ers, ?Ew; try done.
  - destruct (w =? 0); cbn; rewrite Hn; apply seqno_add.
  - destruct (w =? 0); cbn; lia.
  - destruct (w =? 0); cbn; lia.
  - destruct Hmode as (_ & -> & -> & _). done.
  - by apply Forall_forall.
Qed.

Lemma seq_ge_pos n p : - 2 ^ 31 < n - p < 2 ^ 31 -> seq_ge (seqno b n) (seqno b p) = (p <=? n).
Proof.
  intros H. unfold seq_ge. rewrite s32_seqno, Z.geb_leb by lia.
  apply Bool.eq_iff_eq_true. rewrite !Z.leb_le. lia.
Qed.
Lemma seq_lt_pos n p : - 2 ^ 31 < n - p < 2 ^ 31 -> seq_lt (seqno b n) (seqno b p) = (n <? p).
Proof.
  intros H. unfold seq_lt. rewrite s32_seqno by lia. apply Bool.eq_iff_eq_true. rewrite !Z.ltb_lt. lia.
Qed.

(** Taking the first entry out of the resequencing queue. *)
Lemma rinv_pop n rp l ps F s : rinv n ps F s -> reseq (tcb s) = rp :: l ->
  exists p ps', ps = p :: ps' /\ entry_at rp p /\ near n p /\ Forall (Z.le p) ps' /\
    forall x, rinv n ps' (rbp rp ++ F) (mkTs (with_rerecv x (with_reseq l (tcb s))) (rq s) (mem s)).
Proof.
  intros [Hn Hw Hsum Hwin Hop He Hs Hnr Hm] E. rewrite E in He, Hm.
  apply Forall2_cons_inv_l in He as (p & ps' & Hp & He & ->).
  apply StronglySorted_inv in Hs as [Hs Hle]. apply Forall_cons in Hnr as [Hnp Hnr].
  exists p, ps'. refine (conj eq_refl (conj Hp (conj Hnp (conj Hle (fun x => _))))).
  split; try done. cbn [tcb rq mem reseq with_rerecv with_reseq].
  eapply qinv_perm; [|exact Hm]. unfold queued. rewrite fmap_cons. cbn [concat]. solve_Permutation.
Qed.

Lemma next_segment_spec fuel : forall n ps F s,
  rinv n ps F s -> (length (reseq (tcb s)) < fuel)%nat ->
  wp (next_segment fuel) s (fun r s' => rq s' = rq s /\ rwnd (rcv (tcb s')) = rwnd (rcv (tcb s)) /\ exists ps',
    match r with
    | None => rinv n ps' F s' /\ Forall (Z.lt n) ps'
    | Some (seg, bp, len) => rinv n ps' (bp ++ F) s' /\ (length (reseq (tcb s')) < length (reseq (tcb s)))%nat /\
        seg_at n seg bp len /\ len <= rwnd (rcv (tcb s)) /\ forall p, p ∈ ps' -> near (n + len) p
    end).
Proof.
  induction fuel as [|fuel IH]; intros n ps F s Hi Hf; [lia|]. cbn [next_segment]. wp_steps.
  destruct (reseq (tcb s)) as [|rp l] eqn:E.
  { apply wp_ret. refine (conj eq_refl (conj eq_refl _)). exists ps. split; [done|].
    pose proof (ri_entries _ _ _ _ Hi) as He. rewrite E in He. apply Forall2_nil_inv_l in He as ->. constructor. }
  destruct (rinv_pop n rp l ps F s Hi E) as (p & ps' & -> & Hp & Hnp & Hle & Hi').
  unfold near in Hnp. pose proof (sa_seq _ _ _ _ Hp) as Hsq.
  rewrite (ri_nxt _ _ _ _ Hi), Hsq, seq_ge_pos by lia.
  destruct (Z.leb_spec p n) as [L|L]; cbn [negb].
  2: { apply wp_ret. refine (conj eq_refl (conj eq_refl _)). exists (p :: ps'). split; [done|].
       constructor; [lia|]. eapply Forall_impl; [exact Hle|]. cbv beta. intros q Hq. lia. }
  unfold getreseq. rewrite E. wp_steps. apply wp_set_tcb. wp_steps. apply wp_onmem. cbn [mem tcb rq].
  pose proof (ri_wnd _ _ _ _ Hi). pose proof (ri_sum _ _ _ _ Hi).
  pose proof (qlen_nonneg _ _ _ (ri_mem _ _ _ _ Hi)).
  pose proof (qinv_acct _ _ _ (ri_mem _ _ _ _ (Hi' 0))) as HA. cbn [tcb rq mem reseq with_rerecv with_reseq] in HA.
  eapply wp_mono; [apply (tcptrim_spec _ n p (rseg rp) (rbp rp) (rlength rp) ((queued l ++ F) ++ bfirst (rq s)) (mem s))|].
  - apply (ri_nxt _ _ _ _ Hi).
  - cbn. lia.
  - lia.
  - exact Hp.
  - eapply acct_proper; [|reflexivity|exact HA]. solve_Permutation.
  - intros [t r] m' (_ & [x ->] & Htr & HA'). cbn [rcv with_reseq] in Htr. wp_steps. apply wp_set_tcb. wp_steps.
    destruct r as [[[seg bp] len]|].
    + apply wp_ret. cbn [rq tcb]. refine (conj eq_refl (conj eq_refl _)). exists ps'.
      destruct Htr as [Hin (p' & Ep' & El & Hseg)]. replace p' with n in * by lia.
      refine (conj _ (conj _ (conj Hseg (conj _ _)))).
      * destruct (Hi' x) as [? ? ? ? ? ? ? ? Hm]. split; try done. cbn [tcb rq mem reseq with_rerecv with_reseq] in *.
        eapply qinv_swap_frame; [exact Hm|]. eapply acct_proper; [|reflexivity|exact HA']. solve_Permutation.
      * cbn. lia.
      * lia.
      * intros q Hq. pose proof (ri_near _ _ _ _ (Hi' x)) as Hnr. rewrite Forall_forall in Hnr, Hle.
        specialize (Hnr q Hq). specialize (Hle q Hq). pose proof (sa_len _ _ _ _ Hp).
        pose proof (sa_len _ _ _ _ Hseg). unfold near in *. lia.
    + assert (rinv n ps' F (mkTs (with_rerecv x (with_reseq l (tcb s))) (rq s) m')) as Hi2.
      { destruct (Hi' x) as [? ? ? ? ? ? ? ? Hm]. split; try done. cbn [tcb rq mem reseq with_rerecv with_reseq] in *.
        eapply qinv_swap_frame; [exact Hm | exact HA']. }
      cbn [rq tcb] in *. eapply wp_mono; [apply (IH n ps' F); [exact Hi2 | cbn in *; lia]|].
      intros r' s' (Hrq & Hrw & ps2 & Hr). refine (conj Hrq (conj Hrw _)). exists ps2.
      destruct r' as [[[seg bp] len]|]; [|done]. destruct Hr as (? & Hlt & ?). cbn in Hlt |- *.
      split; [done|]. split; [lia | done].
Qed.

Lemma rinv_free n ps bp F s : rinv n ps (bp ++ F) s ->
  wp (match bp with [] => ret tt | _ => onmem (freeblist bp) end) s (fun _ s' =>
    rinv n ps F s' /\ rq s' = rq s /\ tcb s' = tcb s).
Proof.
  intros Hi. pose proof (ri_mem _ _ _ _ Hi) as Hm. destruct bp as [|b1 bp1]; [by apply wp_ret|].
  set (bp := b1 :: bp1) in *. clearbody bp. apply wp_onmem.
  pose proof (qinv_acct _ _ _ Hm) as HA.
  eapply wp_mono; [apply (wp_freeblist bp ((queued (reseq (tcb s)) ++ F) ++ bfirst (rq s)))|].
  - eapply acct_proper; [|reflexivity|exact HA]. solve_Permutation.
  - intros _ m' [HA' _]. refine (conj _ (conj eq_refl eq_refl)).
    destruct Hi as [? ? ? ? ? ? ? ? _]. split; try done. cbn [tcb rq mem].
    by eapply qinv_swap_frame.
Qed.

Lemma rx_urg_spec n ps F seg bp s : rinv n ps F s -> tflag seg URG = false ->
  wp (rx_urg seg bp) s (fun r s' => r = bp /\ rinv n ps F s' /\ rq s' = rq s /\
    reseq (tcb s') = reseq (tcb s) /\ rwnd (rcv (tcb s')) = rwnd (rcv (tcb s))).
Proof.
  intros Hi Hu. unfold rx_urg. wp_steps. rewrite Hu. cbn [andb].
  destruct (seq_gt _ _); wp_steps; [apply wp_set_tcb; wp_steps|]; split_and!; try done.
  by destruct Hi.
Qed.

Lemma rx_loop_spec fuel : forall n ps F s seg bp length,
  rinv n ps (bp ++ F) s -> (List.length (reseq (tcb s)) < fuel)%nat ->
  tflag seg URG = false ->
  length = 0 \/ seg_at n seg bp length /\ 0 < length <= rwnd (rcv (tcb s)) /\
    (forall p, p ∈ ps -> near (n + length) p) ->
  wp (rx_loop fuel seg bp length) s (fun _ s' => exists n' ps', n + length <= n' /\
    rinv n' ps' F s' /\ Forall (Z.lt n') ps' /\
    cdata (bfirst (rq s')) = cdata (bfirst (rq s)) ++ text n (n' - n)).
Proof.
  induction fuel as [|fuel IH]; intros n ps F s0 seg bp length Hi0 Hf0 Hurg Hpre0; [lia|]. cbn [rx_loop].
  apply wp_bind. eapply wp_mono; [by eapply rx_urg_spec|]. intros ? s (-> & Hi & Eq0 & Er0 & Ew0).
  rewrite <- Er0 in Hf0. rename Hf0 into Hf. rewrite <- Ew0 in Hpre0. rename Hpre0 into Hpre. rewrite <- Eq0.
  apply wp_bind. eapply (wp_mono _ _ (fun _ s' => rinv (n + length) ps F s' /\ 0 <= length /\
    cdata (bfirst (rq s')) = cdata (bfirst (rq s)) ++ text n length /\ reseq (tcb s') = reseq (tcb s))).
  { destruct (Z.eqb_spec length 0) as [->|Nl].
    - eapply wp_mono; [by apply rinv_free|]. intros _ s' (Hi' & -> & ->). rewrite Z.add_0_r.
      unfold text. rewrite seqZ_nil by lia. cbn [fmap list_fmap]. by rewrite app_nil_r.
    - destruct Hpre as [?|(Hseg & Hl & Hnear)]; [lia|].
      eapply wp_mono; [by eapply rx_text_spec|]. cbv beta. intros _ s' (? & ? & ?). auto with lia. }
  intros _ s1 (Hi1 & Hl0 & Hd1 & Ers). wp_steps.
  eapply wp_mono; [apply (next_segment_spec _ (n + length) ps F s1 Hi1)|].
  { unfold reseq_fuel. lia. }
  intros r s2 (Hrq & Hrw & ps2 & Hr). destruct r as [[[seg2 bp2] len2]|].
  - destruct Hr as (Hi2 & Hlt & Hseg2 & Hle2 & Hnear2).
    eapply wp_mono; [apply (IH (n + length) ps2 F s2 seg2 bp2 len2 Hi2)|].
    + rewrite Ers in Hlt. lia.
    + apply (sa_urg _ _ _ _ Hseg2).
    + destruct (Z.eq_dec len2 0) as [->|N]; [by left|]. right.
      pose proof (sa_len _ _ _ _ Hseg2). rewrite Hrw. split; [done|]. split; [lia | done].
    + intros _ s' (n' & ps' & Hn' & Hi' & Hps' & Hd'). pose proof (sa_len _ _ _ _ Hseg2).
      exists n', ps'. refine (conj _ (conj Hi' (conj Hps' _))); [lia|].
      rewrite Hd', Hrq, Hd1, <- app_assoc. f_equal.
      replace (n' - n) with (length + (n' - (n + length))) by lia. rewrite text_app by lia. done.
  - destruct Hr as [Hi2 Hps2]. apply wp_ret. exists (n + length), ps2.
    refine (conj _ (conj Hi2 (conj Hps2 _))); [lia|]. rewrite Hrq, Hd1. do 2 f_equal. lia.
Qed.

(** Inserting by position. *)
Lemma reseq_insert_spec n p rp rest : forall rp1 ps q0,
  entry_at rp p -> near n p -> Forall2 entry_at (rp1 :: rest) ps -> StronglySorted Z.le ps -> Forall (near n) ps ->
  Forall (fun q => q <= p) (take 1 ps) ->
  exists l q o ps', reseq_insert rp rp1 rest q0 = (l, q, o) /\ Forall2 entry_at l ps' /\
    StronglySorted Z.le ps' /\ l ≡ₚ rp :: rp1 :: rest /\ ps' ≡ₚ p :: ps /\ take 1 ps' = take 1 ps.
Proof.
  induction rest as [|nx rest IH]; intros rp1 ps q0 Hp Hnp Hes Hs Hn Hle;
    apply Forall2_cons_inv_l in Hes as (p1 & ps1 & Hp1 & Hes & ->); cbn [take] in *;
    apply Forall_cons in Hle as [Hle _]; apply Forall_cons in Hn as [Hn1 Hn];
    apply StronglySorted_inv in Hs as [Hs Hle1]; cbn [reseq_insert].
  - apply Forall2_nil_inv_l in Hes as ->. eexists _, _, _, [p1; p]. split; [done|].
    split_and!; [by apply Forall2_cons; split; [|apply Forall2_cons] | | solve_Permutation.. | done].
    constructor; [repeat constructor | constructor; [done | constructor]].
  - pose proof Hes as Hes'. apply Forall2_cons_inv_l in Hes' as (p2 & ps2 & Hp2 & Hes2 & ->).
    pose proof Hn as Hn'. apply Forall_cons in Hn' as [Hn2 Hn2'].
    rewrite (sa_seq _ _ _ _ Hp), (sa_seq _ _ _ _ Hp2). unfold near in *. rewrite seq_lt_pos by lia.
    destruct (Z.ltb_spec p p2) as [L|L].
    + eexists _, _, _, (p1 :: p :: p2 :: ps2). split; [done|].
      apply StronglySorted_inv in Hs as [Hs Hle2].
      assert (Forall (Z.le p) ps2) by (eapply Forall_impl; [exact Hle2|]; cbv beta; lia).
      apply Forall_cons in Hle1 as [Hle12 Hle1].
      split_and!; [by repeat (apply Forall2_cons; split) | | solve_Permutation.. | done].
      repeat (constructor; try done). lia.
    + destruct (IH nx (p2 :: ps2) (q0 + rlength rp1)) as (l & q & o & ps' & E & Hel & Hsl & Hl & Hps & Ht); try done.
      { cbn. constructor; [lia | constructor]. }
      rewrite E. eexists _, _, _, (p1 :: ps'). split; [done|].
      split_and!; [by constructor | | rewrite Hl; solve_Permutation | rewrite Hps; solve_Permutation | done].
      constructor; [done|]. rewrite Hps. constructor; [lia | done].
Qed.

Lemma wp_free_reseq l : forall F s, acct (queued l ++ F) s -> wp (free_reseq l) s (fun _ s' => acct F s').
Proof.
  induction l as [|rp l IH]; intros F s HA; cbn [free_reseq]; [by apply wp_ret|].
  apply wp_bind. eapply wp_mono; [apply (wp_freeblist (rbp rp) (queued l ++ F))|].
  - eapply acct_proper; [|reflexivity|exact HA]. unfold queued. rewrite fmap_cons. cbn [concat]. solve_Permutation.
  - intros _ s' [HA' _]. by apply IH.
Qed.

(** What becomes of the resequencing queue. *)
Definition reseq_added (ok : bool) (rp : Reseq) (r : Z) (l l' : list Reseq) : Prop :=
  if ok then r = 0 /\ l' ≡ₚ rp :: l \/ r = -1 /\ l' = [] else r = 0 /\ l' = l.

Lemma rinv_reseq n ps ps' F F' l s m : rinv n ps F s ->
  Forall2 entry_at l ps' -> StronglySorted Z.le ps' -> Forall (near n) ps' ->
  acct (queued l ++ F' ++ bfirst (rq s)) m -> rinv n ps' F' (mkTs (with_reseq l (tcb s)) (rq s) m).
Proof.
  intros [Hn Hw Hsum Hwin Hop He Hs Hnr Hm] He' Hs' Hn' HA. split; try done. cbn [tcb rq mem reseq with_reseq].
  eapply qinv_swap_frame; [exact Hm|]. by rewrite <- app_assoc.
Qed.

Lemma addreseq_spec ok n ps p seg bp length F s :
  rinv n ps (bp ++ F) s -> seg_at p seg bp length -> near n p ->
  wp (addreseq ok (tcb s) seg bp length) (mem s) (fun '(t, _, r) m' => exists ps',
    t = with_reseq (reseq t) (tcb s) /\ rinv n ps' F (mkTs t (rq s) m') /\
    reseq_added ok (mkReseq seg bp length) r (reseq (tcb s)) (reseq t) /\
    (forall q, q ∈ ps' -> q = p \/ q ∈ ps)).
Proof.
  intros Hi Hseg Hnp. pose proof Hi as [Hn Hw Hsum Hwin Hop He Hs Hnr Hm].
  pose proof (qinv_acct _ _ _ Hm) as HA.
  assert (tcb s = with_reseq (reseq (tcb s)) (tcb s)) as Et by (by destruct (tcb s)).
  unfold addreseq. destruct ok; cbn [negb reseq_added].
  2: { apply wp_bind. eapply wp_mono; [apply (wp_freeblist bp (queued (reseq (tcb s)) ++ F ++ bfirst (rq s)))|].
       - eapply acct_proper; [|reflexivity|exact HA]. solve_Permutation.
       - intros _ m' [HA' _]. apply wp_ret. exists ps.
         refine (conj Et (conj _ (conj (conj eq_refl eq_refl) (fun q Hq => or_intror Hq)))).
         rewrite Et. by eapply rinv_reseq. }
  set (rp := mkReseq seg bp length). assert (entry_at rp p) as Hrp by done.
  assert (forall l, l ≡ₚ rp :: reseq (tcb s) -> acct (queued l ++ F ++ bfirst (rq s)) (mem s)) as HA2.
  { intros l Hl. eapply acct_proper; [|reflexivity|exact HA]. unfold queued.
    rewrite Hl, fmap_cons. cbn [concat rbp]. solve_Permutation. }
  destruct (reseq (tcb s)) as [|rp1 rest] eqn:E.
  { apply Forall2_nil_inv_l in He as ->. apply wp_ret. exists [p].
    split_and!; [done | | by left | set_solver].
    eapply rinv_reseq; [done|..]; [by apply Forall2_cons | repeat constructor | by apply Forall_singleton | by apply HA2]. }
  pose proof He as He'. apply Forall2_cons_inv_l in He' as (p1 & ps1 & Hp1 & He1 & ->).
  pose proof Hnr as Hnr'. apply Forall_cons in Hnr' as [Hn1 Hnr1]. pose proof Hs as Hs'.
  apply StronglySorted_inv in Hs' as [Hs1 Hle1].
  rewrite (sa_seq _ _ _ _ Hseg), (sa_seq _ _ _ _ Hp1). unfold near in *. rewrite seq_lt_pos by lia.
  destruct (Z.ltb_spec p p1) as [L|L].
  - apply wp_ret. exists (p :: p1 :: ps1). split_and!; [done | | by left | set_solver].
    eapply rinv_reseq; [done|..]; [by apply Forall2_cons | | by apply Forall_cons | by apply HA2].
    constructor; [done|]. constructor; [lia|]. eapply Forall_impl; [exact Hle1|]. cbv beta. lia.
  - destruct (reseq_insert_spec n p rp rest rp1 (p1 :: ps1) 0) as (l & q & o & ps' & El & Hel & Hsl & Hl & Hps & _); try done.
    { cbn. constructor; [lia | constructor]. }
    rewrite El. destruct (s32 q >? _).
    + apply wp_bind. eapply wp_mono; [apply (wp_free_reseq l (F ++ bfirst (rq s))); by apply HA2|].
      intros ? m' HA'. apply wp_ret. exists []. split_and!; [done | | by right | set_solver].
      eapply rinv_reseq; [exact Hi | constructor | constructor | constructor | exact HA'].
    + apply wp_ret. exists ps'. split_and!; [done | | by left | ].
      * eapply rinv_reseq; [done|..]; try done; [|by apply HA2]. rewrite Hps. by apply Forall_cons.
      * intros q'. rewrite Hps. set_solver.
Qed.

(** The state between segments: nothing in the resequencing queue is due. *)
Definition rx_ok (n : Z) (ps : list Z) (F : list Block) (s : Ts) : Prop := rinv n ps F s /\ Forall (Z.lt n) ps.

Lemma rinv_tcb n ps F s t : rinv n ps F s -> rcv t = rcv (tcb s) -> reseq t = reseq (tcb s) ->
  window t = window (tcb s) -> rinv n ps F (mkTs t (rq s) (mem s)).
Proof. intros [? ? ? ? ? ? ? ? ?] E1 E2 E3. split; cbn [tcb rq mem]; rewrite ?E1, ?E2, ?E3; done. Qed.

Lemma rx_trim n ps F p seg bp length s :
  rinv n ps (bp ++ F) s -> - 2 ^ 30 <= p - n <= 2 ^ 30 -> seg_at p seg bp length ->
  wp (onmem (tcptrim (tcb s) seg bp length)) s (fun '(t, r) s' => exists x m,
    s' = mkTs (tcb s) (rq s) m /\ t = with_rerecv x (tcb s) /\ trimmed n (rwnd (rcv (tcb s))) p length r /\
    rinv n ps (match r with None => F | Some (_, bp', _) => bp' ++ F end) (mkTs t (rq s) m)).
Proof.
  intros Hi Hp Hseg. pose proof (ri_wnd _ _ _ _ Hi). pose proof (ri_sum _ _ _ _ Hi).
  pose proof (qlen_nonneg _ _ _ (ri_mem _ _ _ _ Hi)). pose proof (qinv_acct _ _ _ (ri_mem _ _ _ _ Hi)) as HA.
  apply wp_onmem.
  eapply wp_mono; [apply (tcptrim_spec (tcb s) n p seg bp length ((queued (reseq (tcb s)) ++ F) ++ bfirst (rq s)) (mem s))|];
    try done; [by apply (ri_nxt _ _ _ _ Hi) | lia | eapply acct_proper; [|reflexivity|exact HA]; solve_Permutation |].
  intros [t r] m (_ & [x ->] & Htr & HA'). exists x, m. split_and!; [done..|].
  destruct Hi as [? ? ? ? ? ? ? ? Hm]. split; try done. cbn [tcb rq mem reseq with_rerecv].
  eapply qinv_swap_frame; [exact Hm|].
  destruct r as [[[? bp'] ?]|]; (eapply acct_proper; [|reflexivity|exact HA']); solve_Permutation.
Qed.

(** A segment of the stream, at a position near the one expected. *)
Lemma rx_segment_spec ok n ps F p seg bp length s :
  rx_ok n ps (bp ++ F) s -> seg_at p seg bp length -> - 2 ^ 30 <= p - n <= 2 ^ 30 ->
  wp (rx_segment ok seg bp length) s (fun _ s' => exists n' ps', n <= n' /\ rx_ok n' ps' F s' /\
    cdata (bfirst (rq s')) = cdata (bfirst (rq s)) ++ text n (n' - n) /\
    (in_window n (rwnd (rcv (tcb s))) p length -> p <= n ->
       Z.min (p + length) (n + rwnd (rcv (tcb s))) <= n')).
Proof.
  intros [Hi Hlt] Hseg Hp. unfold rx_segment. wp_steps.
  eapply wp_mono; [by apply (rx_trim n ps F p)|]. intros [t r] s1 (x & m & -> & -> & Htr & Hi1).
  wp_steps. apply wp_set_tcb. wp_steps. cbn [tcb rq mem] in *.
  assert (text n (n - n) = []) as En by (unfold text; by rewrite seqZ_nil by lia).
  destruct r as [[[seg1 bp1] len1]|].
  2: { apply wp_upd_tcb. exists n, ps. cbn [tcb rq mem]. rewrite En, app_nil_r.
       split_and!; [lia | split; [by apply (rinv_tcb _ _ _ _ (with_tflags (Z.lor (tflags (tcb s)) FORCE) (with_rerecv x (tcb s))) Hi1) | done] | done | by intros ?]. }
  destruct Htr as [Hin (p' & Ep & El & Hseg1)].
  pose proof (ri_sum _ _ _ _ Hi). pose proof (qlen_nonneg _ _ _ (ri_mem _ _ _ _ Hi)).
  rewrite (sa_seq _ _ _ _ Hseg1), (sa_syn _ _ _ _ Hseg1), (sa_fin _ _ _ _ Hseg1).
  cbn [rcv with_rerecv]. rewrite (ri_nxt _ _ _ _ Hi).
  pose proof (sa_len _ _ _ _ Hseg1). rewrite seqno_eqb by lia. rewrite !orb_false_r.
  destruct (Z.eqb_spec p' n) as [Ee|Ne]; cbn [negb andb];
    [|destruct (Z.eqb_spec len1 0) as [El0|Nl]; cbn [negb]].
  - set (s1 := mkTs _ _ _) in Hi1 |- *.
    eapply wp_mono; [apply (rx_loop_spec _ n ps F s1 seg1 bp1 len1); [done | cbn; unfold reseq_fuel; cbn; lia | apply (sa_urg _ _ _ _ Hseg1) |]|].
    + destruct (Z.eq_dec len1 0) as [->|]; [by left | right]. subst n. split_and!; [done | lia | cbn; lia |].
      intros q Hq. pose proof (ri_near _ _ _ _ Hi) as Hnr. rewrite Forall_forall in Hnr, Hlt.
      specialize (Hnr q Hq). specialize (Hlt q Hq). unfold near in *. lia.
    + intros _ s' (n' & ps' & Hn' & Hi' & Hl' & Hd). exists n', ps'.
      split_and!; [lia | done | exact Hd | lia].
  - set (s1 := mkTs _ _ _) in Hi1 |- *.
    eapply wp_mono; [apply (rx_loop_spec _ n ps F s1 seg1 bp1 len1); [done | cbn; unfold reseq_fuel; cbn; lia | apply (sa_urg _ _ _ _ Hseg1) | by left]|].
    intros _ s' (n' & ps' & Hn' & Hi' & Hl' & Hd). exists n', ps'.
    split_and!; [lia | done | exact Hd | lia].
  - set (s1 := mkTs _ _ _) in Hi1 |- *. apply wp_bind, wp_onmem.
    eapply wp_mono; [apply (addreseq_spec ok n ps p' seg1 bp1 len1 F s1 Hi1 Hseg1)|].
    + unfold near. unfold in_window in Hin. destruct (length =? 0); lia.
    + intros [[t o] r] m' (ps' & _ & Hi' & _ & Hps). apply wp_set_tcb. exists n, ps'. cbn [tcb rq mem].
      rewrite En, app_nil_r. split_and!; [lia | split; [by apply (rinv_tcb _ _ _ _ (with_tflags (Z.lor (tflags t) FORCE) t) Hi') |] | done |].
      * apply Forall_forall. intros q Hq. rewrite Forall_forall in Hlt.
        destruct (Hps q Hq) as [->|?]; [lia | by apply Hlt].
      * intros. lia.
Qed.

(** C6: whatever the order, overlap and repetition of the segments of a
    stream, the receive queue gets the bytes of the stream in order, each once.
    A segment leaves the connection at a position [n'] no smaller than before,
    with exactly the bytes from [n] to [n'] added to the queue and the entries
    that wait for a gap all beyond [n']; a segment that overlaps the window at
    the position expected moves it to the segment's end or the window's. *)
Theorem rx_delivers_stream ok n ps F p seg bp length s :
  rx_ok n ps (bp ++ F) s -> seg_at p seg bp length -> - 2 ^ 30 <= p - n <= 2 ^ 30 ->
  wp (rx_segment ok seg bp length) s (fun _ s' => exists n' ps', n <= n' /\ rx_ok n' ps' F s' /\
    cdata (bfirst (rq s')) = cdata (bfirst (rq s)) ++ text n (n' - n) /\
    (in_window n (rwnd (rcv (tcb s))) p length -> p <= n ->
       Z.min (p + length) (n + rwnd (rcv (tcb s))) <= n')).
Proof. apply rx_segment_spec. Qed.

(** [tcptrim] keeps of a segment exactly the bytes inside the window, with
    the sequence number moved to the first of them; it refuses the segment, and
    frees its blocks, exactly when none of it is inside; and it changes no more
    of the connection than the count of bytes received again. *)
Theorem tcptrim_keeps_window t n p seg bp length F s :
  nxt (rcv t) = seqno b n -> 0 <= rwnd (rcv t) <= 2 ^ 30 -> - 2 ^ 30 <= p - n <= 2 ^ 30 ->
  seg_at p seg bp length -> acct (bp ++ F) s ->
  wp (tcptrim t seg bp length) s (fun '(t', r) s' => (exists x, t' = with_rerecv x t) /\
    trimmed n (rwnd (rcv t)) p length r /\
    match r with None => acct F s' | Some (_, bp', _) => acct (bp' ++ F) s' end).
Proof.
  intros Hn Hw Hp Hseg HA. eapply wp_mono; [by apply tcptrim_spec|].
  intros [t' r] s' (_ & ? & ? & ?). done.
Qed.

(** The resequencing queue stays sorted by position whatever the arrival
    order: [addreseq] links the segment in its place, or, when the queue holds
    more than the largest window, frees every block of it and returns -1;
    without memory for the entry the segment alone is freed. *)
Theorem addreseq_sorted ok n ps p seg bp length F s :
  rinv n ps (bp ++ F) s -> seg_at p seg bp length -> near n p ->
  wp (addreseq ok (tcb s) seg bp length) (mem s) (fun '(t, _, r) m' =>
    t = with_reseq (reseq t) (tcb s) /\ (exists ps', rinv n ps' F (mkTs t (rq s) m')) /\
    reseq_added ok (mkReseq seg bp length) r (reseq (tcb s)) (reseq t)).
Proof.
  intros Hi Hseg Hp. eapply wp_mono; [by apply (addreseq_spec ok n ps p)|].
  intros [[t o] r] m' (ps' & ? & ? & ? & _). eauto.
Qed.
End Stream.

(** ** Witnesses *)

Lemma sequence_comparisons_witness :
  seq_lt (seqno 4294967290 3) (seqno 4294967290 8) = true /\
  seq_within (seqno 4294967290 3) (seqno 4294967290 0) (seqno 4294967290 20) = true.
Proof.
  destruct (sequence_comparisons 4294967290 3 8 0 20) as (H & _ & _ & _ & H'); [lia..|].
  split; [exact H | exact H'].
Defined.

(** A connection that expects 4294967294, with a window of 8 and the second of
    two segments already waiting: the numbers of the first one's bytes wrap. *)
Definition demo_str (p : Z) : Z := 10 + p.
Definition demo_seg (p : Z) : Tcp := mkTcp 80 1024 (seqno 4294967294 p) 1 ACK 0 8760 0 0 0.
Definition demo_text (i : nat) (p : Z) : Block := demo_block i (text demo_str p 4).
Definition demo_tcb : Tcpctl :=
  mkTcb (mkRcv 4294967294 8 4294967294 false 0 0) [mkReseq (demo_seg 4) [demo_text 1 4] 4]
    0 8 0 4294967293 1460 1460 8760 0 0 0 0 0.
Definition demo_ts : Ts := mkTs demo_tcb (new_queue 8 Qcoalesce false) bst2.

Lemma demo_seg_at i p : i = 0%nat /\ p = 0 \/ i = 1%nat /\ p = 4 ->
  seg_at demo_str 4294967294 p (demo_seg p) [demo_text i p] 4.
Proof.
  intros [[-> ->]|[-> ->]]; (split; [reflexivity | lia | reflexivity | | reflexivity..]);
    apply Forall_singleton; vm_compute; intuition discriminate.
Qed.
Lemma demo_acct : acct [demo_text 0 0; demo_text 1 4] bst2.
Proof. split; reflexivity. Qed.
Lemma demo_rx_ok : rx_ok demo_str 4294967294 0 [4] [demo_text 0 0] demo_ts.
Proof.
  split; [|by apply Forall_singleton]. split; try done.
  - constructor; [|constructor]. apply (demo_seg_at 1 4). auto.
  - constructor; constructor.
  - apply Forall_singleton. done.
  - split; try done. eapply acct_proper; [|reflexivity|exact demo_acct]. apply perm_swap.
Qed.

Lemma rx_delivers_stream_witness :
  wp (rx_segment true (demo_seg 0) [demo_text 0 0] 4) demo_ts (fun _ s' => exists n', 4 <= n' /\
    cdata (bfirst (rq s')) = text demo_str 0 n').
Proof.
  eapply wp_mono; [apply (rx_delivers_stream demo_str 4294967294 true 0 [4] [] 0 (demo_seg 0) [demo_text 0 0] 4 demo_ts)|].
  - exact demo_rx_ok.
  - apply demo_seg_at. auto.
  - lia.
  - intros _ s' (n' & ps' & _ & _ & Hd & Hn). exists n'. split.
    + apply Hn; [vm_compute; intuition discriminate | lia].
    + rewrite Hd, Z.sub_0_r. reflexivity.
Defined.

(** The same segment once two of its bytes have been received and there is
    room for one. *)
Definition demo_small : Tcpctl := with_rcv (mkRcv 0 1 0 false 0 0) demo_tcb.
Lemma tcptrim_keeps_window_witness :
  wp (tcptrim demo_small (demo_seg 0) [demo_text 0 0] 4) bst2 (fun '(_, r) _ =>
    exists seg bp, r = Some (seg, bp, 1) /\ cdata bp = [12] /\ seq seg = 0).
Proof.
  eapply wp_mono; [apply (tcptrim_keeps_window demo_str 4294967294 demo_small 2 0 (demo_seg 0)
    [demo_text 0 0] 4 [demo_text 1 4] bst2)|].
  - reflexivity.
  - cbn. lia.
  - lia.
  - apply demo_seg_at. auto.
  - exact demo_acct.
  - intros [t' [[[seg bp] len]|]] s' (_ & Htr & _).
    + destruct Htr as (_ & p' & -> & -> & [Hs _ Hd _ _ _ _]). exists seg, bp. rewrite Hd, Hs. done.
    + exfalso. apply Htr. vm_compute. intuition discriminate.
Defined.

Lemma addreseq_sorted_witness :
  wp (addreseq true demo_tcb (demo_seg 0) [demo_text 0 0] 4) bst2 (fun '(t, _, r) _ =>
    (r = 0 /\ length (reseq t) = 2%nat) \/ (r = -1 /\ reseq t = [])).
Proof.
  eapply wp_mono; [apply (addreseq_sorted demo_str 4294967294 true 0 [4] 0 (demo_seg 0) [demo_text 0 0] 4 [] demo_ts)|].
  - apply demo_rx_ok.
  - apply demo_seg_at. auto.
  - done.
  - intros [[t o] r] m' (_ & _ & [[-> Hp]|[-> ->]]); [left | right; done].
    split; [done|]. rewrite Hp. reflexivity.
Defined.
