(* ===== verification/Tcpconn.v ===== *)
(** * A TCP conversation: the send side and the timers of ip/tcp.c

    [update], [tcpoutput] and what drives them: the routines of the timers, the
    user's [tcpkick] and [tcpclose], and the setting up and closing of a
    conversation.  The receive side of the control block is that of Tcp.v.
    [tcpoutput] gives the conversation away in between packets: what others do
    to it then is a parameter, constrained only where the theorems say so. *)

From stdpp Require Import base list gmap functions strings.
From Stdlib Require Import ZArith Lia.
From S2P Require Import Prelude Block Qio Tcptimer Tcp.
Open Scope Z_scope.
Open Scope nix_scope.

Definition MAX_TIME : Z := Z.shiftl 1 20.
Definition TCP_ACK : Z := 50.
Definition MAXBACKMS : Z := 9 * 60 * 1000.
Definition MSL2 : Z := 10.
Definition DEF_MSS : Z := 1460.
Definition DEF_MSS6 : Z := 1280.
Definition DEF_KAT : Z := 120000.
Definition SYNACK_RXTIMER : Z := 250.
Definition TCPREXMTTHRESH : Z := 3.
Definition tcp_irtt : Z := 500.
Definition CLONE : Z := 2.
Definition RETRAN : Z := 4.
Definition ACTIVE : Z := 8.
Definition SYNACK : Z := 16.

Inductive St := Closed | Listen | Syn_sent | Syn_received | Established | Finwait1 | Finwait2 | Close_wait | Closing | Last_ack | Time_wait.
#[export] Instance St_eq_dec : EqDecision St.
Proof. solve_decision. Defined.

Inductive Tstat := Mss | ActiveOpens | PassiveOpens | EstabResets | CurrEstab | OutSegs | RetransSegs | RetransTimeouts | OutRsts | OutOfOrder.
#[export] Instance Tstat_eq_dec : EqDecision Tstat.
Proof. solve_decision. Defined.

(** What leaves the conversation: a segment and its text, given to [ipoput4] or
    [ipoput6]; a reset; the octet of a keep alive, whose value is whatever is in the
    new block; [Fsconnected] and the wakeup of a listener; [iphtadd] and [iphtrem]. *)
Inductive Out :=
  | Segment (seg : Tcp) (data : list Z) | Reset (seg : Tcp) | Keepalive (seg : Tcp) (data : bool)
  | Fsconnected (msg : option string) | Wakeup_listener | Hashed | Unhashed.

(** A [Tcptimer] but for its links, which are those of Tcptimer.v. *)
Record Tm := mkTm {
  on : Tstate; tstart : Z; tcount : Z
}.
Definition with_on (x : Tstate) (c : Tm) : Tm := mkTm x (tstart c) (tcount c).
Definition with_tstart (x : Z) (c : Tm) : Tm := mkTm (on c) x (tcount c).
Definition with_tcount (x : Z) (c : Tm) : Tm := mkTm (on c) (tstart c) x.

Record Snd := mkSnd {
  snd_una : Z; snd_nxt : Z; snd_ptr : Z; snd_urg : Z; snd_wl2 : Z; snd_dupacks : Z; snd_recovery : bool; snd_rxt : Z
}.
Definition with_snd_una (x : Z) (c : Snd) : Snd := mkSnd x (snd_nxt c) (snd_ptr c) (snd_urg c) (snd_wl2 c) (snd_dupacks c) (snd_recovery c) (snd_rxt c).
Definition with_snd_nxt (x : Z) (c : Snd) : Snd := mkSnd (snd_una c) x (snd_ptr c) (snd_urg c) (snd_wl2 c) (snd_dupacks c) (snd_recovery c) (snd_rxt c).
Definition with_snd_ptr (x : Z) (c : Snd) : Snd := mkSnd (snd_una c) (snd_nxt c) x (snd_urg c) (snd_wl2 c) (snd_dupacks c) (snd_recovery c) (snd_rxt c).
Definition with_snd_urg (x : Z) (c : Snd) : Snd := mkSnd (snd_una c) (snd_nxt c) (snd_ptr c) x (snd_wl2 c) (snd_dupacks c) (snd_recovery c) (snd_rxt c).
Definition with_snd_wl2 (x : Z) (c : Snd) : Snd := mkSnd (snd_una c) (snd_nxt c) (snd_ptr c) (snd_urg c) x (snd_dupacks c) (snd_recovery c) (snd_rxt c).
Definition with_snd_dupacks (x : Z) (c : Snd) : Snd := mkSnd (snd_una c) (snd_nxt c) (snd_ptr c) (snd_urg c) (snd_wl2 c) x (snd_recovery c) (snd_rxt c).
Definition with_snd_recovery (x : bool) (c : Snd) : Snd := mkSnd (snd_una c) (snd_nxt c) (snd_ptr c) (snd_urg c) (snd_wl2 c) (snd_dupacks c) x (snd_rxt c).
Definition with_snd_rxt (x : Z) (c : Snd) : Snd := mkSnd (snd_una c) (snd_nxt c) (snd_ptr c) (snd_urg c) (snd_wl2 c) (snd_dupacks c) (snd_recovery c) x.

(** A [Conv] and its control block.  [rx] has the fields of the control block that the receive side
    shares, the receive queue and the blocks.  [wq]: the bytes in the write queue;
    [wqopen]: it is not closed.  [announced]: [s->state == Announced].  [out]: what has left, the
    last first.  [written] is no variable of the program: it counts the bytes the user
    has written. *)
Record Conv := mkConv {
  rx : Ts; snd : Snd; st : St; wq : list Z; wqopen : bool; timer : Tm; acktimer : Tm; rtt_timer : Tm; katimer : Tm; iss : Z; flgcnt : Z; ssthresh : Z; resent : Z; backedoff : Z; rttseq : Z; kacounter : Z; sndsyntime : Z; ctime : Z; wscale : Z; lport : Z; rport : Z; announced : bool; stats : Tstat -> Z; out : list Out; NOW : Z; written : Z
}.
Definition with_rx (x : Ts) (c : Conv) : Conv := mkConv x (snd c) (st c) (wq c) (wqopen c) (timer c) (acktimer c) (rtt_timer c) (katimer c) (iss c) (flgcnt c) (ssthresh c) (resent c) (backedoff c) (rttseq c) (kacounter c) (sndsyntime c) (ctime c) (wscale c) (lport c) (rport c) (announced c) (stats c) (out c) (NOW c) (written c).
Definition with_snd (x : Snd) (c : Conv) : Conv := mkConv (rx c) x (st c) (wq c) (wqopen c) (timer c) (acktimer c) (rtt_timer c) (katimer c) (iss c) (flgcnt c) (ssthresh c) (resent c) (backedoff c) (rttseq c) (kacounter c) (sndsyntime c) (ctime c) (wscale c) (lport c) (rport c) (announced c) (stats c) (out c) (NOW c) (written c).
Definition with_st (x : St) (c : Conv) : Conv := mkConv (rx c) (snd c) x (wq c) (wqopen c) (timer c) (acktimer c) (rtt_timer c) (katimer c) (iss c) (flgcnt c) (ssthresh c) (resent c) (backedoff c) (rttseq c) (kacounter c) (sndsyntime c) (ctime c) (wscale c) (lport c) (rport c) (announced c) (stats c) (out c) (NOW c) (written c).
Definition with_wq (x : list Z) (c : Conv) : Conv := mkConv (rx c) (snd c) (st c) x (wqopen c) (timer c) (acktimer c) (rtt_timer c) (katimer c) (iss c) (flgcnt c) (ssthresh c) (resent c) (backedoff c) (rttseq c) (kacounter c) (sndsyntime c) (ctime c) (wscale c) (lport c) (rport c) (announced c) (stats c) (out c) (NOW c) (written c).
Definition with_wqopen (x : bool) (c : Conv) : Conv := mkConv (rx c) (snd c) (st c) (wq c) x (timer c) (acktimer c) (rtt_timer c) (katimer c) (iss c) (flgcnt c) (ssthresh c) (resent c) (backedoff c) (rttseq c) (kacounter c) (sndsyntime c) (ctime c) (wscale c) (lport c) (rport c) (announced c) (stats c) (out c) (NOW c) (written c).
Definition with_timer (x : Tm) (c : Conv) : Conv := mkConv (rx c) (snd c) (st c) (wq c) (wqopen c) x (acktimer c) (rtt_timer c) (katimer c) (iss c) (flgcnt c) (ssthresh c) (resent c) (backedoff c) (rttseq c) (kacounter c) (sndsyntime c) (ctime c) (wscale c) (lport c) (rport c) (announced c) (stats c) (out c) (NOW c) (written c).
Definition with_acktimer (x : Tm) (c : Conv) : Conv := mkConv (rx c) (snd c) (st c) (wq c) (wqopen c) (timer c) x (rtt_timer c) (katimer c) (iss c) (flgcnt c) (ssthresh c) (resent c) (backedoff c) (rttseq c) (kacounter c) (sndsyntime c) (ctime c) (wscale c) (lport c) (rport c) (announced c) (stats c) (out c) (NOW c) (written c).
Definition with_rtt_timer (x : Tm) (c : Conv) : Conv := mkConv (rx c) (snd c) (st c) (wq c) (wqopen c) (timer c) (acktimer c) x (katimer c) (iss c) (flgcnt c) (ssthresh c) (resent c) (backedoff c) (rttseq c) (kacounter c) (sndsyntime c) (ctime c) (wscale c) (lport c) (rport c) (announced c) (stats c) (out c) (NOW c) (written c).
Definition with_katimer (x : Tm) (c : Conv) : Conv := mkConv (rx c) (snd c) (st c) (wq c) (wqopen c) (timer c) (acktimer c) (rtt_timer c) x (iss c) (flgcnt c) (ssthresh c) (resent c) (backedoff c) (rttseq c) (kacounter c) (sndsyntime c) (ctime c) (wscale c) (lport c) (rport c) (announced c) (stats c) (out c) (NOW c) (written c).
Definition with_iss (x : Z) (c : Conv) : Conv := mkConv (rx c) (snd c) (st c) (wq c) (wqopen c) (timer c) (acktimer c) (rtt_timer c) (katimer c) x (flgcnt c) (ssthresh c) (resent c) (backedoff c) (rttseq c) (kacounter c) (sndsyntime c) (ctime c) (wscale c) (lport c) (rport c) (announced c) (stats c) (out c) (NOW c) (written c).
Definition with_flgcnt (x : Z) (c : Conv) : Conv := mkConv (rx c) (snd c) (st c) (wq c) (wqopen c) (timer c) (acktimer c) (rtt_timer c) (katimer c) (iss c) x (ssthresh c) (resent c) (backedoff c) (rttseq c) (kacounter c) (sndsyntime c) (ctime c) (wscale c) (lport c) (rport c) (announced c) (stats c) (out c) (NOW c) (written c).
Definition with_ssthresh (x : Z) (c : Conv) : Conv := mkConv (rx c) (snd c) (st c) (wq c) (wqopen c) (timer c) (acktimer c) (rtt_timer c) (katimer c) (iss c) (flgcnt c) x (resent c) (backedoff c) (rttseq c) (kacounter c) (sndsyntime c) (ctime c) (wscale c) (lport c) (rport c) (announced c) (stats c) (out c) (NOW c) (written c).
Definition with_resent (x : Z) (c : Conv) : Conv := mkConv (rx c) (snd c) (st c) (wq c) (wqopen c) (timer c) (acktimer c) (rtt_timer c) (katimer c) (iss c) (flgcnt c) (ssthresh c) x (backedoff c) (rttseq c) (kacounter c) (sndsyntime c) (ctime c) (wscale c) (lport c) (rport c) (announced c) (stats c) (out c) (NOW c) (written c).
Definition with_backedoff (x : Z) (c : Conv) : Conv := mkConv (rx c) (snd c) (st c) (wq c) (wqopen c) (timer c) (acktimer c) (rtt_timer c) (katimer c) (iss c) (flgcnt c) (ssthresh c) (resent c) x (rttseq c) (kacounter c) (sndsyntime c) (ctime c) (wscale c) (lport c) (rport c) (announced c) (stats c) (out c) (NOW c) (written c).
Definition with_rttseq (x : Z) (c : Conv) : Conv := mkConv (rx c) (snd c) (st c) (wq c) (wqopen c) (timer c) (acktimer c) (rtt_timer c) (katimer c) (iss c) (flgcnt c) (ssthresh c) (resent c) (backedoff c) x (kacounter c) (sndsyntime c) (ctime c) (wscale c) (lport c) (rport c) (announced c) (stats c) (out c) (NOW c) (written c).
Definition with_kacounter (x : Z) (c : Conv) : Conv := mkConv (rx c) (snd c) (st c) (wq c) (wqopen c) (timer c) (acktimer c) (rtt_timer c) (katimer c) (iss c) (flgcnt c) (ssthresh c) (resent c) (backedoff c) (rttseq c) x (sndsyntime c) (ctime c) (wscale c) (lport c) (rport c) (announced c) (stats c) (out c) (NOW c) (written c).
Definition with_sndsyntime (x : Z) (c : Conv) : Conv := mkConv (rx c) (snd c) (st c) (wq c) (wqopen c) (timer c) (acktimer c) (rtt_timer c) (katimer c) (iss c) (flgcnt c) (ssthresh c) (resent c) (backedoff c) (rttseq c) (kacounter c) x (ctime c) (wscale c) (lport c) (rport c) (announced c) (stats c) (out c) (NOW c) (written c).
Definition with_ctime (x : Z) (c : Conv) : Conv := mkConv (rx c) (snd c) (st c) (wq c) (wqopen c) (timer c) (acktimer c) (rtt_timer c) (katimer c) (iss c) (flgcnt c) (ssthresh c) (resent c) (backedoff c) (rttseq c) (kacounter c) (sndsyntime c) x (wscale c) (lport c) (rport c) (announced c) (stats c) (out c) (NOW c) (written c).
Definition with_wscale (x : Z) (c : Conv) : Conv := mkConv (rx c) (snd c) (st c) (wq c) (wqopen c) (timer c) (acktimer c) (rtt_timer c) (katimer c) (iss c) (flgcnt c) (ssthresh c) (resent c) (backedoff c) (rttseq c) (kacounter c) (sndsyntime c) (ctime c) x (lport c) (rport c) (announced c) (stats c) (out c) (NOW c) (written c).
Definition with_lport (x : Z) (c : Conv) : Conv := mkConv (rx c) (snd c) (st c) (wq c) (wqopen c) (timer c) (acktimer c) (rtt_timer c) (katimer c) (iss c) (flgcnt c) (ssthresh c) (resent c) (backedoff c) (rttseq c) (kacounter c) (sndsyntime c) (ctime c) (wscale c) x (rport c) (announced c) (stats c) (out c) (NOW c) (written c).
Definition with_rport (x : Z) (c : Conv) : Conv := mkConv (rx c) (snd c) (st c) (wq c) (wqopen c) (timer c) (acktimer c) (rtt_timer c) (katimer c) (iss c) (flgcnt c) (ssthresh c) (resent c) (backedoff c) (rttseq c) (kacounter c) (sndsyntime c) (ctime c) (wscale c) (lport c) x (announced c) (stats c) (out c) (NOW c) (written c).
Definition with_announced (x : bool) (c : Conv) : Conv := mkConv (rx c) (snd c) (st c) (wq c) (wqopen c) (timer c) (acktimer c) (rtt_timer c) (katimer c) (iss c) (flgcnt c) (ssthresh c) (resent c) (backedoff c) (rttseq c) (kacounter c) (sndsyntime c) (ctime c) (wscale c) (lport c) (rport c) x (stats c) (out c) (NOW c) (written c).
Definition with_stats (x : Tstat -> Z) (c : Conv) : Conv := mkConv (rx c) (snd c) (st c) (wq c) (wqopen c) (timer c) (acktimer c) (rtt_timer c) (katimer c) (iss c) (flgcnt c) (ssthresh c) (resent c) (backedoff c) (rttseq c) (kacounter c) (sndsyntime c) (ctime c) (wscale c) (lport c) (rport c) (announced c) x (out c) (NOW c) (written c).
Definition with_out (x : list Out) (c : Conv) : Conv := mkConv (rx c) (snd c) (st c) (wq c) (wqopen c) (timer c) (acktimer c) (rtt_timer c) (katimer c) (iss c) (flgcnt c) (ssthresh c) (resent c) (backedoff c) (rttseq c) (kacounter c) (sndsyntime c) (ctime c) (wscale c) (lport c) (rport c) (announced c) (stats c) x (NOW c) (written c).
Definition with_NOW (x : Z) (c : Conv) : Conv := mkConv (rx c) (snd c) (st c) (wq c) (wqopen c) (timer c) (acktimer c) (rtt_timer c) (katimer c) (iss c) (flgcnt c) (ssthresh c) (resent c) (backedoff c) (rttseq c) (kacounter c) (sndsyntime c) (ctime c) (wscale c) (lport c) (rport c) (announced c) (stats c) (out c) x (written c).
Definition with_written (x : Z) (c : Conv) : Conv := mkConv (rx c) (snd c) (st c) (wq c) (wqopen c) (timer c) (acktimer c) (rtt_timer c) (katimer c) (iss c) (flgcnt c) (ssthresh c) (resent c) (backedoff c) (rttseq c) (kacounter c) (sndsyntime c) (ctime c) (wscale c) (lport c) (rport c) (announced c) (stats c) (out c) (NOW c) x.

(** [tcpgo] and [tcphalt], for the timer's own fields. *)
Definition tgo (t : Tm) : Tm := if tstart t =? 0 then t else mkTm TcptimerON (tstart t) (tstart t).
Definition thalt (t : Tm) : Tm := with_on TcptimerOFF t.

(** What happens to a packet: no block for its header, no route, or sent. *)
Inductive Outcome := Nomem | Noroute | Sent.
(** What is outside the conversation: the fate of the next packet; what others do
    while it is unlocked; [tcpporthogdefense]; random numbers; [tcpmtu] with its scale;
    whether [malloc] has memory. *)
Class Net := {
  outcome : Conv -> Outcome;
  others : M Conv ();
  hogdefense : bool;
  nrand32 : Conv -> Z;
  tcpmtu : Conv -> Z * Z;
  malloc_ok : Conv -> bool
}.

(** The control block. *)
Definition base (c : Conv) : Tcpctl := tcb (rx c).
Definition with_base (t : Tcpctl) (c : Conv) : Conv := with_rx (mkTs t (rq (rx c)) (mem (rx c))) c.
Definition with_cwind x t := mkTcb (rcv t) (reseq t) (rerecv t) (window t) (tflags t) (irs t) (tmss t) x
  (snd_wnd t) (snd_scale t) (backoff_n t) (mdev t) (srtt t) (timer_start t).
Definition with_snd_wnd x t := mkTcb (rcv t) (reseq t) (rerecv t) (window t) (tflags t) (irs t) (tmss t) (cwind t)
  x (snd_scale t) (backoff_n t) (mdev t) (srtt t) (timer_start t).
Definition with_tmss x t := mkTcb (rcv t) (reseq t) (rerecv t) (window t) (tflags t) (irs t) x (cwind t)
  (snd_wnd t) (snd_scale t) (backoff_n t) (mdev t) (srtt t) (timer_start t).
Definition with_irs x t := mkTcb (rcv t) (reseq t) (rerecv t) (window t) (tflags t) x (tmss t) (cwind t)
  (snd_wnd t) (snd_scale t) (backoff_n t) (mdev t) (srtt t) (timer_start t).
Definition with_backoff x t := mkTcb (rcv t) (reseq t) (rerecv t) (window t) (tflags t) (irs t) (tmss t) (cwind t)
  (snd_wnd t) (snd_scale t) x (mdev t) (srtt t) (timer_start t).
Definition with_rtt m r t := mkTcb (rcv t) (reseq t) (rerecv t) (window t) (tflags t) (irs t) (tmss t) (cwind t)
  (snd_wnd t) (snd_scale t) (backoff_n t) m r (timer_start t).

Definition onconv (g : Conv -> Conv) : M Conv () := modify g.
Definition onbase (g : Tcpctl -> Tcpctl) : M Conv () := modify (fun c => with_base (g (base c)) c).
Definition onsnd (g : Snd -> Snd) : M Conv () := modify (fun c => with_snd (g (snd c)) c).
Definition onrx {A} (m : M Ts A) : M Conv A := fun c =>
  match m (rx c) with
  | Ret a x => Ret a (with_rx x c)
  | Error e x => Error e (with_rx x c)
  | Panic msg => Panic msg
  | Undef msg => Undef msg
  end.
Definition the {A} (f : Conv -> A) : M Conv A := gets f.
Definition getc : M Conv Conv := the (fun c => c).
Definition emit (o : Out) : M Conv () := onconv (fun c => with_out (o :: out c) c).
Definition stat (k : Tstat) (n : Z) : M Conv () := onconv (fun c => with_stats (<[k := stats c k + n]> (stats c)) c).
Definition setstat (k : Tstat) (n : Z) : M Conv () := onconv (fun c => with_stats (<[k := n]> (stats c)) c).
Definition flag (f : Z) (c : Conv) : bool := negb (Z.land (tflags (base c)) f =? 0).
Definition setflag (f : Z) : M Conv () := onbase (fun t => with_tflags (Z.lor (tflags t) f) t).
Definition clrflag (f : Z) : M Conv () := onbase (fun t => with_tflags (Z.land (tflags t) (u8 (Z.lnot f))) t).
Definition when (b : bool) (m : M Conv ()) : M Conv () := if b then m else ret ().

(** The routines of the queues, on the write queue: [qlen], [qcopy] and [qdiscard]. *)
Definition wqlen (c : Conv) : Z := zlen (wq c).
Definition wqcopy (len offset : Z) (c : Conv) : list Z := ztake len (zdrop offset (wq c)).
Definition wqdiscard (n : Z) : M Conv Z :=
  l <- the wqlen ;; onconv (fun c => with_wq (zdrop n (wq c)) c) ;; ret (Z.min n l).

Section Tcpconn.
Context `{MA : Malloc, NET : Net}.

Definition tcpsetstate (newstate : St) : M Conv () :=
  oldstate <- the st ;;
  if decide (oldstate = newstate) then ret ()
  else
    when (bool_decide (oldstate = Established)) (stat CurrEstab (-1)) ;;
    when (bool_decide (newstate = Established)) (stat CurrEstab 1) ;;
    (match newstate with
     | Closed => onrx (onrq qclose) ;; onconv (fun c => with_wqopen false (with_wq [] c))
     | Close_wait => onrx (onrq (qhangup ""%string))
     | _ => ret ()
     end) ;;
    onconv (with_st newstate) ;;
    when (bool_decide (oldstate = Syn_sent) && negb (bool_decide (newstate = Closed))) (emit (Fsconnected None)).

Definition rcvwin : M Conv () := onrx (modify (fun s => mkTs (tcprcvwin (tcb s) (rq s)) (rq s) (mem s))).

Definition localclose (reason : string) : M Conv () :=
  emit Unhashed ;;
  onconv (fun c => with_timer (thalt (timer c)) c) ;;
  onconv (fun c => with_rtt_timer (thalt (rtt_timer c)) c) ;;
  onconv (fun c => with_acktimer (thalt (acktimer c)) c) ;;
  onconv (fun c => with_katimer (thalt (katimer c)) c) ;;
  l <- the (fun c => reseq (base c)) ;;
  onrx (onmem (free_reseq l)) ;;
  onbase (with_reseq []) ;;
  s <- the st ;;
  when (bool_decide (s = Syn_sent)) (emit (Fsconnected (Some reason))) ;;
  a <- the announced ;;
  when a (emit Wakeup_listener) ;;
  onrx (onrq (qhangup reason)) ;;
  onconv (with_wqopen false) ;;
  tcpsetstate Closed.

(** The part of the window that can be used; [None]: wait. *)
Definition usable_window (c : Conv) (sent : Z) : option Z :=
  if snd_wnd (base c) =? 0 then
    if negb (sent =? 0) && negb (flag FORCE c) then None else Some 1
  else
    let usable := if snd_wnd (base c) <? cwind (base c) then snd_wnd (base c) else cwind (base c) in
    Some (if usable >=? sent then usable - sent else 0).

(** The flags of the next segment, the length of its text, its length and its options. *)
Definition segment_flags (c : Conv) (dsize ssize : Z) : Z * Z * Z * Z * Z :=
  match st c with
  | Syn_sent =>
    if snd_ptr (snd c) =? iss c then (SYN, u32 (dsize - 1), ssize, tmss (base c), wscale c) else (0, dsize, ssize, 0, 0)
  | Syn_received =>
    if snd_ptr (snd c) =? iss c then (Z.lor ACK SYN, 0, 1, tmss (base c), wscale c) else (ACK, dsize, ssize, 0, 0)
  | _ => (ACK, dsize, ssize, 0, 0)
  end.

(** One round of the loop of [tcpoutput]: the segment is made out, sent and
    accounted for.  The result says whether to go on. *)
Definition send_segment (sndcnt sent ssize : Z) : M Conv bool :=
  clrflag FORCE ;;
  rcvwin ;;
  onconv (fun c => with_acktimer (thalt (acktimer c)) c) ;;
  onbase (fun t => with_rcv (set_una 0 (rcv t)) t) ;;
  c <- getc ;;
  let '(fl, dsize, ssize, m, w) := segment_flags c ssize ssize in
  let data := if dsize =? 0 then [] else wqcopy dsize sent c in
  let '(fl, dsize) :=
    if negb (dsize =? 0) && negb (zlen data =? dsize) then (Z.lor fl FIN, u32 (dsize - 1)) else (fl, dsize) in
  let fl := if u32 (sent + dsize) =? u32 sndcnt then Z.lor fl PSH else fl in
  let seg := mkTcp (lport c) (rport c) (snd_ptr (snd c)) (nxt (rcv (base c))) fl w (rwnd (rcv (base c))) 0 m 0 in
  when (seq_lt (snd_ptr (snd c)) (snd_nxt (snd c)))
    (let n := s32 (snd_nxt (snd c) - snd_ptr (snd c)) in
     let n := if ssize <? u32 n then s32 ssize else n in
     onconv (fun c => with_resent (s32 (resent c + n)) c) ;; stat RetransSegs 1) ;;
  onsnd (fun d => with_snd_ptr (u32 (snd_ptr d + ssize)) d) ;;
  onsnd (fun d => if seq_gt (snd_ptr d) (snd_nxt d) then with_snd_nxt (snd_ptr d) d else d) ;;
  o <- the outcome ;;
  match o with
  | Nomem => ret false
  | _ =>
    when (negb (ssize =? 0))
      (onconv (fun c => if decide (on (timer c) = TcptimerON) then c else with_timer (tgo (timer c)) c) ;;
       onconv (fun c =>
         if negb (bool_decide (on (rtt_timer c) = TcptimerON)) && (ssize =? tmss (base c)) then
           with_rttseq (snd_ptr (snd c)) (with_rtt_timer (tgo (rtt_timer c)) c)
         else c)) ;;
    stat OutSegs 1 ;;
    onconv (fun c => with_katimer (tgo (katimer c)) c) ;;
    emit (Segment seg data) ;;
    when (match o with Noroute => true | _ => false end) (localclose "no route"%string) ;;
    ret true
  end.

(** States in which nothing is sent. *)
Definition silent (s : St) : bool := match s with Listen | Closed | Finwait2 => true | _ => false end.

Definition output_round : M Conv bool :=
  s <- the st ;;
  if silent s then ret false
  else
    c <- getc ;;
    when (blocked (rcv (base c)) && (rwnd (rcv (base c)) >? 0))
      (onbase (fun t => with_rcv (set_blocked false (rcv t)) t) ;; setflag FORCE) ;;
    c <- getc ;;
    let sndcnt := s32 (wqlen c + flgcnt c) in
    let sent := u32 (snd_ptr (snd c) - snd_una (snd c)) in
    if negb (snd_ptr (snd c) =? iss c) && negb (flag SYNACK c) then ret false
    else
      match usable_window c sent with
      | None => ret false
      | Some usable =>
        let ssize := u32 (sndcnt - sent) in
        let ssize := if usable <? ssize then usable else ssize in
        let ssize := if tmss (base c) <? ssize then tmss (base c) else ssize in
        if (ssize =? 0) && negb (flag FORCE c) then ret false
        else send_segment sndcnt sent ssize
      end.

Fixpoint output_loop (rounds : nat) (msgs : Z) : M Conv () :=
  match rounds with
  | O => ret ()
  | S rounds =>
    more <- output_round ;;
    if negb more then ret ()
    else when (msgs mod 4 =? 1) others ;; output_loop rounds (msgs + 1)
  end.
Definition tcpoutput : M Conv () := output_loop 100 0.

Definition tcprxmit : M Conv () :=
  setflag (Z.lor RETRAN FORCE) ;;
  onsnd (fun d => with_snd_ptr (snd_una d) d) ;;
  onconv (fun c => with_ssthresh (tmss (base c)) c) ;;
  onbase (fun t => with_cwind (tmss t) t) ;;
  tcpoutput.

Definition settimer : M Conv () :=
  onbase tcpsettimer ;;
  onconv (fun c => with_timer (with_tstart (timer_start (base c)) (timer c)) c).

(** ** Acknowledgements *)

Definition tcpsynackrtt : M Conv () :=
  onconv (fun c => let delta := s32 (NOW c - sndsyntime c) in
    with_base (with_rtt (s32 (Z.shiftl delta LOGDGAIN)) (s32 (Z.shiftl delta LOGAGAIN)) (base c)) c) ;;
  onconv (fun c => with_rtt_timer (thalt (rtt_timer c)) c).

(** Fast retransmission on duplicate acknowledgements. *)
Definition fast_rexmit (seg : Tcp) : M Conv () :=
  c <- getc ;;
  when ((ack seg =? snd_una (snd c)) && negb (snd_una (snd c) =? snd_nxt (snd c)) && (tlen seg =? 0) && (wnd seg =? snd_wnd (base c)))
    (let n := u32 (snd_dupacks (snd c) + 1) in
     onsnd (with_snd_dupacks n) ;;
     when (n =? TCPREXMTTHRESH)
       (onsnd (fun d => with_snd_rxt (snd_nxt d) (with_snd_recovery true d)) ;; tcprxmit)).

Definition update_wnd (seg : Tcp) : M Conv () :=
  c <- getc ;;
  when (seq_gt (ack seg) (snd_wl2 (snd c)) || ((snd_wl2 (snd c) =? ack seg) && (wnd seg >? snd_wnd (base c))))
    (onbase (with_snd_wnd (wnd seg)) ;; onsnd (with_snd_wl2 (ack seg))).

(** Slow start and congestion avoidance. *)
Definition grow_cwind (acked : Z) (c : Conv) : Z :=
  let t := base c in
  if (cwind t <? snd_wnd t) && negb (snd_recovery (snd c)) then
    let expand :=
      if cwind t <? ssthresh c then (if acked <? tmss t then acked else tmss t)
      else u32 (s32 (tmss t * tmss t)) / cwind t in
    let expand := if u32 (cwind t + expand) <? cwind t then u32 (snd_wnd t - cwind t) else expand in
    let expand := if u32 (cwind t + expand) >? snd_wnd t then u32 (snd_wnd t - cwind t) else expand in
    u32 (cwind t + expand)
  else cwind t.

(** The estimate of the round trip, after a measure of [rtt] ms: [mdev] and [srtt]. *)
Definition estimate (rtt mdev srtt : Z) : Z * Z :=
  if srtt =? 0 then (s32 (Z.shiftl rtt LOGDGAIN), s32 (Z.shiftl rtt LOGAGAIN))
  else
    let delta := s32 (rtt - Z.shiftr srtt LOGAGAIN) in
    let srtt := s32 (srtt + delta) in
    let srtt := if srtt <=? 0 then 1 else srtt in
    let delta := s32 (Z.abs delta - Z.shiftr mdev LOGDGAIN) in
    let mdev := s32 (mdev + delta) in
    (if mdev <=? 0 then 1 else mdev, srtt).

Definition measure_rtt (seg : Tcp) : M Conv () :=
  c <- getc ;;
  when (bool_decide (on (rtt_timer c) = TcptimerON) && seq_ge (ack seg) (rttseq c))
    (onconv (fun c => with_rtt_timer (thalt (rtt_timer c)) c) ;;
     when (negb (flag RETRAN c))
       (onbase (with_backoff 0) ;;
        onconv (with_backedoff 0) ;;
        let rtt := s32 (tstart (rtt_timer c) - tcount (rtt_timer c)) in
        let rtt := if rtt =? 0 then 1 else rtt in
        let rtt := s32 (rtt * MSPTICK) in
        onbase (fun t => let '(m, r) := estimate rtt (mdev t) (srtt t) in with_rtt m r t) ;;
        settimer)).

(** [done:] *)
Definition update_done (acked : Z) (seg : Tcp) : M Conv () :=
  n <- wqdiscard acked ;;
  when (n <? acked) (onconv (fun c => with_flgcnt (flgcnt c - 1) c)) ;;
  onsnd (with_snd_una (ack seg)) ;;
  onsnd (fun d => if seq_gt (ack seg) (snd_urg d) then with_snd_urg (ack seg) d else d) ;;
  onconv (fun c => with_timer ((if snd_una (snd c) =? snd_nxt (snd c) then thalt else tgo) (timer c)) c) ;;
  onsnd (fun d => if seq_lt (snd_ptr d) (snd_una d) then with_snd_ptr (snd_una d) d else d) ;;
  clrflag RETRAN ;;
  onbase (with_backoff 0) ;;
  onconv (with_backedoff 0).

(** From the check of what is acknowledged to the end. *)
Definition update_acked (seg : Tcp) (c : Conv) : M Conv () :=
  onsnd (fun d => if negb (snd_recovery d) || seq_ge (ack seg) (snd_rxt d) then with_snd_recovery false (with_snd_dupacks 0 d) else d) ;;
  let acked := u32 (ack seg - snd_una (snd c)) in
  if negb (flag SYNACK c) then
    setflag SYNACK ;;
    onconv (fun c => with_flgcnt (flgcnt c - 1) c) ;;
    update_done (u32 (acked - 1)) seg
  else
    onconv (fun c => with_base (with_cwind (grow_cwind acked c) (base c)) c) ;;
    measure_rtt seg ;;
    update_done acked seg.

Definition update (seg : Tcp) : M Conv () :=
  c <- getc ;;
  if seq_gt (ack seg) (snd_nxt (snd c)) then setflag FORCE
  else
    fast_rexmit seg ;;
    update_wnd seg ;;
    c <- getc ;;
    if negb (seq_gt (ack seg) (snd_una (snd c))) then
      when (flag RETRAN c && (snd_wnd (base c) =? 0)) (onconv (with_backedoff (MAXBACKMS / 4)))
    else update_acked seg c.

(** ** What drives the conversation *)

Definition tcptimeout : M Conv () :=
  s <- the st ;;
  match s with
  | Time_wait => localclose ""%string
  | Closed => ret ()
  | _ =>
    onbase (fun t => with_backoff (u8 (backoff_n t + 1)) t) ;;
    let maxback := if decide (s = Syn_sent) then MAXBACKMS / 2 else MAXBACKMS in
    onconv (fun c => with_backedoff (s32 (backedoff c + tstart (timer c) * MSPTICK)) c) ;;
    b <- the backedoff ;;
    if b >=? maxback then localclose "connection timed out"%string
    else
      settimer ;; tcprxmit ;; stat RetransTimeouts 1 ;; onsnd (with_snd_dupacks 0)
  end.

Definition tcpclose : M Conv () :=
  onrx (onrq (qhangup ""%string)) ;;
  onconv (with_wqopen false) ;;
  onrx (onrq qflush) ;;
  s <- the st ;;
  let fin (new : St) :=
    onconv (fun c => with_flgcnt (flgcnt c + 1) c) ;;
    onsnd (fun d => with_snd_nxt (u32 (snd_nxt d + 1)) d) ;;
    tcpsetstate new ;; tcpoutput in
  match s with
  | Listen => emit (Fsconnected (Some "Hangup"%string)) ;; localclose ""%string
  | Closed | Syn_sent => localclose ""%string
  | Syn_received | Established => fin Finwait1
  | Close_wait => fin Last_ack
  | _ => ret ()
  end.

Definition tcpkick : M Conv () :=
  s <- the st ;;
  match s with
  | Syn_sent | Syn_received | Established | Close_wait => rcvwin ;; tcpoutput
  | _ => localclose "Hangup"%string
  end.

Definition tcpacktimer : M Conv () :=
  s <- the st ;;
  if decide (s = Closed) then ret () else setflag FORCE ;; rcvwin ;; tcpoutput.

Definition tcpsetkacounter : M Conv () :=
  onconv (fun c => let n := Z.quot (12 * 60 * 1000) (s32 (tstart (katimer c) * MSPTICK)) in with_kacounter (if n <? 3 then 3 else n) c).

Definition tcpsendka : M Conv () :=
  c <- getc ;;
  let q := if hogdefense then u32 (snd_una (snd c) - 2 ^ 30 - Z.land (nrand32 c) (2 ^ 20 - 1)) else u32 (snd_una (snd c) - 1) in
  let fin := bool_decide (st c = Finwait2) in
  let fl := Z.lor ACK PSH in
  onbase (fun t => with_rcv (set_una 0 (rcv t)) t) ;;
  match outcome c with
  | Nomem => ret ()
  | _ => emit (Keepalive (mkTcp (lport c) (rport c) q (nxt (rcv (base c))) (if fin then Z.lor fl FIN else fl) 0 (rwnd (rcv (base c))) 0 0 0) (negb fin))
  end.

Definition tcpkeepalive : M Conv () :=
  s <- the st ;;
  if decide (s = Closed) then ret ()
  else
    onconv (fun c => with_kacounter (s32 (kacounter c - 1)) c) ;;
    k <- the kacounter ;;
    if k <=? 0 then localclose "connection timed out"%string
    else tcpsendka ;; onconv (fun c => with_katimer (tgo (katimer c)) c).

(** ** Opening *)

Definition TCP_LISTEN : Z := 0.
Definition TCP_CONNECT : Z := 1.

Definition tcpsndsyn : M Conv () :=
  c <- getc ;;
  let i := u32 (nrand32 c) in
  onconv (fun c => with_rttseq i (with_iss i c)) ;;
  onsnd (fun d => with_snd_nxt i (with_snd_ptr i (with_snd_una i (with_snd_wl2 i d)))) ;;
  onconv (fun c => with_flgcnt (flgcnt c + 1) c) ;;
  setflag FORCE ;;
  onconv (fun c => with_sndsyntime (NOW c) c) ;;
  let '(m, sc) := tcpmtu c in
  onbase (with_tmss (u16 m)) ;;
  onconv (with_wscale sc) ;;
  setstat Mss (u16 m).

(** [mss]: [DEF_MSS6] for a conversation of version 6 that is not announced. *)
Definition inittcpctl (mss0 : Z) : M Conv () :=
  onconv (fun c =>
    let off start := mkTm TcptimerOFF start 0 in
    let t := mkTcb (mkRcv 0 QMAX 0 false 0 0) [] 0 QMAX 0 0 mss0 mss0 0 0 0 0 (s32 (Z.shiftl tcp_irtt LOGAGAIN)) 0 in
    mkConv (mkTs t (set_limit QMAX (rq (rx c))) (mem (rx c))) (mkSnd 0 0 0 0 0 0 false 0) Closed (wq c) (wqopen c)
      (off (tcp_irtt / MSPTICK)) (off (TCP_ACK / MSPTICK)) (off MAX_TIME) (off (DEF_KAT / MSPTICK))
      0 0 65535 0 0 0 0 0 0 0 (lport c) (rport c) (announced c) (<[Mss := mss0]> (stats c)) (out c) (NOW c) (written c)).

Definition tcpstart (mode mss0 : Z) : M Conv () :=
  inittcpctl mss0 ;;
  emit Hashed ;;
  if mode =? TCP_LISTEN then
    stat PassiveOpens 1 ;; setflag CLONE ;; tcpsetstate Listen
  else
    stat ActiveOpens 1 ;; setflag ACTIVE ;; tcpsndsyn ;; tcpsetstate Syn_sent ;; tcpoutput.

(** [procsyn] sets the fields of Tcp.v's, and counts the segment size. *)
Definition procsyn_conv (seg : Tcp) : M Conv () :=
  m <- the (fun c => tmss (base c)) ;;
  onbase (fun t => procsyn t seg) ;;
  when (negb (mss seg =? 0) && (mss seg <? m)) (setstat Mss (mss seg)).

(** The user writes, with flow control, what comes next in the stream [str]. *)
Definition user_write (str : Z -> Z) (n : Z) : M Conv () :=
  onconv (fun c => with_written (written c + n) (with_wq (wq c ++ text str (written c) n) c)).
End Tcpconn.

(** ** The sender *)

(** The receive pointer and the window are in range. *)
Definition window_okb (s : Ts) : bool :=
  (0 <=? nxt (rcv (tcb s))) && (nxt (rcv (tcb s)) <? 2 ^ 32) && (0 <=? rwnd (rcv (tcb s))) && (rwnd (rcv (tcb s)) <? 2 ^ 31).
Lemma window_okP s : window_okb s = true <-> 0 <= nxt (rcv (tcb s)) < 2 ^ 32 /\ 0 <= rwnd (rcv (tcb s)) < 2 ^ 31.
Proof. unfold window_okb. rewrite !andb_true_iff, !Z.leb_le, !Z.ltb_lt. lia. Qed.
(** An entry of the resequencing queue: its length is that of its data. *)
Definition entry_wf (e : Reseq) : Prop := Forall wfb (rbp e) /\ zlen (cdata (rbp e)) = rlength e /\ 0 <= rlength e < 2 ^ 16 - 2 /\
  0 <= seq (rseg e) < 2 ^ 32 /\ 0 <= ack (rseg e) < 2 ^ 32 /\ 0 <= wnd (rseg e) < 2 ^ 32 /\ 0 <= urg (rseg e) < 2 ^ 16.

(** What matters of a conversation to its sender. *)
Record Core := mkCore {
  k_una : Z; k_nxt : Z; k_ptr : Z; k_iss : Z; k_written : Z; k_wq : list Z; k_open : bool; k_st : St; k_flg : Z; k_syn : bool;
  k_mss : Z; k_cwind : Z; k_wnd : Z; k_on : Tstate; k_start : Z; k_out : list Out; k_reseq : list Reseq; k_rq : Queue; k_mem : Bst;
  k_win : bool
}.
Definition core (c : Conv) : Core :=
  mkCore (snd_una (snd c)) (snd_nxt (snd c)) (snd_ptr (snd c)) (iss c) (written c) (wq c) (wqopen c) (st c) (flgcnt c) (flag SYNACK c)
    (tmss (base c)) (cwind (base c)) (snd_wnd (base c)) (on (timer c)) (tstart (timer c)) (out c) (reseq (base c)) (rq (rx c)) (mem (rx c)) (window_okb (rx c)).

Section Wp.
Context `{MA : Malloc, NET : Net}.
(** ** Steps that do not matter *)
Lemma wp_onconv g c (Q : () -> Conv -> Prop) : Q () (g c) -> wp (onconv g) c Q.
Proof. done. Qed.
Lemma wp_onbase g c (Q : () -> Conv -> Prop) : Q () (with_base (g (base c)) c) -> wp (onbase g) c Q.
Proof. done. Qed.
Lemma wp_onsnd g c (Q : () -> Conv -> Prop) : Q () (with_snd (g (snd c)) c) -> wp (onsnd g) c Q.
Proof. done. Qed.
Lemma wp_the_conv {A} (f : Conv -> A) c Q : Q (f c) c -> wp (the f) c Q.
Proof. done. Qed.
Lemma wp_getc c (Q : Conv -> Conv -> Prop) : Q c c -> wp getc c Q.
Proof. done. Qed.
Lemma wp_when (b : bool) m c (Q : () -> Conv -> Prop) : (b = true -> wp m c Q) -> (b = false -> Q () c) -> wp (when b m) c Q.
Proof. destruct b; [by intros H _; apply H|by intros _ H; apply H]. Qed.
Lemma wp_onrx {A} (m : M Ts A) c (Q : A -> Conv -> Prop) : wp m (rx c) (fun a x => Q a (with_rx x c)) -> wp (onrx m) c Q.
Proof. unfold wp, onrx. by destruct (m (rx c)). Qed.
End Wp.

Ltac cv_step:=
  lazymatch goal with
  | |- wp (onconv _) _ _ => apply wp_onconv
  | |- wp (onbase _) _ _ => apply wp_onbase
  | |- wp (onsnd _) _ _ => apply wp_onsnd
  | |- wp (the _) _ _ => apply wp_the_conv
  | |- wp getc _ _ => apply wp_getc
  | |- wp (emit _) _ _ => apply wp_onconv
  | |- wp (stat _ _) _ _ => apply wp_onconv
  | |- wp (setstat _ _) _ _ => apply wp_onconv
  | |- wp (setflag _) _ _ => apply wp_onbase
  | |- wp (clrflag _) _ _ => apply wp_onbase
  | _ => wp_step
  end; cbv beta.
Ltac cv_steps := repeat cv_step.

Section Sender.
Context `{MA : Malloc, MO : !MallocOk MA, NET : Net} (str : Z -> Z).
(** Blocks held by others. *)
Context (F : list Block).

(** Whether the user has closed: the FIN is in the sequence space. *)
Definition fin (s : St) : Z := match s with Finwait1 | Finwait2 | Closing | Last_ack | Time_wait => 1 | _ => 0 end.
(** The end of the sequence space: the SYN at position 0, the text from 1 on, the FIN. *)
Definition send_end (k : Core) : Z := 1 + k_written k + fin (k_st k).

(** A segment of the stream: a SYN is at position 0, the text is that of the stream at
    its position, as far as the user has written, and a FIN is after all of it, when the user
    can write no more. *)
Definition truthful (iss W : Z) (open : bool) (o : Out) : Prop :=
  match o with
  | Segment seg data => exists p, seq seg = seqno iss p /\
      let q := if tflag seg SYN then p + 1 else p in
      (tflag seg SYN = true -> p = 0) /\ 1 <= q /\ data = text str (q - 1) (zlen data) /\ (data = [] \/ q - 1 + zlen data <= W) /\
      (tflag seg FIN = true -> open = false /\ q - 1 + zlen data = W)
  | _ => True
  end.

(** At the positions [U] of [snd.una], [P] of [snd.ptr] and [N] of [snd.nxt]. *)
Record sender_ok (k : Core) (U P N : Z) : Prop := {
  so_una : k_una k = seqno (k_iss k) U;
  so_ptr : k_ptr k = seqno (k_iss k) P;
  so_nxt : k_nxt k = seqno (k_iss k) N;
  so_iss : 0 <= k_iss k < 2 ^ 32;
  so_order : 0 <= U <= P /\ P <= N <= send_end k;
  so_space : send_end k - U <= 2 ^ 30;
  so_room : k_written k + 2 - U <= 2 ^ 30;
  so_written : 0 <= k_written k;
  so_flg : k_flg k = send_end k - U - zlen (k_wq k);
  so_syn : if k_syn k then 1 <= U /\ k_wq k = text str (U - 1) (k_written k - (U - 1))
           else U = 0 /\ k_wq k = text str 0 (k_written k) /\ (k_st k = Syn_sent \/ k_st k = Syn_received);
  so_mss : 0 < k_mss k < 2 ^ 16;
  so_cwind : 0 < k_cwind k < 2 ^ 32;
  so_wnd : 0 <= k_wnd k < 2 ^ 32;
  so_fin : fin (k_st k) = 1 -> k_open k = false;
  so_done : k_st k = Finwait2 \/ k_st k = Time_wait -> U = send_end k;
  so_start : 0 < k_start k;
  so_early : k_st k = Syn_sent \/ k_st k = Syn_received -> k_written k <= 2 ^ 30
}.
Definition open_st (s : St) : Prop := s <> Closed /\ s <> Listen.
(** The receive side: the queue and the blocks, and that no segment can make it go wrong. *)
Definition mem_ok (k : Core) : Prop :=
  qinv (queued (k_reseq k) ++ F) (k_rq k) (k_mem k) /\ k_win k = true /\ Forall entry_wf (k_reseq k).
Definition out_ok (k : Core) : Prop := Forall (truthful (k_iss k) (k_written k) (k_open k)) (k_out k).

(** As long as something can be acknowledged, and there is memory for headers, the timer runs, or,
    if [pend], its routine is about to.  A SYN that is not acknowledged has been sent. *)
Definition unsynced (k : Core) : Prop := k_st k = Syn_sent -> k_syn k = false.
Definition timed (pend : bool) (k : Core) (U N : Z) : Prop :=
  unsynced k /\ (k_syn k = false -> 1 <= N) /\ ((forall c, outcome c <> Nomem) -> U < N -> k_on k = TcptimerON \/ pend = true).
Definition core_ok (pend : bool) (k : Core) : Prop :=
  mem_ok k /\ out_ok k /\ (open_st (k_st k) -> exists U P N, sender_ok k U P N /\ timed pend k U N).
Definition conv_ok (pend : bool) (c : Conv) : Prop := core_ok pend (core c).
(** As [conv_ok], or all that is not acknowledged is to be sent again. *)
Definition ready_ok (pend : bool) (c : Conv) : Prop :=
  mem_ok (core c) /\ out_ok (core c) /\
  (open_st (st c) -> exists U P N, sender_ok (core c) U P N /\ (timed pend (core c) U N \/ (P = U /\ unsynced (core c)))).
Definition as_state (s : St) (k : Core) : Core :=
  mkCore (k_una k) (k_nxt k) (k_ptr k) (k_iss k) (k_written k) (k_wq k) (k_open k) s (k_flg k) (k_syn k) (k_mss k) (k_cwind k) (k_wnd k)
    (k_on k) (k_start k) (k_out k) (k_reseq k) (k_rq k) (k_mem k) (k_win k).
(** The user has closed; when the conversation is closed too and nothing was left to be acknowledged, it is as if nothing had happened. *)
Definition ended (k : Core) : Prop :=
  fin (k_st k) = 1 \/ (k_st k = Closed /\ k_wq k = [] /\ (k_flg k = 0 -> exists U P N, sender_ok (as_state Finwait2 k) U P N)).
Definition onward (b : Z) (k k' : Core) : Prop :=
  k_iss k' = k_iss k /\ 0 <= s32 (k_una k' - k_una k) <= b /\ (k_syn k = true -> k_syn k' = true).
(** An open conversation stays the same one, or closes, and [snd.una] goes forward by [b] at most; once
    the user has closed it stays so; the resequencing queue does not grow. *)
Definition advance (b : Z) (k k' : Core) : Prop :=
  (open_st (k_st k') -> open_st (k_st k) /\ onward b k k') /\ (ended k -> ended k' /\ onward b k k') /\ (length (k_reseq k') <= length (k_reseq k))%nat.

(** ** Sending *)
Lemma fin_cases s : fin s = 0 \/ fin s = 1.
Proof. destruct s; cbn; auto. Qed.

Lemma flag_lor c g : Z.land g SYNACK = 0 -> flag SYNACK (with_base (with_tflags (Z.lor (tflags (base c)) g) (base c)) c) = flag SYNACK c.
Proof. intros H. unfold flag. cbn. by rewrite Z.land_lor_distr_l, H, Z.lor_0_r. Qed.
Lemma flag_land c g : Z.land g SYNACK = SYNACK -> flag SYNACK (with_base (with_tflags (Z.land (tflags (base c)) g) (base c)) c) = flag SYNACK c.
Proof. intros H. unfold flag. cbn. by rewrite <- Z.land_assoc, H. Qed.
(** Steps that do not matter. *)
Lemma core_flags c x : Z.land x SYNACK = Z.land (tflags (base c)) SYNACK -> core (with_base (with_tflags x (base c)) c) = core c.
Proof. intros H. unfold core, flag. cbn. by rewrite H. Qed.
Lemma wp_setflag g c (Q : () -> Conv -> Prop) : Z.land g SYNACK = 0 -> (forall c', core c' = core c -> Q () c') -> wp (setflag g) c Q.
Proof. intros H K. apply wp_onbase, K, core_flags. by rewrite Z.land_lor_distr_l, H, Z.lor_0_r. Qed.
Lemma wp_clrflag g c (Q : () -> Conv -> Prop) : Z.land (u8 (Z.lnot g)) SYNACK = SYNACK -> (forall c', core c' = core c -> Q () c') -> wp (clrflag g) c Q.
Proof. intros H K. apply wp_onbase, K, core_flags. by rewrite <- Z.land_assoc, H. Qed.
Lemma rcvwin_ok s : window_okb s = true -> window_okb (mkTs (tcprcvwin (tcb s) (rq s)) (rq s) (mem s)) = true.
Proof.
  rewrite !window_okP. intros (H1 & H2). unfold tcprcvwin. cbv zeta. pose proof (sgn_range 32 (window (tcb s) - qlen (rq s)) ltac:(lia)) as Hr.
  unfold s32 in *. destruct (Z.ltb_spec (sgn 32 (window (tcb s) - qlen (rq s))) 0); destruct (_ =? 0); cbn; lia.
Qed.
Lemma wp_rcvwin c (Q : () -> Conv -> Prop) : k_win (core c) = true -> (forall c', core c' = core c -> Q () c') -> wp rcvwin c Q.
Proof.
  intros Hw K. refine (wp_onrx _ _ _ _). apply wp_modify, K. pose proof (rcvwin_ok _ Hw) as Hw'. cbn in Hw. unfold core. cbn [rx with_rx]. rewrite Hw, Hw'.
  unfold tcprcvwin; cbv zeta; destruct (_ =? 0); reflexivity.
Qed.
Lemma wp_same g c (Q : () -> Conv -> Prop) : (forall c, core (g c) = core c) -> (forall c', core c' = core c -> Q () c') -> wp (onconv g) c Q.
Proof. intros H K. apply wp_onconv, K, H. Qed.

Lemma seqno_0 i : 0 <= i < 2 ^ 32 -> seqno i 0 = i.
Proof. intros H. unfold seqno. rewrite Z.add_0_r. by apply u32_small. Qed.
Lemma u32_seqno b p q : 0 <= p - q < 2 ^ 32 -> u32 (seqno b p - seqno b q) = p - q.
Proof.
  intros H. unfold seqno. destruct (u32_k (b + p)) as [k ->]. destruct (u32_k (b + q)) as [k' ->].
  apply (u32_eq (k - k')); lia.
Qed.
Lemma seqno_at i x : 0 <= x < 2 ^ 32 -> seqno i (u32 (x - i)) = x.
Proof. intros H. unfold seqno. destruct (u32_k (x - i)) as [k ->]. apply (u32_eq k); lia. Qed.

Lemma truthful_mono i W W' o o' x : W <= W' -> (o = false -> W' = W /\ o' = false) -> truthful i W o x -> truthful i W' o' x.
Proof.
  intros H Ho. destruct x as [seg data| | | | | |]; try done. intros (p & E & H1 & H2 & H3 & H4 & H5). exists p.
  split; [done|]. cbv zeta in *. split; [done|]. split; [done|]. split; [done|]. split; [destruct H4; [by left|right; lia]|].
  intros Hf. destruct (H5 Hf) as [-> E5]. destruct (Ho eq_refl) as [-> ->]. done.
Qed.
Lemma out_mono i W W' o o' l : W <= W' -> (o = false -> W' = W /\ o' = false) -> Forall (truthful i W o) l -> Forall (truthful i W' o') l.
Proof. intros H Ho. intros HF. eapply Forall_impl; [exact HF|]. intros x. by apply truthful_mono. Qed.

(** The bytes copied from the write queue. *)
Lemma wqcopy_text p W n off d : 0 <= off -> 0 <= d -> wqcopy d off n = ztake d (zdrop off (wq n)) ->
  wq n = text str p (W - p) -> wqcopy d off n = text str (p + off) (Z.min d (W - p - off)).
Proof.
  intros Ho Hd -> ->. rewrite text_drop by done. replace (W - p - off) with (W - (p + off)) by lia.
  destruct (Z_le_gt_dec d (W - (p + off))).
  - rewrite text_take by lia. f_equal. lia.
  - rewrite ztake_ge by (rewrite zlen_text; lia). f_equal. lia.
Qed.

Lemma truthful_text i W o seg data p n : seq seg = seqno i p -> tflag seg SYN = false -> 1 <= p -> 0 <= n -> data = text str (p - 1) n ->
  (n = 0 \/ p - 1 + n <= W) -> (tflag seg FIN = true -> o = false /\ p - 1 + n = W) -> truthful i W o (Segment seg data).
Proof.
  intros E1 E2 Hp Hn -> Hw Hf. exists p. rewrite E2. cbv zeta iota. rewrite zlen_text, Z.max_r by lia.
  split; [done|]. split; [done|]. split; [done|]. split; [done|]. split; [|done]. destruct Hw as [-> | Hw]; [left|by right].
  unfold text. by rewrite seqZ_nil.
Qed.
Lemma truthful_syn i W o seg data n : seq seg = seqno i 0 -> tflag seg SYN = true -> tflag seg FIN = false -> 0 <= n <= W -> data = text str 0 n ->
  truthful i W o (Segment seg data).
Proof.
  intros E1 E2 E3 Hn ->. exists 0. rewrite E2, E3. cbv zeta iota. rewrite zlen_text, Z.max_r by lia.
  split_and!; try done; lia.
Qed.

(** The segment's text, length and flags. *)
Definition made (c : Conv) (P ssize : Z) (fl : Z) (data : list Z) : Prop :=
  forall fl2 a sp dp w m wd pf ln, fl2 = fl \/ fl2 = Z.lor fl PSH ->
  truthful (iss c) (written c) (wqopen c) (Segment (mkTcp sp dp (snd_ptr (snd c)) a fl2 w wd m pf ln) data).

Lemma made_text c U P N ssize fl : sender_ok (core c) U P N -> flag SYNACK c = true -> 0 <= ssize <= send_end (core c) - P ->
  fl = 0 \/ fl = ACK ->
  let data := if ssize =? 0 then [] else wqcopy ssize (P - U) c in
  made c P ssize (if negb (ssize =? 0) && negb (zlen data =? ssize) then Z.lor fl FIN else fl) data.
Proof.
  intros S Hf Hs Hfl data. destruct S as [S1 S2 S3 S4 S5 S6 S6' S7 S8 S9 S10 S11 S12 S13 S14 S15 S16]. cbn in *. rewrite Hf in S9. destruct S9 as [HU Hwq].
  unfold send_end in *. cbn in *. pose proof (fin_cases (st c)) as Hfin.
  assert (data = text str (P - 1) (if ssize =? 0 then 0 else Z.min ssize (written c - (P - 1)))) as Ed.
  { subst data. destruct (Z.eqb_spec ssize 0) as [->|Ne]; [unfold text; by rewrite seqZ_nil by lia|].
    rewrite (wqcopy_text (U - 1) (written c) c (P - U) ssize) by (lia || done). f_equal; lia. }
  intros fl2 a sp dp w m wd pf ln Hfl2. set (seg := mkTcp _ _ _ _ _ _ _ _ _ _).
  assert (tflag seg SYN = false) as Hsyn by (subst seg; destruct Hfl as [-> | ->], (negb _ && negb _), Hfl2 as [-> | ->]; done).
  apply (truthful_text _ _ _ _ _ P (if ssize =? 0 then 0 else Z.min ssize (written c - (P - 1)))); try done; try lia.
  - destruct (Z.eqb_spec ssize 0); lia.
  - destruct (Z.eqb_spec ssize 0); lia.
  - intros Hfin'. assert (negb (ssize =? 0) && negb (zlen data =? ssize) = true) as E.
    { destruct (negb _ && negb _); [done|]. subst seg. destruct Hfl as [-> | ->], Hfl2 as [-> | ->]; done. }
    apply andb_true_iff in E as [E1 E2]. apply negb_true_iff in E1, E2. rewrite E1 in *. apply Z.eqb_neq in E1, E2.
    rewrite Ed, zlen_text in E2. split; [apply S13; lia|lia].
Qed.

(** The first segment. *)
Lemma made_syn c U P N ssize fl : sender_ok (core c) U P N -> flag SYNACK c = false -> P = 0 -> 0 <= ssize <= written c ->
  fl = SYN \/ fl = Z.lor ACK SYN -> made c P ssize fl (if ssize =? 0 then [] else wqcopy ssize 0 c) /\ zlen (wqcopy ssize 0 c) = ssize.
Proof.
  intros S Hf -> Hs Hfl. destruct S as [S1 S2 S3 S4 S5 S6 S6' S7 S8 S9 _ _ _ _ _ _ _]. cbn in *. rewrite Hf in S9. destruct S9 as (-> & Hwq & _).
  assert (wqcopy ssize 0 c = text str 0 ssize) as Ed.
  { rewrite (wqcopy_text 0 (written c) c 0 ssize); [f_equal; lia|lia|lia|done|]. by rewrite Hwq, Z.sub_0_r. }
  split; [|rewrite Ed, zlen_text; lia]. intros fl2 a sp dp w m wd pf ln Hfl2.
  apply (truthful_syn _ _ _ _ _ ssize); [done| | |done|].
  1, 2: destruct Hfl as [-> | ->], Hfl2 as [-> | ->]; done.
  destruct (Z.eqb_spec ssize 0) as [->|]; [|done]. unfold text. by rewrite seqZ_nil.
Qed.

(** *** Closing *)
Lemma wp_qhangup G msg q s (Q : () -> Qst -> Prop) : qinv G q s -> (forall q' s', qinv G q' s' -> Q () (q', s')) -> wp (qhangup msg) (q, s) Q.
Proof.
  intros [? ? ? ? HA] K. unfold qhangup. apply wp_bind, wp_setq, wp_bind, wp_setq, wp_bind, wp_lift, wp_modify, wp_lift, wp_modify, K. by split.
Qed.
Lemma wp_qflush G q s (Q : () -> Qst -> Prop) : qinv G q s -> (forall q' s', qinv G q' s' -> Q () (q', s')) -> wp (qflush) (q, s) Q.
Proof.
  intros [? ? ? ? HA] K. unfold qflush. apply wp_bind, wp_getq, wp_bind, wp_setq, wp_bind, wp_setq, wp_bind, wp_lift.
  eapply wp_mono; [by apply (wp_freeblist (bfirst q) G)|]. intros [] s' [HA' _]. apply wp_lift, wp_modify, K. split; try done; by intros [].
Qed.
Lemma wp_qclose G q s (Q : () -> Qst -> Prop) : qinv G q s -> (forall q' s', qinv G q' s' -> Q () (q', s')) -> wp (qclose) (q, s) Q.
Proof.
  intros [? ? ? ? HA] K. unfold qclose. apply wp_bind, wp_getq. do 6 apply wp_bind, wp_setq. apply wp_bind, wp_lift.
  eapply wp_mono; [by apply (wp_freeblist (bfirst q) G)|]. intros [] s' [HA' _]. apply wp_bind, wp_lift, wp_modify, wp_lift, wp_modify, K. split; try done; by intros [].
Qed.

Lemma wp_onrx_rq (m : M Qst ()) c (Q : () -> Conv -> Prop) :
  (forall G q s (Q : () -> Qst -> Prop), qinv G q s -> (forall q' s', qinv G q' s' -> Q () (q', s')) -> wp m (q, s) Q) ->
  mem_ok (core c) -> (forall q s, mem_ok (core (with_rx (mkTs (base c) q s) c)) -> Q () (with_rx (mkTs (base c) q s) c)) -> wp (onrx (onrq m)) c Q.
Proof.
  intros Hm (M & Hw & He) K. apply wp_onrx. refine (wp_onrq _ _ _ _). refine (Hm _ _ _ _ M _). intros q' s' Hq. by apply K.
Qed.
Lemma mem_ok_same k k' : k_reseq k' = k_reseq k -> k_rq k' = k_rq k -> k_mem k' = k_mem k -> k_win k' = k_win k -> mem_ok k -> mem_ok k'.
Proof. intros E1 E2 E3 E4. unfold mem_ok. by rewrite E1, E2, E3, E4. Qed.

(** In a closed state only the blocks and what has left matter. *)
Lemma closed_ok pend c : st c = Closed -> mem_ok (core c) -> out_ok (core c) -> conv_ok pend c.
Proof. intros E M O. split; [done|]. split; [done|]. intros [H _]. by destruct H. Qed.
Lemma out_ok_cons k x : (forall i W o, truthful i W o x) -> out_ok k -> Forall (truthful (k_iss k) (k_written k) (k_open k)) (x :: k_out k).
Proof. intros H O. by constructor. Qed.

(** Some of what has left is left out. *)
Definition set_out (l : list Out) (k : Core) : Core :=
  mkCore (k_una k) (k_nxt k) (k_ptr k) (k_iss k) (k_written k) (k_wq k) (k_open k) (k_st k) (k_flg k) (k_syn k) (k_mss k) (k_cwind k) (k_wnd k)
    (k_on k) (k_start k) l (k_reseq k) (k_rq k) (k_mem k) (k_win k).
(** What is needed to close; a conversation that has been closed: [w] is what is left in the write queue. *)
Definition whole (k : Core) : Prop := mem_ok k /\ out_ok k /\ (open_st (k_st k) -> exists U P N, sender_ok k U P N).
Definition closed_core (k k' : Core) : Prop :=
  k_st k' = Closed /\ mem_ok k' /\ out_ok k' /\ k_una k' = k_una k /\ k_iss k' = k_iss k /\ k_syn k' = k_syn k /\
  (ended k -> ended k') /\ k_reseq k' = [].
Lemma conv_whole pend c : conv_ok pend c -> whole (core c).
Proof. intros (M & O & H). split; [done|]. split; [done|]. intros Ho. destruct (H Ho) as (U & P & N & S & _). by exists U, P, N. Qed.
Lemma onward_refl b k k' : 0 <= b -> k_iss k' = k_iss k -> k_una k' = k_una k -> k_syn k' = k_syn k -> onward b k k'.
Proof. intros H E1 E2 E3. split; [done|]. rewrite E2, E3, Z.sub_diag. change (s32 0) with 0. split; [lia|done]. Qed.
Lemma advance_closed b k k' : 0 <= b -> closed_core k k' -> advance b k k'.
Proof.
  intros Hb (E & _ & _ & E1 & E2 & E3 & H & Er). split; [intros [Hc _]; by destruct Hc|]. split; [|rewrite Er; cbn; lia].
  intros He. split; [by apply H|by apply onward_refl].
Qed.

Lemma wp_when_same b m c (Q : () -> Conv -> Prop) : (forall c (Q : () -> Conv -> Prop), (forall c', core c' = core c -> Q () c') -> wp m c Q) ->
  (forall c', core c' = core c -> Q () c') -> wp (when b m) c Q.
Proof. intros H K. destruct b; [by apply H|by apply K]. Qed.
Lemma wp_stat k n c (Q : () -> Conv -> Prop) : (forall c', core c' = core c -> Q () c') -> wp (stat k n) c Q.
Proof. intros K. by apply wp_onconv, K. Qed.
(** Something else than a segment leaves. *)
Definition other_out (l l' : list Out) : Prop := l' = l \/ exists x, l' = x :: l /\ forall i W o, truthful i W o x.
Lemma wp_emit_other b x c (Q : () -> Conv -> Prop) : (forall i W o, truthful i W o x) ->
  (forall c' l, other_out (out c) l -> core c' = set_out l (core c) -> Q () c') -> wp (when b (emit x)) c Q.
Proof.
  intros H K. destruct b; cbn [when]; [cv_step; by apply (K _ (x :: out c)); [right; exists x|]|].
  apply wp_ret, (K _ (out c)); [by left|done].
Qed.
Lemma out_ok_other k l : other_out (k_out k) l -> out_ok k -> out_ok (set_out l k).
Proof. intros [-> | (x & -> & H)] O; [exact O|]. by apply (out_ok_cons k). Qed.

(** The fields a sender is about. *)
Lemma sender_same k k' U P N : k_una k' = k_una k -> k_nxt k' = k_nxt k -> k_ptr k' = k_ptr k -> k_iss k' = k_iss k -> k_written k' = k_written k ->
  k_wq k' = k_wq k -> (k_open k' = k_open k \/ k_open k' = false) -> k_st k' = k_st k -> k_flg k' = k_flg k -> k_syn k' = k_syn k -> k_mss k' = k_mss k ->
  k_cwind k' = k_cwind k -> k_wnd k' = k_wnd k -> k_start k' = k_start k -> sender_ok k U P N -> sender_ok k' U P N.
Proof.
  intros E1 E2 E3 E4 E5 E6 E7 E8 E9 E10 E11 E12 E13 E14 [S1 S2 S3 S4 S5 S6 S6' S7 S8 S9 S10 S11 S12 S13 S14 S15 S16].
  assert (send_end k' = send_end k) as E by (unfold send_end; congruence).
  split; rewrite ?E, ?E1, ?E2, ?E3, ?E4, ?E5, ?E6, ?E8, ?E9, ?E10, ?E11, ?E12, ?E13, ?E14; try done. intros Hf. destruct E7 as [-> | ->]; [by apply S13|done].
Qed.

(** Closing the states in which the user has closed. *)
Lemma sender_over k U P N k' : sender_ok k U P N -> fin (k_st k) = 1 -> k_flg k = 0 ->
  k_una k' = k_una k -> k_nxt k' = k_nxt k -> k_ptr k' = k_ptr k -> k_iss k' = k_iss k -> k_written k' = k_written k ->
  k_wq k' = [] -> k_open k' = false -> fin (k_st k') = 1 -> k_flg k' = 0 -> k_syn k' = k_syn k -> k_mss k' = k_mss k ->
  k_cwind k' = k_cwind k -> k_wnd k' = k_wnd k -> k_start k' = k_start k -> sender_ok k' U P N /\ U = N /\ P = N /\ k_wq k = [].
Proof.
  intros [S1 S2 S3 S4 S5 S6 S6' S7 S8 S9 S10 S11 S12 S13 S14 S15 S16] Ef Eg E1 E2 E3 E4 E5 E6 E7 E8 E9 E10 E11 E12 E13 E14.
  assert (send_end k' = send_end k) as E by (unfold send_end; congruence). unfold send_end in S5, S6, S8. rewrite Ef in S5, S6, S8. rewrite Eg in S8.
  destruct (k_syn k) eqn:Es.
  2: { destruct S9 as (_ & _ & [Hs|Hs]); rewrite Hs in Ef; done. }
  destruct S9 as [HU HW]. assert (zlen (k_wq k) = Z.max 0 (k_written k - (U - 1))) as Hl by by rewrite HW, zlen_text.
  assert (U = 2 + k_written k) as -> by lia.
  assert (text str (2 + k_written k - 1) (k_written k - (2 + k_written k - 1)) = []) as Et by (unfold text; by rewrite seqZ_nil by lia).
  rewrite Et in HW. rewrite HW in S8. change (zlen []) with 0 in S8. split; [|repeat split; try done; lia].
  split; rewrite ?E1, ?E2, ?E3, ?E4, ?E5, ?E6, ?E9, ?E10, ?E11, ?E12, ?E13, ?E14, ?E, ?Et; change (zlen []) with 0;
    try (unfold send_end; rewrite ?Ef); try done; try lia.
  intros [Hs|Hs]; rewrite Hs in E8; done.
Qed.

Lemma ended_shut k k' : (open_st (k_st k) -> exists U P N, sender_ok k U P N) -> k_st k' = Closed -> k_wq k' = [] \/ (k_wq k' = k_wq k /\ k_st k = Closed) ->
  k_una k' = k_una k -> k_nxt k' = k_nxt k -> k_ptr k' = k_ptr k -> k_iss k' = k_iss k -> k_written k' = k_written k ->
  k_open k' = false -> k_flg k' = k_flg k -> k_syn k' = k_syn k -> k_mss k' = k_mss k ->
  k_cwind k' = k_cwind k -> k_wnd k' = k_wnd k -> k_start k' = k_start k -> ended k -> ended k'.
Proof.
  intros H Es Ew E1 E2 E3 E4 E5 E7 E9 E10 E11 E12 E13 E14 [Hf|(Hc & Hw & He)].
  - right. assert (k_wq k' = []) as Ew' by (destruct Ew as [?|[_ Ec]]; [done|rewrite Ec in Hf; done]). split; [done|]. split; [done|]. intros Eg.
    destruct H as (U & P & N & S); [split; intros E; rewrite E in Hf; done|]. exists U, P, N. rewrite E9 in Eg.
    eapply (sender_over k); try done; by cbn; rewrite ?E9.
  - right. assert (k_wq k' = []) as Ew' by (destruct Ew as [?|[-> _]]; done). split; [done|]. split; [done|]. intros Eg. rewrite E9 in Eg.
    destruct (He Eg) as (U & P & N & S). exists U, P, N. eapply sender_same; try exact S; cbn; try done; [by rewrite Hw|by right].
Qed.

Lemma closing_ok k l q m (Q : () -> Conv -> Prop) c : 
  core c = mkCore (k_una k) (k_nxt k) (k_ptr k) (k_iss k) (k_written k) (k_wq k) false (k_st k) (k_flg k) (k_syn k) (k_mss k) (k_cwind k) (k_wnd k)
    TcptimerOFF (k_start k) l [] q m true -> mem_ok (core c) -> out_ok (core c) -> (open_st (k_st k) -> exists U P N, sender_ok k U P N) ->
  (forall c', closed_core k (core c') -> Q () c') -> wp (tcpsetstate Closed) c Q.
Proof.
  intros E M O Hs K. unfold tcpsetstate. cv_step. cv_step. destruct (decide (st c = Closed)) as [Ec|Ec].
  { cv_step. apply K. change (st c) with (k_st (core c)) in Ec. rewrite E in *. cbn in Ec. split; [done|]. split; [done|]. split; [done|]. split; [done|]. split; [done|]. split; [done|].
    split; [|done]. apply ended_shut; try done. by right. }
  apply wp_bind, wp_when_same; [by apply wp_stat|]. intros c1 E1.
  apply wp_bind, wp_when_same; [by apply wp_stat|]. intros c2 E2. rewrite E1 in E2. rewrite <- E2 in M, O, E. clear c1 E1 E2 Ec.
  do 2 apply wp_bind. apply (wp_onrx_rq _ _ _ wp_qclose M). intros q' s Hq. apply wp_onconv, wp_bind, wp_onconv.
  apply wp_when; [intros H; exfalso; by rewrite andb_comm in H|intros _]. apply K.
  injection E as D1 D2 D3 D4 D5 D6 D7 D8 D9 D10 D11 D12 D13 D14 D15 D16 D17 D18 D19 D20.
  split; [done|]. split; [by eapply mem_ok_same, Hq|]. split; [apply (out_mono _ (written c2) _ (wqopen c2)); [done|by intros _|exact O]|]. split; [done|]. split; [done|]. split; [done|].
  split; [|done]. apply ended_shut; try done. by left.
Qed.

Lemma wp_localclose r c (Q : () -> Conv -> Prop) : whole (core c) ->
  (forall c', closed_core (core c) (core c') -> Q () c') -> wp (localclose r) c Q.
Proof.
  intros (M & O & Hs) K. unfold localclose.
  do 10 cv_step. set (c2 := with_katimer _ _).
  assert (core c2 = mkCore (k_una (core c)) (k_nxt (core c)) (k_ptr (core c)) (k_iss (core c)) (k_written (core c)) (k_wq (core c)) (k_open (core c)) (k_st (core c))
    (k_flg (core c)) (k_syn (core c)) (k_mss (core c)) (k_cwind (core c)) (k_wnd (core c)) TcptimerOFF (k_start (core c)) (k_out (core c2)) (k_reseq (core c)) (k_rq (core c))
    (k_mem (core c)) (k_win (core c))) as E2 by done.
  assert (mem_ok (core c2) /\ out_ok (core c2)) as [M2 O2].
  { split; [by rewrite E2; eapply mem_ok_same, M|]. by apply (out_ok_cons (core c)). }
  clearbody c2. cv_step. cv_step. apply wp_bind, wp_onrx. refine (wp_onmem _ _ _ _).
  assert (acct (queued (reseq (base c2)) ++ bfirst (rq (rx c2)) ++ F) (mem (rx c2))) as A.
  { eapply acct_proper; [|reflexivity|exact (qi_acct _ _ _ (proj1 M2))]. cbn. solve_Permutation. }
  eapply wp_mono; [apply (wp_free_reseq _ _ _ A)|]. intros [] s' A'. cv_step. cv_step. 
  set (c3 := with_base _ _).
  assert (mem_ok (core c3)) as M3.
  { destruct M2 as ([B1 B2 B3 B4 _] & W & _). split; [by split|]. split; [exact W|by constructor]. }
  assert (core c3 = mkCore (k_una (core c2)) (k_nxt (core c2)) (k_ptr (core c2)) (k_iss (core c2)) (k_written (core c2)) (k_wq (core c2)) (k_open (core c2)) (k_st (core c2))
    (k_flg (core c2)) (k_syn (core c2)) (k_mss (core c2)) (k_cwind (core c2)) (k_wnd (core c2)) (k_on (core c2)) (k_start (core c2)) (k_out (core c2)) [] (rq (rx c2))
    s' (k_win (core c2))) as E3 by done.
  rewrite E2 in E3. cbn in E3. assert (out_ok (core c3)) as O3 by (rewrite E3; rewrite E2 in O2; exact O2). clearbody c3. clear A A' M2 O2 E2.
  cv_step. cv_step. apply wp_bind, wp_emit_other; [done|]. intros c4 l4 Hl4 E4. apply (out_ok_other (core c3)) in Hl4 as O4; [|done]. rewrite <- E4 in O4.
  assert (mem_ok (core c4)) as M4 by (eapply mem_ok_same, M3; by rewrite E4). rewrite E3 in E4. cbn in E4. clear Hl4 O3 M3 E3 c3.
  cv_step. cv_step. apply wp_bind, wp_emit_other; [done|]. intros c5 l5 Hl5 E5. apply (out_ok_other (core c4)) in Hl5 as O5; [|done]. rewrite <- E5 in O5.
  assert (mem_ok (core c5)) as M5 by (eapply mem_ok_same, M4; by rewrite E5). rewrite E4 in E5. cbn in E5. clear Hl5 O4 M4 E4 c4.
  apply wp_bind, (wp_onrx_rq _ _ _ (fun G => wp_qhangup G _) M5). intros q s Hq. cv_step. cv_step.
  eapply (closing_ok (core c)); [|by eapply mem_ok_same, Hq| |exact Hs|exact K].
  - pose proof (proj1 (proj2 Hq)) as W. cbn in W. unfold base in W. unfold core at 1. cbn. unfold base. cbn. rewrite W. injection E5 as D1 D2 D3 D4 D5 D6 D7 D8 D9 D10 D11 D12 D13 D14 D15 D16 D17 D18 D19 D20.
    rewrite D1, D2, D3, D4, D5, D6, D8, D9, D14, D15. unfold flag, base in *. cbn. rewrite D10, D11, D12, D13, D16, D17. done.
  - apply (out_mono _ (written c5) _ (wqopen c5)); [done|by intros _|exact O5].
Qed.

Lemma wp_closing r pend b c (Q : () -> Conv -> Prop) : 0 <= b -> whole (core c) ->
  (forall c', conv_ok pend c' -> advance b (core c) (core c') -> Q () c') -> wp (localclose r) c Q.
Proof.
  intros Hb H K. apply wp_localclose; [done|]. intros c' H'. apply K; [|by apply advance_closed]. destruct H' as (E & M & O & _). by apply closed_ok.
Qed.

(** *** A segment *)
(** After a segment of length [n]. *)
Definition after_send (k : Core) (P N n : Z) (o : Tstate) (l : list Out) : Core :=
  mkCore (k_una k) (seqno (k_iss k) (Z.max N (P + n))) (seqno (k_iss k) (P + n)) (k_iss k) (k_written k) (k_wq k) (k_open k) (k_st k) (k_flg k)
    (k_syn k) (k_mss k) (k_cwind k) (k_wnd k) o (k_start k) l (k_reseq k) (k_rq k) (k_mem k) (k_win k).
Lemma sender_sent k U P N n o l : sender_ok k U P N -> 0 <= n <= send_end k - P -> sender_ok (after_send k P N n o l) U (P + n) (Z.max N (P + n)).
Proof. intros [S1 S2 S3 S4 S5 S6 S6' S7 S8 S9 S10 S11 S12 S13 S14 S15 S16] Hn. split; unfold send_end in *; cbn in *; try done; lia. Qed.
Lemma sender_nxt k U P N n : sender_ok k U P N -> 0 <= n <= send_end k - P ->
  (if seq_gt (seqno (k_iss k) (P + n)) (k_nxt k) then seqno (k_iss k) (P + n) else k_nxt k) = seqno (k_iss k) (Z.max N (P + n)).
Proof.
  intros [S1 S2 S3 S4 S5 S6 S6' S7 _ _ _ _ _ _ _ _ _] Hn. rewrite S3. unfold seq_gt. rewrite s32_seqno by (unfold send_end in *; lia).
  destruct (Z.gtb_spec (P + n - N) 0); f_equal; lia.
Qed.

Lemma wp_advance {A} c1 k U P N n (m : M Conv A) Q : core c1 = k -> sender_ok k U P N -> 0 <= n <= send_end k - P ->
  (forall c2, core c2 = after_send k P N n (k_on k) (k_out k) -> wp m c2 Q) ->
  wp (onsnd (fun d => with_snd_ptr (u32 (snd_ptr d + n)) d) ;;
      onsnd (fun d => if seq_gt (snd_ptr d) (snd_nxt d) then with_snd_nxt (snd_ptr d) d else d) ;; m) c1 Q.
Proof.
  intros <- S Hn K. cv_step. cv_step. cv_step. cv_step. apply K. pose proof (sender_nxt _ _ _ _ _ S Hn) as Ex.
  destruct S as [_ S2 _ _ _ _ _ _ _ _ _ _ _ _ _ _ _]. cbn in Ex, S2. unfold core, after_send. cbn. rewrite <- Ex, S2, seqno_add.
  by destruct (seq_gt _ _).
Qed.

Lemma wp_start_timers n c (Q : () -> Conv -> Prop) : 0 < k_start (core c) ->
  (forall c' o, core c' = mkCore (k_una (core c)) (k_nxt (core c)) (k_ptr (core c)) (k_iss (core c)) (k_written (core c)) (k_wq (core c)) (k_open (core c))
     (k_st (core c)) (k_flg (core c)) (k_syn (core c)) (k_mss (core c)) (k_cwind (core c)) (k_wnd (core c)) o (k_start (core c)) (k_out (core c))
     (k_reseq (core c)) (k_rq (core c)) (k_mem (core c)) (k_win (core c)) -> (n <> 0 -> o = TcptimerON) -> (n = 0 -> o = k_on (core c)) -> Q () c') ->
  wp (when (negb (n =? 0))
      (onconv (fun c => if decide (on (timer c) = TcptimerON) then c else with_timer (tgo (timer c)) c) ;;
       onconv (fun c =>
         if negb (bool_decide (on (rtt_timer c) = TcptimerON)) && (n =? tmss (base c)) then
           with_rttseq (snd_ptr (snd c)) (with_rtt_timer (tgo (rtt_timer c)) c)
         else c))) c Q.
Proof.
  intros Hs K. apply wp_when; [intros Hn|intros Hn; apply negb_false_iff, Z.eqb_eq in Hn; by apply (K c (k_on (core c)))].
  apply negb_true_iff, Z.eqb_neq in Hn. cv_step. cv_step. set (c1 := if decide _ then _ else _).
  assert (core c1 = mkCore (k_una (core c)) (k_nxt (core c)) (k_ptr (core c)) (k_iss (core c)) (k_written (core c)) (k_wq (core c)) (k_open (core c))
     (k_st (core c)) (k_flg (core c)) (k_syn (core c)) (k_mss (core c)) (k_cwind (core c)) (k_wnd (core c)) TcptimerON (k_start (core c)) (k_out (core c))
     (k_reseq (core c)) (k_rq (core c)) (k_mem (core c)) (k_win (core c))) as E1.
  { subst c1. case_decide as Eo; [unfold core at 1; by rewrite Eo|]. unfold tgo. cbn in Hs.
    destruct (Z.eqb_spec (tstart (timer c)) 0); [lia|done]. }
  clearbody c1. cv_step. apply (K _ TcptimerON); [|done|done]. rewrite <- E1. by destruct (negb _ && _).
Qed.

Lemma advance_same b k k' : 0 <= b -> k_st k' = k_st k -> k_iss k' = k_iss k -> k_una k' = k_una k -> k_syn k' = k_syn k -> k_reseq k' = k_reseq k ->
  (k_st k = Closed -> ended k -> ended k') -> advance b k k'.
Proof.
  intros H E1 E2 E3 E4 E5 Hc. split; [intros Ho; rewrite E1 in Ho; split; [done|by apply onward_refl]|]. split; [|by rewrite E5]. intros He. split; [|by apply onward_refl].
  destruct (decide (k_st k = Closed)) as [E|E]; [by apply Hc|]. left. rewrite E1. destruct He as [?|[? _]]; done.
Qed.
Lemma advance_open b k k' : 0 <= b -> k_st k <> Closed -> k_st k' = k_st k -> k_iss k' = k_iss k -> k_una k' = k_una k -> k_syn k' = k_syn k ->
  k_reseq k' = k_reseq k -> advance b k k'.
Proof. intros. by apply advance_same. Qed.
Lemma advance_from b k0 k k' : k_st k = k_st k0 -> k_iss k = k_iss k0 -> k_una k = k_una k0 -> k_syn k = k_syn k0 -> k_reseq k = k_reseq k0 ->
  (ended k0 -> ended k) -> advance b k k' -> advance b k0 k'.
Proof.
  intros E1 E2 E3 E4 E5 E (H & G & L). unfold advance, onward in *. rewrite E1, E2, E3, E4, E5 in *. split; [exact H|]. split; [|exact L]. intros He. by apply G, E.
Qed.
Lemma advance_via b k0 k k' : k_st k0 <> Closed -> k_st k = k_st k0 -> k_iss k = k_iss k0 -> k_una k = k_una k0 -> k_syn k = k_syn k0 ->
  k_reseq k = k_reseq k0 -> advance b k k' -> advance b k0 k'.
Proof. intros Hc E1 E2 E3 E4 E5. apply advance_from; [done..|]. intros [He|[? _]]; [|done]. left. by rewrite E1. Qed.
Lemma ended_as k0 k : k_st k = k_st k0 -> k_wq k = k_wq k0 -> k_flg k = k_flg k0 ->
  (forall U P N, sender_ok (as_state Finwait2 k0) U P N -> exists U P N, sender_ok (as_state Finwait2 k) U P N) -> ended k0 -> ended k.
Proof.
  intros E1 E2 E3 H [Hf|(Hc & Hw & He)]; [left; by rewrite E1|right]. rewrite E1, E2, E3. split; [done|]. split; [done|].
  intros Eg. destruct (He Eg) as (U & P & N & S). by apply (H U P N).
Qed.
Lemma advance_refl b k : 0 <= b -> advance b k k.
Proof. intros H. by apply advance_same. Qed.

(** The flags and lengths of a segment, and that it is one of the stream. *)
Lemma segment_made c U P N n : sender_ok (core c) U P N -> P = 0 /\ flag SYNACK c = false \/ flag SYNACK c = true ->
  0 <= n <= send_end (core c) - P -> (P = 0 -> 0 < n) ->
  let '(fl, dsize, n', m, w) := segment_flags c n n in
  let data := if dsize =? 0 then [] else wqcopy dsize (P - U) c in
  let '(fl', dsize') := if negb (dsize =? 0) && negb (zlen data =? dsize) then (Z.lor fl FIN, u32 (dsize - 1)) else (fl, dsize) in
  0 <= n' <= send_end (core c) - P /\ made c P n fl' data /\ (0 < n -> 0 < n').
Proof.
  intros S Hc Hn Hp. pose proof S as [_ S2 _ S4 S5 S6 S6' S7 _ S9 _ _ _ _ _ _ S16]. cbn in S2, S4, S7, S9, S16.
  assert (forall fl', fl' = 0 \/ fl' = ACK -> flag SYNACK c = true -> let data := if n =? 0 then [] else wqcopy n (P - U) c in
    let '(fl, _) := if negb (n =? 0) && negb (zlen data =? n) then (Z.lor fl' FIN, u32 (n - 1)) else (fl', n) in
    0 <= n <= send_end (core c) - P /\ made c P n fl data /\ (0 < n -> 0 < n)) as Htext.
  { intros fl' Hfl Hf data. pose proof (made_text c U P N n fl' S Hf Hn Hfl) as Hm. cbv zeta in Hm. fold data in Hm.
    destruct (negb (n =? 0) && negb (zlen data =? n)); (split; [lia|done]). }
  destruct Hc as [[-> Hf]|Hf]; rewrite Hf in S9.
  - assert (U = 0) as -> by lia. destruct S9 as (_ & _ & Hst). specialize (Hp eq_refl). unfold segment_flags. rewrite S2, seqno_0, Z.eqb_refl by done.
    assert (fin (st c) = 0) as Ef by (destruct Hst as [-> | ->]; done). unfold send_end in *. cbn in *. rewrite Ef in *.
    destruct Hst as [-> | ->].
    + rewrite u32_small by lia. destruct (made_syn c 0 0 N (n - 1) SYN S Hf) as [Hm Hl]; [done|lia|by left|].
      change (0 - 0) with 0. destruct (n - 1 =? 0); cbn [negb andb]; rewrite ?Hl, ?Z.eqb_refl; cbn [negb]; (split; [lia|split; [exact Hm|lia]]).
    + cbn. destruct (made_syn c 0 0 N 0 (Z.lor ACK SYN) S Hf) as [Hm _]; [done|lia|by right|]. split; [lia|]. split; [exact Hm|lia].
  - assert (st c = Syn_sent \/ st c = Syn_received -> (snd_ptr (snd c) =? iss c) = false) as Hne.
    { intros Hst. specialize (S16 Hst). assert (fin (st c) = 0) as Ef by (destruct Hst as [-> | ->]; done). clear Hst.
      rewrite S2. rewrite <- (seqno_0 (iss c)) at 2 by done. rewrite seqno_eqb by (unfold send_end in *; cbn in *; lia). apply Z.eqb_neq. lia. }
    unfold segment_flags. destruct (st c) eqn:Est; try (by apply Htext; [right|]).
    + rewrite Hne by auto. apply Htext; [by left|done].
    + rewrite Hne by auto. apply Htext; [by right|done].
Qed.

(** From the counting of what is sent again to the end of the round. *)
Lemma wp_send_tail pend c0 c U P N n b x seg data (Q : bool -> Conv -> Prop) : core c = core c0 ->
  mem_ok (core c0) -> out_ok (core c0) -> k_st (core c0) <> Closed -> sender_ok (core c0) U P N ->
  unsynced (core c0) -> timed pend (core c0) U N \/ P = U -> 0 <= n <= send_end (core c0) - P -> (P = U -> U < N -> 0 < n) -> (k_syn (core c0) = false -> 1 <= Z.max N (P + n)) ->
  truthful (iss c) (written c) (wqopen c) (Segment seg data) ->
  (forall more c', conv_ok pend c' -> advance 0 (core c0) (core c') -> Q more c') ->
  wp (when b (onconv (fun c => with_resent (s32 (resent c + x)) c) ;; stat RetransSegs 1) ;;
      onsnd (fun d => with_snd_ptr (u32 (snd_ptr d + n)) d) ;;
      onsnd (fun d => if seq_gt (snd_ptr d) (snd_nxt d) then with_snd_nxt (snd_ptr d) d else d) ;;
      o <- the outcome ;;
      match o with
      | Nomem => ret false
      | _ =>
        when (negb (n =? 0))
          (onconv (fun c => if decide (on (timer c) = TcptimerON) then c else with_timer (tgo (timer c)) c) ;;
           onconv (fun c =>
             if negb (bool_decide (on (rtt_timer c) = TcptimerON)) && (n =? tmss (base c)) then
               with_rttseq (snd_ptr (snd c)) (with_rtt_timer (tgo (rtt_timer c)) c)
             else c)) ;;
        stat OutSegs 1 ;;
        onconv (fun c => with_katimer (tgo (katimer c)) c) ;;
        emit (Segment seg data) ;;
        when (match o with Noroute => true | _ => false end) (localclose "no route"%string) ;;
        ret true
      end) c Q.
Proof.
  intros E M O Hnc S Hun T Hn Hpu HN Htr K.
  assert (forall c2, core c2 = after_send (core c0) P N n (k_on (core c0)) (k_out (core c0)) -> outcome c2 = Nomem -> Q false c2) as Knomem.
  { intros c2 E2 En. apply K; [|rewrite E2; by apply advance_open]. unfold conv_ok. rewrite E2. split; [exact M|]. split; [exact O|].
    intros _. exists U, (P + n), (Z.max N (P + n)). split; [by apply sender_sent|]. split; [exact Hun|]. split; [exact HN|]. intros Hno. by destruct (Hno c2). }
  assert (forall c2 (b : bool) more, core c2 = after_send (core c0) P N n (k_on (core c0)) (k_out (core c0)) -> 
    wp (when (negb (n =? 0))
          (onconv (fun c => if decide (on (timer c) = TcptimerON) then c else with_timer (tgo (timer c)) c) ;;
           onconv (fun c =>
             if negb (bool_decide (on (rtt_timer c) = TcptimerON)) && (n =? tmss (base c)) then
               with_rttseq (snd_ptr (snd c)) (with_rtt_timer (tgo (rtt_timer c)) c)
             else c)) ;;
        stat OutSegs 1 ;;
        onconv (fun c => with_katimer (tgo (katimer c)) c) ;;
        emit (Segment seg data) ;;
        when b (localclose "no route"%string) ;;
        ret more) c2 Q) as Ksent.
  { intros c2 b' more E2. apply wp_bind, (wp_start_timers n c2); [rewrite E2; cbn; apply (so_start _ _ _ _ S)|].
    intros c3 o E3 Ho1 Ho2. rewrite E2 in E3. cbn in E3. rewrite E2 in Ho2. do 6 cv_step. set (c4 := with_out _ _).
    assert (core c4 = after_send (core c0) P N n o (Segment seg data :: k_out (core c0))) as E4.
    { transitivity (mkCore (k_una (core c3)) (k_nxt (core c3)) (k_ptr (core c3)) (k_iss (core c3)) (k_written (core c3)) (k_wq (core c3)) (k_open (core c3))
       (k_st (core c3)) (k_flg (core c3)) (k_syn (core c3)) (k_mss (core c3)) (k_cwind (core c3)) (k_wnd (core c3)) (k_on (core c3)) (k_start (core c3))
       (Segment seg data :: k_out (core c3)) (k_reseq (core c3)) (k_rq (core c3)) (k_mem (core c3)) (k_win (core c3))); [done|]. by rewrite E3. }
    clearbody c4. 
    assert (out_ok (core c4)) as O4.
    { rewrite E4. constructor; [|exact O]. change (truthful (k_iss (core c)) (k_written (core c)) (k_open (core c)) (Segment seg data)) in Htr. by rewrite E in Htr. }
    assert (mem_ok (core c4)) as M4 by by rewrite E4.
    destruct b'; cbn [when].
    - apply wp_bind, (wp_closing _ pend 0); [done| |].
      + split; [done|]. split; [done|]. intros _. rewrite E4. exists U, (P + n), (Z.max N (P + n)). by apply sender_sent.
      + intros c5 H5 A5. apply wp_ret, K; [done|]. rewrite E4 in A5. by eapply advance_via, A5.
    - apply wp_bind, wp_ret, wp_ret, K; [|rewrite E4; by apply advance_open]. split; [done|]. split; [done|]. intros _. rewrite E4.
      exists U, (P + n), (Z.max N (P + n)). split; [by apply sender_sent|]. split; [exact Hun|]. split; [exact HN|]. intros Hno Hlt. cbn.
      pose proof (so_order _ _ _ _ S) as So. destruct (Z.eq_dec n 0) as [->|Nn]; [|left; by apply Ho1].
      rewrite Ho2 by done. destruct T as [T|T]; [apply (proj2 (proj2 T)); [done|lia]|]. exfalso. specialize (Hpu T). lia. }
  apply wp_bind. apply wp_when_same.
  { intros c1 Q1 K1. apply wp_bind, wp_onconv, wp_onconv, K1. done. }
  intros c1 E1. rewrite E in E1. apply (wp_advance c1 (core c0) U P N n); [done..|]. intros c2 E2.
  cv_step. cv_step. destruct (outcome c2) eqn:Eo; [apply wp_ret; by apply Knomem|by apply (Ksent c2 true)|by apply (Ksent c2 false)].
Qed.

Lemma wp_send_segment pend c U P N n (Q : bool -> Conv -> Prop) : mem_ok (core c) -> out_ok (core c) -> k_st (core c) <> Closed -> sender_ok (core c) U P N ->
  unsynced (core c) -> timed pend (core c) U N \/ P = U -> P = 0 /\ flag SYNACK c = false \/ flag SYNACK c = true -> 
  0 <= n <= send_end (core c) - P -> (P = 0 -> 0 < n) -> (P = U -> U < N -> 0 < n) ->
  (forall more c', conv_ok pend c' -> advance 0 (core c) (core c') -> Q more c') ->
  wp (send_segment (send_end (core c) - U) (P - U) n) c Q.
Proof.
  intros M O Hnc S Hun T Hc Hn Hp Hpu K. unfold send_segment.
  apply wp_bind, wp_clrflag; [done|]. intros c1 E1. apply wp_bind, wp_rcvwin; [rewrite E1; apply M|]. intros c2 E2. rewrite E1 in E2.
  cv_step. cv_step. cv_step. cv_step. set (c3 := with_base _ _). assert (core c3 = core c) as E3 by exact E2. clearbody c3. clear c1 c2 E1 E2.
  cv_step. cv_step.
  pose proof (segment_made c3 U P N n) as Hm. rewrite E3 in Hm. change (flag SYNACK c3) with (k_syn (core c3)) in Hm. rewrite E3 in Hm.
  specialize (Hm S Hc Hn Hp). destruct (segment_flags c3 n n) as [[[[fl dsize] n'] m] w]. cbv zeta in Hm.
  destruct (negb (dsize =? 0) && negb (zlen (if dsize =? 0 then [] else wqcopy dsize (P - U) c3) =? dsize)); destruct Hm as (Hn' & Hm & Hpos).
  1, 2: cbv zeta; apply (wp_send_tail pend c c3 U P N n'); try done; [intros HP HU; apply Hpos, (Hpu HP HU)| |apply Hm; match goal with |- context [if ?b then Z.lor _ PSH else _] => destruct b end; [by right|by left]].
  1, 2: intros Hs; destruct Hc as [[-> _]|Hc]; [specialize (Hpos (Hp eq_refl)); lia|change (flag SYNACK c = false) in Hs; congruence].
Qed.

(** *** The loop *)
Lemma usable_ok c sent : 0 < cwind (base c) -> 0 <= snd_wnd (base c) -> 0 <= sent ->
  match usable_window c sent with None => 0 < sent | Some u => 0 <= u /\ (sent = 0 -> 0 < u) end.
Proof.
  intros Hc Hw Hs. unfold usable_window. destruct (Z.eqb_spec (snd_wnd (base c)) 0) as [E|E].
  - destruct (Z.eqb_spec sent 0); cbn [negb andb]; [lia|]. destruct (negb (flag FORCE c)); lia.
  - cbv zeta. destruct (Z.ltb_spec (snd_wnd (base c)) (cwind (base c))); rewrite Z.geb_leb; destruct (Z.leb_spec sent (if snd_wnd (base c) <? cwind (base c) then snd_wnd (base c) else cwind (base c))); 
      repeat match goal with |- context [?a <=? ?b] => destruct (Z.leb_spec a b) end; lia.
Qed.

Lemma ready_closed pend c : ~ open_st (st c) -> ready_ok pend c -> conv_ok pend c.
Proof. intros H (M & O & _). split; [done|]. split; [done|]. intros H'. done. Qed.
Lemma conv_ready pend c : conv_ok pend c -> ready_ok pend c.
Proof. intros (M & O & H). split; [done|]. split; [done|]. intros Ho. destruct (H Ho) as (U & P & N & S & T). exists U, P, N. split; [done|by left]. Qed.
Lemma conv_open pend c U P N : mem_ok (core c) -> out_ok (core c) -> sender_ok (core c) U P N -> timed pend (core c) U N -> conv_ok pend c.
Proof. intros M O S T. split; [done|]. split; [done|]. intros _. by exists U, P, N. Qed.

Lemma wp_output_round pend c (Q : bool -> Conv -> Prop) : ready_ok pend c ->
  (forall more c', conv_ok pend c' -> advance 0 (core c) (core c') -> Q more c') -> wp output_round c Q.
Proof.
  intros Hr K. unfold output_round. cv_step. cv_step.
  assert (conv_ok pend c -> Q false c) as Kstop by (intros H; apply K; [done|by apply advance_refl]).
  destruct (silent (st c)) eqn:Es.
  { apply wp_ret, Kstop. destruct Hr as (M & O & H). split; [done|]. split; [done|]. intros Ho. destruct (H Ho) as (U & P & N & S & T).
    exists U, P, N. split; [done|]. destruct S as [_ _ _ _ So _ _ _ _ Sf _ _ _ _ Sd _ _].
    assert (st c = Finwait2) as E by (destruct Ho as [H1 H2]; cbn in H1, H2; destruct (st c); done). specialize (Sd (or_introl E)).
    split; [destruct T as [T|[_ T]]; [apply T|exact T]|]. split; [|intros _ Hlt; lia].
    intros Ef. rewrite Ef in Sf. change (k_st (core c)) with (st c) in Sf. rewrite E in Sf. by destruct Sf as (_ & _ & [?|?]). }
  cv_step. cv_step. apply wp_bind, wp_when_same.
  { intros c1 Q1 K1. cv_step. cv_step. apply wp_setflag; [done|]. intros c2 E2. apply K1. exact E2. }
  intros c1 E1. cv_step. cv_step. unfold ready_ok in Hr. change (st c) with (k_st (core c)) in Hr, Es. rewrite <- E1 in Hr, Es.
  assert (forall more c', conv_ok pend c' -> advance 0 (core c1) (core c') -> Q more c') as K1 by (rewrite E1; exact K).
  assert (conv_ok pend c1 -> Q false c1) as Kstop1 by (intros H; apply K1; [done|by apply advance_refl]).
  clear K Kstop c E1. destruct Hr as (M & O & H). destruct H as (U & P & N & S & T); [by split; intros E; rewrite E in Es|].
  assert (unsynced (core c1)) as Hun by (destruct T as [T|[_ T]]; [apply T|exact T]).
  assert (timed pend (core c1) U N -> Q false c1) as Kt by (intros Ht; by eapply Kstop1, conv_open). clear Kstop1.
  pose proof S as [S1 S2 S3 S4 S5 S6 S6' S7 S8 S9 S10 S11 S12 S13 S14 S15 S16].
  assert (s32 (wqlen c1 + flgcnt c1) = send_end (core c1) - U) as ->.
  { cbn in S8. unfold wqlen. rewrite S8. apply (s32_eq 0); lia. }
  assert (u32 (snd_ptr (snd c1) - snd_una (snd c1)) = P - U) as -> by (cbn in S1, S2; rewrite S1, S2; apply u32_seqno; lia).
  assert ((snd_ptr (snd c1) =? iss c1) = true -> flag SYNACK c1 = false -> P = 0) as Hiss.
  { intros Hp Hf. cbn in S2, S4, S9. rewrite Hf in S9. destruct S9 as (-> & _ & Hst). specialize (S16 Hst).
    rewrite S2 in Hp. rewrite <- (seqno_0 (iss c1)) in Hp at 2 by done. rewrite seqno_eqb in Hp; [by apply Z.eqb_eq|].
    assert (fin (st c1) = 0) as Ef by (destruct Hst as [-> | ->]; done). unfold send_end in *. cbn in *. lia. }
  destruct (negb _ && negb _) eqn:E.
  { apply andb_true_iff in E as [Ea Eb]. apply negb_true_iff in Ea, Eb. apply wp_ret, Kt. destruct T as [T|[T _]]; [done|]. exfalso.
    change (flag SYNACK c1) with (k_syn (core c1)) in Eb. rewrite Eb in S9. destruct S9 as (-> & _). rewrite T in S2. cbn in S2, S4.
    rewrite S2, seqno_0, Z.eqb_refl in Ea by done. done. }
  assert (P = 0 /\ flag SYNACK c1 = false \/ flag SYNACK c1 = true) as Hc.
  { destruct (flag SYNACK c1) eqn:Ef; [by right|left]. rewrite andb_true_r in E. apply negb_false_iff in E. split; [by apply Hiss|done]. }
  pose proof (usable_ok c1 (P - U)) as Hu. destruct (usable_window c1 (P - U)) as [u|].
  2: { apply wp_ret, Kt. destruct T as [T|[T _]]; [done|]. cbn in S11, S12. lia. }
  assert (u32 (send_end (core c1) - U - (P - U)) = send_end (core c1) - P) as -> by (rewrite u32_small by lia; lia).
  cbv zeta. set (n := if u <? _ then _ else _). set (n' := if _ <? n then _ else n).
  assert (0 <= n' <= send_end (core c1) - P /\ (P = U -> U < send_end (core c1) -> 0 < n')) as [Hn Hpu].
  { subst n' n. cbn in S10, S11, S12. destruct (Z.ltb_spec u (send_end (core c1) - P)), (Z.ltb_spec (tmss (base c1)) u), (Z.ltb_spec (tmss (base c1)) (send_end (core c1) - P)); lia. }
  clearbody n' n. destruct ((n' =? 0) && negb (flag FORCE c1)) eqn:En.
  { apply andb_true_iff in En as [En%Z.eqb_eq _]. apply wp_ret, Kt. destruct T as [T|[T _]]; [done|]. specialize (Hpu T). split; [exact Hun|]. split; [|intros _ Hlt; lia].
    intros Ef. rewrite Ef in S9. destruct S9 as (-> & _). unfold send_end in *. pose proof (fin_cases (k_st (core c1))). lia. }
  apply (wp_send_segment pend c1 U P N n'); try done; [intros Hst; by rewrite Hst in Es|destruct T as [T|[T _]]; [by left|by right]| |intros HP HU; apply (Hpu HP); lia].
  intros ->. apply Hpu; [lia|]. unfold send_end in *. cbn in *. pose proof (fin_cases (st c1)). lia.
Qed.

Lemma s32_k x : exists k, s32 x = x + k * 2 ^ 32.
Proof.
  unfold s32, sgn. exists (if x mod 2 ^ 32 <? 2 ^ (32 - 1) then - (x / 2 ^ 32) else - (x / 2 ^ 32) - 1).
  pose proof (Z.div_mod x (2 ^ 32) ltac:(lia)). destruct (_ <? _); lia.
Qed.
Lemma onward_trans a b k1 k2 k3 : 0 <= a -> 0 <= b -> a + b < 2 ^ 31 -> onward a k1 k2 -> onward b k2 k3 -> onward (a + b) k1 k3.
Proof.
  intros Ha Hb Hab (E1 & R1 & G1) (E2 & R2 & G2). split; [congruence|]. split; [|auto].
  destruct (s32_k (k_una k2 - k_una k1)) as [x Ex]. destruct (s32_k (k_una k3 - k_una k2)) as [y Ey]. rewrite Ex in R1. rewrite Ey in R2.
  rewrite (s32_eq (- x - y) _ (k_una k2 - k_una k1 + x * 2 ^ 32 + (k_una k3 - k_una k2 + y * 2 ^ 32))); lia.
Qed.
Lemma advance_trans a b k1 k2 k3 : 0 <= a -> 0 <= b -> a + b < 2 ^ 31 -> advance a k1 k2 -> advance b k2 k3 -> advance (a + b) k1 k3.
Proof.
  intros Ha Hb Hab (H1 & G1 & L1) (H2 & G2 & L2). split; [|split; [|lia]].
  - intros Ho. destruct (H2 Ho) as [Ho2 R2]. destruct (H1 Ho2) as [Ho1 R1]. split; [done|]. by eapply onward_trans.
  - intros He. destruct (G1 He) as [He2 R1]. destruct (G2 He2) as [He3 R2]. split; [done|]. by eapply onward_trans.
Qed.
Lemma advance_le a b k k' : a <= b -> advance a k k' -> advance b k k'.
Proof.
  intros Hab (H & G & L). split; [intros Ho; destruct (H Ho) as (? & ? & ? & ?)|split; [intros Ho; destruct (G Ho) as (? & ? & ? & ?)|exact L]]; (split; [done|split; [done|split; [lia|done]]]).
Qed.

(** What others may do in between: keep the conversation as it should be, and acknowledge no more than so much. *)
Definition rely : Prop := forall pend c, conv_ok pend c -> wp others c (fun _ c' => conv_ok pend c' /\ advance (2 ^ 24) (core c) (core c')).
Context (RELY : rely).

Lemma wp_output_loop pend rounds : forall msgs c (Q : () -> Conv -> Prop), conv_ok pend c -> Z.of_nat rounds <= 100 ->
  (forall c', conv_ok pend c' -> advance (Z.of_nat rounds * 2 ^ 24) (core c) (core c') -> Q () c') -> wp (output_loop rounds msgs) c Q.
Proof.
  induction rounds as [|rounds IH]; intros msgs c Q Hc Hr K; cbn [output_loop]; [apply wp_ret, K; [done|apply advance_refl; lia]|].
  apply wp_bind, (wp_output_round pend); [by apply conv_ready|]. intros more c1 H1 A1. destruct more; cbn [negb].
  2: { apply wp_ret, K; [done|]. eapply advance_le; [|exact A1]. lia. }
  assert (forall c2, conv_ok pend c2 -> advance (2 ^ 24) (core c1) (core c2) -> wp (output_loop rounds (msgs + 1)) c2 Q) as Kn.
  { intros c2 H2 A2. apply (IH _ c2); [done|lia|]. intros c3 H3 A3. apply K; [done|].
    replace (Z.of_nat (S rounds) * 2 ^ 24) with (0 + 2 ^ 24 + Z.of_nat rounds * 2 ^ 24) by lia.
    eapply advance_trans; [lia|lia|lia| |exact A3]. by eapply advance_trans. }
  apply wp_bind. destruct (msgs mod 4 =? 1); cbn [when].
  - eapply wp_mono; [by apply RELY|]. intros [] c2 [H2 A2]. by apply Kn.
  - apply wp_ret, Kn; [done|]. by apply advance_refl.
Qed.
Lemma wp_tcpoutput pend c (Q : () -> Conv -> Prop) : ready_ok pend c ->
  (forall c', conv_ok pend c' -> advance (100 * 2 ^ 24) (core c) (core c') -> Q () c') -> wp tcpoutput c Q.
Proof.
  intros Hr K. unfold tcpoutput.
  change (output_loop 100 0) with (more <- output_round ;; if negb more then ret () else when (0 mod 4 =? 1) others ;; output_loop 99 (0 + 1)).
  apply wp_bind, (wp_output_round pend); [done|]. intros more c1 H1 A1. destruct more; cbn [negb].
  2: { apply wp_ret, K; [done|]. eapply advance_le; [|exact A1]. lia. }
  apply wp_bind. change (when (0 mod 4 =? 1) others) with (ret () : M Conv ()). apply wp_ret.
  apply (wp_output_loop pend 99); [done|lia|]. intros c2 H2 A2. apply K; [done|]. eapply (advance_le (0 + Z.of_nat 99 * 2 ^ 24)); [lia|].
  eapply advance_trans; [lia..|exact A1|exact A2].
Qed.

(** *** Timeouts *)
(** Going back to [snd.una], with one segment as the window. *)
Definition rexmit_core (k : Core) : Core :=
  mkCore (k_una k) (k_nxt k) (k_una k) (k_iss k) (k_written k) (k_wq k) (k_open k) (k_st k) (k_flg k) (k_syn k) (k_mss k) (k_mss k) (k_wnd k)
    (k_on k) (k_start k) (k_out k) (k_reseq k) (k_rq k) (k_mem k) (k_win k).
Lemma sender_rexmit k U P N : sender_ok k U P N -> sender_ok (rexmit_core k) U U N.
Proof. intros [S1 S2 S3 S4 S5 S6 S6' S7 S8 S9 S10 S11 S12 S13 S14 S15 S16]. split; unfold send_end in *; cbn in *; try done; lia. Qed.

Lemma wp_tcprxmit pend c (Q : () -> Conv -> Prop) : mem_ok (core c) -> out_ok (core c) ->
  (open_st (st c) -> unsynced (core c) /\ exists U P N, sender_ok (core c) U P N) ->
  (forall c', conv_ok pend c' -> advance (100 * 2 ^ 24) (core c) (core c') -> Q () c') -> wp tcprxmit c Q.
Proof.
  intros M O Ho K. unfold tcprxmit. apply wp_bind, wp_setflag; [done|]. intros c1 E1.
  cv_step. cv_step. cv_step. cv_step. cv_step. cv_step. set (c2 := with_base _ _).
  assert (core c2 = rexmit_core (core c)) as E2 by (transitivity (rexmit_core (core c1)); [done|by rewrite E1]).
  clearbody c2. apply (wp_tcpoutput pend).
  - unfold ready_ok. change (st c2) with (k_st (core c2)). rewrite E2. split; [done|]. split; [done|]. intros Hopen.
    destruct (Ho Hopen) as (Hun & U & P & N & S). exists U, U, N. split; [by eapply sender_rexmit|by right].
  - intros c3 H3 A3. apply K; [done|]. rewrite E2 in A3. eapply advance_from, A3; [done..|]. apply ended_as; [done..|]. intros U P N S'.
    exists U, U, N. exact (sender_rexmit _ U P N S').
Qed.

Definition start_core (k : Core) (x : Z) : Core :=
  mkCore (k_una k) (k_nxt k) (k_ptr k) (k_iss k) (k_written k) (k_wq k) (k_open k) (k_st k) (k_flg k) (k_syn k) (k_mss k) (k_cwind k) (k_wnd k)
    (k_on k) x (k_out k) (k_reseq k) (k_rq k) (k_mem k) (k_win k).
Lemma sender_start k x U P N : 0 < x -> sender_ok k U P N -> sender_ok (start_core k x) U P N.
Proof. intros Hx [S1 S2 S3 S4 S5 S6 S6' S7 S8 S9 S10 S11 S12 S13 S14 S15 S16]. by split. Qed.
Lemma wp_settimer c (Q : () -> Conv -> Prop) : (forall c' x, 0 < x -> core c' = start_core (core c) x -> Q () c') -> wp settimer c Q.
Proof.
  intros K. unfold settimer. cv_step. cv_step. cv_step. apply (K _ (timer_start (tcpsettimer (base c)))); [|done].
  pose proof (tcpsettimer_bounds (base c)). unfold MSPTICK in *. lia.
Qed.

Lemma wp_tcptimeout c (Q : () -> Conv -> Prop) : conv_ok true c ->
  (forall c', conv_ok false c' -> advance (100 * 2 ^ 24) (core c) (core c') -> Q () c') -> wp tcptimeout c Q.
Proof.
  intros Hc0 K. pose proof Hc0 as (M & O & H). unfold tcptimeout. cv_step. cv_step.
  assert (forall r, wp (localclose r) c Q) as Kc.
  { intros r. apply (wp_closing _ false (100 * 2 ^ 24)); [lia|by apply (conv_whole true)|done]. }
  assert (st c = Closed -> Q () c) as Kclosed.
  { intros E. apply K; [by apply closed_ok|]. apply advance_refl; lia. }
  assert (forall s, wp (onbase (fun t => with_backoff (u8 (backoff_n t + 1)) t) ;;
    onconv (fun c => with_backedoff (s32 (backedoff c + tstart (timer c) * MSPTICK)) c) ;;
    b <- the backedoff ;;
    if b >=? (if decide (s = Syn_sent) then MAXBACKMS / 2 else MAXBACKMS) then localclose "connection timed out"%string
    else settimer ;; tcprxmit ;; stat RetransTimeouts 1 ;; onsnd (with_snd_dupacks 0)) c Q) as Kt.
  { intros s. do 6 cv_step. set (c1 := with_backedoff _ _). assert (core c1 = core c) as E1 by done. 
    destruct (_ >=? _).
    - apply (wp_closing _ false (100 * 2 ^ 24)); [lia|rewrite E1; by apply (conv_whole true)|]. rewrite E1. exact K.
    - clearbody c1. apply wp_bind, wp_settimer. intros c2 x Hx E2. rewrite E1 in E2.
      apply wp_bind, (wp_tcprxmit false); [by rewrite E2|by rewrite E2| |].
      + change (st c2) with (k_st (core c2)). rewrite E2. intros Hopen. destruct (H Hopen) as (U & P & N & S & T). split; [apply T|]. exists U, P, N. by apply sender_start.
      + intros c3 H3 A3. do 3 cv_step. apply K; [done|]. rewrite E2 in A3. eapply advance_from, A3; [done..|]. apply ended_as; [done..|].
        intros U P N S'. exists U, P, N. exact (sender_start _ x U P N Hx S'). }
  destruct (st c) eqn:Es; first [apply Kt|apply Kc|by apply wp_ret, Kclosed].
Qed.

(** *** The states *)
Definition move_core (k : Core) (s : St) (l : list Out) (q : Queue) (m : Bst) : Core :=
  mkCore (k_una k) (k_nxt k) (k_ptr k) (k_iss k) (k_written k) (k_wq k) (k_open k) s (k_flg k) (k_syn k) (k_mss k) (k_cwind k) (k_wnd k)
    (k_on k) (k_start k) l (k_reseq k) q m (k_win k).
Lemma wp_tcpsetstate s c (Q : () -> Conv -> Prop) : s <> Closed -> mem_ok (core c) ->
  (forall c' l q m, core c' = move_core (core c) s l q m -> mem_ok (core c') ->
     other_out (k_out (core c)) l -> Q () c') -> wp (tcpsetstate s) c Q.
Proof.
  intros Hs M K. unfold tcpsetstate. cv_step. cv_step. case_decide as E.
  { apply wp_ret, (K c (k_out (core c)) (k_rq (core c)) (k_mem (core c))); [|done|by left]. unfold move_core. rewrite <- E. done. }
  apply wp_bind, wp_when_same; [by apply wp_stat|]. intros c1 E1.
  apply wp_bind, wp_when_same; [by apply wp_stat|]. intros c2 E2. rewrite E1 in E2. rewrite <- E2 in M, K. clear E1 E2 c1.
  apply wp_bind.
  assert (forall q m, mem_ok (core (with_rx (mkTs (base c2) q m) c2)) -> 
    wp (onconv (with_st s) ;; when (bool_decide (st c = Syn_sent) && negb (bool_decide (s = Closed))) (emit (Fsconnected None)))
      (with_rx (mkTs (base c2) q m) c2) Q) as Kq.
  { intros q m Hq. cv_step. cv_step. apply wp_emit_other; [done|]. intros c' l Hl E'. apply (K _ l q m); [|rewrite E'; exact Hq|exact Hl].
    rewrite E'. pose proof (proj1 (proj2 Hq)) as W1. pose proof (proj1 (proj2 M)) as W2. unfold set_out, move_core. cbn in W1, W2 |- *.
    change (window_okb (rx (with_st s (with_rx (mkTs (base c2) q m) c2)))) with (window_okb (mkTs (base c2) q m)). by rewrite W1, W2. }
  assert (wp (onconv (with_st s) ;; when (bool_decide (st c = Syn_sent) && negb (bool_decide (s = Closed))) (emit (Fsconnected None))) c2 Q) as K0.
  { specialize (Kq (rq (rx c2)) (mem (rx c2))). unfold with_rx in Kq. destruct c2 as [[]]. by apply Kq. }
  destruct s; first [by destruct Hs | by apply wp_ret | idtac].
  apply (wp_onrx_rq _ _ _ (fun G => wp_qhangup G _) M). intros q m Hq. by apply Kq.
Qed.

Lemma open_st_of s : s <> Closed -> s <> Listen -> open_st s.
Proof. by split. Qed.
(** The FIN is put after the text: [tcpclose] in the states [s0] in which it sends one. *)
Definition fin_core (k : Core) (s : St) (l : list Out) (q : Queue) (m : Bst) : Core :=
  mkCore (k_una k) (u32 (k_nxt k + 1)) (k_ptr k) (k_iss k) (k_written k) (k_wq k) false s (k_flg k + 1) (k_syn k) (k_mss k) (k_cwind k) (k_wnd k)
    (k_on k) (k_start k) l (k_reseq k) q m (k_win k).
Lemma sender_close k U P N s l q m : sender_ok k U P N -> fin (k_st k) = 0 -> k_syn k = true -> s = Finwait1 \/ s = Last_ack ->
  sender_ok (fin_core k s l q m) U P (N + 1).
Proof.
  intros [S1 S2 S3 S4 S5 S6 S6' S7 S8 S9 S10 S11 S12 S13 S14 S15 S16] E0 Es Hs. unfold send_end in *.
  assert (fin s = 1 /\ s <> Finwait2 /\ s <> Time_wait /\ s <> Syn_sent /\ s <> Syn_received) as (Ef & D1 & D2 & D3 & D4) by (destruct Hs as [-> | ->]; done).
  rewrite Es in S9. split; unfold send_end; cbn; rewrite ?Ef, ?E0, ?Es in *; try done; try lia; [by rewrite S3, seqno_add|intros [?|?]; congruence|intros [?|?]; congruence].
Qed.
Lemma out_ok_close k s l q m : out_ok k -> other_out (k_out k) l -> out_ok (fin_core k s l q m).
Proof.
  intros O Hl. assert (Forall (truthful (k_iss k) (k_written k) false) (k_out k)) as O' by (eapply out_mono; [done|by intros _|exact O]).
  destruct Hl as [-> | (x & -> & Hx)]; [done|by constructor].
Qed.

Lemma wp_close_fin pend s c (Q : () -> Conv -> Prop) : s = Finwait1 \/ s = Last_ack -> conv_ok pend c -> wqopen c = false -> open_st (st c) ->
  fin (st c) = 0 -> flag SYNACK c = true ->
  (forall c', conv_ok pend c' -> advance (100 * 2 ^ 24) (core c) (core c') -> Q () c') ->
  wp (onconv (fun c => with_flgcnt (flgcnt c + 1) c) ;; onsnd (fun d => with_snd_nxt (u32 (snd_nxt d + 1)) d) ;; tcpsetstate s ;; tcpoutput) c Q.
Proof.
  intros Hs (M & O & H) Hw Ho Hf Hsyn K. destruct (H Ho) as (U & P & N & S & T). do 4 cv_step. apply wp_bind, wp_tcpsetstate; [by destruct Hs as [-> | ->]|exact M|].
  intros c1 l q m E1 Hq Hl.
  assert (core c1 = fin_core (core c) s l q m) as E2 by (rewrite E1; unfold move_core, fin_core; cbn; by rewrite Hw). clear E1.
  assert (sender_ok (core c1) U P (N + 1)) as S' by (rewrite E2; by apply sender_close).
  apply (wp_tcpoutput pend).
  - split; [done|]. split; [rewrite E2; by apply out_ok_close|]. intros _. exists U, P, (N + 1). split; [done|].
    pose proof (so_order _ _ _ _ S). destruct (Z.eq_dec U N).
    { right. split; [lia|]. rewrite E2. intros Es. change (s = Syn_sent) in Es. by destruct Hs as [-> | ->]. }
    left. rewrite E2. split; [intros Es; change (s = Syn_sent) in Es; by destruct Hs as [-> | ->]|].
    split; [intros Es; change (k_syn (core c)) with (flag SYNACK c) in Es; cbn in Es; congruence|]. intros Hno _. apply (proj2 (proj2 T)); [done|lia].
  - intros c2 H2 A2. apply K; [done|]. rewrite E2 in A2. destruct A2 as (A2 & _ & L2). split; [intros Hopen; destruct (A2 Hopen); done|]. split; [|exact L2].
    intros [He|[He _]]; [change (fin (st c) = 1) in He; congruence|by destruct Ho].
Qed.

(** But for a call that is not known to be acknowledged. *)
Lemma wp_tcpclose pend c (Q : () -> Conv -> Prop) : conv_ok pend c -> (st c = Syn_received -> flag SYNACK c = true) ->
  (forall c', conv_ok pend c' -> advance (100 * 2 ^ 24) (core c) (core c') -> Q () c') -> wp tcpclose c Q.
Proof.
  intros (M & O & H) Hsyn K. unfold tcpclose. apply wp_bind, (wp_onrx_rq _ _ _ (fun G => wp_qhangup G _) M). intros q1 m1 M1.
  cv_step. cv_step. apply wp_bind. set (c1 := with_wqopen false _).
  apply (wp_onrx_rq _ c1 _ wp_qflush M1). intros q2 m2 M2. set (c2 := with_rx _ c1). cv_step. cv_step.
  assert (conv_ok pend c2) as H2.
  { split; [exact M2|]. split; [apply (out_mono _ (written c) _ (wqopen c)); [done|by intros _|exact O]|].
    intros Ho. destruct (H Ho) as (U & P & N & [S1 S2 S3 S4 S5 S6 S6' S7 S8 S9 S10 S11 S12 S13 S14 S15 S16] & T). exists U, P, N. split; [by split|exact T]. }
  assert (flag SYNACK c2 = flag SYNACK c /\ st c2 = st c /\ wqopen c2 = false) as (E1 & E2 & E3) by done.
  assert (forall c', advance (100 * 2 ^ 24) (core c2) (core c') -> advance (100 * 2 ^ 24) (core c) (core c')) as A.
  { intros c' A. eapply advance_from, A; [done..|]. apply ended_as; [done..|]. intros U P N S'. exists U, P, N. eapply sender_same, S'; try done. by right. }
  clearbody c2. clear c1 M1 M2 H M O.
  assert (forall r, wp (localclose r) c2 Q) as Kc.
  { intros r. apply (wp_closing r pend (100 * 2 ^ 24)); [lia|by apply (conv_whole pend)|]. intros c' H' A'. by apply K, A. }
  assert (open_st (st c) -> flag SYNACK c = true \/ st c = Syn_sent) as Hs.
  { intros Ho. destruct H2 as (_ & _ & H2). change (k_st (core c2)) with (st c2) in H2. rewrite E2 in H2. destruct (H2 Ho) as (U & P & N & S & _).
    pose proof (so_syn _ _ _ _ S) as S9. change (k_syn (core c2)) with (flag SYNACK c2) in S9. change (k_st (core c2)) with (st c2) in S9. rewrite E1, E2 in S9.
    destruct (flag SYNACK c) eqn:Ef; [by left|]. destruct S9 as (_ & _ & [S9|S9]); [by right|]. specialize (Hsyn S9). done. }
  rewrite E2. destruct (st c) eqn:Es.
  1, 3: apply Kc.
  1: { cv_step. cv_step. apply (wp_closing _ pend (100 * 2 ^ 24)); [lia| |].
    - destruct (conv_whole pend c2 H2) as (M2 & O2 & _). split; [exact M2|]. split; [by apply (out_ok_cons (core c2))|].
      intros [_ Ho]. by destruct Ho.
    - intros c' H' A'. apply K; [done|]. apply A. eapply advance_from, A'; [done..|]. intros [He|[He _]]; [|change (st c2 = Closed) in He; congruence].
      change (fin (st c2) = 1) in He. by rewrite E2 in He. }
  1, 2, 5: apply (wp_close_fin pend); [by auto|done|done|by rewrite E2|by rewrite E2| |by intros; apply K, A]; rewrite E1; by destruct Hs.
  all: apply wp_ret, K; [done|]; apply A, advance_refl; lia.
Qed.

(** *** The user and the other timers *)
(** What the user may write: what fits the queue, when it is open. *)
Definition may_write (n : Z) (c : Conv) : Prop := 0 <= n /\ wqopen c = true /\ wqlen c + n <= 2 ^ 30 - 4 /\ st c <> Closed /\
  (st c = Syn_sent \/ st c = Syn_received -> written c + n <= 2 ^ 30 - 4).
Lemma wp_user_write pend n c (Q : () -> Conv -> Prop) : conv_ok pend c -> may_write n c ->
  (forall c', conv_ok pend c' -> advance 0 (core c) (core c') -> Q () c') -> wp (user_write str n) c Q.
Proof.
  intros (M & O & H) (Hn & Hw & Hq & Hcl & He) K. unfold user_write. apply wp_onconv, K; [|by apply advance_open].
  split; [done|]. split; [eapply out_mono; [| |exact O]; cbn; [lia|intros E; congruence]|].
  intros Ho. destruct (H Ho) as (U & P & N & [S1 S2 S3 S4 S5 S6 S6' S7 S8 S9 S10 S11 S12 S13 S14 S15 S16] & T). exists U, P, N. split; [|exact T].
  unfold send_end, wqlen in *. cbn in *. pose proof (zlen_nonneg (wq c)).
  assert (fin (st c) = 0) as Ef by (destruct (fin_cases (st c)) as [?|E]; [done|specialize (S13 E); congruence]). rewrite Ef in *.
  assert (if flag SYNACK c then 1 <= U <= 1 + written c /\ wq c = text str (U - 1) (written c - (U - 1)) /\ zlen (wq c) = written c - (U - 1)
          else U = 0 /\ wq c = text str 0 (written c) /\ zlen (wq c) = written c /\ (st c = Syn_sent \/ st c = Syn_received)) as S9'.
  { destruct (flag SYNACK c); [destruct S9 as [Hu S9]|destruct S9 as (Hu & S9 & Hs)]; rewrite S9, zlen_text; [|split_and!; (done || lia)]. split_and!; try done; lia. }
  assert (zlen (text str (written c) n) = n) as Et by (rewrite zlen_text; lia).
  assert (written c + n + 2 - U <= 2 ^ 30) as Hroom by (destruct (flag SYNACK c); [lia|]; destruct S9' as (-> & _ & _ & Hs); specialize (He Hs); lia).
  split; unfold send_end; cbn; rewrite ?Ef, ?zlen_app, ?Et; try done; try lia.
  - change (flag SYNACK (with_written _ _)) with (flag SYNACK c). destruct (flag SYNACK c).
    + destruct S9' as (Hu & -> & _). split; [lia|].
      replace (written c + n - (U - 1)) with (written c - (U - 1) + n) by lia. rewrite text_app by lia. f_equal. f_equal. lia.
    + destruct S9' as (-> & -> & _ & Hs). split; [done|]. split; [|done]. rewrite text_app by lia. done.
  - intros Hd. specialize (S14 Hd). destruct Hd as [Hd|Hd]; rewrite Hd in Ef; done.
  - intros Hs. specialize (He Hs). lia.
Qed.

Lemma wp_tcpkick pend c (Q : () -> Conv -> Prop) : conv_ok pend c ->
  (forall c', conv_ok pend c' -> advance (100 * 2 ^ 24) (core c) (core c') -> Q () c') -> wp tcpkick c Q.
Proof.
  intros H K. unfold tcpkick. cv_step. cv_step.
  assert (wp (localclose "Hangup"%string) c Q) as Kc.
  { apply (wp_closing _ pend (100 * 2 ^ 24)); [lia|by apply (conv_whole pend)|done]. }
  assert (wp (rcvwin ;; tcpoutput) c Q) as Ko.
  { apply wp_bind, wp_rcvwin; [apply H|]. intros c1 E1. rewrite <- E1 in K. apply (wp_tcpoutput pend); [|exact K]. apply conv_ready. unfold conv_ok. by rewrite E1. }
  destruct (st c); done.
Qed.
Lemma wp_tcpacktimer pend c (Q : () -> Conv -> Prop) : conv_ok pend c ->
  (forall c', conv_ok pend c' -> advance (100 * 2 ^ 24) (core c) (core c') -> Q () c') -> wp tcpacktimer c Q.
Proof.
  intros H K. unfold tcpacktimer. cv_step. cv_step. case_decide; [apply wp_ret, K; [done|apply advance_refl; lia]|].
  apply wp_bind, wp_setflag; [done|]. intros c1 E1. apply wp_bind, wp_rcvwin; [rewrite E1; apply H|]. intros c2 E2. rewrite E1 in E2. rewrite <- E2 in K.
  apply (wp_tcpoutput pend); [|exact K]. apply conv_ready. unfold conv_ok. by rewrite E2.
Qed.

Lemma wp_tcpkeepalive pend c (Q : () -> Conv -> Prop) : conv_ok pend c ->
  (forall c', conv_ok pend c' -> advance 0 (core c) (core c') -> Q () c') -> wp tcpkeepalive c Q.
Proof.
  intros H K. unfold tcpkeepalive. cv_step. cv_step. case_decide as Hcl; [apply wp_ret, K; [done|by apply advance_refl]|].
  cv_step. cv_step. cv_step. cv_step. set (c1 := with_kacounter _ c). assert (conv_ok pend c1) as H1 by exact H.
  destruct (kacounter c1 <=? 0).
  - apply (wp_closing _ pend 0); [lia|by apply (conv_whole pend)|exact K].
  - unfold tcpsendka. apply wp_bind. do 4 cv_step. set (c2 := with_base _ c1).
    assert (forall l, (l = out c \/ exists x b, l = Keepalive x b :: out c) -> 
      wp (onconv (fun c => with_katimer (tgo (katimer c)) c)) (with_out l c2) Q) as Kl.
    { intros l Hl. cv_step. apply K; [|by apply advance_open]. destruct H as (M & O & H). split; [exact M|].
      split; [|intros Ho; destruct (H Ho) as (U & P & N & S & T); exists U, P, N; split; [eapply sender_same, S; try done; by left|exact T]].
      destruct Hl as [-> | (x & b & ->)]; [exact O|]. by apply (out_ok_cons (core c)). }
    assert (with_out (out c) c2 = c2) as E2 by (by destruct c).
    destruct (outcome c1); [|cv_step; apply Kl; right; by eexists _, _..].
    cv_step. rewrite <- E2. apply Kl. by left.
Qed.

(** *** Acknowledgements *)
Lemma grow_cwind_ok acked c : 0 < cwind (base c) < 2 ^ 32 -> 0 <= snd_wnd (base c) < 2 ^ 32 -> 0 < tmss (base c) < 2 ^ 16 -> 0 <= acked < 2 ^ 32 ->
  cwind (base c) <= grow_cwind acked c <= Z.max (cwind (base c)) (snd_wnd (base c)).
Proof.
  intros Hc Hw Hm Ha. unfold grow_cwind. destruct (Z.ltb_spec (cwind (base c)) (snd_wnd (base c))); cbn [andb]; [|lia].
  destruct (negb _); [|lia]. set (e := if cwind (base c) <? ssthresh c then _ else _).
  assert (0 <= e < 2 ^ 32) as He.
  { subst e. destruct (_ <? ssthresh c); [destruct (Z.ltb_spec acked (tmss (base c))); lia|].
    pose proof (u32_range (s32 (tmss (base c) * tmss (base c)))). split; [apply Z.div_pos; lia|].
    apply Z.div_lt_upper_bound; [lia|]. nia. }
  clearbody e. cbv zeta.
  assert (forall x, 0 <= x < 2 ^ 32 -> u32 x = x) as Hs by (intros; by apply u32_small).
  destruct (Z_lt_ge_dec (cwind (base c) + e) (2 ^ 32)) as [Hlt|Hge].
  - rewrite (Hs (cwind (base c) + e)) by lia. destruct (Z.ltb_spec (cwind (base c) + e) (cwind (base c))); [lia|].
    rewrite (Hs (cwind (base c) + e)) by lia. rewrite Z.gtb_ltb. destruct (Z.ltb_spec (snd_wnd (base c)) (cwind (base c) + e)).
    + rewrite (Hs (snd_wnd (base c) - _)) by lia. rewrite Hs by lia. lia.
    + rewrite Hs by lia. lia.
  - assert (u32 (cwind (base c) + e) = cwind (base c) + e - 2 ^ 32) as E by (apply (u32_eq 1); lia). rewrite E.
    destruct (Z.ltb_spec (cwind (base c) + e - 2 ^ 32) (cwind (base c))); [|lia].
    rewrite (Hs (snd_wnd (base c) - cwind (base c))) by lia.
    replace (cwind (base c) + (snd_wnd (base c) - cwind (base c))) with (snd_wnd (base c)) by lia. rewrite (Hs (snd_wnd (base c))) by lia.
    rewrite Z.gtb_ltb, Z.ltb_irrefl. replace (cwind (base c) + (snd_wnd (base c) - cwind (base c))) with (snd_wnd (base c)) by lia.
    rewrite (Hs (snd_wnd (base c))) by lia. lia.
Qed.

(** The acknowledgement is at a position of what has been sent. *)
Lemma ack_at k U P N a : sender_ok k U P N -> 0 <= a < 2 ^ 32 -> seq_gt a (k_nxt k) = false -> seq_gt a (k_una k) = true ->
  exists A, a = seqno (k_iss k) A /\ U < A <= N.
Proof.
  intros S Ha Hn Hu. pose proof (so_order _ _ _ _ S). pose proof (so_space _ _ _ _ S). unfold seq_gt in *.
  rewrite (so_nxt _ _ _ _ S) in Hn. rewrite (so_una _ _ _ _ S) in Hu. rewrite Z.gtb_ltb in Hn, Hu. apply Z.ltb_ge in Hn. apply Z.ltb_lt in Hu.
  set (d := s32 (a - seqno (k_iss k) U)) in *. exists (U + d).
  assert (a = seqno (k_iss k) (U + d)) as E.
  { subst d. destruct (s32_k (a - seqno (k_iss k) U)) as [x Ex]. rewrite Ex. unfold seqno in *.
    destruct (u32_k (k_iss k + U)) as [y Ey]. rewrite Ey. symmetry. apply (u32_eq (x - y)); lia. }
  split; [done|]. rewrite E, s32_seqno in Hn; [lia|]. 
  assert (d < 2 ^ 31) by (subst d; pose proof (sgn_range 32 (a - seqno (k_iss k) U) ltac:(lia)); unfold s32; lia). lia.
Qed.

(** What is acknowledged leaves the sequence space. *)
Definition acked_core (k : Core) (A P N : Z) (q : list Z) (flg : Z) (o : Tstate) : Core :=
  mkCore (seqno (k_iss k) A) (seqno (k_iss k) N) (seqno (k_iss k) (Z.max A P)) (k_iss k) (k_written k) q (k_open k) (k_st k) flg true
    (k_mss k) (k_cwind k) (k_wnd k) o (k_start k) (k_out k) (k_reseq k) (k_rq k) (k_mem k) (k_win k).
Lemma sender_acked k U P N A q flg o : sender_ok k U P N -> U < A <= N ->
  q = zdrop (if k_syn k then A - U else A - 1) (k_wq k) ->
  flg = k_flg k - (if k_syn k then 0 else 1) - (if Z.min (if k_syn k then A - U else A - 1) (zlen (k_wq k)) <? (if k_syn k then A - U else A - 1) then 1 else 0) ->
  sender_ok (acked_core k A P N q flg o) A (Z.max A P) N.
Proof.
  intros [S1 S2 S3 S4 S5 S6 S6' S7 S8 S9 S10 S11 S12 S13 S14 S15 S16] HA Eq Ef. unfold send_end in *.
  assert (q = text str (A - 1) (k_written k - (A - 1)) /\ flg = 1 + k_written k + fin (k_st k) - A - zlen q) as [Eq' Ef'].
  { destruct (fin_cases (k_st k)) as [F0|F0]; rewrite F0 in *; destruct (k_syn k).
    1, 3: destruct S9 as [Hu S9]; rewrite S9, text_drop in Eq by lia; rewrite S9, zlen_text in Ef, S8;
      replace (U - 1 + (A - U)) with (A - 1) in Eq by lia; replace (k_written k - (U - 1) - (A - U)) with (k_written k - (A - 1)) in Eq by lia;
      (split; [done|]); rewrite Eq, zlen_text, Ef, S8; repeat match goal with |- context [?a <? ?b] => destruct (Z.ltb_spec a b) end; lia.
    - destruct S9 as (-> & S9 & _). rewrite S9, text_drop in Eq by lia. rewrite S9, zlen_text in Ef, S8. rewrite Z.add_0_l in Eq.
      split; [done|]. rewrite Eq, zlen_text, Ef, S8. repeat match goal with |- context [?a <? ?b] => destruct (Z.ltb_spec a b) end; lia.
    - destruct S9 as (_ & _ & [E|E]); rewrite E in F0; done. }
  clear Eq Ef. split; unfold send_end; cbn; try done; try lia; [split; [lia|done]|]. intros Hd. specialize (S14 Hd). lia.
Qed.

Lemma wp_onsnd_same g c (Q : () -> Conv -> Prop) : (forall d, snd_una (g d) = snd_una d /\ snd_nxt (g d) = snd_nxt d /\ snd_ptr (g d) = snd_ptr d) ->
  (forall c', core c' = core c -> Q () c') -> wp (onsnd g) c Q.
Proof. intros H K. apply wp_onsnd, K. unfold core. cbn. destruct (H (snd c)) as (-> & -> & ->). done. Qed.

Lemma wp_update_done c P N A acked seg (Q : () -> Conv -> Prop) : flag SYNACK c = true ->
  ack seg = seqno (iss c) A -> snd_nxt (snd c) = seqno (iss c) N -> snd_ptr (snd c) = seqno (iss c) P -> - 2 ^ 30 <= P - A <= 2 ^ 30 -> 0 <= N - A <= 2 ^ 30 ->
  0 < tstart (timer c) ->
  (forall c', core c' = acked_core (core c) A P N (zdrop acked (wq c))
     (flgcnt c - (if Z.min acked (zlen (wq c)) <? acked then 1 else 0)) (if A =? N then TcptimerOFF else TcptimerON) -> Q () c') ->
  wp (update_done acked seg) c Q.
Proof.
  intros Hf Ea En Ep Hp HN Ht K. unfold update_done, wqdiscard.
  do 7 cv_step. unfold wqlen.
  set (fl := flgcnt c - (if Z.min acked (zlen (wq c)) <? acked then 1 else 0)) in *.
  assert (wp (onsnd (with_snd_una (ack seg)) ;;
  onsnd (fun d => if seq_gt (ack seg) (snd_urg d) then with_snd_urg (ack seg) d else d) ;;
  onconv (fun c => with_timer ((if snd_una (snd c) =? snd_nxt (snd c) then thalt else tgo) (timer c)) c) ;;
  onsnd (fun d => if seq_lt (snd_ptr d) (snd_una d) then with_snd_ptr (snd_una d) d else d) ;;
  clrflag RETRAN ;;
  onbase (with_backoff 0) ;;
  onconv (with_backedoff 0)) (with_flgcnt fl (with_wq (zdrop acked (wq c)) c)) Q) as H.
  { do 2 cv_step. set (c1 := with_snd _ _).
    assert (core c1 = mkCore (seqno (iss c) A) (seqno (iss c) N) (seqno (iss c) P) (iss c) (written c) (zdrop acked (wq c)) (wqopen c) (st c) fl true
      (tmss (base c)) (cwind (base c)) (snd_wnd (base c)) (on (timer c)) (tstart (timer c)) (out c) (reseq (base c)) (rq (rx c)) (mem (rx c)) (window_okb (rx c))) as E1.
    { rewrite <- Ea, <- En, <- Ep, <- Hf. done. }
    clearbody c1. apply wp_bind, wp_onsnd_same; [intros d; by destruct (seq_gt _ _)|]. intros c2 E2. rewrite E1 in E2. clear E1 c1.
    do 4 cv_step. set (c3 := with_snd _ _).
    assert (core c3 = acked_core (core c) A P N (zdrop acked (wq c)) fl (if A =? N then TcptimerOFF else TcptimerON)) as E3.
    { injection E2 as D1 D2 D3 D4 D5 D6 D7 D8 D9 D10 D11 D12 D13 D14 D15 D16 D17 D18 D19 D20. subst c3. unfold core, acked_core, tgo, thalt. cbn.
      rewrite D1, D2, D3. unfold seq_lt. rewrite s32_seqno, seqno_eqb by lia. change (flag SYNACK _) with (flag SYNACK c2). rewrite D10.
      change (base (with_snd _ _)) with (base c2). rewrite D4, D5, D6, D7, D8, D9, D11, D12, D13, D16, D17, D18, D19, D20.
      assert (seqno (iss c) (Z.max A P) = if P - A <? 0 then seqno (iss c) A else seqno (iss c) P) as Em by (destruct (Z.ltb_spec (P - A) 0); f_equal; lia).
      rewrite Em. destruct (P - A <? 0), (A =? N); cbn; rewrite ?D1, ?D2, ?D3, ?D14, ?D15, ?(proj2 (Z.eqb_neq (tstart (timer c)) 0)) by lia; done. }
    clearbody c3. clear E2 c2. apply wp_bind, wp_clrflag; [done|]. intros c4 E4. do 3 cv_step. 
    set (c5 := with_backedoff _ _). assert (core c5 = core c3) as E5 by exact E4. rewrite E3 in E5. clear E3 E4. clearbody c5. clear c3 c4.
    apply K, E5. }
  subst fl. apply wp_when; intros E; rewrite E in *; [cv_step; exact H|]. rewrite Z.sub_0_r in H. by destruct c.
Qed.

Lemma onward_stale b k c a : onward b k (core c) -> b < 2 ^ 31 -> a = k_una k -> seq_gt a (snd_una (snd c)) = false.
Proof.
  intros (_ & Ha & _) Hb ->. unfold seq_gt. rewrite Z.gtb_ltb. apply Z.ltb_ge. destruct (s32_k (k_una (core c) - k_una k)) as [x Ex]. rewrite Ex in Ha.
  change (snd_una (snd c)) with (k_una (core c)). rewrite (s32_eq x _ (- (k_una (core c) - k_una k + x * 2 ^ 32))) by lia. lia.
Qed.
(** When the segment is sent again, what it acknowledges is not new, before and after. *)
Lemma wp_fast_rexmit pend c seg (Q : () -> Conv -> Prop) : conv_ok pend c ->
  (forall c', core c' = core c -> Q () c') ->
  (forall c', conv_ok pend c' -> advance (100 * 2 ^ 24) (core c) (core c') ->
     (open_st (st c') \/ fin (st c) = 1 -> seq_gt (ack seg) (snd_una (snd c')) = false) -> seq_gt (ack seg) (snd_una (snd c)) = false -> Q () c') ->
  wp (fast_rexmit seg) c Q.
Proof.
  intros (M & O & H) K1 K2. unfold fast_rexmit. cv_step. cv_step. apply wp_when; [intros E|intros _; by apply K1].
  apply andb_true_iff in E as [E _]. apply andb_true_iff in E as [E _]. apply andb_true_iff in E as [E _]. apply Z.eqb_eq in E. cbv zeta.
  assert (seq_gt (ack seg) (snd_una (snd c)) = false) as Hg by (unfold seq_gt; by rewrite E, Z.sub_diag).
  apply wp_bind, wp_onsnd_same; [done|]. intros c1 E1. apply wp_when; [intros _|intros _; by apply K1].
  apply wp_bind, wp_onsnd_same; [done|]. intros c2 E2. rewrite E1 in E2. change (snd_una (snd c)) with (k_una (core c)) in E. change (st c) with (k_st (core c)) in K2.
  rewrite <- E2 in M, O, H, K2, E.
  apply (wp_tcprxmit pend); [done|done| |].
  - change (st c2) with (k_st (core c2)). intros Ho. destruct (H Ho) as (U & P & N & S & T). split; [apply T|]. by exists U, P, N.
  - intros c3 H3 A3. apply K2; [done|done| |exact Hg]. intros Hor.
    eapply (onward_stale (100 * 2 ^ 24) (core c2)); [|lia|done]. destruct Hor as [Ho|Ho]; [by apply (proj1 A3)|by apply (proj1 (proj2 A3)); left].
Qed.

Definition wnd_core (k : Core) (w cw : Z) : Core :=
  mkCore (k_una k) (k_nxt k) (k_ptr k) (k_iss k) (k_written k) (k_wq k) (k_open k) (k_st k) (k_flg k) (k_syn k) (k_mss k) cw w
    (k_on k) (k_start k) (k_out k) (k_reseq k) (k_rq k) (k_mem k) (k_win k).
Lemma sender_wnd k w cw U P N : 0 <= w < 2 ^ 32 -> 0 < cw < 2 ^ 32 -> sender_ok k U P N -> sender_ok (wnd_core k w cw) U P N.
Proof. intros Hw Hcw [S1 S2 S3 S4 S5 S6 S6' S7 S8 S9 S10 S11 S12 S13 S14 S15 S16]. by split. Qed.
Lemma wnd_core_id k : wnd_core k (k_wnd k) (k_cwind k) = k.
Proof. by destruct k. Qed.

Lemma wp_update_wnd c seg (Q : () -> Conv -> Prop) :
  (forall c' w, w = wnd seg \/ w = k_wnd (core c) -> core c' = wnd_core (core c) w (k_cwind (core c)) -> Q () c') -> wp (update_wnd seg) c Q.
Proof.
  intros K. unfold update_wnd. cv_step. cv_step. apply wp_when; intros _.
  - cv_step. cv_step. cv_step. by apply (K _ (wnd seg)); [left|].
  - apply (K _ (k_wnd (core c))); [by right|]. by rewrite wnd_core_id.
Qed.

Lemma start_core_id k : start_core k (k_start k) = k.
Proof. by destruct k. Qed.
Lemma wp_measure_rtt c seg (Q : () -> Conv -> Prop) : 0 < k_start (core c) ->
  (forall c' x, 0 < x -> core c' = start_core (core c) x -> Q () c') -> wp (measure_rtt seg) c Q.
Proof.
  intros Hs K. assert (forall c', core c' = core c -> Q () c') as K0.
  { intros c' E. apply (K _ (k_start (core c))); [done|]. by rewrite E, start_core_id. }
  unfold measure_rtt. cv_step. cv_step. apply wp_when; [intros _|intros _; by apply K0]. cv_step. cv_step. 
  set (c1 := with_rtt_timer _ c). assert (core c1 = core c) as E1 by done. clearbody c1.
  apply wp_when; [intros _|intros _; by apply K0]. cv_step. cv_step. cv_step. cv_step. cbv zeta. cv_step. cv_step.
  apply wp_settimer. intros c2 x Hx E2. apply (K _ x Hx). rewrite E2. transitivity (start_core (core c1) x); [|by rewrite E1].
  f_equal. by destruct (estimate _ _ _).
Qed.

(** *** [update] *)
Definition acks (seg : Tcp) : Prop := 0 <= ack seg < 2 ^ 32 /\ 0 <= wnd seg < 2 ^ 32.
(** Everything up to position [A] has been acknowledged, nothing else has happened. *)
Definition acked (k k' : Core) (P N A : Z) : Prop :=
  sender_ok k' A (Z.max A P) N /\ k_iss k' = k_iss k /\ k_written k' = k_written k /\ k_st k' = k_st k /\ k_open k' = k_open k /\ k_out k' = k_out k /\
  k_syn k' = true /\ k_on k' = (if A =? N then TcptimerOFF else TcptimerON) /\ k_wnd k' = k_wnd k /\
  k_cwind k <= k_cwind k' <= Z.max (k_cwind k) (k_wnd k) /\ k_reseq k' = k_reseq k /\ (mem_ok k -> mem_ok k').

(** What matters when nothing is open. *)
Definition husk (k : Core) := (k_st k, k_iss k, k_written k, k_open k, k_out k, k_reseq k, k_rq k, k_mem k, k_win k).
Lemma husk_ok pend c c' : ~ open_st (st c) -> husk (core c') = husk (core c) -> conv_ok pend c -> conv_ok pend c' /\ st c' = st c.
Proof.
  intros Hn E (M & O & _). unfold husk in E. injection E as E1 E2 E3 E4 E5 E6 E7 E8 E9. change (k_st (core c')) with (st c') in E1. change (k_st (core c)) with (st c) in E1.
  split; [|exact E1]. split; [by eapply mem_ok_same, M|]. split; [unfold out_ok; cbn; by rewrite E2, E3, E4, E5|].
  change (k_st (core c')) with (st c'). rewrite E1. done.
Qed.

Lemma wp_update_done_husk n seg c (Q : () -> Conv -> Prop) : (forall c', husk (core c') = husk (core c) -> Q () c') -> wp (update_done n seg) c Q.
Proof.
  intros K. unfold update_done, wqdiscard. do 7 cv_step.
  match goal with |- wp (when ?b _) _ _ => destruct b end; cbn [when]; do 17 try cv_step; apply K; unfold husk; repeat case_match; done.
Qed.

Lemma wp_update_acked_husk seg c (Q : () -> Conv -> Prop) : (forall c', husk (core c') = husk (core c) -> Q () c') ->
  wp (update_acked seg c) c Q.
Proof.
  intros K. unfold update_acked. apply wp_bind, wp_onsnd_same; [intros d; by destruct (_ || _)|]. intros c1 E1. cbv zeta. rewrite <- E1 in K.
  destruct (negb _).
  - do 4 cv_step. apply wp_update_done_husk. exact K.
  - do 2 cv_step. set (c2 := with_base _ _). assert (husk (core c2) = husk (core c1)) as E2 by done. rewrite <- E2 in K. clearbody c2.
    apply wp_bind. unfold measure_rtt. do 2 cv_step.
    assert (forall c', husk (core c') = husk (core c2) -> wp (update_done (u32 (ack seg - snd_una (snd c))) seg) c' Q) as Kd.
    { intros c' E'. apply wp_update_done_husk. intros c'' E''. apply K. by rewrite E''. }
    match goal with |- wp (when ?b _) _ _ => destruct b end; cbn [when]; [|by apply Kd].
    cv_step. cv_step. match goal with |- wp (when ?b _) _ _ => destruct b end; cbn [when]; [|by apply Kd].
    cbv zeta. unfold settimer. do 9 cv_step. apply Kd. unfold husk. repeat case_match; done.
Qed.

Lemma wp_update_done_at c k P N A acked seg (Q : () -> Conv -> Prop) : core c = k -> k_syn k = true ->
  ack seg = seqno (k_iss k) A -> k_nxt k = seqno (k_iss k) N -> k_ptr k = seqno (k_iss k) P -> - 2 ^ 30 <= P - A <= 2 ^ 30 -> 0 <= N - A <= 2 ^ 30 ->
  0 < k_start k ->
  (forall c', core c' = acked_core k A P N (zdrop acked (k_wq k))
     (k_flg k - (if Z.min acked (zlen (k_wq k)) <? acked then 1 else 0)) (if A =? N then TcptimerOFF else TcptimerON) -> Q () c') ->
  wp (update_done acked seg) c Q.
Proof. intros <-. apply wp_update_done. Qed.

(** An acknowledgement of something new. *)
Lemma wp_update_acked c U P N A seg (Q : () -> Conv -> Prop) :
  sender_ok (core c) U P N -> acks seg -> ack seg = seqno (iss c) A -> U < A <= N ->
  (forall c', acked (core c) (core c') P N A -> snd_una (snd c') = ack seg -> Q () c') ->
  wp (update_acked seg c) c Q.
Proof.
  intros S [Hack Hw] Ea HA K. unfold update_acked. apply wp_bind, wp_onsnd_same; [intros d; by destruct (_ || _)|]. intros c1 E1. cbv zeta.
  pose proof (so_order _ _ _ _ S) as So. pose proof (so_space _ _ _ _ S) as Sp. pose proof (so_cwind _ _ _ _ S) as Scw.
  assert (u32 (ack seg - snd_una (snd c)) = A - U) as ->.
  { change (snd_una (snd c)) with (k_una (core c)). rewrite (so_una _ _ _ _ S), Ea. apply u32_seqno. lia. }
  assert (forall s, sender_ok (acked_core (core c) A P N (zdrop (if flag SYNACK c then A - U else A - 1) (wq c)) 
    (flgcnt c - (if flag SYNACK c then 0 else 1) - (if Z.min (if flag SYNACK c then A - U else A - 1) (zlen (wq c)) <? (if flag SYNACK c then A - U else A - 1) then 1 else 0)) s)
    A (Z.max A P) N) as Sa by (intros s; by eapply sender_acked).
  assert (flag SYNACK c = false -> U = 0) as HU0.
  { intros Hf. pose proof (so_syn _ _ _ _ S) as S9. change (k_syn (core c)) with (flag SYNACK c) in S9. rewrite Hf in S9. apply S9. }
  destruct (flag SYNACK c) eqn:Ef; cbn [negb].
  - do 2 cv_step. set (c2 := with_base _ _).
    assert (core c2 = wnd_core (core c) (k_wnd (core c)) (grow_cwind (A - U) c1)) as E2.
    { transitivity (wnd_core (core c1) (k_wnd (core c1)) (grow_cwind (A - U) c1)); [done|by rewrite E1]. }
    clearbody c2. apply wp_bind, wp_measure_rtt; [rewrite E2; apply (so_start _ _ _ _ S)|]. intros c3 x Hx E3. rewrite E2 in E3.
    assert (k_cwind (core c) <= grow_cwind (A - U) c1 <= Z.max (k_cwind (core c)) (k_wnd (core c))) as Hg0.
    { pose proof Scw as B1. pose proof (so_wnd _ _ _ _ S) as B2. pose proof (so_mss _ _ _ _ S) as B3. rewrite <- E1 in B1, B2, B3 |- *. cbn in B1, B2, B3.
      exact (grow_cwind_ok (A - U) c1 B1 B2 B3 ltac:(lia)). }
    assert (0 < grow_cwind (A - U) c1 < 2 ^ 32) as Hg by (pose proof (so_wnd _ _ _ _ S); lia).
    assert (forall s, sender_ok (acked_core (start_core (wnd_core (core c) (k_wnd (core c)) (grow_cwind (A - U) c1)) x) A P N (zdrop (A - U) (wq c))
      (flgcnt c - (if Z.min (A - U) (zlen (wq c)) <? A - U then 1 else 0)) s) A (Z.max A P) N) as Sb.
    { intros s. specialize (Sa s). rewrite Z.sub_0_r in Sa. apply (sender_start _ x) in Sa; [|done].
      apply (sender_wnd _ (k_wnd (core c)) (grow_cwind (A - U) c1)) in Sa; [exact Sa|apply (so_wnd _ _ _ _ S)|done]. }
    apply (wp_update_done_at c3 _ P N A (A - U) seg Q E3); try done; try lia.
    + apply (so_nxt _ _ _ _ S).
    + apply (so_ptr _ _ _ _ S).
    + intros c4 E4. apply K; [|rewrite Ea; exact (f_equal k_una E4)]. rewrite E4. split; [apply Sb|done].
  - specialize (HU0 eq_refl). subst U. do 4 cv_step. set (c2 := with_flgcnt _ _).
    assert (core c2 = mkCore (k_una (core c)) (k_nxt (core c)) (k_ptr (core c)) (k_iss (core c)) (k_written (core c)) (k_wq (core c)) (k_open (core c)) (k_st (core c))
      (k_flg (core c) - 1) true (k_mss (core c)) (k_cwind (core c)) (k_wnd (core c)) (k_on (core c)) (k_start (core c)) (k_out (core c)) (k_reseq (core c)) (k_rq (core c))
      (k_mem (core c)) (k_win (core c))) as E2.
    { rewrite <- E1. subst c2. unfold core at 1, flag. cbn. rewrite Z.land_lor_distr_l. change (Z.land SYNACK SYNACK) with SYNACK.
      replace (Z.lor (Z.land (tflags (base c1)) SYNACK) SYNACK =? 0) with false; [done|]. symmetry. apply Z.eqb_neq. intros E. apply Z.lor_eq_0_iff in E as [_ E]. done. }
    clearbody c2. rewrite Z.sub_0_r, u32_small by lia.
    apply (wp_update_done_at c2 _ P N A (A - 1) seg Q E2); try done; try lia.
    + apply (so_nxt _ _ _ _ S).
    + apply (so_ptr _ _ _ _ S).
    + apply (so_start _ _ _ _ S).
    + intros c4 E4. apply K; [|rewrite Ea; exact (f_equal k_una E4)]. rewrite E4. split; [apply (Sa (if A =? N then TcptimerOFF else TcptimerON))|].
      do 10 (split; [first [done | cbn; lia]|]). done.
Qed.

Definition same_call (c c' : Conv) : Prop :=
  (open_st (st c') -> open_st (st c) /\ iss c' = iss c /\ (flag SYNACK c = true -> flag SYNACK c' = true)) /\ (length (reseq (base c')) <= length (reseq (base c)))%nat.
Lemma same_call_core c c1 c2 : core c2 = core c1 -> same_call c c1 -> same_call c c2.
Proof.
  intros E [H L]. assert (st c2 = st c1 /\ iss c2 = iss c1 /\ reseq (base c2) = reseq (base c1) /\ flag SYNACK c2 = flag SYNACK c1) as (E1 & E2 & E3 & E4).
  { split; [exact (f_equal k_st E)|]. split; [exact (f_equal k_iss E)|]. split; [exact (f_equal k_reseq E)|exact (f_equal k_syn E)]. }
  split; [by rewrite E1, E2, E4|by rewrite E3].
Qed.
Lemma same_call_refl c : same_call c c.
Proof. by split. Qed.
(** What a segment acknowledges is new, and has been sent. *)
Definition news (c : Conv) (seg : Tcp) : Prop :=
  open_st (st c) /\ seq_gt (ack seg) (snd_una (snd c)) = true /\ seq_gt (ack seg) (snd_nxt (snd c)) = false.
Definition news_taken (c c' : Conv) (seg : Tcp) : Prop :=
  exists U P N A w, sender_ok (core c) U P N /\ ack seg = seqno (iss c) A /\ U < A <= N /\ (w = wnd seg \/ w = snd_wnd (base c)) /\
    acked (wnd_core (core c) w (cwind (base c))) (core c') P N A /\ snd_una (snd c') = ack seg /\ mem_ok (core c') /\ out_ok (core c').
Lemma ended_wnd k w cw : 0 <= w < 2 ^ 32 \/ w = k_wnd k -> 0 < cw < 2 ^ 32 \/ cw = k_cwind k -> ended k -> ended (wnd_core k w cw).
Proof.
  intros Hw Hcw. apply ended_as; [done..|]. intros U P N S. exists U, P, N. apply (sender_wnd _ w cw) in S; [exact S| |].
  - destruct Hw as [?| ->]; [done|apply (so_wnd _ _ _ _ S)].
  - destruct Hcw as [?| ->]; [done|apply (so_cwind _ _ _ _ S)].
Qed.
Lemma ended_fin k : ended k -> open_st (k_st k) -> fin (k_st k) = 1.
Proof. intros [Hf|[E _]] [Ho _]; [exact Hf|by destruct Ho]. Qed.

Lemma wp_update pend c seg (Q : () -> Conv -> Prop) : conv_ok pend c -> acks seg ->
  (forall c', ((st c = Syn_sent -> ~ news c seg) -> conv_ok pend c') -> same_call c c' -> (fin (st c) = 1 -> ended (core c')) ->
     (news c seg -> news_taken c c' seg) -> Q () c') -> wp (update seg) c Q.
Proof.
  intros Hc Hseg K. unfold update. cv_step. cv_step. destruct (seq_gt (ack seg) (snd_nxt (snd c))) eqn:En.
  { apply wp_setflag; [done|]. intros c' E'. apply K; [intros _; unfold conv_ok; by rewrite E'| |intros Hf; rewrite E'; by left|intros (_ & _ & H); congruence].
    by apply (same_call_core c c c' E'), same_call_refl. }
  assert (forall c1, conv_ok pend c1 -> same_call c c1 -> (fin (st c) = 1 -> ended (core c1)) ->
    core c1 = core c \/ ((open_st (st c1) \/ fin (st c) = 1 -> seq_gt (ack seg) (snd_una (snd c1)) = false) /\ seq_gt (ack seg) (snd_una (snd c)) = false) ->
    wp (update_wnd seg ;; c <- getc ;;
    if negb (seq_gt (ack seg) (snd_una (snd c))) then
      when (flag RETRAN c && (snd_wnd (base c) =? 0)) (onconv (with_backedoff (MAXBACKMS / 4)))
    else update_acked seg c) c1 Q) as H.
  { intros c1 H1 Hs1 He1 Hst. apply wp_bind, wp_update_wnd. intros c2 w Hw E2. do 2 cv_step.
    assert (st c2 = st c1) as Est by (change (k_st (core c2) = st c1); by rewrite E2).
    assert (snd_una (snd c2) = snd_una (snd c1)) as Eu by (change (k_una (core c2) = snd_una (snd c1)); by rewrite E2).
    assert (conv_ok pend c2 /\ same_call c c2 /\ (fin (st c) = 1 -> ended (core c2))) as (H2 & Hs2 & He2).
    { split; [|split].
      - destruct H1 as (M1 & O1 & H1). unfold conv_ok. rewrite E2. split; [exact M1|]. split; [exact O1|].
        intros Ho. destruct (H1 Ho) as (U & P & N & S & T). exists U, P, N. split; [|exact T]. apply sender_wnd; [|apply (so_cwind _ _ _ _ S)|done].
        destruct Hw as [-> | ->]; [apply Hseg|apply (so_wnd _ _ _ _ S)].
      - destruct Hs1 as [Hs1 Hl1]. assert (reseq (base c2) = reseq (base c1)) as Er by exact (f_equal k_reseq E2). split; [|by rewrite Er].
        rewrite Est. intros Ho. destruct (Hs1 Ho) as (? & Ei & Ef). split; [done|]. split; [rewrite <- Ei; exact (f_equal k_iss E2)|].
        intros Hf. specialize (Ef Hf). change (k_syn (core c2) = true). rewrite E2. exact Ef.
      - intros Hf. rewrite E2. apply ended_wnd; [|by right|by apply He1]. destruct Hw as [-> | ->]; [left; apply Hseg|by right]. }
    assert (open_st (st c2) -> seq_gt (ack seg) (snd_una (snd c2)) = true -> core c1 = core c) as Hnew.
    { rewrite Est, Eu. intros Ho Hg. destruct Hst as [?|[Hst _]]; [done|]. rewrite Hst in Hg by by left. done. }
    destruct (seq_gt (ack seg) (snd_una (snd c2))) eqn:Eg; cbn [negb].
    - destruct (decide (open_st (st c2))) as [Ho|Ho].
      + pose proof (Hnew Ho eq_refl) as E1. rewrite E1 in E2. pose proof H2 as (M2 & O2 & Hopen). destruct (Hopen Ho) as (U & P & N & S & T).
        destruct (ack_at _ U P N (ack seg) S) as (A & Ea & HA); [apply Hseg|by rewrite E2|done|].
        apply (wp_update_acked c2 U P N A); try done. intros c3 Ha3 Eu3. destruct Hs2 as [Hs2 Hl2]. destruct (Hs2 Ho) as (Ho' & Ei2 & _).
        pose proof Ha3 as (S3 & Ei3 & _ & Est3 & Eo3 & El3 & Ef3 & Eon3 & _ & _ & Er3 & Em3).
        assert (out_ok (core c3)) as O3.
        { unfold out_ok. rewrite El3, Ei3, Eo3. destruct Ha3 as (_ & _ & Ew3 & _). rewrite Ew3. exact O2. } change (st c3 = st c2) in Est3. apply K; [| | |].
        * intros Hns. split; [by apply Em3|]. split; [exact O3|]. intros _. exists A, (Z.max A P), N. split; [exact S3|].
          split; [|split; [congruence|]].
          -- intros Es. exfalso. apply Hns; [|]. 
             ++ change (st c3 = Syn_sent) in Es. rewrite <- Es, Est3, Est. change (st c = k_st (core c1)). by rewrite E1.
             ++ split; [done|]. split; [|done]. change (snd_una (snd c)) with (k_una (core c)). rewrite <- E1. change (k_una (core c1)) with (snd_una (snd c1)). by rewrite <- Eu.
          -- intros _ Hlt. left. rewrite Eon3. destruct (Z.eqb_spec A N); [lia|done].
        * split; [intros _; split; [done|]; split; [rewrite <- Ei2; exact Ei3|by intros _]|]. rewrite <- Hl2. apply Nat.eq_le_incl. exact (f_equal length Er3).
        * intros Hf. left. change (fin (st c3) = 1). rewrite Est3. apply (ended_fin (core c2)); [by apply He2|done].
        * intros _. assert (exists U P N, sender_ok (core c) U P N) as (U0 & P0 & N0 & S0) by (destruct Hc as (_ & _ & Hc); destruct (Hc Ho') as (? & ? & ? & ? & _); by eexists _, _, _).
          exists U, P, N, A, w. rewrite E2 in Ha3. split; [|split; [by rewrite <- Ei2|split; [done|split; [rewrite E1 in Hw; exact Hw|]]]].
          2: { split; [done|]. split; [exact Eu3|]. split; [by apply Em3|exact O3]. }
          rewrite E2 in S. apply (sender_wnd _ (k_wnd (core c)) (k_cwind (core c))) in S; [|apply (so_wnd _ _ _ _ S0)|apply (so_cwind _ _ _ _ S0)].
          change (wnd_core (wnd_core (core c) w (k_cwind (core c))) (k_wnd (core c)) (k_cwind (core c))) with (wnd_core (core c) (k_wnd (core c)) (k_cwind (core c))) in S.
          by rewrite wnd_core_id in S.
      + assert (fin (st c) <> 1) as Hnf.
        { intros Hf. rewrite Eu in Eg. destruct Hst as [E1|[Hst _]]; [|rewrite Hst in Eg by (by right); done]. apply Ho. rewrite Est.
          change (open_st (k_st (core c1))). rewrite E1. split; intros Ec; cbn in Ec; by rewrite Ec in Hf. }
        apply wp_update_acked_husk. intros c' E'. destruct (husk_ok pend c2 c' Ho E' H2) as [H' Est'].
        apply K; [by intros _|split; [intros Ho'; rewrite Est' in Ho'; done|]|done|].
        { assert (reseq (base c') = reseq (base c2)) as -> by (unfold husk in E'; by injection E'). apply Hs2. } intros (Hoc & Hg & _). exfalso. destruct Hst as [E1|[_ Hf]]; [|congruence].
        apply Ho. rewrite Est. change (open_st (k_st (core c1))). by rewrite E1.
    - assert (forall c', core c' = core c2 -> Q () c') as Kq.
      { intros c' E'. assert (st c' = st c2) as Est' by (change (k_st (core c') = st c2); by rewrite E'). apply K; [intros _; unfold conv_ok; by rewrite E'| |by rewrite E'|].
        - by apply (same_call_core c c2).
        - intros (Hoc & Hg & _). exfalso. destruct Hst as [E1|[_ Hf]]; [|congruence]. rewrite Eu in Eg. change (snd_una (snd c1)) with (k_una (core c1)) in Eg.
          rewrite E1 in Eg. change (k_una (core c)) with (snd_una (snd c)) in Eg. congruence. }
      apply wp_when_same; [|exact Kq]. intros c' Q' K'. cv_step. by apply K'. }
  apply wp_bind, (wp_fast_rexmit pend); [done| |].
  - intros c1 E1. apply H; [unfold conv_ok; by rewrite E1| |intros Hf; rewrite E1; by left|by left].
    by apply (same_call_core c c), same_call_refl.
  - intros c1 H1 A1 Hstale Hg. apply H; [done| |intros Hf; apply A1; by left|by right]. destruct A1 as (A1 & _ & L1). split; [|exact L1]. intros Ho. destruct (A1 Ho) as (? & ? & _ & ?). done.
Qed.

End Sender.

