(* ===== verification/Tcpsend.v ===== *)
(** * What the send side of ip/tcp.c does

    What an acknowledgement acknowledges, how much a round of [tcpoutput] may send, and what the reader of a
    conversation that is closed is told. *)

From stdpp Require Import base list gmap functions strings.
From Stdlib Require Import ZArith Lia.
From S2P Require Import Prelude Block Qio Tcptimer Tcp Tcpconn.
Open Scope Z_scope.
Open Scope nix_scope.

(** ** What stays *)
(** A relation between the states before and after that every step of [m] is in. *)
Definition keeps {A} (R : Conv -> Conv -> Prop) (m : M Conv A) : Prop :=
  forall c, match m c with Ret _ c' | Error _ c' => R c c' | _ => True end.
Section Keeps.
Context (R : Conv -> Conv -> Prop) `{PR : !PreOrder R}.
Lemma keeps_bind {A B} (m : M Conv A) (f : A -> M Conv B) : keeps R m -> (forall a, keeps R (f a)) -> keeps R (bind m f).
Proof.
  intros H1 H2 c. specialize (H1 c). unfold bind. destruct (m c) as [a c1|e c1| |]; try done. specialize (H2 a c1).
  destruct (f a c1); try done; by etrans.
Qed.
Lemma keeps_modify g : (forall c, R c (g c)) -> keeps R (onconv g).
Proof. intros H c. apply H. Qed.
Lemma keeps_ret {A} (a : A) : keeps R (ret a).
Proof. intros c. cbn. reflexivity. Qed.
Lemma keeps_the {A} (f : Conv -> A) : keeps R (the f).
Proof. intros c. cbn. reflexivity. Qed.
Lemma keeps_onrx {A} (m : M Ts A) : (forall c x, R c (with_rx x c)) -> keeps R (onrx m).
Proof. intros H c. unfold onrx. destruct (m (rx c)); try done. Qed.
Lemma keeps_when b m : keeps R m -> keeps R (when b m).
Proof. intros H. destruct b; [exact H|apply keeps_ret]. Qed.
End Keeps.

Ltac keeps_steps side := repeat match goal with
  | |- keeps _ (bind _ _) => apply (keeps_bind _); [|intros ?]
  | |- keeps _ (ret _) => apply (keeps_ret _)
  | |- keeps _ (the _) => apply (keeps_the _)
  | |- keeps _ getc => apply (keeps_the _)
  | |- keeps _ (when _ _) => apply (keeps_when _)
  | |- keeps _ (onrx _) => apply (keeps_onrx _); by side
  | |- keeps _ (let _ := _ in _) => cbv zeta
  | |- keeps _ (match ?x with _ => _ end) => destruct x
  | |- keeps _ (onconv _) => apply (keeps_modify _); by side
  | |- keeps _ (onbase ?g) => apply (keeps_modify _ (fun c => with_base (g (base c)) c)); by side
  | |- keeps _ (onsnd ?g) => apply (keeps_modify _ (fun c => with_snd (g (snd c)) c)); by side
  | |- keeps _ (emit _) => unfold emit
  | |- keeps _ (stat _ _) => unfold stat
  | |- keeps _ (setstat _ _) => unfold setstat
  | |- keeps _ (setflag _) => unfold setflag
  | |- keeps _ (clrflag _) => unfold clrflag
  | |- keeps _ (tcpsetstate _) => unfold tcpsetstate
  | |- keeps _ (localclose _) => unfold localclose
  | |- _ => progress side
  end.
Ltac by_tests := repeat match goal with |- context [?a <? ?b] => destruct (Z.ltb_spec a b) | |- context [?a <=? ?b] => destruct (Z.leb_spec a b)
  | H : context [?a <? ?b] |- _ => destruct (Z.ltb_spec a b) | H : context [?a <=? ?b] |- _ => destruct (Z.leb_spec a b) end; lia.
(** ** Opening *)
Section Opening.
Context `{MA : Malloc, MO : !MallocOk MA, NET : Net} (str : Z -> Z).
Implicit Types (F : list Block) (c : Conv).
(** A conversation that is in order, whoever holds blocks. *)
Definition well (c : Conv) : Prop := exists F, conv_ok str F false c.

(** A conversation as [Fsnewcall] or a clone leaves it. *)
Definition fresh (c : Conv) : Prop :=
  reseq (base c) = [] /\ (exists F, qinv F (rq (rx c)) (mem (rx c))) /\ wq c = [] /\ wqopen c = true /\ out c = [].

(** With the SYN to send. *)
Definition syn_core (k : Core) (i m : Z) : Core :=
  mkCore i i i i (k_written k) (k_wq k) (k_open k) (k_st k) (k_flg k + 1) (k_syn k) m (k_cwind k) (k_wnd k) (k_on k) (k_start k) (k_out k)
    (k_reseq k) (k_rq k) (k_mem k) (k_win k).
Lemma wp_tcpsndsyn c (Q : () -> Conv -> Prop) : (forall c, 0 < u16 (fst (tcpmtu c))) ->
  (forall c' i m, 0 <= i < 2 ^ 32 -> 0 < m < 2 ^ 16 -> core c' = syn_core (core c) i m -> Q () c') -> wp tcpsndsyn c Q.
Proof.
  intros Hmtu K. unfold tcpsndsyn. do 2 cv_step. set (i := u32 (nrand32 c)). do 6 cv_step. 
  set (c1 := with_flgcnt _ _). assert (core c1 = syn_core (core c) i (k_mss (core c))) as E1 by done. clearbody c1.
  apply wp_bind, wp_setflag; [done|]. intros c2 E2. rewrite E1 in E2. do 2 cv_step. specialize (Hmtu c). destruct (tcpmtu c) as [m sc]. cbn in Hmtu.
  do 5 cv_step. apply (K _ i (u16 m)).
  - apply u32_range.
  - unfold u16 in *. pose proof (Z.mod_pos_bound m (2 ^ 16) ltac:(lia)). lia.
  - set (c3 := with_sndsyntime _ _). change (core (with_stats _ _)) with (core (with_base (with_tmss (u16 m) (base c3)) c3)).
    assert (core c3 = core c2) as E3 by done. rewrite <- E3 in E2. clearbody c3. clear c2 E3. injection E2 as D1 D2 D3 D4 D5 D6 D7 D8 D9 D10 D11 D12 D13 D14 D15 D16 D17 D18 D19 D20.
    unfold core, syn_core in *. cbn. f_equal; done.
Qed.
(** The state before the first packet. *)
Lemma wp_tcpstart mode mss0 c (Q : () -> Conv -> Prop) : (forall F, rely str F) -> fresh c -> written c = 0 -> 0 < mss0 < 2 ^ 16 -> (forall c, 0 < u16 (fst (tcpmtu c))) ->
  (forall c', well c' -> Q () c') -> wp (tcpstart mode mss0) c Q.
Proof.
  intros RELY (Er & (F & Hq) & Ewq & Eop & Eo) Ew Hm Hmtu K. unfold tcpstart, inittcpctl. cv_step. cv_step. cv_step. cv_step.
  set (c1 := with_out _ _).
  assert (mem_ok F (core c1)) as M1.
  { split; [|split; [reflexivity|constructor]]. destruct Hq. by split. }
  assert (core c1 = mkCore 0 0 0 0 0 [] true Closed 0 false mss0 mss0 0 TcptimerOFF (tcp_irtt / MSPTICK) [Hashed] [] (k_rq (core c1)) (k_mem (core c1)) true) as E1.
  { unfold core, c1. cbn. by rewrite Ewq, Eop, Eo, Ew. }
  clearbody c1. destruct (mode =? TCP_LISTEN).
  - cv_step. cv_step. apply wp_bind, wp_setflag; [done|]. intros c2 E2.
    assert (core c2 = core c1) as E3 by exact E2. clear E2. apply (wp_tcpsetstate str F); [done|by rewrite E3|]. intros c3 l q m E4 M4 Hl.
    apply K. exists F. rewrite E3, E1 in E4. split; [done|]. split; [|change (st c3) with (k_st (core c3)); rewrite E4; by intros [_ ?]].
    unfold out_ok. rewrite E4. cbn. rewrite E3, E1 in Hl. destruct Hl as [-> | (x & -> & Hx)]; [by repeat constructor|by repeat (constructor; [by auto|])].
  - cv_step. cv_step. apply wp_bind, wp_setflag; [done|]. intros c2 E2. assert (core c2 = core c1) as E3 by exact E2. rewrite E1 in E3. clear E2.
    apply wp_bind, wp_tcpsndsyn; [done|]. intros c3 i m Hi Hm' E4. rewrite E3 in E4. cbn in E4.
    assert (mem_ok F (core c3)) as M3 by (eapply (mem_ok_same _ (core c1)), M1; rewrite E4; try done; [by rewrite E1|symmetry; exact (proj1 (proj2 M1))]).
    apply wp_bind, (wp_tcpsetstate str F); [done|exact M3|]. intros c4 l q mm E5 M4 Hl. rewrite E4 in E5, Hl. cbn in E5, Hl.
    apply (wp_tcpoutput str F (RELY F) false).
    + split; [exact M4|]. split.
      * unfold out_ok. rewrite E5. cbn. destruct Hl as [-> | (x & -> & Hx)]; [by repeat constructor|by repeat (constructor; [by auto|])].
      * intros _. exists 0, 0, 0. rewrite E5. split; [|by right].
        split; cbn; rewrite ?seqno_0 by done; try done; try lia; [by split; [|split; [|left]]|by intros [?|?]].
    + intros c5 H5 _. apply K. by exists F.
Qed.

Lemma conv_late F c : conv_ok str F false c -> conv_ok str F true c.
Proof.
  intros (M & O & H). split; [exact M|]. split; [exact O|]. intros Ho. destruct (H Ho) as (U & P & N & S & T1 & T2 & T3). exists U, P, N.
  split; [exact S|]. split; [exact T1|]. split; [exact T2|]. intros _ _. by right.
Qed.
End Opening.

(** ** What the send side does *)
Section Claims.
Context `{MA : Malloc, MO : !MallocOk MA, NET : Net} (str : Z -> Z) (F : list Block).

(** C28: an acknowledgement of something new, up to position [A] of the sequence space: it becomes [snd.una], the write queue loses what
    it acknowledges and no more, so what is queued and the flags are what is left of the sequence space; the timer runs if something is
    outstanding, and is halted if not; the window of congestion does not shrink, nor grow beyond the one offered; nothing is sent. *)
Theorem update_acknowledges pend c seg : rely str F -> conv_ok str F pend c -> acks seg -> news c seg ->
  exists c' A, update seg c = Ret () c' /\ ack seg = seqno (iss c) A /\ 1 <= A <= send_end (core c) /\ snd_una (snd c') = ack seg /\
    wq c' = text str (A - 1) (written c - (A - 1)) /\ wqlen c' + flgcnt c' = send_end (core c) - A /\
    on (timer c') = (if ack seg =? snd_nxt (snd c) then TcptimerOFF else TcptimerON) /\
    cwind (base c) <= cwind (base c') <= Z.max (cwind (base c)) (snd_wnd (base c')) /\
    flag SYNACK c' = true /\ st c' = st c /\ written c' = written c /\ out c' = out c.
Proof.
  intros RELY Hc Ha Hn.
  assert (wp (update seg) c (fun _ c' => news_taken str F c c' seg)) as H by (apply (wp_update str F RELY pend); [done|done|intros c' _ _ _ Ht; by apply Ht]).
  apply wp_exists in H as ([] & c' & E & U & P & N & A & w & S & Ea & HA & _ & Hack & Eu & _). exists c', A.
  destruct Hack as (S' & Ei & Ew & Est & _ & Eout & Ef & Eon & Ewn & Hcw & _).
  pose proof (so_order _ _ _ _ _ S) as So. pose proof (so_space _ _ _ _ _ S) as Sp. pose proof (so_nxt _ _ _ _ _ S) as En. 
  change (k_nxt (core c)) with (snd_nxt (snd c)) in En. change (k_iss (core c)) with (iss c) in En.
  assert (send_end (core c') = send_end (core c)) as Ese.
  { unfold send_end. change (k_written (core c')) with (written c') in *. change (k_st (core c')) with (st c') in *. by rewrite Ew, Est. }
  pose proof (so_syn _ _ _ _ _ S') as S9. rewrite Ef in S9. destruct S9 as [_ S9]. pose proof (so_flg _ _ _ _ _ S') as S8. rewrite Ese in S8.
  change (k_wq (core c')) with (wq c') in *. change (k_flg (core c')) with (flgcnt c') in S8. change (k_written (core c')) with (written c') in *.
  change (k_written (wnd_core _ _ _)) with (written c) in Ew. change (k_cwind (wnd_core _ _ _)) with (cwind (base c)) in Hcw. 
  change (k_wnd (wnd_core _ w _)) with w in *. change (k_wnd (core c')) with (snd_wnd (base c')) in Ewn. change (k_cwind (core c')) with (cwind (base c')) in Hcw.
  split; [exact E|]. split; [exact Ea|]. split; [lia|]. split; [exact Eu|]. split; [by rewrite S9, Ew|]. split; [unfold wqlen; lia|].
  split; [rewrite Ea, En, seqno_eqb by lia; exact Eon|]. split; [by rewrite Ewn|]. split; [exact Ef|]. split; [exact Est|]. split; [exact Ew|exact Eout].
Qed.

(** *** What a round sends *)
(** Nothing leaves but what [P] allows. *)
Definition leaves (P : Out -> Prop) (c c' : Conv) : Prop := exists l, out c' = l ++ out c /\ Forall P l.
#[export] Instance leaves_preorder P : PreOrder (leaves P).
Proof.
  split; [intros c; by exists []|]. intros c1 c2 c3 (l1 & E1 & F1) (l2 & E2 & F2). exists (l2 ++ l1). split; [by rewrite E2, E1, app_assoc|by apply Forall_app].
Qed.
Lemma leaves_same P c c' : out c' = out c -> leaves P c c'.
Proof. intros E. by exists []. Qed.
Definition no_segment (o : Out) : Prop := match o with Segment _ _ => False | _ => True end.
Definition sendless {A} : M Conv A -> Prop := keeps (leaves no_segment).
Lemma sendless_emit o : no_segment o -> sendless (emit o).
Proof. intros H c. exists [o]. split; [done|]. by constructor. Qed.

Ltac silent_side := intros; first [by apply leaves_same | by apply sendless_emit].
Lemma sendless_localclose r : sendless (localclose r).
Proof. unfold sendless. keeps_steps silent_side. Qed.
(** Partial: what holds if [m] returns. *)
Definition post {S A} (m : M S A) (s : S) (Q : A -> S -> Prop) : Prop := match m s with Ret a s' => Q a s' | _ => True end.
Lemma post_bind {S A B} (m : M S A) (f : A -> M S B) s Q : post m s (fun a s' => post (f a) s' Q) -> post (bind m f) s Q.
Proof. unfold post, bind. by destruct (m s). Qed.
Lemma post_sendless {A} (m : M Conv A) c (Q : A -> Conv -> Prop) : sendless m ->
  (forall a c' l, out c' = l ++ out c -> Forall no_segment l -> Q a c') -> post m c Q.
Proof. intros H K. specialize (H c). unfold post. destruct (m c); try done. destruct H as (l & ? & ?). by eapply K. Qed.

(** What a round has sent, of length [n] at most: nothing, if [more] is false, or one segment, from [snd.ptr], that takes
    room in the sequence space if [n] is positive. *)
Definition sent_one (c c' : Conv) (n : Z) : Prop := exists l seg data, out c' = l ++ Segment seg data :: out c /\ Forall no_segment l /\
  seq seg = snd_ptr (snd c) /\ (st c <> Syn_sent -> zlen data <= n) /\ (1 <= n -> tflag seg SYN = true \/ tflag seg FIN = true \/ data <> []).
Definition sends (c c' : Conv) (n : Z) (more : bool) : Prop := if more then sent_one c c' n else out c' = out c /\ exists c, outcome c = Nomem.
Lemma zlen_wqcopy d off c : zlen (wqcopy d off c) <= Z.max 0 d.
Proof. unfold wqcopy. rewrite zlen_ztake. lia. Qed.

Lemma post_onconv g c (Q : () -> Conv -> Prop) : Q () (g c) -> post (onconv g) c Q.
Proof. done. Qed.
Lemma post_onbase g c (Q : () -> Conv -> Prop) : Q () (with_base (g (base c)) c) -> post (onbase g) c Q.
Proof. done. Qed.
Lemma post_onsnd g c (Q : () -> Conv -> Prop) : Q () (with_snd (g (snd c)) c) -> post (onsnd g) c Q.
Proof. done. Qed.
Lemma post_the {A} (f : Conv -> A) c (Q : A -> Conv -> Prop) : Q (f c) c -> post (the f) c Q.
Proof. done. Qed.
Lemma post_ret {A} (a : A) c (Q : A -> Conv -> Prop) : Q a c -> post (ret a) c Q.
Proof. done. Qed.
Lemma post_when b m c (Q : () -> Conv -> Prop) : (b = true -> post m c Q) -> (b = false -> Q () c) -> post (when b m) c Q.
Proof. destruct b; [by intros H _; apply H|by intros _ H; apply H]. Qed.
Lemma post_mono {A} (m : M Conv A) c (P Q : A -> Conv -> Prop) : post m c P -> (forall a c', P a c' -> Q a c') -> post m c Q.
Proof. unfold post. destruct (m c); auto. Qed.

Lemma post_rcvwin c (Q : () -> Conv -> Prop) : (forall c', out c' = out c -> snd c' = snd c -> st c' = st c -> wq c' = wq c -> Q () c') -> post rcvwin c Q.
Proof. intros K. by apply K. Qed.
Lemma post_sent k c0 c (Q : () -> Conv -> Prop) : out c = out c0 -> snd c = snd c0 -> st c = st c0 ->
  (forall c', out c' = out c0 -> snd c' = snd c0 -> st c' = st c0 -> Q () c') -> post (stat k 1) c Q.
Proof. intros E1 E2 E3 K. by apply K. Qed.

Lemma lor_flag x y f : Z.land x f <> 0 -> Z.land (Z.lor x y) f <> 0.
Proof.
  intros H E. apply H. apply Z.bits_inj'. intros i Hi. apply (f_equal (fun z => Z.testbit z i)) in E.
  rewrite !Z.land_spec, Z.lor_spec in *. rewrite Z.bits_0 in *. by destruct (Z.testbit x i), (Z.testbit y i), (Z.testbit f i).
Qed.
Lemma tflag_true seg f : Z.land (flags seg) f <> 0 -> tflag seg f = true.
Proof. intros H. unfold tflag. apply negb_true_iff. by apply Z.eqb_neq. Qed.
Lemma segment_fits c n : let '(fl, d, _, _, _) := segment_flags c n n in (Z.land fl SYN <> 0 /\ (st c <> Syn_sent -> d = 0)) \/ d = n.
Proof. unfold segment_flags. destruct (st c); try (by right); destruct (_ =? _); try (by right); left; done. Qed.

(** The segment [send_segment] makes out, and its text. *)
Definition segment_made (sndcnt sent n : Z) (c : Conv) : Tcp * list Z :=
  let '(fl, d, s, m, w) := segment_flags c n n in
  let data := if d =? 0 then [] else wqcopy d sent c in
  let '(fl, d) := if negb (d =? 0) && negb (zlen data =? d) then (Z.lor fl FIN, u32 (d - 1)) else (fl, d) in
  let fl := if u32 (sent + d) =? u32 sndcnt then Z.lor fl PSH else fl in
  (mkTcp (lport c) (rport c) (snd_ptr (snd c)) (nxt (rcv (base c))) fl w (rwnd (rcv (base c))) 0 m 0, data).
(** It is sent, but for want of memory. *)
Lemma send_segment_made (P : Tcp -> list Z -> Prop) sndcnt sent n c :
  (forall c2, out c2 = out c -> snd c2 = snd c -> st c2 = st c -> wq c2 = wq c -> P (segment_made sndcnt sent n c2).1 (segment_made sndcnt sent n c2).2) ->
  post (send_segment sndcnt sent n) c (fun more c' =>
    if more then exists l seg data, out c' = l ++ Segment seg data :: out c /\ Forall no_segment l /\ P seg data else out c' = out c /\ exists c, outcome c = Nomem).
Proof.
  intros HP. unfold send_segment. apply post_bind, post_onbase, post_bind.
  apply post_rcvwin. intros c1 E1 E2 E3 E4. apply post_bind, post_onconv, post_bind, post_onbase, post_bind, post_the.
  set (c2 := with_base _ _). assert (out c2 = out c /\ snd c2 = snd c /\ st c2 = st c /\ wq c2 = wq c) as (G1 & G2 & G3 & G4) by done. clearbody c2. clear c1 E1 E2 E3 E4.
  specialize (HP c2 G1 G2 G3 G4). unfold segment_made in HP. destruct (segment_flags c2 n n) as [[[[fl d] s] m] w].
  set (data := if d =? 0 then [] else _) in *. destruct (if negb (d =? 0) && _ then _ else _) as [fl' d'] eqn:Ef. cbv zeta in *. cbn [fst snd] in HP.
  set (seg := mkTcp _ _ _ _ _ _ _ _ _ _) in *. change (P seg data) in HP. clearbody seg data. clear Ef fl m w.
  apply post_bind. eapply (post_mono _ _ (fun _ c' => out c' = out c)).
  { apply post_when; [|done]. intros _. by apply post_bind, post_onconv. }
  intros [] c3 E3. apply post_bind, post_onsnd, post_bind, post_onsnd, post_bind, post_the.
  set (c4 := with_snd _ _). assert (out c4 = out c) as E4 by exact E3. clearbody c4.
  set (Q := fun (more : bool) c' => if more then exists l seg data, out c' = l ++ Segment seg data :: out c /\ Forall no_segment l /\ P seg data else out c' = out c /\ exists c, outcome c = Nomem).
  assert (forall (B : bool), post (when (negb (s =? 0))
      (onconv (fun c => if decide (on (timer c) = TcptimerON) then c else with_timer (tgo (timer c)) c) ;;
       onconv (fun c => if negb (bool_decide (on (rtt_timer c) = TcptimerON)) && (s =? tmss (base c)) then
           with_rttseq (snd_ptr (snd c)) (with_rtt_timer (tgo (rtt_timer c)) c) else c)) ;;
    stat OutSegs 1 ;; onconv (fun c => with_katimer (tgo (katimer c)) c) ;; emit (Segment seg data) ;;
    when B (localclose "no route"%string) ;; ret true) c4 Q) as K.
  { intros B. apply post_bind. eapply (post_mono _ _ (fun _ c' => out c' = out c)).
    { apply post_when; [|done]. intros _. apply post_bind, post_onconv, post_onconv. destruct (decide _); destruct (_ && _); exact E4. }
    intros [] c5 E5. apply post_bind, post_onconv, post_bind, post_onconv, post_bind, post_onconv, post_bind.
    eapply post_sendless; [apply keeps_when, sendless_localclose; apply _|]. intros [] c6 l E6 Hl. exists l, seg, data.
    split; [rewrite E6; change (l ++ Segment seg data :: out c5 = l ++ Segment seg data :: out c); by rewrite E5|done]. }
  destruct (outcome c4) eqn:Eo; [split; [done|by exists c4]|apply (K true)|apply (K false)].
Qed.

Lemma send_segment_sends sndcnt sent n c : 0 <= n -> post (send_segment sndcnt sent n) c (fun more c' => sends c c' n more).
Proof.
  intros Hn. eapply post_mono; [apply (send_segment_made (fun seg data => seq seg = snd_ptr (snd c) /\ (st c <> Syn_sent -> zlen data <= n) /\
    (1 <= n -> tflag seg SYN = true \/ tflag seg FIN = true \/ data <> [])))|by intros [|] c' H].
  intros c2 G1 G2 G3 G4. unfold segment_made.
  pose proof (segment_fits c2 n) as Hd. destruct (segment_flags c2 n n) as [[[[fl d] s] m] w].
  set (data := if d =? 0 then [] else _). assert (zlen data <= Z.max 0 d /\ (d <> 0 -> zlen data = d -> data <> [])) as [Hdata Hne].
  { unfold data. destruct (Z.eqb_spec d 0) as [->|]; [done|]. split; [apply zlen_wqcopy|]. intros _ E Ed. rewrite Ed in E. by apply n0. }
  clearbody data. destruct (if negb (d =? 0) && _ then _ else _) as [fl' d'] eqn:Ef. cbv zeta.
  set (seg := mkTcp _ _ _ _ _ _ _ _ _ _).
  assert (seq seg = snd_ptr (snd c) /\ (st c <> Syn_sent -> zlen data <= n) /\ (1 <= n -> tflag seg SYN = true \/ tflag seg FIN = true \/ data <> [])) as Hseg.
  { split; [cbn; by rewrite G2|]. split; [intros Hst; destruct Hd as [[_ Hd]|Hd]; [rewrite Hd in Hdata by congruence|]; lia|]. intros H1.
    assert (forall f, Z.land fl' f <> 0 -> tflag seg f = true) as Hf.
    { intros f Hf. apply tflag_true. cbn. destruct (_ =? u32 sndcnt); [by apply lor_flag|done]. }
    clearbody seg. destruct Hd as [[Hd _]|Hd].
    - left. apply Hf. destruct (_ && _); injection Ef as <- _; [by apply lor_flag|done].
    - right. destruct (Z.eqb_spec d 0); [lia|]. destruct (Z.eqb_spec (zlen data) d); injection Ef as <- _; [right; by apply Hne|].
      left. apply Hf. rewrite Z.lor_comm. by apply lor_flag. }
  exact Hseg.
Qed.

(** The first step of a round. *)
Definition same_round (c : Conv) (_ : ()) (c' : Conv) : Prop :=
  out c' = out c /\ snd c' = snd c /\ st c' = st c /\ iss c' = iss c /\ snd_wnd (base c') = snd_wnd (base c) /\ cwind (base c') = cwind (base c) /\
  tmss (base c') = tmss (base c) /\ wq c' = wq c /\ flgcnt c' = flgcnt c /\ flag SYNACK c' = flag SYNACK c /\ (flag FORCE c = true -> flag FORCE c' = true).
Lemma post_blocked b c : post (when b (onbase (fun t => with_rcv (set_blocked false (rcv t)) t) ;; setflag FORCE)) c (same_round c).
Proof.
  apply post_when; [|done]. intros _. apply post_bind, post_onbase, post_onbase. do 9 (split; [done|]). set (c1 := with_base _ c).
  split; [by apply (flag_lor c1)|]. intros _. apply negb_true_iff, Z.eqb_neq. cbn. rewrite Z.lor_comm. by apply lor_flag.
Qed.

(** C29: what a round of [tcpoutput] may send, when the SYN has been: one segment at most, from [snd.ptr], no longer than the maximal segment
    size; with what has been sent and not acknowledged it stays within the window the other side offers and within that of congestion;
    where no window is offered it is one octet at most, the probe. *)
Theorem output_round_fits c more c' : 0 < tmss (base c) -> 0 < cwind (base c) -> 0 <= snd_wnd (base c) -> st c <> Syn_sent -> output_round c = Ret more c' ->
  out c' = out c \/ exists l seg data, out c' = l ++ Segment seg data :: out c /\ Forall no_segment l /\ seq seg = snd_ptr (snd c) /\ zlen data <= tmss (base c) /\
    let sent := u32 (snd_ptr (snd c) - snd_una (snd c)) in
    if snd_wnd (base c) =? 0 then zlen data <= 1 else data = [] \/ sent + zlen data <= Z.min (snd_wnd (base c)) (cwind (base c)).
Proof.
  intros Hm Hc Hw Hst. set (most := Z.min (tmss (base c)) (if snd_wnd (base c) =? 0 then 1 else Z.max 0 (Z.min (snd_wnd (base c)) (cwind (base c)) - u32 (snd_ptr (snd c) - snd_una (snd c))))).
  enough (post output_round c (fun _ c' => out c' = out c \/ exists n, sent_one c c' n /\ n <= most)) as H.
  { intros E. unfold post in H. rewrite E in H. destruct H as [H|(n & (l & seg & data & H1 & H2 & H3 & H4 & _) & Hn)]; [by left|]. right. exists l, seg, data.
    specialize (H4 Hst). unfold most in Hn. split; [done|]. split; [done|]. split; [done|]. split; [lia|]. cbv zeta. pose proof (zlen_nonneg data). destruct (snd_wnd (base c) =? 0); [lia|].
    destruct (Z.max_spec 0 (Z.min (snd_wnd (base c)) (cwind (base c)) - u32 (snd_ptr (snd c) - snd_una (snd c)))) as [[? E1]|[? E1]]; rewrite E1 in Hn; [right; lia|].
    left. destruct data; [done|]. unfold zlen in H4. cbn in H4. lia. }
  unfold output_round. apply post_bind, post_the. destruct (silent (st c)); [by left|]. apply post_bind, post_the, post_bind.
  eapply (post_mono _ _ (same_round c)); [by apply post_blocked|].
  intros [] c1 (E1 & E2 & E3 & E4 & E5 & E6 & E7 & _). apply post_bind, post_the. cbv zeta. rewrite E2, E4.
  destruct (_ && negb (flag SYNACK c1)); [by left|].
  assert (forall n sndcnt sent, 0 <= n <= most -> post (send_segment sndcnt sent n) c1 (fun _ c' => out c' = out c \/ exists n, sent_one c c' n /\ n <= most)) as K.
  { intros n sndcnt sent Hn. eapply post_mono; [apply send_segment_sends; lia|]. intros [|] c2 H; [|left; destruct H as [H _]; congruence].
    right. exists n. split; [|lia]. destruct H as (l & seg & data & H). exists l, seg, data. by rewrite <- E1, <- E2, <- E3. }
  unfold usable_window. rewrite E5, E6. unfold most in *. clear most. set (sent := u32 (snd_ptr (snd c) - snd_una (snd c))) in *.
  pose proof (u32_range (s32 (wqlen c1 + flgcnt c1) - sent)) as Hr. set (x := u32 (_ - sent)) in *. clearbody x sent.
  destruct (Z.eqb_spec (snd_wnd (base c)) 0) as [Ew|Ew].
  - destruct (_ && _); [by left|]. rewrite E7. destruct (_ && _); [by left|]. apply K; by_tests.
  - rewrite E7. destruct (_ && _); [by left|]. rewrite Z.geb_leb. apply K; by_tests.
Qed.

(** *** The timer *)
(** There is always memory for a header. *)
Definition outcome_ok : Prop := forall c, outcome c <> Nomem.
Definition outstanding (c : Conv) : Prop := snd_una (snd c) <> snd_nxt (snd c).
Lemma round_sends c U N : outcome_ok -> sender_ok str (core c) U U N -> unsynced (core c) -> U < N -> silent (st c) = false ->
  post output_round c (fun more c' => more = true /\ exists n, 1 <= n /\ sent_one c c' n).
Proof.
  intros Hok S Hun HUN Hs. pose proof S as [S1 S2 S3 S4 S5 S6 S6' S7 S8 S9 S10 S11 S12 S13 S14 S15 S16]. cbn in S1, S2, S4, S8, S9, S10, S11, S12.
  unfold output_round. apply post_bind, post_the. rewrite Hs. apply post_bind, post_the, post_bind.
  eapply (post_mono _ _ (same_round c)); [by apply post_blocked|].
  intros [] c1 (E1 & E2 & E3 & E4 & E5 & E6 & E7 & E8 & E9 & E10 & _). apply post_bind, post_the. cbv zeta. rewrite E2, E4, E10.
  assert (negb (snd_ptr (snd c) =? iss c) && negb (flag SYNACK c) = false) as ->.
  { destruct (flag SYNACK c); [by rewrite andb_false_r|]. destruct S9 as (-> & _). by rewrite S2, seqno_0, Z.eqb_refl by done. }
  rewrite S1, S2. replace (u32 (seqno (iss c) U - seqno (iss c) U)) with 0 by (by rewrite Z.sub_diag). 
  assert (exists u, usable_window c1 0 = Some u /\ 1 <= u) as (u & -> & Hu).
  { unfold usable_window. rewrite E5, E6. destruct (Z.eqb_spec (snd_wnd (base c)) 0); [by exists 1|]. eexists. split; [done|]. rewrite Z.geb_leb. by_tests. }
  assert (s32 (wqlen c1 + flgcnt c1) = send_end (core c) - U) as ->.
  { unfold wqlen. rewrite E8, E9, S8. apply (s32_eq 0); lia. }
  rewrite Z.sub_0_r, E7. rewrite (u32_small (send_end (core c) - U)) by lia. cbv zeta. set (n := if u <? _ then _ else _). set (n' := if _ <? n then _ else n).
  assert (1 <= n') as Hn by (subst n' n; by_tests). clearbody n' n. destruct (Z.eqb_spec n' 0); [lia|]. cbn [andb].
  eapply post_mono; [apply send_segment_sends; lia|]. intros [|] c2 H; [|destruct H as (_ & cx & Hx); by apply Hok in Hx].
  split; [done|]. exists n'. split; [done|]. destruct H as (l & seg & data & H). exists l, seg, data. by rewrite <- E1, <- E2, <- E3.
Qed.

Definition any_out (_ : Out) : Prop := True.
Ltac leaves_side := intros; first [by apply leaves_same | apply leaves_same; by repeat case_match | eexists [_]; split; [reflexivity|by constructor]].
Lemma leaves_round : keeps (leaves any_out) output_round.
Proof. unfold output_round, send_segment, rcvwin. keeps_steps leaves_side. Qed.
Lemma output_loop_S rounds msgs : output_loop (Datatypes.S rounds) msgs =
  (more <- output_round ;; if negb more then ret () else when (msgs mod 4 =? 1) others ;; output_loop rounds (msgs + 1)).
Proof. done. Qed.
Lemma leaves_loop rounds : keeps (leaves any_out) others -> forall msgs, keeps (leaves any_out) (output_loop rounds msgs).
Proof.
  intros HO. induction rounds as [|rounds IH]; intros msgs; cbn [output_loop]; [apply keeps_ret; apply _|].
  apply keeps_bind; [apply _|apply leaves_round|]. intros more. destruct (negb more); [apply keeps_ret; apply _|].
  apply keeps_bind; [apply _|by apply keeps_when; [apply _|]|intros _; apply IH].
Qed.

(** The segment that starts again from what is not acknowledged. *)
Definition resends (c c' : Conv) : Prop := exists l seg data, out c' = l ++ Segment seg data :: out c /\
  seq seg = snd_una (snd c) /\ (tflag seg SYN = true \/ tflag seg FIN = true \/ data <> []).
Lemma post_rexmit c U P N : outcome_ok -> keeps (leaves any_out) others -> sender_ok str (core c) U P N -> unsynced (core c) -> U < N -> silent (st c) = false ->
  post tcprxmit c (fun _ c' => resends c c').
Proof.
  intros Hok HO S Hun HUN Hs. unfold tcprxmit. apply post_bind, post_onbase, post_bind, post_onsnd, post_bind, post_onconv, post_bind, post_onbase.
  set (c1 := with_base _ _).
  assert (core c1 = rexmit_core (core c)) as E1.
  { pose proof (flag_lor c (Z.lor RETRAN FORCE) eq_refl) as Ef. unfold rexmit_core, core. cbn. f_equal. exact Ef. }
  assert (sender_ok str (core c1) U U N) as S1 by (rewrite E1; by eapply sender_rexmit).
  assert (unsynced (core c1)) as Hun1 by (by rewrite E1). assert (silent (st c1) = false) as Hs1 by exact Hs.
  assert (out c1 = out c /\ snd_una (snd c1) = snd_una (snd c) /\ snd_ptr (snd c1) = snd_una (snd c)) as (Eo & _ & Ep) by done. clearbody c1.
  unfold tcpoutput. change 100%nat with (Datatypes.S 99). rewrite output_loop_S. apply post_bind. eapply post_mono; [by eapply round_sends|].
  intros more c2 (-> & n & Hn & l & seg & data & B1 & _ & B3 & _ & B5). cbn [negb].
  assert (keeps (leaves any_out) (when (0 mod 4 =? 1) others ;; output_loop 99 (0 + 1))) as HK.
  { apply (keeps_bind _); [by apply (keeps_when _)|intros _; by apply leaves_loop]. }
  specialize (HK c2). set (m := bind _ _) in *. unfold post. clearbody m. destruct (m c2); try done. destruct HK as (l2 & E2 & _). exists (l2 ++ l), seg, data.
  split; [by rewrite E2, B1, Eo, app_assoc|]. split; [congruence|auto].
Qed.

(** C5: when the timer fires while something that has been sent is not acknowledged, it is sent again, from the first octet that is not
    acknowledged, and the timer runs again; when that has gone on for too long the conversation is closed. *)
Theorem timeout_retransmits c : rely str F -> outcome_ok -> keeps (leaves any_out) others -> conv_ok str F true c -> outstanding c ->
  ~ st c ∈ [Closed; Listen; Finwait2; Time_wait] ->
  exists c', tcptimeout c = Ret () c' /\ conv_ok str F false c' /\
    if s32 (backedoff c + tstart (timer c) * MSPTICK) >=? (if decide (st c = Syn_sent) then MAXBACKMS / 2 else MAXBACKMS) then st c' = Closed else resends c c'.
Proof.
  intros RELY Hok HO H Hout Hst. 
  assert (open_st (st c)) as Hopen by (split; intros E; apply Hst; rewrite E; set_solver).
  pose proof H as (M & O & Hs). destruct (Hs Hopen) as (U & P & N & S & T).
  assert (U < N) as HUN.
  { pose proof (so_order _ _ _ _ _ S). destruct (Z.eq_dec U N) as [->|]; [|lia]. exfalso. apply Hout. cbn. pose proof (so_una _ _ _ _ _ S) as E1. pose proof (so_nxt _ _ _ _ _ S) as E2. cbn in E1, E2. congruence. }
  assert (wp tcptimeout c (fun _ c' => conv_ok str F false c')) as HW by (by apply (wp_tcptimeout str F)).
  apply wp_exists in HW as ([] & c' & E & Hc'). exists c'. split; [done|]. split; [done|].
  assert (post tcptimeout c (fun _ c' => if s32 (backedoff c + tstart (timer c) * MSPTICK) >=? (if decide (st c = Syn_sent) then MAXBACKMS / 2 else MAXBACKMS) then st c' = Closed else resends c c')) as HP.
  2: { unfold post in HP. by rewrite E in HP. }
  unfold tcptimeout. apply post_bind, post_the.
  assert (forall s, s = st c -> post (onbase (fun t => with_backoff (u8 (backoff_n t + 1)) t) ;;
    onconv (fun c => with_backedoff (s32 (backedoff c + tstart (timer c) * MSPTICK)) c) ;;
    b <- the backedoff ;;
    if b >=? (if decide (s = Syn_sent) then MAXBACKMS / 2 else MAXBACKMS) then localclose "connection timed out"%string
    else settimer ;; tcprxmit ;; stat RetransTimeouts 1 ;; onsnd (with_snd_dupacks 0)) c 
    (fun _ c' => if s32 (backedoff c + tstart (timer c) * MSPTICK) >=? (if decide (st c = Syn_sent) then MAXBACKMS / 2 else MAXBACKMS) then st c' = Closed else resends c c')) as Kt.
  { intros s ->. apply post_bind, post_onbase, post_bind, post_onconv, post_bind, post_the.
    set (c1 := with_backedoff _ _). assert (core c1 = core c /\ backedoff c1 = s32 (backedoff c + tstart (timer c) * MSPTICK)) as [E1 E2] by done. 
    assert (out c1 = out c /\ snd c1 = snd c /\ st c1 = st c) as (E3 & E4 & E5) by done. clearbody c1. rewrite E2. destruct (_ >=? _).
    - assert (wp (localclose "connection timed out"%string) c1 (fun _ c' => st c' = Closed)) as HL.
      { apply (wp_localclose str F); [rewrite E1; by apply (conv_whole str F true)|]. intros c2 H2. apply H2. }
      apply wp_exists in HL as ([] & c2 & EL & HL). unfold post. by rewrite EL.
    - unfold settimer. apply post_bind, post_bind, post_onbase, post_onconv, post_bind. set (c2 := with_timer _ _).
      assert (core c2 = start_core (core c1) (timer_start (tcpsettimer (base c1)))) as E6 by done.
      assert (out c2 = out c /\ snd c2 = snd c /\ st c2 = st c) as (E7 & E8 & E9) by done. clearbody c2. rewrite E1 in E6.
      eapply post_mono; [eapply (post_rexmit c2 U P N Hok HO); rewrite ?E6|].
      + apply sender_start; [|exact S]. pose proof (tcpsettimer_bounds (base c1)). unfold MSPTICK in *. lia.
      + apply T.
      + done.
      + rewrite E9. destruct (st c); try done; exfalso; apply Hst; set_solver.
      + intros [] c3 (l & seg & data & B1 & B2 & B3). apply post_bind, post_onconv, post_onsnd. exists l, seg, data. cbn. by rewrite B1, E7, B2, E8. }
  destruct (st c) eqn:Es; first [by apply Kt | exfalso; apply Hst; set_solver].
Qed.
(** *** What is said when a conversation closes *)
Lemma post_onrx {A} (m : M Ts A) c (Q : A -> Conv -> Prop) : post m (rx c) (fun a x => Q a (with_rx x c)) -> post (onrx m) c Q.
Proof. unfold post, onrx. by destruct (m (rx c)). Qed.
Lemma post_onmem {A} (m : M Bst A) s (Q : A -> Ts -> Prop) : (forall a x, Q a (mkTs (tcb s) (rq s) x)) -> post (onmem m) s Q.
Proof. intros K. unfold post, onmem. destruct (m (mem s)); try done; apply K. Qed.
Lemma post_onrq {A} (m : M Qst A) s (Q : A -> Ts -> Prop) : post m (rq s, mem s) (fun a '(q, x) => Q a (mkTs (tcb s) q x)) -> post (onrq m) s Q.
Proof. unfold post, onrq. by destruct (m _) as [? [? ?]|? [? ?]| |]. Qed.
Lemma post_setq g q s (Q : () -> Qst -> Prop) : Q () (g q, s) -> post (setq g) (q, s) Q.
Proof. done. Qed.
Lemma post_lift {A} (m : M Bst A) q s (Q : A -> Qst -> Prop) : (forall a s', Q a (q, s')) -> post (lift m) (q, s) Q.
Proof. intros K. unfold post, lift. cbn. destruct (m s); try done; apply K. Qed.

(** A queue that is closed, by [qclose] and by [qhangup]. *)
Lemma post_qclose q s (Q : () -> Qst -> Prop) :
  (forall q' s', bfirst q' = [] -> has Qclosed q' = true -> err q' = Ehungup -> eof q' = eof q -> Q () (q', s')) -> post qclose (q, s) Q.
Proof.
  intros K. unfold qclose. apply post_bind. change (post getq (q, s) ?P) with (P q (q, s)). cbv beta.
  do 6 apply post_bind, post_setq. apply post_bind, post_lift. intros [] s1. apply post_bind, post_lift. intros [] s2. apply post_lift. intros [] s3.
  apply K; try done. apply closed_bits.
Qed.
Definition reason_kept (r : string) : string := if String.eqb r "" then Ehungup else String.substring 0 (ERRMAX - 1) r.
Lemma post_qhangup r q s (Q : () -> Qst -> Prop) :
  (forall q' s', err q' = reason_kept r -> eof q' = eof q -> Q () (q', s')) -> post (qhangup r) (q, s) Q.
Proof.
  intros K. unfold qhangup. apply post_bind, post_setq, post_bind, post_setq, post_bind, post_lift. intros [] s1. apply post_lift. intros [] s2. by apply K.
Qed.

Lemma post_localclose r c : post (localclose r) c (fun _ c' => st c' = Closed /\ if decide (st c = Closed) then err (rq (rx c')) = reason_kept r
    else bfirst (rq (rx c')) = [] /\ has Qclosed (rq (rx c')) = true /\ err (rq (rx c')) = Ehungup /\ eof (rq (rx c')) = eof (rq (rx c))).
Proof.
  unfold localclose. do 5 apply post_bind, post_onconv. apply post_bind, post_the, post_bind, post_onrx, post_onmem. intros [] m.
    apply post_bind, post_onbase, post_bind, post_the, post_bind. set (c1 := with_base _ _).
    assert (st c1 = st c /\ eof (rq (rx c1)) = eof (rq (rx c))) as [E1 E2] by done. clearbody c1.
    apply (post_mono _ _ (fun _ c' => st c' = st c /\ eof (rq (rx c')) = eof (rq (rx c)))); [by apply post_when; [intros _; apply post_onconv|done]|].
    clear c1 E1 E2. intros [] c1 [E1 E2]. apply post_bind, post_the, post_bind.
    apply (post_mono _ _ (fun _ c' => st c' = st c /\ eof (rq (rx c')) = eof (rq (rx c)))); [by apply post_when; [intros _; apply post_onconv|done]|].
    clear c1 E1 E2. intros [] c1 [E1 E2]. apply post_bind, post_onrx, post_onrq, post_qhangup. intros q m' Eq Eo. apply post_bind, post_onconv.
    set (c2 := with_wqopen _ _). assert (st c2 = st c /\ rq (rx c2) = q) as [E3 E4] by done. clearbody c2. unfold tcpsetstate. apply post_bind, post_the. rewrite E3.
    destruct (decide (st c = Closed)) as [Ec|Ec]; [apply post_ret; by rewrite E3, E4|].
    do 2 (apply post_bind; eapply (post_mono _ _ (fun _ c' => rq (rx c') = q)); [by apply post_when; [intros _; apply post_onconv|]|clear dependent c2; intros [] c2 E4]).
    do 2 apply post_bind. apply post_onrx, post_onrq, post_qclose. intros q2 m2 B1 B2 B3 B4. apply post_onconv, post_bind, post_onconv.
    apply post_when; [rewrite andb_comm; by intros [? _]%andb_true_iff|]. intros _. split; [done|]. split; [done|]. split; [done|]. split; [done|]. cbn. rewrite B4, E4, Eo. exact E2.
Qed.

Lemma localclose_returns r c : whole str F (core c) -> exists c', localclose r c = Ret () c'.
Proof.
  intros H. assert (wp (localclose r) c (fun _ _ => True)) as HW by (by apply (wp_localclose str F)).
  destruct (proj1 (wp_exists _ _ _) HW) as ([] & c' & E & _). by exists c'.
Qed.
Lemma post_returns {S A} (m : M S A) s Q a s' : post m s Q -> m s = Ret a s' -> Q a s'.
Proof. unfold post. intros H E. by rewrite E in H. Qed.
Lemma qread_eof n q m : bfirst q = [] -> has Qclosed q = true -> err q = Ehungup -> eof q < 3 -> exists q', qread n (q, m) = Ret (Some ([], 0)) (q', m).
Proof.
  intros B1 B2 B3 He. exists (set_eof (eof q + 1) q). rewrite (qread_closed n q m B1 B2 B3). destruct (Z.gtb_spec (eof q + 1) 3) as [Hgt|_]; [exfalso; lia|reflexivity].
Qed.

(** C30: what the reader is told: [localclose] gives the receive queue the reason, and then [tcpsetstate] closes the queue, which puts
    [Ehungup] in its place. A conversation that was open reads as one that has ended in order, whatever the reason: what is queued is
    gone and the next read returns no bytes and no error. The reason is kept only if the state was [Closed] before. *)
Theorem closed_reads_as_eof r n c : conv_ok str F true c -> 0 <= eof (rq (rx c)) < 3 ->
  exists c', localclose r c = Ret () c' /\ st c' = Closed /\
    if decide (st c = Closed) then err (rq (rx c')) = reason_kept r
    else err (rq (rx c')) = Ehungup /\ exists q, qread n (rq (rx c'), mem (rx c')) = Ret (Some ([], 0)) (q, mem (rx c')).
Proof.
  intros H He. destruct (localclose_returns r c (conv_whole str F true c H)) as [c' E]. exists c'. split; [exact E|].
  pose proof (post_returns _ _ _ _ _ (post_localclose r c) E) as [Es HP]. split; [exact Es|].
  destruct (decide (st c = Closed)) as [_|_]; [exact HP|]. destruct HP as (B1 & B2 & B3 & B4). split; [exact B3|].
  apply (qread_eof n _ _ B1 B2 B3). rewrite B4. apply He.
Qed.
End Claims.

(** ** A conversation *)
#[export] Instance demo_net : Net := {|
  outcome := fun _ => Sent; others := ret (); hogdefense := false; nrand32 := fun _ => 4294967290; tcpmtu := fun _ => (1460, 0); malloc_ok := fun _ => true
|}.
Lemma demo_rely str F : rely str F.
Proof. intros pend c H. cbn. split; [done|]. by apply advance_refl. Qed.
Lemma demo_others R `{!Reflexive R} : keeps R others.
Proof. intros c. cbn. reflexivity. Qed.

Definition demo_off : Tm := mkTm TcptimerOFF 0 0.
(** Before [tcpstart]. *)
Definition demo_fresh : Conv :=
  mkConv (mkTs (mkTcb (mkRcv 0 0 0 false 0 0) [] 0 0 0 0 0 0 0 0 0 0 0 0) (new_queue QMAX Qcoalesce false) bst0) (mkSnd 0 0 0 0 0 0 false 0) Closed [] true
    demo_off demo_off demo_off demo_off 0 0 0 0 0 0 0 0 0 0 1024 80 false (fun _ => 0) [] 5000 0.
Lemma demo_fresh_ok : fresh demo_fresh.
Proof. split; [done|]. split; [|done]. exists []. split; try done. Qed.
Definition demo_started : Conv := after (tcpstart TCP_CONNECT DEF_MSS) demo_fresh.
Lemma demo_started_well : well demo_str demo_started.
Proof.
  assert (wp (tcpstart TCP_CONNECT DEF_MSS) demo_fresh (fun _ => well demo_str)) as H.
  { apply (wp_tcpstart demo_str); try done; [exact (demo_rely demo_str)|exact demo_fresh_ok]. }
  destruct (proj1 (wp_exists _ _ _) H) as ([] & c & E & H'). unfold demo_started, after. rewrite E. exact H'.
Qed.
(** The answer to the SYN. *)
Definition demo_ack : Tcp := mkTcp 80 1024 70000 4294967291 (Z.lor SYN ACK) 0 8760 0 1460 0.

Lemma update_acknowledges_witness : exists c', update demo_ack demo_started = Ret () c' /\ flag SYNACK c' = true /\ snd_una (snd c') = 4294967291 /\ on (timer c') = TcptimerOFF.
Proof.
  destruct demo_started_well as [F H].
  destruct (update_acknowledges demo_str F false demo_started demo_ack (demo_rely demo_str F) H) as (c' & A & E & _ & _ & Eu & _ & _ & Eon & _ & Ef & _);
    [split; vm_compute; intuition discriminate|split; [|split]; by vm_compute|].
  exists c'. split; [exact E|]. split; [exact Ef|]. split; [exact Eu|]. rewrite Eon. by vm_compute.
Defined.
(** Open, with ten bytes to send. *)
Definition demo_open : Conv := after (user_write demo_str 10) (after (tcpsetstate Established) (after (update demo_ack) demo_started)).
Lemma output_round_fits_witness : exists more c', output_round demo_open = Ret more c' /\ exists l seg data, out c' = l ++ Segment seg data :: out demo_open /\ zlen data <= 1460.
Proof.
  exists true, (after output_round demo_open). assert (output_round demo_open = Ret true (after output_round demo_open)) as E by (apply ret_after; by vm_compute).
  split; [exact E|]. destruct (output_round_fits demo_open true (after output_round demo_open)) as [H|(l & seg & data & H1 & _ & _ & H2 & _)]; [by vm_compute|by vm_compute|by vm_compute|by vm_compute|exact E| |].
  - exfalso. revert H. vm_compute. discriminate.
  - exists l, seg, data. split; [exact H1|exact H2].
Defined.
Lemma timeout_retransmits_witness : exists c', tcptimeout demo_started = Ret () c' /\ resends demo_started c'.
Proof.
  destruct demo_started_well as [F H].
  destruct (timeout_retransmits demo_str F demo_started) as (c' & E & _ & Hc); [exact (demo_rely demo_str F)|discriminate|apply demo_others; apply _| | | |].
  - by apply conv_late.
  - vm_compute. discriminate.
  - vm_compute. intros K. by repeat (inversion K as [|? ? ? K']; clear K; rename K' into K; subst).
  - exists c'. split; [exact E|].
    assert ((s32 (backedoff demo_started + tstart (timer demo_started) * MSPTICK) >=? (if decide (st demo_started = Syn_sent) then MAXBACKMS / 2 else MAXBACKMS)) = false) as Eb by (by vm_compute).
    rewrite Eb in Hc. exact Hc.
Defined.
Lemma closed_reads_as_eof_witness : exists c', localclose "connection timed out"%string demo_started = Ret () c' /\ err (rq (rx c')) = Ehungup.
Proof.
  destruct demo_started_well as [F H%conv_late].
  destruct (closed_reads_as_eof demo_str F "connection timed out"%string 100 demo_started H) as (c' & E & _ & Hc); [done|]. exists c'. split; [exact E|].
  destruct (decide (st demo_started = Closed)) as [Eb|_] in Hc; [exfalso; revert Eb; vm_compute; discriminate|]. destruct Hc as [Hc _]. exact Hc.
Defined.
