(* ===== verification/Tcpinput.v ===== *)
(** * The input state machine of ip/tcp.c

    What [tcpiput] does with a segment once it has found the conversation: the first switch, the check for stateless
    hogs, the trimming, and the loop over the segment and the ones it makes adjacent,
    with the states.  It is Tcp.v's receive side and Tcpconn.v's send side put together. *)

From stdpp Require Import base list gmap functions strings.
From Stdlib Require Import ZArith Lia.
From S2P Require Import Prelude Block Qio Tcptimer Tcp Tcpconn.
Open Scope Z_scope.
Open Scope nix_scope.

Definition set_wnd x t := mkTcp (source t) (dest t) (seq t) (ack t) (flags t) (ws t) x (urg t) (mss t) (tlen t).

(** Where to go: on with the segment, its blocks and the length of its text; [output:]; [raise:], with
    the blocks to free; [return]. *)
Inductive Goto := Go_on (seg : Tcp) (bp : list Block) (length : Z) | Output | Raise (bp : list Block) | Return.

Section Tcpinput.
Context `{MA : Malloc, NET : Net}.

Definition free (bp : list Block) : M Conv () := onrx (onmem (freeblist bp)).

(** The reset is addressed to where the segment came from. *)
Definition sndrst (seg : Tcp) (length : Z) : M Conv () :=
  if tflag seg RST then ret ()
  else
    stat OutRsts 1 ;;
    let '(s, a, fl) :=
      if tflag seg ACK then (ack seg, 0, RST)
      else
        let a := seq seg in
        let a := if tflag seg SYN then u32 (a + 1) else a in
        let a := u32 (a + length) in
        (0, if tflag seg FIN then u32 (a + 1) else a, Z.lor RST ACK) in
    o <- the outcome ;;
    match o with
    | Nomem => ret ()
    | _ => emit (Reset (mkTcp (dest seg) (source seg) s a fl 0 0 0 0 (tlen seg)))
    end.

(** All that has been written, and the flags, have been acknowledged. *)
Definition drained (c : Conv) : bool := wqlen c + flgcnt c =? 0.
Definition halt_rtt_ack : M Conv () :=
  onconv (fun c => with_rtt_timer (thalt (rtt_timer c)) c) ;;
  onconv (fun c => with_acktimer (thalt (acktimer c)) c).
Definition enter_time_wait : M Conv () :=
  halt_rtt_ack ;;
  onconv (fun c => with_katimer (thalt (katimer c)) c) ;;
  tcpsetstate Time_wait ;;
  onconv (fun c => with_timer (tgo (with_tstart (MSL2 * (1000 / MSPTICK)) (timer c))) c).

Definition set_scale (rcvscale sndscale : Z) : M Conv () :=
  onbase (fun t => tcpsetscale t rcvscale sndscale) ;;
  t <- the base ;;
  onrx (onrq (qsetlimit (window t))).

(** [switch(tcb->state)] *)
Definition input_state (seg : Tcp) (bp : list Block) (length : Z) : M Conv Goto :=
  c <- getc ;;
  match st c with
  | Closed => sndrst seg length ;; ret (Raise bp)
  | Syn_sent =>
    if tflag seg ACK && negb (seq_within (ack seg) (u32 (iss c + 1)) (snd_nxt (snd c))) then
      sndrst seg length ;; ret (Raise bp)
    else if tflag seg RST then
      when (tflag seg ACK) (localclose "connection refused"%string) ;; ret (Raise bp)
    else if tflag seg SYN then
      procsyn_conv seg ;;
      (if tflag seg ACK then
         update seg ;; tcpsynackrtt ;; tcpsetstate Established ;;
         w <- the wscale ;; set_scale (ws seg) w
       else
         onconv (fun c => with_ctime (NOW c) c) ;; tcpsetstate Syn_received) ;;
      if negb (length =? 0) || tflag seg FIN then ret (Go_on seg bp length)
      else free bp ;; ret Output
    else free bp ;; ret Return
  | Syn_received => when (tflag seg ACK) tcpsynackrtt ;; ret (Go_on seg bp length)
  | _ => ret (Go_on seg bp length)
  end.

Definition input_hog (seg : Tcp) : M Conv () :=
  c <- getc ;;
  when (negb (bool_decide (st c = Syn_received)) && negb (tflag seg RST))
    (when (hogdefense && seq_within (ack seg) (u32 (snd_una (snd c) - 2 ^ 31)) (u32 (snd_una (snd c) - 2 ^ 29)))
       (localclose "stateless hog"%string)).

(** What the segment acknowledges, and what the state becomes of it. *)
Definition input_ack (seg : Tcp) (bp : list Block) (length : Z) : M Conv Goto :=
  c <- getc ;;
  let linger :=
    setflag FORCE ;;
    onconv (fun c => if decide (on (timer c) = TcptimerON) then c else with_timer (tgo (timer c)) c) in
  match st c with
  | Syn_received =>
    if negb (seq_within (ack seg) (u32 (snd_una (snd c) + 1)) (snd_nxt (snd c))) then
      sndrst seg length ;; ret (Raise bp)
    else
      update seg ;; tcpsetstate Established ;; update seg ;; ret (Go_on seg bp length)
  | Established | Close_wait | Finwait2 => update seg ;; ret (Go_on seg bp length)
  | Finwait1 =>
    update seg ;;
    d <- the drained ;;
    when d
      (halt_rtt_ack ;; tcpsetkacounter ;; onconv (fun c => with_ctime (NOW c) c) ;; tcpsetstate Finwait2 ;;
       onconv (fun c => with_katimer (tgo (with_tstart (MSL2 * (1000 / MSPTICK)) (katimer c))) c)) ;;
    ret (Go_on seg bp length)
  | Closing =>
    update seg ;;
    d <- the drained ;;
    when d enter_time_wait ;;
    ret (Go_on seg bp length)
  | Last_ack =>
    update seg ;;
    d <- the drained ;;
    if d then localclose ""%string ;; ret (Raise bp)
    else linger ;; ret (Go_on seg bp length)
  | Time_wait => linger ;; ret (Go_on seg bp length)
  | _ => ret (Go_on seg bp length)
  end.

(** The text; [false]: a reset has been sent, [return]. *)
Definition input_text (seg : Tcp) (bp : list Block) (length : Z) : M Conv bool :=
  if length =? 0 then free bp ;; ret true
  else
    s <- the st ;;
    match s with
    | Syn_received | Established | Finwait1 =>
      onrx (rx_text bp length) ;;
      onconv (fun c => if decide (on (acktimer c) = TcptimerON) then c else with_acktimer (tgo (acktimer c)) c) ;;
      ret true
    | Finwait2 => free bp ;; sndrst seg length ;; ret false
    | _ => free bp ;; ret true
    end.

Definition input_fin : M Conv () :=
  setflag FORCE ;;
  s <- the st ;;
  let bump := onbase (fun t => with_rcv (set_nxt (u32 (nxt (rcv t) + 1)) (rcv t)) t) in
  match s with
  | Syn_received | Established => bump ;; tcpsetstate Close_wait
  | Finwait1 =>
    bump ;;
    d <- the drained ;;
    if d then enter_time_wait else tcpsetstate Closing
  | Finwait2 => bump ;; enter_time_wait
  | Time_wait => onconv (fun c => with_timer (tgo (timer c)) c)
  | _ => ret ()
  end.

(** The loop over the segment and those it makes adjacent. *)
Fixpoint input_loop (fuel : nat) (seg : Tcp) (bp : list Block) (length : Z) : M Conv Goto :=
  match fuel with
  | O => undef "fuel"%string
  | S fuel =>
    if tflag seg RST then
      s <- the st ;;
      when (bool_decide (s = Established)) (stat EstabResets 1) ;;
      localclose "connection refused"%string ;; ret (Raise bp)
    else if negb (tflag seg ACK) then ret (Raise bp)
    else
      g <- input_ack seg bp length ;;
      match g with
      | Go_on seg bp length =>
        bp <- onrx (rx_urg seg bp) ;;
        ok <- input_text seg bp length ;;
        if negb ok then ret Return
        else
          when (tflag seg FIN) input_fin ;;
          t <- the base ;;
          r <- onrx (next_segment (reseq_fuel t)) ;;
          match r with
          | None => ret Output
          | Some (seg, bp, length) => input_loop fuel seg bp length
          end
      | g => ret g
      end
  end.

(** From the trimming on. *)
Definition input_segment (seg : Tcp) (bp : list Block) (length : Z) : M Conv Goto :=
  t <- the base ;;
  r <- onrx (let* (t, r) := onmem (tcptrim t seg bp length) in set_tcb t ;; ret r) ;;
  match r with
  | None =>
    update seg ;;
    c <- getc ;;
    when (drained c && bool_decide (st c = Closing)) enter_time_wait ;;
    if negb (tflag seg RST) then setflag FORCE ;; ret Output else ret Return
  | Some (seg, bp, length) =>
    c <- getc ;;
    if negb (length =? 0) && bool_decide (st c = Closed) then sndrst seg length ;; ret (Raise bp)
    else if negb (seq seg =? nxt (rcv (base c))) && (negb (length =? 0) || tflag seg SYN || tflag seg FIN) then
      update seg ;;
      c <- getc ;;
      let* (t, ooo, _) := onrx (onmem (addreseq (malloc_ok c) (base c) seg bp length)) in
      onbase (fun _ => t) ;;
      when ooo (stat OutOfOrder 1) ;;
      setflag FORCE ;; ret Output
    else
      c <- getc ;;
      input_loop (reseq_fuel (base c)) seg bp length
  end.

Definition input_go (g : Goto) : M Conv () :=
  match g with
  | Output => tcpoutput
  | Raise bp => free bp ;; others ;; tcpkick
  | _ => ret ()
  end.

(** [tcpiput] from where the conversation is locked. *)
Definition tcpiput (seg : Tcp) (bp : list Block) (length : Z) : M Conv () :=
  c <- getc ;;
  let seg := set_wnd (u32 (Z.shiftl (wnd seg) (rscale (rcv (base c))))) seg in
  tcpsetkacounter ;;
  g <- input_state seg bp length ;;
  g <- match g with
       | Go_on seg bp length => input_hog seg ;; input_segment seg bp length
       | g => ret g
       end ;;
  input_go g.
End Tcpinput.

(** ** Any segment: the receive side *)

(** A segment as it comes in, with its blocks. *)
Definition seg_wf (seg : Tcp) (bp : list Block) (length : Z) : Prop := entry_wf (mkReseq seg bp length).
Definition ts_ok (F : list Block) (s : Ts) : Prop :=
  qinv (queued (reseq (tcb s)) ++ F) (rq s) (mem s) /\ window_okb s = true /\ Forall entry_wf (reseq (tcb s)).
(** What the sender needs of the control block. *)
Definition same_ctl (t t' : Tcpctl) : Prop :=
  tmss t' = tmss t /\ cwind t' = cwind t /\ snd_wnd t' = snd_wnd t /\ Z.land (tflags t') SYNACK = Z.land (tflags t) SYNACK.
#[export] Instance same_ctl_refl : Reflexive same_ctl.
Proof. by intros t. Qed.
#[export] Instance same_ctl_trans : Transitive same_ctl.
Proof. intros t1 t2 t3 (? & ? & ? & ?) (? & ? & ? & ?). unfold same_ctl. repeat split; congruence. Qed.

Section Rx.
Context `{MA : Malloc, MO : !MallocOk MA}.

Lemma seqno_of b x : 0 <= x < 2 ^ 32 -> x = seqno b (s32 (x - b)).
Proof.
  intros Hx. unfold seqno. destruct (s32_k (x - b)) as [k ->]. symmetry. apply (u32_eq k); lia.
Qed.

(** What the acceptance test of [tcptrim] accepts: by how much the segment is behind, [d]. *)
Lemma accept_any w d len : 0 < w < 2 ^ 31 -> - 2 ^ 31 <= d < 2 ^ 31 -> 0 <= len < 2 ^ 16 ->
  ((d mod 2 ^ 32 <=? w - 1) = true \/ len <> 0 /\ (((d + len - 1) mod 2 ^ 32 <=? w - 1) = true \/ ((- d) mod 2 ^ 32 <=? len - 1) = true)) ->
  - Z.max 1 len < d < w.
Proof.
  intros Hw Hd Hl.
  assert (forall x, - 2 ^ 32 <= x < 2 ^ 32 -> x mod 2 ^ 32 = if x <? 0 then x + 2 ^ 32 else x) as Hmod.
  { intros x Hx. destruct (Z.ltb_spec x 0); [|apply Z.mod_small; lia].
    symmetry. apply (Z.mod_unique x (2 ^ 32) (-1)); lia. }
  rewrite !Hmod, !Z.leb_le by lia.
  destruct (Z.ltb_spec d 0), (Z.ltb_spec (d + len - 1) 0), (Z.ltb_spec (- d) 0); lia.
Qed.

Lemma within_from n x h : 0 <= n < 2 ^ 32 -> 0 <= h < 2 ^ 32 -> seq_within (seqno n x) n (seqno n h) = (x mod 2 ^ 32 <=? h).
Proof. intros Hn Hh. rewrite <- (seqno_0 n Hn) at 2. rewrite seq_within_seqno by lia. by rewrite !Z.sub_0_r. Qed.
Lemma within_to n l h : 0 <= n < 2 ^ 32 -> 0 <= h - l < 2 ^ 32 -> seq_within n (seqno n l) (seqno n h) = ((- l) mod 2 ^ 32 <=? h - l).
Proof. intros Hn Hh. rewrite <- (seqno_0 n Hn) at 1. rewrite seq_within_seqno by lia. by rewrite Z.sub_0_l. Qed.

Lemma entry_len e : entry_wf e -> blocklen (rbp e) = rlength e.
Proof. intros (Hw & Hl & _). by rewrite <- zlen_cdata. Qed.

(** The cut at the right edge, [d] from the receive pointer on. *)
Lemma cut_any t seg bp length d F s : 0 <= nxt (rcv t) < 2 ^ 32 -> 0 <= rwnd (rcv t) < 2 ^ 31 ->
  seq seg = seqno (nxt (rcv t)) d -> 0 <= d <= rwnd (rcv t) -> (d = rwnd (rcv t) -> length = 0) -> seg_wf seg bp length -> acct (bp ++ F) s ->
  wp (cut_right t seg bp length) s (fun '(t', r) s' => quiet s s' /\ (exists x, t' = with_rerecv x t) /\
    exists seg' bp' len', r = Some (seg', bp', len') /\ acct (bp' ++ F) s' /\ seg_wf seg' bp' len' /\ ack seg' = ack seg /\ wnd seg' = wnd seg).
Proof.
  intros Hn Hw Hs Hd Hd' (Hwf & Hl & Hr & Hsq & Ha & Hwn & Hu) HA. unfold cut_right. cbn in Hwf, Hl, Hr, Hsq, Ha, Hwn, Hu.
  assert (s32 (seq seg + length - (nxt (rcv t) + rwnd (rcv t))) = d + length - rwnd (rcv t)) as ->.
  { rewrite Hs. unfold seqno. destruct (u32_k (nxt (rcv t) + d)) as [k ->]. apply (s32_eq k); lia. }
  rewrite Z.gtb_ltb. destruct (Z.ltb_spec 0 (d + length - rwnd (rcv t))) as [L|L].
  - rewrite (u16_small (length - _)) by lia. cbv zeta. apply wp_bind. eapply wp_mono; [apply (wp_trimblock bp 0 _ F s); try done; try lia|].
    { intros ->. unfold cdata in Hl. cbn in Hl. change (zlen []) with 0 in Hl. lia. }
    intros [r|] s' [Hq Hr'].
    2: { destruct Hr' as [Hlt _]. rewrite <- zlen_cdata in Hlt by done. lia. }
    destruct Hr' as (Hle & Hwr & HAr & Hdr). apply wp_ret. refine (conj Hq (conj (ex_intro _ _ eq_refl) _)). eexists _, r, _. split; [reflexivity|].
    split; [done|]. split; [|done]. split; [done|]. cbn. rewrite Hdr. split; [|done || (split_and!; try done; lia)].
    unfold slice. rewrite zdrop_le by lia. rewrite zlen_ztake; lia.
  - apply wp_ret. refine (conj _ (conj (ex_intro _ (rerecv t) _) _)); [done|by destruct t|]. exists seg, bp, length. by split_and!.
Qed.

Lemma wp_trim_any t seg bp length F s : 0 <= nxt (rcv t) < 2 ^ 32 -> 0 <= rwnd (rcv t) < 2 ^ 31 -> seg_wf seg bp length -> acct (bp ++ F) s ->
  wp (tcptrim t seg bp length) s (fun '(t', r) s' => quiet s s' /\ (exists x, t' = with_rerecv x t) /\
    match r with
    | None => acct F s'
    | Some (seg', bp', len') => acct (bp' ++ F) s' /\ seg_wf seg' bp' len' /\ ack seg' = ack seg /\ wnd seg' = wnd seg
    end).
Proof.
  intros Hn Hw Hseg HA. pose proof Hseg as (Hwf & Hl & Hr & Hsq & Ha & Hwn & Hu). cbn in Hwf, Hl, Hr, Hsq, Ha, Hwn, Hu.
  set (d := s32 (seq seg - nxt (rcv t))). pose proof (seqno_of (nxt (rcv t)) (seq seg) Hsq) as Ed. fold d in Ed.
  assert (- 2 ^ 31 <= d < 2 ^ 31) as Hd by (subst d; unfold s32; pose proof (sgn_range 32 (seq seg - nxt (rcv t)) ltac:(lia)); lia). clearbody d.
  unfold tcptrim. cbv zeta. set (len := if tflag seg FIN then _ else _).
  assert (len = length + (if tflag seg SYN then 1 else 0) + (if tflag seg FIN then 1 else 0)) as El.
  { subst len. destruct (tflag seg SYN), (tflag seg FIN); rewrite ?(u16_small (length + 1)) by lia; rewrite ?(u16_small (length + 1 + 1)) by lia; lia. }
  assert (0 <= len < 2 ^ 16) as Hlen by (rewrite El; destruct (tflag seg SYN), (tflag seg FIN); lia).
  clearbody len. destruct ((rwnd (rcv t) =? 0) && (len =? 0) && (seq seg =? nxt (rcv t))).
  { apply wp_ret. refine (conj _ (conj (ex_intro _ (rerecv t) _) _)); [done|by destruct t|done]. }
  match goal with |- wp (if negb ?a then _ else _) _ _ => destruct a eqn:Eacc end; cbn [negb].
  2: { apply wp_bind. eapply wp_mono; [by apply wp_freeblist|]. intros _ s' [HA' Hq]. apply wp_ret.
       refine (conj Hq (conj (ex_intro _ (rerecv t) _) HA')). by destruct t. }
  assert (0 < rwnd (rcv t) /\ - Z.max 1 len < d < rwnd (rcv t)) as [Hw0 Hin].
  { destruct (Z.eqb_spec (rwnd (rcv t)) 0) as [|Hw0]; [done|]. split; [lia|]. apply accept_any; [lia|done|done|].
    unfold inwindow in Eacc. rewrite Ed in Eacc. replace (nxt (rcv t) + rwnd (rcv t) - 1) with (nxt (rcv t) + (rwnd (rcv t) - 1)) in Eacc by lia.
    replace (seqno (nxt (rcv t)) d + len - 1) with (seqno (nxt (rcv t)) d + (len - 1)) in Eacc by lia. rewrite seqno_add in Eacc.
    change (u32 (nxt (rcv t) + (rwnd (rcv t) - 1))) with (seqno (nxt (rcv t)) (rwnd (rcv t) - 1)) in Eacc.
    rewrite !within_from in Eacc by lia. destruct (d mod 2 ^ 32 <=? rwnd (rcv t) - 1); [by left|right].
    destruct (Z.eqb_spec len 0) as [|Nl]; [done|]. cbn [negb] in Eacc. split; [done|]. rewrite within_to in Eacc by lia.
    replace (d + (len - 1)) with (d + len - 1) in Eacc by lia. replace (d + len - 1 - d) with (len - 1) in Eacc by lia.
    by apply orb_true_iff in Eacc. }
  clear Eacc. cbn beta iota zeta.
  assert (s32 (nxt (rcv t) - seq seg) = - d) as ->.
  { rewrite Ed. unfold seqno. destruct (u32_k (nxt (rcv t) + d)) as [k ->]. apply (s32_eq (- k)); lia. }
  rewrite Z.gtb_ltb. destruct (Z.ltb_spec 0 (- d)) as [L|L].
  2: { cbn beta iota. change (wp (cut_right t seg bp length) s (fun '(t', r) s' => quiet s s' /\ (exists x, t' = with_rerecv x t) /\
         match r with None => acct F s' | Some (seg', bp', len') => acct (bp' ++ F) s' /\ seg_wf seg' bp' len' /\ ack seg' = ack seg /\ wnd seg' = wnd seg end)).
       eapply wp_mono; [apply (cut_any t seg bp length d F s); try done; lia|].
       intros [t' r] s' (Hq & Ht & seg' & bp' & len' & -> & H). done. }
  assert (forall seg2 bp2 len2 s2 x, quiet s s2 -> seq seg2 = nxt (rcv t) -> seg_wf seg2 bp2 len2 -> acct (bp2 ++ F) s2 -> ack seg2 = ack seg -> wnd seg2 = wnd seg ->
    wp (cut_right (with_rerecv x t) seg2 bp2 len2) s2 (fun '(t', r) s' => quiet s s' /\ (exists x, t' = with_rerecv x t) /\
         match r with None => acct F s' | Some (seg', bp', len') => acct (bp' ++ F) s' /\ seg_wf seg' bp' len' /\ ack seg' = ack seg /\ wnd seg' = wnd seg end)) as Hcut.
  { intros seg2 bp2 len2 s2 x Hq Hs2 Hseg2 HA2 Ha2 Hwn2.
    eapply wp_mono; [apply (cut_any (with_rerecv x t) seg2 bp2 len2 0 F s2); try done; cbn; try lia; by rewrite seqno_0|].
    intros [t' r] s' (Hq' & [y ->] & seg' & bp' & len' & -> & HA' & Hs' & Ha' & Hwn'). split; [by etrans|]. split; [by exists y|]. split; [done|]. split; [done|]. split; congruence. }
  assert (forall seg1 dup, seg_wf seg1 bp length -> ack seg1 = ack seg -> wnd seg1 = wnd seg -> 0 < dup <= length -> u32 (seq seg1 + dup) = nxt (rcv t) ->
    wp (r <- pullblock bp (u16 dup) 0 ;;
        ret (with_rerecv (s32 (rerecv t - d)) t,
             (if urg (set_seq (u32 (seq seg1 + dup)) seg1) >? dup
              then set_urg (u16 (urg (set_seq (u32 (seq seg1 + dup)) seg1) - dup)) (set_seq (u32 (seq seg1 + dup)) seg1)
              else set_urg 0 (set_flags (Z.land (flags (set_seq (u32 (seq seg1 + dup)) seg1)) (u8 (Z.lnot URG))) (set_seq (u32 (seq seg1 + dup)) seg1))),
             r.1, u16 (length - dup))) s
      (fun '(t', seg', bp', len') s' => exists x, t' = with_rerecv x t /\ quiet s s' /\ seq seg' = nxt (rcv t) /\ seg_wf seg' bp' len' /\ acct (bp' ++ F) s' /\
         ack seg' = ack seg /\ wnd seg' = wnd seg)) as Hpull.
  { intros seg1 dup (_ & _ & _ & Hsq1 & Haa1 & Hww1 & Huu1) Ha1 Hwn1 Hdup Hs1. cbn in Hsq1, Haa1, Hww1, Huu1. rewrite Hs1.
    assert (u16 dup = dup) as -> by (apply u16_small; lia). apply wp_bind.
    eapply wp_mono; [apply (wp_pullblock bp dup 0 F s); try done; lia|]. intros [bp' k] s' (Hq & Hwf' & HA' & Hd' & _). cbn [fst snd] in *. apply wp_ret.
    rewrite (u16_small (length - dup)) by lia. exists (s32 (rerecv t - d)).
    set (seg2 := if urg _ >? dup then _ else _).
    assert (seq seg2 = nxt (rcv t) /\ ack seg2 = ack seg1 /\ wnd seg2 = wnd seg1 /\ 0 <= urg seg2 < 2 ^ 16) as (B1 & B2 & B3 & B4).
    { subst seg2. cbn [urg set_seq]. rewrite Z.gtb_ltb. destruct (Z.ltb_spec dup (urg seg1)); cbn; rewrite ?u16_small by lia; repeat split; lia. }
    clearbody seg2. split; [done|]. split; [done|]. split; [done|]. split; [|split; [done|split; congruence]].
    split; [done|]. cbn. rewrite Hd', zlen_zdrop, Hl. split_and!; lia. }
  assert (forall m : M Bst (Tcpctl * Tcp * list Block * Z), wp m s (fun '(t', seg', bp', len') s' => exists x, t' = with_rerecv x t /\ quiet s s' /\
       seq seg' = nxt (rcv t) /\ seg_wf seg' bp' len' /\ acct (bp' ++ F) s' /\ ack seg' = ack seg /\ wnd seg' = wnd seg) ->
    wp (let* (t', seg', bp', len') := m in cut_right t' seg' bp' len') s (fun '(t', r) s' => quiet s s' /\ (exists x, t' = with_rerecv x t) /\
         match r with None => acct F s' | Some (seg', bp', len') => acct (bp' ++ F) s' /\ seg_wf seg' bp' len' /\ ack seg' = ack seg /\ wnd seg' = wnd seg end)) as Hthen.
  { intros m Hm. apply wp_bind. eapply wp_mono; [exact Hm|]. intros [[[t' seg'] bp'] len'] s' (x & -> & Hq & Hs' & Hw' & HA' & Ha' & Hn'). by apply Hcut. }
  apply Hthen. clear Hthen Hcut. replace (rerecv t + - d) with (rerecv t - d) by lia. destruct (tflag seg SYN) eqn:Esyn.
  - set (seg1 := if urg _ >? 1 then _ else _).
    assert (seg_wf seg1 bp length /\ seq seg1 = u32 (seq seg + 1) /\ ack seg1 = ack seg /\ wnd seg1 = wnd seg) as (Hseg1 & Hs1 & Ha1 & Hwn1).
    { pose proof (u32_range (seq seg + 1)). subst seg1. cbn [urg set_seq set_flags]. rewrite Z.gtb_ltb.
      destruct (Z.ltb_spec 1 (urg seg)); cbn; (split; [split; [done|cbn; split_and!; try done; lia]|done]). }
    clearbody seg1. assert (u32 (seq seg1 + (- d - 1)) = nxt (rcv t)) as Hs2.
    { rewrite Hs1, Ed. rewrite <- (seqno_0 (nxt (rcv t)) Hn) at 2. rewrite seqno_add. change (u32 (seqno (nxt (rcv t)) (d + 1) + (- d - 1)) = seqno (nxt (rcv t)) 0).
      rewrite seqno_add. f_equal. lia. }
    cbn beta iota zeta. rewrite Z.gtb_ltb. destruct (Z.ltb_spec 0 (- d - 1)) as [L2|L2].
    + apply Hpull; try done. destruct (tflag seg FIN); lia.
    + apply wp_ret. eexists. split; [reflexivity|]. split; [done|]. replace (- d - 1) with 0 in Hs2 by lia. rewrite Z.add_0_r in Hs2.
      split; [|done]. rewrite <- Hs2. symmetry. apply u32_small, Hseg1.
  - cbn beta iota zeta. rewrite Z.gtb_ltb. destruct (Z.ltb_spec 0 (- d)); [|lia]. apply Hpull; try done; [destruct (tflag seg FIN); lia|].
    rewrite Ed. rewrite seqno_add. replace (d + - d) with 0 by lia. by apply seqno_0.
Qed.

Lemma queued_perm l l' : l ≡ₚ l' -> queued l ≡ₚ queued l'.
Proof.
  unfold queued. induction 1 as [|x l l' _ IH|x y l|l l' l'' _ IH1 _ IH2]; cbn; [done|by rewrite IH|solve_Permutation|by rewrite IH1].
Qed.
Lemma reseq_insert_perm rp rest : forall rp1 q l q' o, reseq_insert rp rp1 rest q = (l, q', o) -> l ≡ₚ rp :: rp1 :: rest.
Proof.
  induction rest as [|nx rest IH]; intros rp1 q l q' o; cbn.
  - intros [= <- _ _]. apply perm_swap.
  - destruct (seq_lt _ _); [intros [= <- _ _]; apply perm_swap|]. destruct (reseq_insert rp nx rest _) as [[l' q1] o'] eqn:E.
    intros [= <- _ _]. rewrite (IH _ _ _ _ _ E). apply perm_swap.
Qed.

Lemma wp_addreseq_any ok t seg bp length F s : Forall entry_wf (reseq t) -> seg_wf seg bp length -> acct (queued (reseq t) ++ bp ++ F) s ->
  wp (addreseq ok t seg bp length) s (fun '(t', _, _) s' => exists l, t' = with_reseq l t /\ Forall entry_wf l /\ acct (queued l ++ F) s').
Proof.
  intros He Hs HA. unfold addreseq. destruct ok; cbn [negb].
  2: { apply wp_bind. eapply wp_mono; [apply (wp_freeblist bp (queued (reseq t) ++ F)); eapply acct_proper; [|reflexivity|exact HA]; solve_Permutation|].
       intros _ s' [HA' _]. apply wp_ret. exists (reseq t). split; [by destruct t|done]. }
  destruct (reseq t) as [|rp1 rest] eqn:Er.
  - apply wp_ret. exists [mkReseq seg bp length]. split; [done|]. split; [by constructor|]. unfold queued. cbn. by rewrite app_nil_r.
  - destruct (seq_lt _ _).
    + apply wp_ret. eexists. split; [reflexivity|]. split; [by constructor|]. eapply acct_proper; [|reflexivity|exact HA]. unfold queued. cbn. solve_Permutation.
    + destruct (reseq_insert _ _ _ _) as [[l rqlen] ooo] eqn:Ei. apply reseq_insert_perm in Ei.
      assert (acct (queued l ++ F) s) as HA'.
      { eapply acct_proper; [|reflexivity|exact HA]. rewrite (queued_perm _ _ Ei). unfold queued. cbn. solve_Permutation. }
      destruct (s32 rqlen >? _).
      * apply wp_bind. eapply wp_mono; [by apply (wp_free_reseq l F)|]. intros [] s' HA''. apply wp_ret. exists []. split; [done|]. split; [by constructor|done].
      * apply wp_ret. exists l. split; [done|]. split; [|done]. rewrite Ei. by constructor.
Qed.

(** *** The receive queue and the control block *)
Lemma ts_acct F s : ts_ok F s -> acct (queued (reseq (tcb s)) ++ F ++ bfirst (rq s)) (mem s).
Proof. intros [H _]. eapply acct_proper; [|reflexivity|exact (qi_acct _ _ _ H)]. solve_Permutation. Qed.
Lemma ts_swap F F' t s m : ts_ok F s -> acct (queued (reseq t) ++ F' ++ bfirst (rq s)) m ->
  nxt (rcv t) = nxt (rcv (tcb s)) -> rwnd (rcv t) = rwnd (rcv (tcb s)) -> Forall entry_wf (reseq t) -> ts_ok F' (mkTs t (rq s) m).
Proof.
  intros (Hq & Hw & _) HA E1 E2 He. split; [|split; [|exact He]].
  - eapply qinv_swap_frame; [exact Hq|]. cbn. by rewrite <- app_assoc.
  - unfold window_okb in *. cbn. by rewrite E1, E2.
Qed.
Lemma with_reseq_same t : with_reseq (reseq t) t = t.
Proof. by destruct t. Qed.

Lemma wp_trim_ts seg bp length F s (Q : option (Tcp * list Block * Z) -> Ts -> Prop) : ts_ok (bp ++ F) s -> seg_wf seg bp length ->
  (forall r s', same_ctl (tcb s) (tcb s') -> reseq (tcb s') = reseq (tcb s) ->
    match r with
    | None => ts_ok F s'
    | Some (seg', bp', len') => ts_ok (bp' ++ F) s' /\ seg_wf seg' bp' len' /\ ack seg' = ack seg /\ wnd seg' = wnd seg
    end -> Q r s') ->
  wp (let* (t, r) := onmem (tcptrim (tcb s) seg bp length) in set_tcb t ;; ret r) s Q.
Proof.
  intros Hs Hseg K. apply wp_bind, wp_onmem. pose proof (ts_acct _ _ Hs) as HA. pose proof Hs as (_ & Hw & He). rewrite window_okP in Hw. destruct Hw as [Hn Hw].
  eapply wp_mono; [apply (wp_trim_any (tcb s) seg bp length (queued (reseq (tcb s)) ++ F ++ bfirst (rq s)) (mem s)); try done|].
  { eapply acct_proper; [|reflexivity|exact HA]. solve_Permutation. }
  intros [t r] m (_ & [x ->] & Hr). apply wp_bind, wp_set_tcb, wp_ret, K; [done|done|]. cbn [tcb rq mem].
  destruct r as [[[seg' bp'] len']|].
  - destruct Hr as (HA' & H). split; [|exact H]. eapply ts_swap; [exact Hs| |done|done|done]. eapply acct_proper; [|reflexivity|exact HA']. cbn. solve_Permutation.
  - eapply ts_swap; [exact Hs| |done|done|done]. exact Hr.
Qed.

Lemma wp_next_any fuel : forall F s, ts_ok F s -> (length (reseq (tcb s)) < fuel)%nat ->
  wp (next_segment fuel) s (fun r s' => same_ctl (tcb s) (tcb s') /\
    match r with
    | None => ts_ok F s'
    | Some (seg', bp', len') => ts_ok (bp' ++ F) s' /\ seg_wf seg' bp' len' /\ (length (reseq (tcb s')) < length (reseq (tcb s)))%nat
    end).
Proof.
  induction fuel as [|fuel IH]; intros F s Hs Hf; [lia|]. cbn [next_segment]. apply wp_bind, wp_gets.
  destruct (reseq (tcb s)) as [|rp l] eqn:Er; [by apply wp_ret|]. destruct (negb _); [by apply wp_ret|].
  unfold getreseq. rewrite Er. apply wp_bind, wp_set_tcb. pose proof Hs as (_ & _ & He). rewrite Er in He. inversion He as [|? ? Hrp Hl]; subst.
  set (s1 := mkTs _ _ _).
  assert (ts_ok (rbp rp ++ F) s1) as H1.
  { eapply ts_swap; [exact Hs| |done|done|done]. eapply acct_proper; [|reflexivity|exact (ts_acct _ _ Hs)]. rewrite Er. unfold queued. cbn. solve_Permutation. }
  change (with_reseq l (tcb s)) with (tcb s1). 
  cut (wp (r <- (let* (t, r) := onmem (tcptrim (tcb s1) (rseg rp) (rbp rp) (rlength rp)) in set_tcb t ;; ret r) ;;
       match r with Some x => ret (Some x) | None => next_segment fuel end) s1 (fun r s' => same_ctl (tcb s) (tcb s') /\
    match r with
    | None => ts_ok F s'
    | Some (seg', bp', len') => ts_ok (bp' ++ F) s' /\ seg_wf seg' bp' len' /\ (length (reseq (tcb s')) < S (length l))%nat
    end)).
  { intros H. apply wp_bind_inv in H. apply wp_bind_inv in H. apply wp_bind. eapply wp_mono; [exact H|]. intros [t r] s2 H'. cbn beta iota in H'.
    apply wp_bind_inv in H'. apply wp_bind. eapply wp_mono; [exact H'|]. intros [] s3 H''. exact H''. }
  apply wp_bind. apply (wp_trim_ts _ _ _ F); [done|by destruct rp|]. intros r s2 Hc2 Er2 Hr.
  assert (same_ctl (tcb s) (tcb s2)) as Hc by (etrans; [|exact Hc2]; done). change (reseq (tcb s1)) with l in Er2.
  destruct r as [[[seg' bp'] len']|].
  - apply wp_ret. split; [done|]. destruct Hr as (H2 & Hs2 & _). rewrite Er2. split; [done|]. split; [done|]. lia.
  - eapply wp_mono; [apply (IH F s2 Hr); rewrite Er2; cbn in Hf; lia|]. intros r' s3 (Hc3 & H3). split; [by etrans|].
    destruct r' as [[[seg' bp'] len']|]; [|done]. destruct H3 as (? & ? & ?). rewrite Er2 in *. split; [done|]. split; [done|]. lia.
Qed.

Lemma window_nxt s x : 0 <= x < 2 ^ 32 -> window_okb s = true -> window_okb (mkTs (with_rcv (set_nxt x (rcv (tcb s))) (tcb s)) (rq s) (mem s)) = true.
Proof. rewrite !window_okP. cbn. lia. Qed.

Lemma wp_rx_urg_any seg bp F s : ts_ok (bp ++ F) s -> Forall wfb bp -> 0 <= urg seg ->
  wp (rx_urg seg bp) s (fun bp' s' => ts_ok (bp' ++ F) s' /\ Forall wfb bp' /\ same_ctl (tcb s) (tcb s') /\ reseq (tcb s') = reseq (tcb s)).
Proof.
  intros Hs Hw Hu. unfold rx_urg. apply wp_bind, wp_gets. destruct (_ && _).
  - destruct (seq_gt _ _); [|by apply wp_ret]. apply wp_bind, wp_set_tcb. set (s1 := mkTs _ _ _).
    assert (ts_ok (bp ++ F) s1) as H1 by (eapply ts_swap; [exact Hs|exact (ts_acct _ _ Hs)|done|done|apply Hs]).
    apply wp_bind, wp_onmem. eapply wp_mono; [apply (wp_pullblock bp (urg seg) 0 (queued (reseq (tcb s1)) ++ F ++ bfirst (rq s1)) (mem s1)); try done|].
    { eapply acct_proper; [|reflexivity|exact (ts_acct _ _ H1)]. solve_Permutation. }
    intros [bp' k] m (_ & Hw' & HA' & _). apply wp_ret. split; [|done]. eapply ts_swap; [exact H1| |done|done|apply H1].
    eapply acct_proper; [|reflexivity|exact HA']. cbn. solve_Permutation.
  - apply wp_bind. destruct (seq_gt _ _); [apply wp_set_tcb|apply wp_ret]; apply wp_ret; (split; [|done]); [|done].
    eapply ts_swap; [exact Hs|exact (ts_acct _ _ Hs)|done|done|apply Hs].
Qed.

Lemma wp_rx_text_any bp length F s : ts_ok (bp ++ F) s -> Forall wfb bp ->
  wp (rx_text bp length) s (fun _ s' => ts_ok F s' /\ same_ctl (tcb s) (tcb s') /\ reseq (tcb s') = reseq (tcb s)).
Proof.
  intros Hs Hw. unfold rx_text.
  assert (forall s1, ts_ok F s1 -> same_ctl (tcb s) (tcb s1) -> reseq (tcb s1) = reseq (tcb s) ->
    wp (upd_tcb (fun t => with_rcv (set_nxt (u32 (nxt (rcv t) + length)) (rcv t)) t) ;;
        modify (fun s => mkTs (tcprcvwin (tcb s) (rq s)) (rq s) (mem s))) s1 (fun _ s' => ts_ok F s' /\ same_ctl (tcb s) (tcb s') /\ reseq (tcb s') = reseq (tcb s))) as Hend.
  { intros s1 H1 Hc1 Hr1. apply wp_bind, wp_upd_tcb. set (s2 := mkTs _ _ _). apply wp_modify. destruct H1 as (Hq1 & Hw1 & He1).
    assert (window_okb s2 = true) as Hw2 by (apply window_nxt; [apply u32_range|done]).
    assert (same_ctl (tcb s2) (tcprcvwin (tcb s2) (rq s2)) /\ reseq (tcprcvwin (tcb s2) (rq s2)) = reseq (tcb s1)) as [Hc2 Hr2].
    { unfold tcprcvwin. cbv zeta. destruct (_ =? 0); done. }
    split; [|split; [etrans; [exact Hc1|exact Hc2]|exact (eq_trans Hr2 Hr1)]].
    split; [change (qinv (queued (reseq (tcprcvwin (tcb s2) (rq s2))) ++ F) (rq s1) (mem s1)); by rewrite Hr2|]. split; [by apply rcvwin_ok|].
    change (Forall entry_wf (reseq (tcprcvwin (tcb s2) (rq s2)))). by rewrite Hr2. }
  apply wp_bind. destruct bp as [|b bp]; [by apply wp_ret, Hend|].
  apply wp_bind, wp_onmem. eapply wp_mono; [apply (wp_packblock (b :: bp) (queued (reseq (tcb s)) ++ F ++ bfirst (rq s)) (mem s)); try done|].
  { eapply acct_proper; [|reflexivity|exact (ts_acct _ _ Hs)]. solve_Permutation. }
  intros r m (_ & Hwr & HAr & Hd%packed_all). destruct r as [|b' r]; [done|].
  apply wp_bind, wp_onrq. cbn [rq mem].
  assert (qinv ((b' :: r) ++ queued (reseq (tcb s)) ++ F) (rq s) m) as Hq.
  { eapply qinv_swap_frame; [apply Hs|]. eapply acct_proper; [|reflexivity|exact HAr]. solve_Permutation. }
  eapply wp_mono; [by apply (wp_qpassnolim (queued (reseq (tcb s)) ++ F) (b' :: r))|]. intros n [q' m'] Hr. cbn beta iota.
  assert (qinv (queued (reseq (tcb s)) ++ F) q' m') as Hq' by (destruct (has Qclosed (rq s)); apply Hr).
  cbn [tcb]. apply wp_bind, wp_upd_tcb, wp_upd_tcb. pose proof Hs as (_ & Hw0 & He). apply Hend.
  - cbn [tcb rq mem]. destruct (_ >=? 2); (split; [exact Hq'|split; [exact Hw0|exact He]]).
  - cbn [tcb rq mem]. destruct (_ >=? 2); (split; [done|split; [done|split; [done|]]]); cbn; [|done]. rewrite Z.land_lor_distr_l. change (Z.land FORCE SYNACK) with 0. by rewrite Z.lor_0_r.
  - cbn [tcb rq mem]. by destruct (_ >=? 2).
Qed.
End Rx.

(** ** Any segment: the conversation *)
Section Input.
Context `{MA : Malloc, MO : !MallocOk MA, NET : Net} (str : Z -> Z).
Context (RELY : forall F, rely str F).
Implicit Types (F bp : list Block) (c : Conv).

Lemma flag_ts s' c : Z.land (tflags (tcb s')) SYNACK = Z.land (tflags (base c)) SYNACK -> flag SYNACK (with_rx s' c) = flag SYNACK c.
Proof. intros E. unfold flag. change (base (with_rx s' c)) with (tcb s'). by rewrite E. Qed.
Lemma conv_ts F F' pend c s' : conv_ok str F pend c -> ts_ok F' s' -> same_ctl (base c) (tcb s') -> conv_ok str F' pend (with_rx s' c).
Proof.
  intros (M & O & H) Hs (E1 & E2 & E3 & E4). split; [exact Hs|]. split; [exact O|]. intros Ho. destruct (H Ho) as (U & P & N & S & T).
  pose proof (flag_ts s' c E4) as Ef. exists U, P, N. split; [eapply sender_same, S; try done; by left|]. unfold timed, unsynced. change (k_syn (core (with_rx s' c))) with (flag SYNACK (with_rx s' c)).
  rewrite Ef. exact T.
Qed.
Lemma conv_seg F pend c : conv_ok str F pend c -> ts_ok F (rx c).
Proof. by intros (M & _). Qed.

(** The other side of the conversation, when the receive side changes. *)
Record same_side (c c' : Conv) : Prop := {
  ss_st : st c' = st c;
  ss_syn : flag SYNACK c' = flag SYNACK c;
  ss_una : snd c' = snd c;
  ss_iss : iss c' = iss c;
  ss_wq : wq c' = wq c;
  ss_flg : flgcnt c' = flgcnt c
}.
Lemma side_ts s' c : same_ctl (base c) (tcb s') -> same_side c (with_rx s' c).
Proof. intros (_ & _ & _ & E). split; try done. exact (flag_ts s' c E). Qed.

Lemma wp_free bp F pend c (Q : () -> Conv -> Prop) : conv_ok str (bp ++ F) pend c ->
  (forall c', conv_ok str F pend c' -> same_side c c' -> reseq (base c') = reseq (base c) -> Q () c') -> wp (free bp) c Q.
Proof.
  intros H K. apply wp_onrx, wp_onmem. pose proof (conv_seg _ _ _ H) as Hs.
  eapply wp_mono; [apply (wp_freeblist bp (queued (reseq (base c)) ++ F ++ bfirst (rq (rx c))) (mem (rx c)))|].
  { eapply acct_proper; [|reflexivity|exact (ts_acct _ _ Hs)]. solve_Permutation. }
  intros [] m [HA _]. apply K; [|by apply side_ts|done]. eapply conv_ts; [exact H| |done]. eapply ts_swap; [exact Hs|exact HA|done|done|apply Hs].
Qed.

(** Something else than a segment has left. *)
Lemma conv_out F pend c c' l : conv_ok str F pend c -> other_out str (k_out (core c)) l -> core c' = set_out l (core c) -> conv_ok str F pend c'.
Proof.
  intros (M & O & H) Hl E. unfold conv_ok. rewrite E. split; [exact M|]. split; [by apply out_ok_other|].
  intros Ho. destruct (H Ho) as (U & P & N & S & T). exists U, P, N. split; [|exact T]. eapply sender_same, S; try done. by left.
Qed.
Lemma conv_core F pend c c' : core c' = core c -> conv_ok str F pend c -> conv_ok str F pend c'.
Proof. intros E. unfold conv_ok. by rewrite E. Qed.

Lemma wp_sndrst seg length F pend c (Q : () -> Conv -> Prop) : conv_ok str F pend c ->
  (forall c', conv_ok str F pend c' -> st c' = st c -> Q () c') -> wp (sndrst seg length) c Q.
Proof.
  intros H K. unfold sndrst. destruct (tflag seg RST); [by apply wp_ret, K|].
  apply wp_bind, wp_stat. intros c1 E1. destruct (if tflag seg ACK then _ else _) as [[s a] fl].
  assert (conv_ok str F pend c1 /\ st c1 = st c) as [H1 Es1] by (split; [by eapply conv_core, H|exact (f_equal k_st E1)]).
  cv_step. cv_step. destruct (outcome c1); [by apply wp_ret, K| |].
  all: apply wp_onconv, K; [|done]; eapply conv_out; [exact H1| |reflexivity]; right; eexists; split; [reflexivity|done].
Qed.

(** *** States *)
Definition state_ok (k : Core) (s : St) : Prop :=
  open_st s /\ s <> Syn_sent /\ fin s = fin (k_st k) /\ (k_syn k = true \/ s = Syn_received) /\
  (s = Finwait2 \/ s = Time_wait -> k_flg k + zlen (k_wq k) = 0) /\ (s = Syn_received -> k_st k = Syn_sent \/ k_st k = Syn_received).
Lemma sender_move k s l q m U P N : state_ok k s -> sender_ok str k U P N -> sender_ok str (move_core k s l q m) U P N.
Proof.
  intros (Ho & Hns & Ef & Hs & Hd & He) [S1 S2 S3 S4 S5 S6 S6' S7 S8 S9 S10 S11 S12 S13 S14 S15 S16].
  assert (send_end (move_core k s l q m) = send_end k) as E by (unfold send_end; cbn; by rewrite Ef).
  split; rewrite ?E; cbn; try done.
  - destruct (k_syn k); [done|]. destruct Hs as [Hs|Hs]; [done|]. destruct S9 as (? & ? & _). split; [done|]. split; [done|]. by right.
  - by rewrite Ef.
  - intros Hd'. specialize (Hd Hd'). lia.
  - intros [He'|He']; [done|]. by apply S16, He.
Qed.

Lemma wp_move_state F pend s c (Q : () -> Conv -> Prop) : conv_ok str F pend c -> open_st (st c) -> state_ok (core c) s ->
  (forall c', conv_ok str F pend c' -> st c' = s -> flag SYNACK c' = flag SYNACK c -> iss c' = iss c -> reseq (base c') = reseq (base c) -> Q () c') ->
  wp (tcpsetstate s) c Q.
Proof.
  intros (M & O & H) Ho Hs K. destruct (H Ho) as (U & P & N & S & T).
  apply (wp_tcpsetstate str F); [destruct Hs as [[? _] _]; done|exact M|]. intros c' l q m E M' Hl.
  apply K; try (exact (f_equal k_st E) || exact (f_equal k_syn E) || exact (f_equal k_iss E) || exact (f_equal k_reseq E)).
  split; [exact M'|]. split; [|intros _; exists U, P, N; rewrite E; split; [by apply sender_move|]; split; [intros Es; by destruct Hs as (_ & Hns & _)|exact (proj2 T)]].
  rewrite E. destruct Hl as [-> | (x & -> & Hx)]; [exact O|]. constructor; [apply Hx|exact O].
Qed.
(** Everything has been acknowledged and the user has closed: [Finwait2] or [Time_wait] come next, even if the
    conversation has been closed in between. *)
Lemma wp_move_ended F pend s c (Q : () -> Conv -> Prop) : conv_ok str F pend c -> ended str (core c) -> drained c = true ->
  s = Finwait2 \/ s = Time_wait -> (forall c', conv_ok str F pend c' -> st c' = s -> reseq (base c') = reseq (base c) -> Q () c') -> wp (tcpsetstate s) c Q.
Proof.
  intros (M & O & H) He Hd%Z.eqb_eq Hs K. assert (s <> Closed /\ s <> Listen /\ fin s = 1 /\ s <> Syn_sent /\ s <> Syn_received) as (D1 & D2 & Ef & D3 & D4) by (by destruct Hs as [-> | ->]).
  assert (exists U P N, sender_ok str (as_state Finwait2 (core c)) U P N) as (U & P & N & S).
  { destruct He as [Hf|(_ & Hw & He)].
    - destruct H as (U & P & N & S & _); [split; intros E; rewrite E in Hf; done|]. exists U, P, N.
      apply (sender_move _ Finwait2 (k_out (core c)) (k_rq (core c)) (k_mem (core c))) in S; [exact S|].
      split; [done|]. split; [done|]. split; [by rewrite Hf|]. split; [|split; [intros _; rewrite Z.add_comm; exact Hd|done]]. left.
      pose proof (so_syn _ _ _ _ _ S) as S9. destruct (k_syn (core c)); [done|]. destruct S9 as (_ & _ & [E|E]); rewrite E in Hf; done.
    - apply He. change (wq c = []) in Hw. unfold wqlen in Hd. rewrite Hw in Hd. change (zlen []) with 0 in Hd. exact Hd. }
  apply (wp_tcpsetstate str F); [done|exact M|]. intros c' l q m E M' Hl. apply K; try (exact (f_equal k_st E) || exact (f_equal k_reseq E)).
  split; [exact M'|]. split; [rewrite E; destruct Hl as [-> | (x & -> & Hx)]; [exact O|]; constructor; [apply Hx|exact O]|].
  intros _. exists U, P, N. rewrite E. assert (U = send_end (as_state Finwait2 (core c))) as EU by (apply (so_done _ _ _ _ _ S); by left). split.
  - apply (sender_move _ s l q m) in S; [exact S|]. split; [done|]. split; [done|]. split; [by rewrite Ef|]. split; [|split; [|done]].
    + left. pose proof (so_syn _ _ _ _ _ S) as S9. destruct (k_syn _); [done|]. destruct S9 as (_ & _ & [E'|E']); done.
    + intros _. rewrite Z.add_comm. exact Hd.
  - pose proof (so_syn _ _ _ _ _ S) as S9. split; [intros Es; by destruct Hs as [-> | ->]|]. split; [|intros _ Hlt; pose proof (so_order _ _ _ _ _ S); lia].
    intros Es. change (k_syn (as_state Finwait2 (core c)) = false) in Es. rewrite Es in S9. by destruct S9 as (_ & _ & [?|?]).
Qed.

Lemma wp_halts c (Q : () -> Conv -> Prop) : (forall c', core c' = core c -> Q () c') -> wp halt_rtt_ack c Q.
Proof. intros K. unfold halt_rtt_ack. cv_steps. by apply K. Qed.

(** A timer of the sender's starts. *)
Lemma conv_timer F pend c t : conv_ok str F pend c -> 0 < tstart t -> on t = TcptimerON -> conv_ok str F pend (with_timer t c).
Proof.
  intros (M & O & H) Ht Hon. split; [exact M|]. split; [exact O|]. intros Ho. destruct (H Ho) as (U & P & N & S & T). exists U, P, N. split.
  - eapply (sender_same _ (start_core (core c) (tstart t))); try done; [by left|]. by apply sender_start.
  - split; [apply T|]. split; [apply T|]. intros _ _. by left.
Qed.
Lemma conv_tgo F pend c : conv_ok str F pend c -> conv_ok str F pend (with_timer (tgo (timer c)) c).
Proof.
  intros H. unfold tgo. destruct (Z.eqb_spec (tstart (timer c)) 0); [by destruct c|].
  destruct (decide (open_st (st c))) as [Ho|Ho].
  - apply conv_timer; [done| |done]. destruct H as (_ & _ & H). destruct (H Ho) as (U & P & N & S & _). exact (so_start _ _ _ _ _ S).
  - destruct H as (M & O & _). by split.
Qed.

Lemma wp_enter_time_wait F pend c (Q : () -> Conv -> Prop) : conv_ok str F pend c -> ended str (core c) -> drained c = true ->
  (forall c', conv_ok str F pend c' -> st c' = Time_wait -> reseq (base c') = reseq (base c) -> Q () c') -> wp enter_time_wait c Q.
Proof.
  intros H He Hd K. unfold enter_time_wait. apply wp_bind, wp_halts. intros c1 E1. cv_step. cv_step.
  set (c2 := with_katimer _ _). assert (core c2 = core c) as E2 by exact E1. clearbody c2. clear c1 E1.
  apply wp_bind, (wp_move_ended F pend).
  - by eapply conv_core, H.
  - by rewrite E2.
  - unfold drained, wqlen in *. change (wq c2) with (k_wq (core c2)). change (flgcnt c2) with (k_flg (core c2)). by rewrite E2.
  - by right.
  - intros c3 H3 E3 R3. cv_step. apply K; [by apply conv_timer|done|]. change (reseq (base c3) = reseq (base c)). rewrite R3. exact (f_equal k_reseq E2).
Qed.
(** *** The first switch *)
Lemma ts_of_conv F pend c t q : conv_ok str F pend c -> 0 <= nxt (rcv t) < 2 ^ 32 -> rwnd (rcv t) = rwnd (rcv (base c)) -> reseq t = reseq (base c) ->
  (forall F m, qinv F (rq (rx c)) m -> qinv F q m) -> ts_ok F (mkTs t q (mem (rx c))).
Proof.
  intros ((Hq & Hw & He) & _) Hn E1 E2 K. split; [cbn; rewrite E2; by apply K|]. split; [|cbn; rewrite E2; exact He].
  change (window_okb (rx c) = true) in Hw. unfold base in E1. rewrite window_okP in *. cbn [tcb]. rewrite E1. split; [done|apply Hw].
Qed.

Lemma conv_procsyn F pend c seg : conv_ok str F pend c -> 0 <= mss seg < 2 ^ 16 -> 0 <= wnd seg < 2 ^ 32 ->
  conv_ok str F pend (with_base (procsyn (base c) seg) c).
Proof.
  intros H Hm Hw. assert (ts_ok F (mkTs (procsyn (base c) seg) (rq (rx c)) (mem (rx c)))) as Hts.
  { apply (ts_of_conv F pend c); try done. cbn. apply u32_range. }
  destruct H as (M & O & H). split; [exact Hts|]. split; [exact O|]. intros Ho. destruct (H Ho) as (U & P & N & S & T). 
  assert (flag SYNACK (with_base (procsyn (base c) seg) c) = flag SYNACK c) as Ef.
  { unfold flag. change (tflags (base (with_base (procsyn (base c) seg) c))) with (Z.lor (tflags (base c)) FORCE). rewrite Z.land_lor_distr_l.
    change (Z.land FORCE SYNACK) with 0. by rewrite Z.lor_0_r. }
  assert (0 < tmss (procsyn (base c) seg) < 2 ^ 16) as Hm'.
  { pose proof (so_mss _ _ _ _ _ S) as S10. change (k_mss (core c)) with (tmss (base c)) in S10. cbn. destruct (Z.eqb_spec (mss seg) 0); cbn; [lia|].
    destruct (Z.ltb_spec (mss seg) (tmss (base c))); lia. }
  exists U, P, N. split.
  - destruct S as [S1 S2 S3 S4 S5 S6 S6' S7 S8 S9 S10 S11 S12 S13 S14 S15 S16]. split; try done; [|change (k_cwind _) with (tmss (procsyn (base c) seg)); lia].
    change (k_syn _) with (flag SYNACK (with_base (procsyn (base c) seg) c)). rewrite Ef. exact S9.
  - unfold timed, unsynced. change (k_syn _) with (flag SYNACK (with_base (procsyn (base c) seg) c)). rewrite Ef. exact T.
Qed.

(** An acknowledgement that lies between what is known to be acknowledged and what has been sent is news. *)
Lemma within_news F pend c seg : conv_ok str F pend c -> acks seg -> st c = Syn_sent \/ st c = Syn_received -> flag SYNACK c = false \/ snd_una (snd c) <> snd_nxt (snd c) ->
  seq_within (ack seg) (u32 (snd_una (snd c) + 1)) (snd_nxt (snd c)) = true -> news c seg.
Proof.
  intros (M & O & H) [Ha _] Hst Hne Hw. assert (open_st (st c)) as Ho by (by destruct Hst as [-> | ->]). destruct (H Ho) as (U & P & N & S & T).
  assert (snd_una (snd c) = seqno (iss c) U) as Eu by exact (so_una _ _ _ _ _ S). assert (snd_nxt (snd c) = seqno (iss c) N) as En by exact (so_nxt _ _ _ _ _ S).
  pose proof (so_order _ _ _ _ _ S). pose proof (so_space _ _ _ _ _ S). pose proof (so_iss _ _ _ _ _ S) as Hi. change (k_iss (core c)) with (iss c) in Hi.
  assert (U < N) as HUN.
  { destruct Hne as [Hf|Hne].
    - destruct T as (_ & T & _). specialize (T Hf). pose proof (so_syn _ _ _ _ _ S) as S9. change (k_syn (core c)) with (flag SYNACK c) in S9. rewrite Hf in S9. lia.
    - destruct (Z.eq_dec U N) as [->|]; [congruence|lia]. }
  rewrite Eu, En in Hw. rewrite seqno_add in Hw. rewrite (seqno_of (iss c) (ack seg) Ha) in Hw. rewrite seq_within_seqno in Hw by lia.
  set (a := s32 (ack seg - iss c)) in *. apply Z.leb_le in Hw.
  pose proof (Z.mod_pos_bound (a - (U + 1)) (2 ^ 32) ltac:(lia)) as Hb. pose proof (Z.div_mod (a - (U + 1)) (2 ^ 32) ltac:(lia)) as Hdm.
  set (r := (a - (U + 1)) mod 2 ^ 32) in *. set (z := (a - (U + 1)) / 2 ^ 32) in *.
  assert (ack seg = seqno (iss c) (U + 1 + r)) as Ea.
  { rewrite (seqno_of (iss c) (ack seg) Ha). fold a. unfold seqno. apply (u32_cong z). lia. }
  split; [done|]. rewrite Ea, Eu, En. unfold seq_gt. rewrite !s32_seqno by lia. rewrite !Z.gtb_ltb. split; [apply Z.ltb_lt; lia|apply Z.ltb_ge; lia].
Qed.

Lemma acks_of seg bp length : seg_wf seg bp length -> acks seg.
Proof. intros (_ & _ & _ & _ & Ha & Hw & _). by split. Qed.

Definition goes F pend (g : Goto) c : Prop :=
  match g with
  | Go_on seg bp length => seg_wf seg bp length /\ conv_ok str (bp ++ F) pend c
  | Raise bp => conv_ok str (bp ++ F) pend c
  | _ => conv_ok str F pend c
  end.

Lemma wp_synackrtt F pend c (Q : () -> Conv -> Prop) : conv_ok str F pend c ->
  (forall c', conv_ok str F pend c' -> same_side c c' -> reseq (base c') = reseq (base c) -> Q () c') -> wp tcpsynackrtt c Q.
Proof. intros H K. unfold tcpsynackrtt. cv_step. cv_step. cv_step. by apply K. Qed.

Lemma wp_set_scale F pend c rs ss (Q : () -> Conv -> Prop) : conv_ok str F pend c ->
  (forall c', conv_ok str F pend c' -> st c' = st c -> Q () c') -> wp (set_scale rs ss) c Q.
Proof.
  intros H K. unfold set_scale. cv_step. cv_step. set (c1 := with_base _ c).
  assert (conv_ok str F pend c1) as H1.
  { assert (ts_ok F (mkTs (tcpsetscale (base c) rs ss) (rq (rx c)) (mem (rx c)))) as Hts.
    { pose proof (conv_seg _ _ _ H) as (_ & Hw & _). rewrite window_okP in Hw. apply (ts_of_conv F pend c); try done; unfold tcpsetscale; destruct (negb _); try done; apply Hw. }
    eapply (conv_ts F F pend c); [exact H|exact Hts|]. unfold tcpsetscale. by destruct (negb _). }
  assert (st c1 = st c) as E1 by done. clearbody c1. cv_step. cv_step.
  apply wp_onrx. refine (wp_onrq _ _ _ _). unfold qsetlimit. apply wp_setq. apply K; [|exact E1].
  eapply (conv_ts F F pend c1); [exact H1| |done]. apply (ts_of_conv F pend c1); try done.
  - pose proof (conv_seg _ _ _ H1) as (_ & Hw & _). rewrite window_okP in Hw. apply Hw.
  - intros G m [? ? ? ? ?]. by split.
Qed.
(** The acknowledgement of the SYN, and [Established]. *)
Lemma established_ok F pend c seg s (Q : () -> Conv -> Prop) : conv_ok str F pend c -> acks seg -> news c seg -> st c = Syn_sent \/ st c = Syn_received -> s = Established ->
  (forall c', conv_ok str F pend c' -> st c' = s -> reseq (base c') = reseq (base c) -> Q () c') ->
  wp (update seg ;; (tcpsynackrtt ;; tcpsetstate s)) c Q /\ wp (update seg ;; tcpsetstate s) c Q.
Proof.
  intros H Ha Hn Hst -> K. assert (forall c1, news_taken str F c c1 seg -> wp (tcpsetstate Established) c1 Q) as Hmove.
  { intros c1 (U & P & N & A & w & S & Ea & HA & Hw & Hack & _ & M1 & O1). destruct Hack as (S1 & _ & _ & Est & _ & _ & Ef & Eon & _ & _ & Er1 & _).
    assert (fin (k_st (core c1)) = 0 /\ open_st (k_st (core c1))) as [Ef0 Ho1] by (rewrite Est; change (k_st _) with (st c); by destruct Hst as [-> | ->]).
    apply (wp_tcpsetstate str F); [done|exact M1|]. intros c2 l q m E M2 Hl. apply K; [|exact (f_equal k_st E)|exact (eq_trans (f_equal k_reseq E) Er1)].
    split; [exact M2|]. split; [rewrite E; destruct Hl as [-> | (x & -> & Hx)]; [exact O1|]; constructor; [apply Hx|exact O1]|].
    intros _. exists A, (Z.max A P), N. rewrite E. split.
    - apply sender_move; [|exact S1]. split; [done|]. split; [done|]. split; [by rewrite Ef0|]. split; [by left|]. split; [intros [?|?]; done|done].
    - split; [done|]. split; [intros Es; change (k_syn (core c1) = false) in Es; congruence|]. intros _ Hlt. left. change (k_on (core c1) = TcptimerON). rewrite Eon.
      destruct (Z.eqb_spec A N); [lia|done]. }
  split.
  - apply wp_bind, (wp_update str F (RELY F) pend); [done|done|]. intros c1 _ _ _ Ht. specialize (Ht Hn). unfold tcpsynackrtt.
    apply wp_bind, wp_bind, wp_onconv, wp_onconv. apply Hmove. destruct Ht as (U & P & N & A & w & Ht). by exists U, P, N, A, w.
  - apply wp_bind, (wp_update str F (RELY F) pend); [done|done|]. intros c1 _ _ _ Ht. by apply Hmove, Ht.
Qed.
Lemma una_iss F pend c : conv_ok str F pend c -> st c = Syn_sent -> flag SYNACK c = false /\ snd_una (snd c) = iss c.
Proof.
  intros (_ & _ & H) Es. destruct H as (U & P & N & S & T); [by change (open_st (st c)); rewrite Es|].
  destruct T as (Hun & _). pose proof (Hun Es) as Hf. change (flag SYNACK c = false) in Hf. split; [done|].
  pose proof (so_syn _ _ _ _ _ S) as S9. change (k_syn (core c)) with (flag SYNACK c) in S9. rewrite Hf in S9. destruct S9 as (-> & _).
  pose proof (so_una _ _ _ _ _ S) as Eu. rewrite (seqno_0 _ (so_iss _ _ _ _ _ S)) in Eu. exact Eu.
Qed.

Lemma wp_input_state F pend seg bp length c (Q : Goto -> Conv -> Prop) : conv_ok str (bp ++ F) pend c -> seg_wf seg bp length -> 0 <= mss seg < 2 ^ 16 ->
  (forall g c', goes F pend g c' -> (match g with Go_on _ _ _ => st c' <> Syn_sent | _ => True end) -> Q g c') -> wp (input_state seg bp length) c Q.
Proof.
  intros H Hs Hm K. unfold input_state. cv_step. cv_step. pose proof (acks_of _ _ _ Hs) as Ha.
  assert (forall c', conv_ok str (bp ++ F) pend c' -> st c' <> Syn_sent -> Q (Go_on seg bp length) c') as Kgo by (intros c' H' Hn; by apply K).
  assert (forall c', conv_ok str (bp ++ F) pend c' -> Q (Raise bp) c') as Kraise by (intros c' H'; by apply K).
  assert (forall c' g, conv_ok str (bp ++ F) pend c' -> g = Output \/ g = Return -> wp (free bp ;; ret g) c' Q) as Kfree.
  { intros c' g H' Hg. apply wp_bind, (wp_free bp F pend); [done|]. intros c2 H2 _ _. apply wp_ret, K; by destruct Hg as [-> | ->]. }
  assert (wp (sndrst seg length ;; ret (Raise bp)) c Q) as Krst.
  { apply wp_bind, (wp_sndrst _ _ (bp ++ F) pend); [done|]. intros c2 H2 _. by apply wp_ret, Kraise. }
  destruct (st c) eqn:Es; try (apply wp_ret, Kgo; [done|by rewrite Es]); [done| |].
  2: { apply wp_bind. destruct (tflag seg ACK); cbn [when]; [|apply wp_ret, wp_ret, Kgo; [done|by rewrite Es]].
       apply (wp_synackrtt (bp ++ F) pend); [done|]. intros c2 H2 [E2 _ _ _ _ _] _. apply wp_ret, Kgo; [done|]. by rewrite E2, Es. }
  destruct (tflag seg ACK && negb _) eqn:Eack; [done|]. destruct (tflag seg RST).
  { apply wp_bind. destruct (tflag seg ACK); cbn [when]; [|by apply wp_ret, wp_ret, Kraise].
    apply (wp_closing str (bp ++ F) _ pend 0); [lia|by apply (conv_whole str (bp ++ F) pend)|]. intros c2 H2 _. by apply wp_ret, Kraise. }
  destruct (tflag seg SYN); [|by apply Kfree; [|right]].
  apply wp_bind. unfold procsyn_conv. cv_step. cv_step. cv_step. cv_step. apply wp_when_same.
  { intros c2 Q2 K2. apply wp_onconv, K2. done. }
  intros c1 E1. pose proof (conv_core _ _ _ _ E1 (conv_procsyn _ _ _ seg H Hm (proj2 Ha))) as H1.
  assert (st c1 = Syn_sent) as Es1 by (transitivity (k_st (core c1)); [done|by rewrite E1]).
  assert (forall c', conv_ok str (bp ++ F) pend c' -> st c' <> Syn_sent ->
    wp (if negb (length =? 0) || tflag seg FIN then ret (Go_on seg bp length) else free bp ;; ret Output) c' Q) as Kend.
  { intros c' H' Hn. destruct (_ || _); [by apply wp_ret, Kgo|]. apply Kfree; [done|by left]. }
  apply wp_bind. destruct (tflag seg ACK).
  - cbn [andb] in Eack. apply negb_false_iff in Eack. destruct (una_iss _ _ _ H Es) as [Hf Eu].
    assert (news c1 seg) as Hnews.
    { apply (within_news (bp ++ F) pend); [done|done|by left| |].
      - left. change (k_syn (core c1) = false). rewrite E1. cbn. unfold flag. cbn. rewrite Z.land_lor_distr_l. change (Z.land FORCE SYNACK) with 0. rewrite Z.lor_0_r. exact Hf.
      - assert (snd_una (snd c1) = snd_una (snd c)) as -> by exact (f_equal k_una E1). assert (snd_nxt (snd c1) = snd_nxt (snd c)) as -> by exact (f_equal k_nxt E1). by rewrite Eu. }
    assert (wp (update seg ;; (tcpsynackrtt ;; tcpsetstate Established)) c1 (fun _ c2 => conv_ok str (bp ++ F) pend c2 /\ st c2 = Established)) as Hup.
    { apply (established_ok (bp ++ F) pend c1 seg Established); try done. by left. }
    apply wp_bind_inv in Hup. apply wp_bind. eapply wp_mono; [exact Hup|]. intros [] c2 Hup2. cbn beta in Hup2.
    apply wp_bind_inv in Hup2. apply wp_bind. eapply wp_mono; [exact Hup2|]. intros [] c3 Hup3. cbn beta in Hup3.
    apply wp_bind. eapply wp_mono; [exact Hup3|]. intros [] c4 [H4 Es4]. cv_step. cv_step.
    apply (wp_set_scale (bp ++ F) pend); [done|]. intros c5 H5 E5. apply Kend; [done|]. by rewrite E5, Es4.
  - cv_step. cv_step. apply (wp_move_state (bp ++ F) pend); [exact H1|by change (open_st (st c1)); rewrite Es1| |].
    + change (k_st (core c1) = Syn_sent) in Es1. split; [done|]. split; [done|]. split; [change (0 = fin (k_st (core c1))); by rewrite Es1|].
      split; [by right|]. split; [by intros [?|?]|]. intros _. by left.
    + intros c2 H2 E2 _ _ _. apply Kend; [done|]. by rewrite E2.
Qed.

Lemma wp_input_hog F pend seg c (Q : () -> Conv -> Prop) : conv_ok str F pend c -> (forall c', conv_ok str F pend c' -> st c' = st c \/ st c' = Closed -> Q () c') -> wp (input_hog seg) c Q.
Proof.
  intros H K. unfold input_hog. cv_step. cv_step. apply wp_when; [|intros _; apply K; [done|by left]]. intros _. apply wp_when; [|intros _; apply K; [done|by left]]. intros _.
  apply (wp_localclose str F); [by apply (conv_whole str F pend)|]. intros c' (E & M & O & _). apply K; [by apply closed_ok|by right].
Qed.
(** *** What the segment acknowledges *)
(** When nothing is outstanding, nothing is acknowledged. *)
Lemma wp_update_idle c seg (Q : () -> Conv -> Prop) : snd_una (snd c) = snd_nxt (snd c) ->
  (forall c' w, (w = wnd seg \/ w = k_wnd (core c)) -> core c' = wnd_core (core c) w (k_cwind (core c)) -> Q () c') -> wp (update seg) c Q.
Proof.
  intros E K. unfold update. cv_step. cv_step. destruct (seq_gt (ack seg) (snd_nxt (snd c))) eqn:En.
  { apply wp_setflag; [done|]. intros c' E'. apply (K _ (k_wnd (core c))); [by right|]. by rewrite E', wnd_core_id. }
  apply wp_bind. unfold fast_rexmit. cv_step. cv_step. rewrite E, Z.eqb_refl, andb_false_r. cbn [andb when].
  apply wp_ret, wp_bind, wp_update_wnd. intros c2 w Hw E2. do 2 cv_step.
  assert (snd_una (snd c2) = snd_nxt (snd c)) as -> by (rewrite <- E; exact (f_equal k_una E2)). rewrite En. cbn [negb].
  apply wp_when; intros _; [cv_step|]; by apply (K _ w).
Qed.

Lemma conv_wnd F pend c c' seg w : conv_ok str F pend c -> acks seg -> w = wnd seg \/ w = k_wnd (core c) -> core c' = wnd_core (core c) w (k_cwind (core c)) ->
  conv_ok str F pend c'.
Proof.
  intros (M & O & H) [_ Ha] Hw E. unfold conv_ok. rewrite E. split; [exact M|]. split; [exact O|]. intros Ho. destruct (H Ho) as (U & P & N & S & T).
  exists U, P, N. split; [|exact T]. apply sender_wnd; [|exact (so_cwind _ _ _ _ _ S)|done]. destruct Hw as [-> | ->]; [done|exact (so_wnd _ _ _ _ _ S)].
Qed.
Lemma syn_known F pend c : conv_ok str F pend c -> open_st (st c) -> st c <> Syn_sent -> st c <> Syn_received -> flag SYNACK c = true.
Proof.
  intros (_ & _ & H) Ho H1 H2. destruct (H Ho) as (U & P & N & S & _). pose proof (so_syn _ _ _ _ _ S) as S9. change (k_syn (core c)) with (flag SYNACK c) in S9.
  destruct (flag SYNACK c); [done|]. destruct S9 as (_ & _ & [?|?]); done.
Qed.
(** Between the rounds of the loop. *)
Definition loop_ok c c' : Prop := (st c' = Syn_received -> flag SYNACK c' = true) /\ (length (reseq (base c')) <= length (reseq (base c)))%nat.

Lemma wp_update_go F pend seg c (Q : () -> Conv -> Prop) : conv_ok str F pend c -> acks seg -> open_st (st c) -> st c <> Syn_sent -> st c <> Syn_received ->
  (forall c', conv_ok str F pend c' -> loop_ok c c' -> (fin (st c) = 1 -> ended str (core c')) -> Q () c') -> wp (update seg) c Q.
Proof.
  intros H Ha Ho H1 H2 K. apply (wp_update str F (RELY F) pend); [done|done|]. intros c' H' [Hsc Hl] He _. apply K; [by apply H'|split; [|exact Hl]|exact He].
  intros Es. apply Hsc; [by rewrite Es|]. by eapply syn_known.
Qed.

Lemma wp_linger F pend c (Q : () -> Conv -> Prop) : conv_ok str F pend c -> (forall c', conv_ok str F pend c' -> same_side c c' -> reseq (base c') = reseq (base c) -> Q () c') ->
  wp (setflag FORCE ;; onconv (fun c => if decide (on (timer c) = TcptimerON) then c else with_timer (tgo (timer c)) c)) c Q.
Proof.
  intros H K. unfold setflag. cv_step. cv_step. cv_step. set (c1 := with_base _ c).
  assert (flag SYNACK c1 = flag SYNACK c) as Ef by by apply flag_lor.
  assert (conv_ok str F pend c1) as H1.
  { eapply conv_core, H. unfold core. change (flag SYNACK c1) with (flag SYNACK c1). by rewrite Ef. }
  assert (same_side c c1) as Hss by by split. destruct (decide _); [by apply K|]. apply K; [by apply conv_tgo|by destruct Hss; split|done].
Qed.

Lemma drained_core c c' : core c' = core c -> drained c' = drained c.
Proof. intros E. unfold drained, wqlen. change (wq c') with (k_wq (core c')). change (flgcnt c') with (k_flg (core c')). by rewrite E. Qed.

Lemma wp_input_ack F pend seg bp length c (Q : Goto -> Conv -> Prop) : conv_ok str (bp ++ F) pend c -> seg_wf seg bp length ->
  (forall g c', goes F pend g c' -> (match g with Go_on _ _ _ => loop_ok c c' | _ => True end) -> Q g c') -> wp (input_ack seg bp length) c Q.
Proof.
  intros H Hs K. pose proof (acks_of _ _ _ Hs) as Ha. unfold input_ack. cv_step. cv_step. cbv zeta.
  assert (forall c', conv_ok str (bp ++ F) pend c' -> loop_ok c c' -> Q (Go_on seg bp length) c') as Kgo by (intros c' H' Hl; by apply K).
  assert (forall c', conv_ok str (bp ++ F) pend c' -> Q (Raise bp) c') as Kraise by (intros c' H'; by apply K).
  assert (forall c1 c2, loop_ok c c1 -> same_side c1 c2 -> reseq (base c2) = reseq (base c1) -> loop_ok c c2) as Hside.
  { intros c1 c2 [L1 L2] [E1 E2 _ _ _ _] E3. split; [by rewrite E1, E2|by rewrite E3]. }
  assert (forall c1, conv_ok str (bp ++ F) pend c1 -> loop_ok c c1 ->
    wp ((setflag FORCE ;; onconv (fun c => if decide (on (timer c) = TcptimerON) then c else with_timer (tgo (timer c)) c)) ;; ret (Go_on seg bp length)) c1 Q) as Klinger.
  { intros c1 H1 L1. apply wp_bind, (wp_linger (bp ++ F) pend); [done|]. intros c2 H2 Hss Er. apply wp_ret, Kgo; [done|]. by eapply Hside. }
  assert (open_st (st c) -> st c <> Syn_sent -> st c <> Syn_received -> wp (update seg ;; ret (Go_on seg bp length)) c Q) as Kup.
  { intros Ho H1 H2. apply wp_bind, (wp_update_go (bp ++ F) pend); [done..|]. intros c1 Hc1 L1 _. by apply wp_ret, Kgo. }
  assert (st c <> Syn_received -> loop_ok c c) as Hrefl by (intros Hr; split; [done|lia]).
  destruct (st c) eqn:Es; try (by apply wp_ret, Kgo, Hrefl); try (by apply Kup).
  - (* Syn_received *) destruct (seq_within _ _ _) eqn:Ew; cbn [negb].
    2: { apply wp_bind, (wp_sndrst _ _ (bp ++ F) pend); [done|]. intros c2 H2 _. by apply wp_ret, Kraise. }
    assert (wp (update seg ;; tcpsetstate Established) c (fun _ c' => conv_ok str (bp ++ F) pend c' /\ st c' = Established /\ (List.length (reseq (base c')) <= List.length (reseq (base c)))%nat)) as Hup.
    { assert (open_st (st c)) as Ho by by rewrite Es.
      destruct (decide (flag SYNACK c = false \/ snd_una (snd c) <> snd_nxt (snd c))) as [Hne|Hne].
      - apply (established_ok (bp ++ F) pend c seg Established); try done; [|by right|].
        + apply (within_news (bp ++ F) pend); try done. by right.
        + intros c' H' E' R'. by rewrite R'.
      - assert (flag SYNACK c = true /\ snd_una (snd c) = snd_nxt (snd c)) as [Hf Eu].
        { split; [destruct (flag SYNACK c); [done|]; by destruct Hne; left|]. destruct (Z.eq_dec (snd_una (snd c)) (snd_nxt (snd c))); [done|]. by destruct Hne; right. }
        apply wp_bind, wp_update_idle; [done|]. intros c1 w Hw E1.
        assert (conv_ok str (bp ++ F) pend c1 /\ st c1 = Syn_received) as [H1 Es1].
        { split; [by eapply conv_wnd|]. rewrite <- Es. exact (f_equal k_st E1). }
        apply (wp_move_state (bp ++ F) pend); [done|by rewrite Es1| |].
        + split; [done|]. split; [done|]. change (k_st (core c1)) with (st c1). rewrite Es1. split; [done|]. split; [left; rewrite E1; exact Hf|]. by split; [intros [?|?]|].
        + intros c2 H2 E2 _ _ R2. split; [done|]. split; [done|]. rewrite R2. apply Nat.eq_le_incl. exact (f_equal (fun k => List.length (k_reseq k)) E1). }
    apply wp_bind_inv in Hup. apply wp_bind. eapply wp_mono; [exact Hup|]. intros [] c1 Hup1. cbn beta in Hup1. apply wp_bind. eapply wp_mono; [exact Hup1|].
    intros [] c2 (H2 & E2 & L2). apply wp_bind, (wp_update_go (bp ++ F) pend); [done|done|by rewrite E2|by rewrite E2|by rewrite E2|].
    intros c3 H3 [L3 L3'] _. apply wp_ret, Kgo; [done|]. split; [done|lia].
  - (* Finwait1 *) apply wp_bind, (wp_update_go (bp ++ F) pend); [done|done|by rewrite Es..|]. intros c1 H1 L1 He. rewrite Es in He. specialize (He eq_refl).
    cv_step. cv_step. destruct (drained c1) eqn:Ed; cbn [when]; [|by apply wp_bind, wp_ret, wp_ret, Kgo].
    apply wp_bind, wp_bind, wp_halts. intros c2 E2. unfold tcpsetkacounter. do 4 cv_step. set (c3 := with_ctime _ _). assert (core c3 = core c1) as E3 by exact E2.
    clearbody c3. apply wp_bind, (wp_move_ended (bp ++ F) pend); [by eapply conv_core, H1|by rewrite E3|by rewrite (drained_core _ _ E3)|by left|].
    intros c4 H4 E4 R4. cv_step. apply wp_ret, Kgo; [exact H4|]. split; [intros Er; change (st c4 = Syn_received) in Er; congruence|].
    change (reseq (base (with_katimer _ c4))) with (reseq (base c4)). rewrite R4. assert (reseq (base c3) = reseq (base c1)) as -> by exact (f_equal k_reseq E3). apply L1.
  - (* Closing *) apply wp_bind, (wp_update_go (bp ++ F) pend); [done|done|by rewrite Es..|]. intros c1 H1 L1 He. rewrite Es in He. specialize (He eq_refl).
    cv_step. cv_step. destruct (drained c1) eqn:Ed; cbn [when]; [|by apply wp_bind, wp_ret, wp_ret, Kgo].
    apply wp_bind, (wp_enter_time_wait (bp ++ F) pend); [done..|]. intros c2 H2 E2 R2. apply wp_ret, Kgo; [done|]. split; [congruence|]. rewrite R2. apply L1.
  - (* Last_ack *) apply wp_bind, (wp_update_go (bp ++ F) pend); [done|done|by rewrite Es..|]. intros c1 H1 L1 He.
    cv_step. cv_step. destruct (drained c1); [|by apply Klinger]. apply wp_bind, (wp_closing str (bp ++ F) _ pend 0); [lia|by apply (conv_whole str (bp ++ F) pend)|].
    intros c2 H2 _. by apply wp_ret, Kraise.
  - (* Time_wait *) apply Klinger; [done|by apply Hrefl].
Qed.
(** *** Text and FIN *)
Lemma wp_input_text F pend seg bp length c (Q : bool -> Conv -> Prop) : conv_ok str (bp ++ F) pend c -> Forall wfb bp ->
  (forall b c', conv_ok str F pend c' -> (b = true -> same_side c c' /\ reseq (base c') = reseq (base c)) -> Q b c') -> wp (input_text seg bp length) c Q.
Proof.
  intros H Hw K. unfold input_text.
  assert (wp (free bp ;; ret true) c Q) as Kfree.
  { apply wp_bind, (wp_free bp F pend); [done|]. intros c1 H1 Hs1 R1. by apply wp_ret, K. }
  destruct (length =? 0); [done|]. cv_step. cv_step.
  assert (wp (onrx (rx_text bp length) ;; onconv (fun c => if decide (on (acktimer c) = TcptimerON) then c else with_acktimer (tgo (acktimer c)) c) ;; ret true) c Q) as Ktext.
  { apply wp_bind, wp_onrx. eapply wp_mono; [apply (wp_rx_text_any bp length F); [by eapply conv_seg|done]|]. intros [] s1 (Hs & Hc & R).
    cv_step. cv_step. apply wp_ret. assert (conv_ok str F pend (with_rx s1 c)) as H1 by by eapply conv_ts.
    pose proof (side_ts s1 c Hc) as Hss. destruct (decide _); [by apply K|]. apply K; [exact H1|]. intros _. split; [by destruct Hss; split|exact R]. }
  destruct (st c); try done.
  apply wp_bind, (wp_free bp F pend); [done|]. intros c1 H1 Hs1 R1. apply wp_bind, (wp_sndrst _ _ F pend); [done|]. intros c2 H2 _. by apply wp_ret, K.
Qed.

Lemma wp_input_fin F pend c (Q : () -> Conv -> Prop) : conv_ok str F pend c -> (st c = Syn_received -> flag SYNACK c = true) ->
  (forall c', conv_ok str F pend c' -> reseq (base c') = reseq (base c) -> Q () c') -> wp input_fin c Q.
Proof.
  intros H Hf K. unfold input_fin. apply wp_bind, wp_setflag; [done|]. intros c1 E1. cv_step. cv_step. cbv zeta.
  assert (conv_ok str F pend c1 /\ st c1 = st c /\ flag SYNACK c1 = flag SYNACK c /\ reseq (base c1) = reseq (base c)) as (H1 & Es1 & Ef1 & R1).
  { split; [by eapply conv_core, H|]. split; [exact (f_equal k_st E1)|]. split; [exact (f_equal k_syn E1)|exact (f_equal k_reseq E1)]. }
  rewrite <- Ef1, <- Es1 in Hf. rewrite <- R1 in K. clear E1 Ef1 Es1 R1 H c.
  set (c2 := with_base (with_rcv (set_nxt (u32 (nxt (rcv (base c1)) + 1)) (rcv (base c1))) (base c1)) c1).
  assert (conv_ok str F pend c2) as H2.
  { eapply (conv_ts F F pend c1); [exact H1| |done]. apply (ts_of_conv F pend c1); try done. apply u32_range. }
  assert (flag SYNACK c2 = flag SYNACK c1) as Ef2 by done.
  assert (forall (m : M Conv ()), wp m c2 Q -> wp (onbase (fun t => with_rcv (set_nxt (u32 (nxt (rcv t) + 1)) (rcv t)) t) ;; m) c1 Q) as Kbump by (intros m Hm; apply wp_bind, wp_onbase; exact Hm).
  assert (reseq (base c2) = reseq (base c1)) as R2 by done. assert (st c2 = st c1) as Es2 by done. clearbody c2.
  assert (st c1 = Syn_received \/ st c1 = Established -> wp (tcpsetstate Close_wait) c2 Q) as Kcw.
  { intros Hst. assert (open_st (st c2)) as Ho by (rewrite Es2; by destruct Hst as [-> | ->]).
    apply (wp_move_state F pend); [done|done| |intros c3 H3 _ _ _ R3; apply K; [done|congruence]].
    split; [done|]. split; [done|]. change (k_st (core c2)) with (st c2). rewrite Es2. split; [by destruct Hst as [-> | ->]|].
    split; [left; change (flag SYNACK c2 = true); rewrite Ef2; destruct Hst as [E|E]; [by apply Hf|eapply syn_known; [exact H1|..]; by rewrite E]|]. by split; [intros [?|?]|]. }
  destruct (st c1) eqn:Es; try (by apply wp_ret, K).
  - by apply Kbump, Kcw; left.
  - by apply Kbump, Kcw; right.
  - apply Kbump. cv_step. cv_step. destruct (drained c2) eqn:Ed.
    + apply (wp_enter_time_wait F pend); [done|left; change (k_st (core c2)) with (st c2); by rewrite Es2|done|]. intros c3 H3 _ R3. apply K; [done|congruence].
    + apply (wp_move_state F pend); [done|by rewrite Es2| |intros c3 H3 _ _ _ R3; apply K; [done|congruence]].
      split; [done|]. split; [done|]. change (k_st (core c2)) with (st c2). rewrite Es2. split; [done|].
      split; [left; change (flag SYNACK c2 = true); eapply syn_known; [exact H2|by rewrite Es2..]|]. by split; [intros [?|?]|].
  - apply Kbump. apply (wp_enter_time_wait F pend); [done|left; change (k_st (core c2)) with (st c2); by rewrite Es2| |intros c3 H3 _ R3; apply K; [done|congruence]].
    destruct H2 as (_ & _ & H2). destruct H2 as (U & P & N & S & _); [change (open_st (st c2)); by rewrite Es2|].
    pose proof (so_flg _ _ _ _ _ S) as S8. rewrite (so_done _ _ _ _ _ S) in S8 by (left; exact Es2). apply Z.eqb_eq. change (zlen (k_wq (core c2)) + k_flg (core c2) = 0). lia.
  - cv_step. apply K; [by apply conv_tgo|done].
Qed.

(** *** The loop *)
Definition over (g : Goto) : Prop := match g with Go_on _ _ _ => False | _ => True end.
Lemma wp_input_loop F pend fuel : forall seg bp length c (Q : Goto -> Conv -> Prop), conv_ok str (bp ++ F) pend c -> seg_wf seg bp length ->
  (List.length (reseq (base c)) < fuel)%nat -> (forall g c', goes F pend g c' -> over g -> Q g c') -> wp (input_loop fuel seg bp length) c Q.
Proof.
  induction fuel as [|fuel IH]; intros seg bp length c Q H Hs Hl K; [lia|]. cbn [input_loop].
  destruct (tflag seg RST).
  { cv_step. cv_step. apply wp_bind, wp_when_same; [by apply wp_stat|]. intros c1 E1.
    apply wp_bind, (wp_closing str (bp ++ F) _ pend 0); [lia|rewrite E1; by apply (conv_whole str (bp ++ F) pend)|]. intros c2 H2 _. by apply wp_ret, K. }
  destruct (negb (tflag seg ACK)); [by apply wp_ret, K|].
  apply wp_bind, (wp_input_ack F pend); [done|done|]. intros g c1 Hg Hl1. destruct g as [seg1 bp1 len1| |bp1|]; try (by apply wp_ret, K).
  destruct Hg as [Hs1 H1]. apply wp_bind, wp_onrx. pose proof Hs1 as (Hwf & _ & _ & _ & _ & _ & Hu). cbn in Hwf, Hu.
  eapply wp_mono; [apply (wp_rx_urg_any seg1 bp1 F); [by eapply conv_seg|done|lia]|]. intros bp2 s2 (Hs2 & Hw2 & Hc2 & R2).
  assert (conv_ok str (bp2 ++ F) pend (with_rx s2 c1)) as H2 by by eapply conv_ts.
  pose proof (side_ts s2 c1 Hc2) as Hss2. assert (reseq (base (with_rx s2 c1)) = reseq (base c1)) as R2' by done.
  apply wp_bind, (wp_input_text F pend); [done|done|]. intros b c3 H3 Hb. destruct b; cbn [negb]; [|by apply wp_ret, K].
  destruct (Hb eq_refl) as [Hss3 R3]. destruct Hl1 as [L1 L1'].
  assert (forall c4, conv_ok str F pend c4 -> reseq (base c4) = reseq (base c3) -> 
    wp (t <- the base ;; r <- onrx (next_segment (reseq_fuel t)) ;;
        match r with None => ret Output | Some (seg, bp, length) => input_loop fuel seg bp length end) c4 Q) as Knext.
  { intros c4 H4 R4. cv_step. cv_step. apply wp_bind, wp_onrx. eapply wp_mono; [apply (wp_next_any (reseq_fuel (base c4)) F); [by eapply conv_seg|unfold reseq_fuel, base; lia]|].
    intros [[[seg5 bp5] len5]|] s5 (Hc5 & Hr5); [|apply wp_ret, K; [by eapply conv_ts|done]].
    destruct Hr5 as (Hs5 & Hw5 & L5). apply IH; [by eapply conv_ts|done| |done].
    change (base (with_rx s5 c4)) with (tcb s5). change (tcb (rx c4)) with (base c4) in L5. rewrite R4, R3, R2' in L5. lia. }
  destruct (tflag seg1 FIN); cbn [when]; apply wp_bind; [|by apply wp_ret, Knext].
  apply (wp_input_fin F pend); [done| |exact Knext].
  intros Es. destruct Hss3 as [E1 E2 _ _ _ _], Hss2 as [E3 E4 _ _ _ _]. rewrite E2, E4. apply L1. congruence.
Qed.
(** *** The whole *)
Lemma wp_input_segment F pend seg bp length c (Q : Goto -> Conv -> Prop) : conv_ok str (bp ++ F) pend c -> seg_wf seg bp length -> st c <> Syn_sent ->
  (forall g c', goes F pend g c' -> over g -> Q g c') -> wp (input_segment seg bp length) c Q.
Proof.
  intros H Hs Hst K. unfold input_segment. cv_step. cv_step. apply wp_bind, wp_onrx.
  apply (wp_trim_ts seg bp length F); [by eapply conv_seg|done|]. intros r s1 Hc1 R1 Hr. set (c1 := with_rx s1 c). assert (st c1 = st c) as Es1 by done.
  assert (forall c2 (Q : () -> Conv -> Prop) G, conv_ok str G pend c2 -> st c2 = st c -> (forall c', conv_ok str G pend c' -> Q () c') -> wp (update seg) c2 Q) as Hup.
  { intros c2 Q2 G H2 E2 K2. apply (wp_update str G (RELY G) pend); [done|by eapply acks_of|]. intros c' H' _ _ _. apply K2, H'. intros E. congruence. }
  destruct r as [[[seg1 bp1] len1]|].
  - destruct Hr as (Ht1 & Hs1 & Ea1 & Ew1). assert (conv_ok str (bp1 ++ F) pend c1) as H1 by by eapply conv_ts. clearbody c1.
    cv_step. cv_step. destruct (negb (len1 =? 0) && _).
    { apply wp_bind, (wp_sndrst _ _ (bp1 ++ F) pend); [done|]. intros c2 H2 _. by apply wp_ret, K. }
    destruct (negb (seq seg1 =? _) && _).
    2: { cv_step. cv_step. apply (wp_input_loop F pend); [done|done|unfold reseq_fuel; lia|done]. }
    assert (forall (Q2 : () -> Conv -> Prop), (forall c', conv_ok str (bp1 ++ F) pend c' -> Q2 () c') -> wp (update seg1) c1 Q2) as Hup1.
    { intros Q2 K2. apply (wp_update str (bp1 ++ F) (RELY _) pend); [done|by eapply acks_of|]. intros c' H' _ _ _. apply K2, H'. intros E. congruence. }
    apply wp_bind, Hup1. intros c2 H2. cv_step. cv_step. apply wp_bind, wp_onrx. refine (wp_onmem _ _ _ _). pose proof (conv_seg _ _ _ H2) as Ht2.
    eapply wp_mono; [apply (wp_addreseq_any (malloc_ok c2) (base c2) seg1 bp1 len1 (F ++ bfirst (rq (rx c2)))); [apply Ht2|done|]|].
    { eapply acct_proper; [|reflexivity|exact (ts_acct _ _ Ht2)]. solve_Permutation. }
    intros [[t ooo] k] m (l & -> & Hl & HA). cbn beta iota. cv_step. cv_step. set (c3 := with_base _ _).
    assert (conv_ok str F pend c3) as H3.
    { apply (conv_ts (bp1 ++ F) F pend c2 (mkTs (with_reseq l (base c2)) (rq (rx c2)) m)); [done| |done].
      eapply ts_swap; [exact Ht2|exact HA|done|done|exact Hl]. }
    clearbody c3. apply wp_bind, wp_when_same; [by apply wp_stat|]. intros c4 E4.
    apply wp_bind, wp_setflag; [done|]. intros c5 E5. apply wp_ret, K; [|done]. eapply conv_core; [exact (eq_trans E5 E4)|done].
  - assert (conv_ok str F pend c1) as H1 by by eapply conv_ts. clearbody c1.
    apply wp_bind, (Hup c1 _ F); [done|done|]. intros c2 H2. cv_step. cv_step. apply wp_bind.
    assert (forall c3, conv_ok str F pend c3 -> wp (if negb (tflag seg RST) then setflag FORCE ;; ret Output else ret Return) c3 Q) as Kend.
    { intros c3 H3. destruct (negb _); [|by apply wp_ret, K]. apply wp_bind, wp_setflag; [done|]. intros c4 E4. apply wp_ret, K; [by eapply conv_core|done]. }
    apply wp_when; [|by intros _; apply Kend]. intros [Ed Ec]%andb_true_iff. apply bool_decide_eq_true in Ec.
    apply (wp_enter_time_wait F pend); [done|left; change (k_st (core c2)) with (st c2); by rewrite Ec|done|]. intros c3 H3 _ _. by apply Kend.
Qed.

Lemma wp_input_go F pend g c (Q : () -> Conv -> Prop) : goes F pend g c -> over g -> (forall c', conv_ok str F pend c' -> Q () c') ->
  wp (input_go g) c Q.
Proof.
  intros Hg Hn K. destruct g as [| |bp|]; [done| | |by apply wp_ret, K].
  - apply (wp_tcpoutput str F (RELY F) pend); [by apply conv_ready|]. intros c' H' _. by apply K.
  - unfold input_go. apply wp_bind, (wp_free bp F pend); [done|]. intros c1 H1 _ _. apply wp_bind. eapply wp_mono; [by apply (RELY F pend)|].
    intros [] c2 [H2 _]. apply (wp_tcpkick str F (RELY F) pend); [done|]. intros c' H' _. by apply K.
Qed.
Lemma wp_tcpiput F pend seg bp length c (Q : () -> Conv -> Prop) : conv_ok str (bp ++ F) pend c -> seg_wf seg bp length -> 0 <= mss seg < 2 ^ 16 ->
  (forall c', conv_ok str F pend c' -> Q () c') -> wp (tcpiput seg bp length) c Q.
Proof.
  intros H Hs Hm K. unfold tcpiput. cv_step. cv_step. set (seg1 := set_wnd _ seg).
  assert (seg_wf seg1 bp length) as Hs1.
  { destruct Hs as (B1 & B2 & B3 & B4 & B5 & B6 & B7). split; [done|]. split; [done|]. split; [done|]. split; [done|]. split; [done|]. split; [apply u32_range|done]. }
  assert (0 <= mss seg1 < 2 ^ 16) as Hm1 by exact Hm. clearbody seg1. unfold tcpsetkacounter. cv_step. cv_step.
  apply wp_bind, (wp_input_state F pend); [exact H|done|done|]. intros g c1 Hg Hst. apply wp_bind.
  destruct g as [seg2 bp2 len2| | |]; try (by apply wp_ret, (wp_input_go F pend)). destruct Hg as [Hs2 H1].
  apply wp_bind, (wp_input_hog (bp2 ++ F) pend); [done|]. intros c2 H2 Ec2. apply (wp_input_segment F pend); [done|done| |].
  - destruct Ec2 as [-> | ->]; done.
  - intros g c3 Hg Ho. by apply (wp_input_go F pend).
Qed.
End Input.
