(* ===== verification/Tcpsession.v ===== *)
(** * A TCP conversation over its life

    A conversation as the sequence of what happens to it: the user's writes, reads and close, the timers, the
    segments that arrive, and what the rest of the kernel does to the blocks. Every event is handled; what
    has been sent is the user's stream, and what the other side makes of it is a prefix of it. *)

From stdpp Require Import base list gmap functions strings relations.
From Stdlib Require Import ZArith Lia.
From S2P Require Import Prelude Block Qio Tcptimer Tcp Tcpconn Tcpsend Tcpinput.
Open Scope Z_scope.
Open Scope nix_scope.

(** What can happen: [Timer], [Acktimer] and [Keepalive_timer] are the calls of [tcpackproc], [Timer] with the timer set
    [TcptimerDONE] as it does; in [Memory] the rest of the kernel allocates and frees; [Input] is [tcpiput]. *)
Inductive Event :=
  | Write (n : Z) | Read (n : Z) | Kick | Close | Timer | Acktimer | Keepalive_timer | Memory (m : Bst)
  | Input (seg : Tcp) (bp : list Block) (length : Z).

Section Session.
Context `{MA : Malloc, MO : !MallocOk MA, NET : Net} (str : Z -> Z).
Implicit Types (F bp : list Block) (c : Conv).

Definition handle (e : Event) : M Conv () :=
  match e with
  | Write n => user_write str n
  | Read n => onrx (onrq (qread n)) ;; ret ()
  | Kick => tcpkick
  | Close => tcpclose
  | Timer => onconv (fun c => with_timer (with_on TcptimerDONE (timer c)) c) ;; tcptimeout
  | Acktimer => tcpacktimer
  | Keepalive_timer => tcpkeepalive
  | Memory m => onconv (fun c => with_rx (mkTs (base c) (rq (rx c)) m) c)
  | Input seg bp length => tcpiput seg bp length
  end.

(** When: a write is flow controlled; the user does not close while the SYN that has been received is being answered; the
    blocks are someone's, and a segment's own until [tcpiput] has them. *)
Definition allowed (e : Event) (c : Conv) : Prop :=
  match e with
  | Write n => may_write n c
  | Read n => 0 <= n
  | Close => st c = Syn_received -> flag SYNACK c = true
  | Memory m => exists F, ts_ok F (mkTs (base c) (rq (rx c)) m)
  | Input seg bp length => (exists F, ts_ok (bp ++ F) (rx c)) /\ seg_wf seg bp length /\ 0 <= mss seg < 2 ^ 16
  | _ => True
  end.
Definition step (c c' : Conv) : Prop := exists e, allowed e c /\ (handle e c = Ret () c' \/ exists er, handle e c = Error er c').
(** *** Everything is handled *)
Lemma pend_of F c : conv_ok str F false c -> conv_ok str F true (with_timer (with_on TcptimerDONE (timer c)) c).
Proof.
  intros (M & O & H). split; [exact M|]. split; [exact O|]. intros Ho. destruct (H Ho) as (U & P & N & S & T1 & T2 & T3). exists U, P, N.
  split; [eapply sender_same, S; try done; by left|]. split; [exact T1|]. split; [exact T2|]. intros _ _. by right.
Qed.
Lemma wpe_handle e c : (forall F, rely str F) -> well str c -> allowed e c -> wpe (handle e) c (fun _ => well str) (fun _ c' => well str c' /\ exists n, e = Read n).
Proof.
  intros RELY [F H] Ha.
  assert (forall m : M Conv (), wp m c (fun _ c' => conv_ok str F false c') -> wpe m c (fun _ => well str) (fun _ c' => well str c' /\ exists n, e = Read n)) as Kw.
  { intros m Hm. apply wpe_wp. eapply wp_mono; [exact Hm|]. intros [] c' H'. by exists F. }
  destruct e; cbn [handle allowed] in *.
  - apply Kw, (wp_user_write str F false); [done|done|by intros].
  - apply wpe_bind. pose proof (wpe_qread (queued (reseq (base c)) ++ F) n (rq (rx c)) (mem (rx c)) (proj1 (proj1 H)) Ha) as Hq.
    assert (forall q m, qinv (queued (reseq (base c)) ++ F) q m -> well str (with_rx (mkTs (base c) q m) c)) as Kq.
    { intros q m Hi. exists F. eapply (conv_ts str F F); [exact H| |done]. destruct H as ((_ & Hw & He) & _). by split. }
    unfold wpe in *. unfold onrx, onrq in *. destruct (qread n (rq (rx c), mem (rx c))) as [[[d k]|] [q m]|er [q m]| |]; try done; cbn; [| |split; [|by exists n]]; apply Kq.
    + destruct Hq as [(_ & (_ & _ & _ & Hq) & _)|((Hq & _) & _)]; exact Hq.
    + destruct Hq as (_ & (_ & _ & _ & Hq) & _). exact Hq.
    + destruct Hq as (_ & (_ & _ & _ & Hq)). exact Hq.
  - apply Kw, (wp_tcpkick str F (RELY F) false); [done|by intros].
  - apply Kw, (wp_tcpclose str F (RELY F) false); [done|done|by intros].
  - apply Kw. do 2 cv_step. apply (wp_tcptimeout str F (RELY F)); [by apply pend_of|by intros].
  - apply Kw, (wp_tcpacktimer str F (RELY F) false); [done|by intros].
  - apply Kw, (wp_tcpkeepalive str F false); [done|by intros].
  - destruct Ha as [G Hm]. exists G. by eapply (conv_ts str F G).
  - destruct Ha as ([G Hg] & Hs & Hm). apply wpe_wp.
    assert (conv_ok str (bp ++ G) false c) as HG.
    { pose proof (conv_ts str F (bp ++ G) false c (rx c) H Hg ltac:(done)) as HG. by destruct c as [[]]. }
    eapply (wp_tcpiput str RELY G false); [exact HG|done|done|]. intros c' H'. by exists G.
Qed.

(** C3: whatever happens to a conversation in order, the code handles it, without a panic or a stray pointer, and leaves the conversation in order:
    every position of the sequence space is accounted for, what is queued is what has not been acknowledged, no block is lost or in
    two places, and the timer runs while something is outstanding. What happens is one of the events [allowed]: writes are within flow control, and the user does not close in [Syn_received]
    before the SYN that has been sent is acknowledged: after that the conversation is not in order (see the close too early below). What other processes do while [tcpoutput] has the
    conversation unlocked is assumed to keep it in order and to acknowledge less than 2^24 octets ([rely]). *)
Theorem conversation_safe e c : (forall F, rely str F) -> well str c -> allowed e c ->
  exists c', (handle e c = Ret () c' \/ exists er n, e = Read n /\ handle e c = Error er c') /\ well str c'.
Proof.
  intros RELY Hw Ha. pose proof (wpe_handle e c RELY Hw Ha) as H. unfold wpe in H.
  destruct (handle e c) as [[] c'|er c'| |]; try done; exists c'; [by split; [left|]|].
  destruct H as [H [n ->]]. split; [|done]. right. by exists er, n.
Qed.

(** *** The same conversation *)
(** Nothing that has been sent or written is taken back, and the numbering stays. *)
Definition follows (c c' : Conv) : Prop := iss c' = iss c /\ written c <= written c' /\ exists l, out c' = l ++ out c.
#[export] Instance follows_preorder : PreOrder follows.
Proof.
  split; [intros c; split; [done|split; [done|by exists []]]|]. intros c1 c2 c3 (I1 & W1 & l1 & E1) (I2 & W2 & l2 & E2).
  split; [congruence|]. split; [lia|]. exists (l2 ++ l1). by rewrite E2, E1, app_assoc.
Qed.
Lemma follows_same c c' : iss c' = iss c -> written c' = written c -> out c' = out c -> follows c c'.
Proof. intros E1 E2 E3. split; [done|]. split; [lia|]. by exists []. Qed.
Lemma follows_out c c' x : iss c' = iss c -> written c' = written c -> out c' = x :: out c -> follows c c'.
Proof. intros E1 E2 E3. split; [done|]. split; [lia|]. by exists [x]. Qed.

Section Follows.
Context (HO : keeps follows others).
Ltac follows_side := intros; first [by apply follows_same | by eapply follows_out | apply follows_same; by repeat case_match | assumption
  | match goal with H : forall _, keeps _ _ |- _ => apply H end].
Ltac follows_steps := keeps_steps follows_side.
Lemma follows_loop rounds : forall msgs, keeps follows (output_loop rounds msgs).
Proof.
  induction rounds as [|rounds IH]; intros msgs; [apply (keeps_ret _)|]. rewrite output_loop_S.
  apply (keeps_bind _); [unfold output_round, send_segment, rcvwin; follows_steps|]. intros more. follows_steps.
Qed.
Lemma follows_output : keeps follows tcpoutput.
Proof. apply follows_loop. Qed.
Hint Resolve follows_output : core.
Lemma follows_rexmit : keeps follows tcprxmit.
Proof. unfold tcprxmit. follows_steps; auto. Qed.
Hint Resolve follows_rexmit : core.
Lemma follows_update seg : keeps follows (update seg).
Proof. unfold update, update_acked, update_done, wqdiscard, fast_rexmit, update_wnd, measure_rtt, settimer. follows_steps; auto. Qed.
Hint Resolve follows_update : core.
Lemma follows_timeout : keeps follows tcptimeout.
Proof. unfold tcptimeout, settimer. follows_steps; auto. Qed.
Lemma follows_close : keeps follows tcpclose.
Proof. unfold tcpclose. follows_steps; auto. Qed.
Lemma follows_kick : keeps follows tcpkick.
Proof. unfold tcpkick, rcvwin. follows_steps; auto. Qed.
Lemma follows_acktimer : keeps follows tcpacktimer.
Proof. unfold tcpacktimer, rcvwin. follows_steps; auto. Qed.
Lemma follows_keepalive : keeps follows tcpkeepalive.
Proof. unfold tcpkeepalive, tcpsendka. follows_steps; auto. Qed.
Lemma follows_sndrst seg length : keeps follows (sndrst seg length).
Proof. unfold sndrst. follows_steps; auto. Qed.
Lemma follows_time_wait : keeps follows enter_time_wait.
Proof. unfold enter_time_wait, halt_rtt_ack. follows_steps; auto. Qed.
Hint Resolve follows_kick follows_sndrst follows_time_wait : core.
Lemma follows_state seg bp length : keeps follows (input_state seg bp length).
Proof. unfold input_state, set_scale, tcpsynackrtt, procsyn_conv, free. follows_steps; auto. Qed.
Lemma follows_hog seg : keeps follows (input_hog seg).
Proof. unfold input_hog. follows_steps; auto. Qed.
Lemma follows_ack seg bp length : keeps follows (input_ack seg bp length).
Proof. unfold input_ack, halt_rtt_ack, tcpsetkacounter. follows_steps; auto. Qed.
Lemma follows_text seg bp length : keeps follows (input_text seg bp length).
Proof. unfold input_text, free. follows_steps; auto. Qed.
Lemma follows_fin : keeps follows input_fin.
Proof. unfold input_fin. follows_steps; auto. Qed.
Hint Resolve follows_state follows_hog follows_ack follows_text follows_fin : core.
Lemma follows_input_loop fuel : forall seg bp length, keeps follows (input_loop fuel seg bp length).
Proof.
  induction fuel as [|fuel IH]; intros seg bp length; cbn [input_loop]; [done|]. follows_steps; auto.
Qed.
Hint Resolve follows_input_loop : core.
Lemma follows_segment seg bp length : keeps follows (input_segment seg bp length).
Proof. unfold input_segment. follows_steps; auto. Qed.
Hint Resolve follows_segment : core.
Lemma follows_tcpiput seg bp length : keeps follows (tcpiput seg bp length).
Proof. unfold tcpiput, input_go, tcpsetkacounter, free. follows_steps; auto. Qed.
Lemma follows_handle e c c' er : allowed e c -> handle e c = Ret () c' \/ handle e c = Error er c' -> follows c c'.
Proof.
  intros Ha H. assert (keeps follows (handle e) \/ exists n, e = Write n) as [K|[n ->]].
  { destruct e; cbn [handle]; first [by right; eexists | left]; auto using follows_timeout, follows_close, follows_acktimer, follows_keepalive, follows_tcpiput.
    - follows_steps.
    - apply (keeps_bind _); [follows_steps|intros _; apply follows_timeout].
    - follows_steps. }
  - specialize (K c). destruct H as [E|E]; rewrite E in K; exact K.
  - destruct H as [E|E]; [|done]. injection E as <-. destruct Ha as [Hn _]. split; [done|]. split; [cbn; lia|by exists []].
Qed.
End Follows.

(** *** The other side *)
(** A segment with text that has left [c], as it arrives, whenever: a block list with its text. Its place in the stream is near
    [n], what has been received so far: no segment is so old that the sequence numbers have come round. *)
Definition arrives (c : Conv) (n : Z) (seg : Tcp) (bp : list Block) (length : Z) : Prop :=
  exists seg0 data, Segment seg0 data ∈ out c /\ data <> [] /\ seq seg = seq seg0 /\ flags seg = flags seg0 /\
    tflag seg0 SYN = false /\ tflag seg0 FIN = false /\ tflag seg0 URG = false /\
    cdata bp = data /\ length = zlen data /\ length < 2 ^ 16 - 2 /\ Forall wfb bp /\
    (forall p, seq seg0 = seqno (iss c) (1 + p) -> 0 <= p -> p + length <= written c -> data = text str p length -> - 2 ^ 30 <= p - n <= 2 ^ 30).

(** A sender, the receive side of the other end, and what its reader has got. *)
Inductive exchange : Conv * Ts * list Z -> Conv * Ts * list Z -> Prop :=
  | ex_send c c' s got : step c c' -> exchange (c, s, got) (c', s, got)
  | ex_deliver ok seg bp length F u c s s' got :
      arrives c (zlen got + zlen (cdata (bfirst (rq s)))) seg bp length ->
      qinv (queued (reseq (tcb s)) ++ bp ++ F) (rq s) (mem s) ->
      rx_segment ok seg bp length s = Ret u s' -> exchange (c, s, got) (c, s', got)
  | ex_read n d k q m c s got :
      0 <= n -> qread n (rq s, mem s) = Ret (Some (d, k)) (q, m) -> exchange (c, s, got) (c, mkTs (tcb s) q m, got ++ d)
  | ex_window c s got : exchange (c, s, got) (c, mkTs (tcprcvwin (tcb s) (rq s)) (rq s) (mem s), got)
  | ex_memory F m c s got : qinv (queued (reseq (tcb s)) ++ F) (rq s) m -> exchange (c, s, got) (c, mkTs (tcb s) (rq s) m, got).
(** The receive side when the connection has just been opened: it expects the octet after the SYN. *)
Definition opened (c : Conv) (s : Ts) : Prop :=
  nxt (rcv (tcb s)) = seqno (iss c) 1 /\ 0 <= rwnd (rcv (tcb s)) <= 2 ^ 30 /\ 0 <= window (tcb s) <= 2 ^ 30 /\ reseq (tcb s) = [] /\
  bfirst (rq s) = [] /\ dlen (rq s) = 0 /\ has Qclosed (rq s) = false /\ has Qmsg (rq s) = false /\ exists F, qinv F (rq s) (mem s).

(** Whatever comes after what has been written. *)
Definition agrees (W : Z) (str' : Z -> Z) : Prop := forall i, i < W -> str' i = str i.
Lemma agrees_text W str' p n : agrees W str' -> p + n <= W -> text str' p n = text str p n.
Proof. intros H Hp. unfold text. apply list_fmap_ext. intros i x Hx. apply lookup_seqZ in Hx as [-> ?]. apply H. lia. Qed.
Definition received (c : Conv) (n : Z) (s : Ts) : Prop :=
  exists F, forall str', agrees (written c) str' -> exists ps, rx_ok str' (seqno (iss c) 1) n ps F s.
Lemma rx_ok_frame str' b n ps F F' s m : rx_ok str' b n ps F s -> qinv (queued (reseq (tcb s)) ++ F') (rq s) m -> rx_ok str' b n ps F' (mkTs (tcb s) (rq s) m).
Proof. intros [[? ? ? ? ? ? ? ? ?] H] Hq. split; [|exact H]. by split. Qed.

Lemma arrives_at c n seg bp length : well str c -> arrives c n seg bp length ->
  exists p, 0 < length /\ 0 <= p /\ p + length <= written c /\ - 2 ^ 30 <= p - n <= 2 ^ 30 /\
    forall str', agrees (written c) str' -> seg_at str' (seqno (iss c) 1) p seg bp length.
Proof.
  intros [F (_ & O & _)] (seg0 & data & Hin & Hne & Eseq & Efl & Hs & Hf & Hu & Hd & Hl & Hlen & Hwf & Hnear).
  unfold out_ok in O. rewrite Forall_forall in O. destruct (O _ Hin) as (p & Ep & _ & Hp & Et & Hw & _). rewrite Hs in *.
  change (k_iss (core c)) with (iss c) in Ep. change (k_written (core c)) with (written c) in Hw. rewrite <- Hl in Et, Hw.
  assert (0 < length) as Hpos by (rewrite Hl; destruct data; [done|unfold zlen; cbn; lia]).
  destruct Hw as [Hw|Hw]; [done|]. exists (p - 1). split; [done|]. split; [lia|]. split; [exact Hw|].
  split; [apply Hnear; [rewrite Ep; f_equal; lia|lia|exact Hw|exact Et]|]. intros str' Ha. split; try done.
  - rewrite Eseq, Ep. change (seqno (seqno (iss c) 1) (p - 1)) with (u32 (seqno (iss c) 1 + (p - 1))). rewrite seqno_add. f_equal. lia.
  - lia.
  - rewrite Hd, Et. symmetry. by apply (agrees_text (written c)).
  - unfold tflag in *. by rewrite Efl.
  - unfold tflag in *. by rewrite Efl.
  - unfold tflag in *. by rewrite Efl.
Qed.

Lemma received_deliver ok seg bp length F n c s s' u : well str c -> 0 <= n <= written c -> received c n s -> arrives c n seg bp length ->
  qinv (queued (reseq (tcb s)) ++ bp ++ F) (rq s) (mem s) -> rx_segment ok seg bp length s = Ret u s' ->
  exists n', n <= n' <= written c /\ received c n' s' /\ cdata (bfirst (rq s')) = cdata (bfirst (rq s)) ++ text str n (n' - n).
Proof.
  intros Hw Hn [F0 Hr] Har Hq E. destruct (arrives_at _ _ _ _ _ Hw Har) as (p & Hl & Hp & HpW & Hnear & Hat).
  assert (forall str', agrees (written c) str' -> exists n', n <= n' /\ (exists ps, rx_ok str' (seqno (iss c) 1) n' ps F s') /\
    cdata (bfirst (rq s')) = cdata (bfirst (rq s)) ++ text str' n (n' - n)) as H.
  { intros str' Ha. destruct (Hr str' Ha) as [ps Hps].
    assert (rx_ok str' (seqno (iss c) 1) n ps (bp ++ F) s) as Hps' by (pose proof (rx_ok_frame _ _ _ _ F0 (bp ++ F) s (mem s) Hps Hq) as Hf; by destruct s).
    pose proof (rx_segment_spec str' (seqno (iss c) 1) ok n ps F p seg bp length s Hps' (Hat str' Ha) Hnear) as Hwp.
    unfold wp in Hwp. rewrite E in Hwp. destruct Hwp as (n' & ps' & B1 & B2 & B3 & _). exists n'. split; [done|]. split; [by exists ps'|done]. }
  assert (agrees (written c) str) as H0 by done. destruct (H str H0) as (n' & B1 & _ & B3). exists n'.
  assert (forall str', agrees (written c) str' -> exists n2, n2 = n' /\ (exists ps, rx_ok str' (seqno (iss c) 1) n2 ps F s') /\ text str' n (n' - n) = text str n (n' - n)) as H2.
  { intros str' Ha. destruct (H str' Ha) as (n2 & D1 & D2 & D3). rewrite B3 in D3. apply app_inv_head in D3.
    assert (n2 = n') as En by (apply (f_equal zlen) in D3; rewrite !zlen_text in D3; lia). subst n2. exists n'. done. }
  split; [split; [done|]|split; [|exact B3]].
  - destruct (Z_le_gt_dec n' (written c)) as [|Hgt]; [done|exfalso].
    destruct (H2 (fun i => if i <? written c then str i else str i + 1)) as (_ & _ & _ & Et).
    { intros i Hi. by destruct (Z.ltb_spec i (written c)); [|lia]. }
    apply (f_equal (fun l => l !! Z.to_nat (written c - n))) in Et. unfold text in Et. rewrite !list_lookup_fmap in Et.
    rewrite (lookup_seqZ_lt n (n' - n) (Z.to_nat (written c - n))) in Et by lia. cbn in Et. injection Et as Et.
    replace (n + Z.of_nat (Z.to_nat (written c - n))) with (written c) in Et by lia. rewrite Z.ltb_irrefl in Et. lia.
  - exists F. intros str' Ha. destruct (H2 str' Ha) as (n2 & -> & D & _). exact D.
Qed.

(** What holds all along. *)
Definition exchanging (x : Conv * Ts * list Z) : Prop :=
  let '(c, s, got) := x in exists n, well str c /\ 0 <= n <= written c /\ received c n s /\ got ++ cdata (bfirst (rq s)) = text str 0 n.
Lemma received_mono c c' n s : follows c c' -> received c n s -> received c' n s.
Proof.
  intros (Ei & Hw & _) [F Hr]. exists F. intros str' Ha. rewrite Ei. apply Hr. intros i Hi. apply Ha. lia.
Qed.
Lemma received_window c n s : received c n s -> received c n (mkTs (tcprcvwin (tcb s) (rq s)) (rq s) (mem s)).
Proof.
  intros [F Hr]. exists F. intros str' Ha. destruct (Hr str' Ha) as [ps [[B1 B2 B3 B4 B5 B6 B7 B8 B9] Hl]]. exists ps. split; [|exact Hl].
  pose proof (qlen_nonneg _ _ _ B9) as Hq. unfold tcprcvwin. set (w := if _ <? 0 then 0 else _).
  assert (0 <= w /\ qlen (rq s) + w <= 2 ^ 30) as [Hw1 Hw2].
  { unfold w. rewrite (s32_eq 0 _ (window (tcb s) - qlen (rq s))) by lia. destruct (Z.ltb_spec (window (tcb s) - qlen (rq s)) 0); lia. }
  by split; destruct (w =? 0).
Qed.
Lemma exchange_ok x y : (forall F, rely str F) -> keeps follows others -> exchange x y -> exchanging x -> exchanging y.
Proof.
  intros RELY HO Hx. destruct Hx as [c c' s got (e & Ha & He)|ok seg bp length F u c s s' got Har Hq E|k d r q m c s got Hk E|c s got|F m c s got Hq]; intros (n & Hw & Hn & Hr & Hd).
  - exists n. pose proof (follows_handle HO e c c') as Hf. assert (follows c c') as Hfo by (destruct He as [He|[er He]]; [apply (Hf ""%string)|apply (Hf er)]; auto).
    pose proof (wpe_handle e c RELY Hw Ha) as H. unfold wpe in H. split; [destruct He as [He|[er He]]; rewrite He in H; apply H|].
    split; [destruct Hfo as (_ & ? & _); lia|]. split; [by eapply received_mono|done].
  - assert (zlen got + zlen (cdata (bfirst (rq s))) = n) as En by (rewrite <- zlen_app, Hd, zlen_text; lia). rewrite En in Har.
    destruct (received_deliver _ _ _ _ _ _ _ _ _ _ Hw Hn Hr Har Hq E) as (n' & Hn' & Hr' & Hd'). exists n'. split; [done|]. split; [lia|]. split; [done|].
    rewrite Hd', app_assoc, Hd. replace n' with (n + (n' - n)) at 2 by lia. rewrite text_app by lia. by rewrite Z.add_0_l.
  - destruct Hr as [F Hr]. assert (exists ps, rx_ok str (seqno (iss c) 1) n ps F s) as [ps0 H0] by (by apply Hr).
    pose proof (wpe_qread (queued (reseq (tcb s)) ++ F) k (rq s) (mem s) (ri_mem _ _ _ _ _ _ (proj1 H0)) Hk) as HQ. unfold wpe in HQ. rewrite E in HQ.
    pose proof (ri_open _ _ _ _ _ _ (proj1 H0)) as [Hcl Hmsg]. destruct HQ as [[HQ _]|HQ]; [congruence|].
    destruct HQ as ((Hq' & Hmode & _) & _ & _ & Hdd & _). specialize (Hdd Hmsg). exists n. split; [done|]. split; [done|]. split.
    + exists F. intros str' Ha. destruct (Hr str' Ha) as [ps [[B1 B2 B3 B4 B5 B6 B7 B8 B9] Hl]]. exists ps. split; [|exact Hl]. split; try done.
      * cbn. assert (qlen q <= qlen (rq s)) as Hle; [|lia]. unfold qlen. rewrite (qi_dlen _ _ _ Hq'), (qi_dlen _ _ _ B9).
        rewrite <- !zlen_cdata, Hdd, zlen_app; [pose proof (zlen_nonneg d); lia|apply B9|apply Hq'].
      * destruct Hmode as (_ & G1 & G2 & _). cbn [rq]. by rewrite G1, G2.
    + cbn. by rewrite <- app_assoc, <- Hdd.
  - exists n. split; [done|]. split; [done|]. split; [by apply received_window|done].
  - exists n. split; [done|]. split; [done|]. split; [|done]. destruct Hr as [F0 Hr]. exists F. intros str' Ha. destruct (Hr str' Ha) as [ps Hps]. exists ps.
    by eapply rx_ok_frame.
Qed.

Lemma rtc_keeps {A} (R : relation A) (P : A -> Prop) x y : (forall a b, R a b -> P a -> P b) -> rtc R x y -> P x -> P y.
Proof. intros HR. induction 1; eauto. Qed.
Lemma well_steps c c' : (forall F, rely str F) -> rtc step c c' -> well str c -> well str c'.
Proof.
  intros RELY Hx. refine (rtc_keeps step (well str) _ _ _ Hx). intros a b (e & Ha & He) Hwa. pose proof (wpe_handle e a RELY Hwa Ha) as H. unfold wpe in H.
  destruct He as [He|[er He]]; rewrite He in H; apply H.
Qed.
(** C1: the bytes of the stream get from one end to the other. The sender is a conversation to which any of the events [allowed] happen, in any order (so the user does not close it in [Syn_received] before
    the SYN is acknowledged; [rely] as above). Any of the segments with text it has sent arrive at the other end, in whatever order, repeated or not, except those that carry a SYN, a FIN or urgent data and
    those that come so late that the numbers have come round ([arrives]); there the part of [tcpiput] that handles text gets them ([rx_segment]), while the reader reads what it likes. Then what has been read and
    what is queued to be read is a prefix of what the sender's user has written. *)
Theorem stream_prefix c0 s0 c s got : (forall F, rely str F) -> keeps follows others -> well str c0 -> 0 <= written c0 -> opened c0 s0 ->
  rtc exchange (c0, s0, []) (c, s, got) -> exists n, 0 <= n <= written c /\ got ++ cdata (bfirst (rq s)) = text str 0 n.
Proof.
  intros RELY HO Hw Hn (E1 & E2 & E3 & E4 & E5 & E6 & E7 & E8 & F & Hq) Hx.
  assert (exchanging (c0, s0, [])) as H0.
  { exists 0. split; [done|]. split; [lia|]. split; [|by rewrite E5]. exists F. intros str' _. exists []. split; [|constructor].
    split; rewrite ?E4; cbn; try done; try lia.
    - rewrite E1. change (seqno (seqno (iss c0) 1) 0) with (u32 (seqno (iss c0) 1 + 0)). by rewrite seqno_add.
    - unfold qlen. rewrite E6. lia.
    - constructor. }
  assert (exchanging (c, s, got)) as (n & _ & Hb & _ & Hd); [|by exists n].
  refine (rtc_keeps exchange exchanging _ _ _ Hx H0); intros x y; by apply exchange_ok.
Qed.

(** *** All along *)
(** C4: at any time after the call, whatever events have happened that are [allowed] (in [Syn_received] the user does not close before the SYN is acknowledged; [rely] as above): every segment that has been sent
    is a truthful one; while the conversation is open the write queue is the text that is not acknowledged, from the octet [snd.una] says; and, if there always is memory for headers ([outcome_ok]), the
    timer runs whenever something that has been sent is not acknowledged. *)
Theorem session_invariant mode mss0 c0 c1 c : (forall F, rely str F) -> (forall c, 0 < u16 (fst (tcpmtu c))) -> fresh c0 -> written c0 = 0 -> 0 < mss0 < 2 ^ 16 ->
  tcpstart mode mss0 c0 = Ret () c1 -> rtc step c1 c ->
  Forall (truthful str (iss c) (written c) (wqopen c)) (out c) /\
  (open_st (st c) -> 
     (exists acked, 0 <= acked /\ wq c = text str acked (written c - acked) /\ (flag SYNACK c = true -> snd_una (snd c) = seqno (iss c) (1 + acked))) /\
     (outcome_ok -> outstanding c -> on (timer c) = TcptimerON)).
Proof.
  intros RELY Hmtu Hf Hw Hm E Hx.
  assert (well str c1) as H1.
  { assert (wp (tcpstart mode mss0) c0 (fun _ c' => well str c')) as H by (apply (wp_tcpstart str); done). unfold wp in H. by rewrite E in H. }
  pose proof (well_steps c1 c RELY Hx H1) as [F (M & O & H)].
  split; [exact O|]. intros Ho. destruct (H Ho) as (U & P & N & S & T). split.
  - pose proof (so_syn _ _ _ _ _ S) as S9. pose proof (so_una _ _ _ _ _ S) as S1. cbn in S9, S1. destruct (flag SYNACK c).
    + exists (U - 1). destruct S9 as [HU Hq]. split; [lia|]. split; [exact Hq|]. intros _. rewrite S1. f_equal. lia.
    + exists 0. destruct S9 as (_ & Hq & _). split; [done|]. split; [by rewrite Z.sub_0_r|done].
  - intros Hok Hout. destruct T as (_ & _ & T). specialize (T Hok). destruct T as [T|T]; [|exact T|done].
    pose proof (so_order _ _ _ _ _ S). pose proof (so_una _ _ _ _ _ S) as E1. pose proof (so_nxt _ _ _ _ _ S) as E2. cbn in E1, E2.
    destruct (Z.eq_dec U N) as [->|]; [|lia]. exfalso. apply Hout. congruence.
Qed.
(** *** A close too early *)
(** The state after a close in [Syn_received] whose SYN has been sent and is not acknowledged. *)
Definition closed_early (c k : Conv) : Prop :=
  st k = Finwait1 /\ flag SYNACK k = false /\ snd_una (snd k) = iss c /\ iss k = iss c /\ 0 <= iss c < 2 ^ 32 /\ wq k = text str 0 (written c) /\ flgcnt k = 2 /\
  0 < written c <= 2 ^ 30 /\ 0 < tmss (base k) /\ 0 < cwind (base k) /\ 0 <= snd_wnd (base k).
Lemma closed_early_core c k k' : core k' = core k -> closed_early c k -> closed_early c k'.
Proof.
  intros E. unfold closed_early. change (st k') with (k_st (core k')). change (flag SYNACK k') with (k_syn (core k')). change (snd_una (snd k')) with (k_una (core k')).
  change (iss k') with (k_iss (core k')). change (wq k') with (k_wq (core k')). change (flgcnt k') with (k_flg (core k')). change (tmss (base k')) with (k_mss (core k')).
  change (cwind (base k')) with (k_cwind (core k')). change (snd_wnd (base k')) with (k_wnd (core k')). by rewrite E.
Qed.
(** Nothing is sent by the close: [tcpoutput] waits for the SYN to be acknowledged. *)
Lemma wp_close_early c : well str c -> st c = Syn_received -> flag SYNACK c = false -> snd_ptr (snd c) <> iss c -> 0 < written c ->
  wp tcpclose c (fun _ c' => closed_early c c' /\ other_out str (out c) (out c')).
Proof.
  intros (F & M & O & H) Es Ef Hp HW. assert (open_st (st c)) as Ho by (rewrite Es; done). destruct (H Ho) as (U & P & N & S & T).
  unfold tcpclose. apply wp_bind, (wp_onrx_rq F _ _ _ (fun G => wp_qhangup G _) M). intros q1 m1 M1.
  cv_step. cv_step. apply wp_bind. set (c1 := with_wqopen false _).
  apply (wp_onrx_rq F _ c1 _ wp_qflush M1). intros q2 m2 M2. set (c2 := with_rx _ c1). cv_step. cv_step. change (st c2) with (st c). rewrite Es. do 4 cv_step.
  apply wp_bind, (wp_tcpsetstate str F); [done|exact M2|]. intros c3 l q m E3 _ Hl.
  assert (closed_early c c3 /\ snd_ptr (snd c3) <> iss c /\ out c3 = l /\ other_out str (out c) l) as (Hc & Hp3 & <- & Hl').
  { change (snd_ptr (snd c3)) with (k_ptr (core c3)). change (out c3) with (k_out (core c3)). split; [|by rewrite E3].
    destruct S as [S1 S2 S3 S4 S5 S6 S6' S7 S8 S9 S10 S11 S12 S13 S14 S15 S16]. unfold send_end in *. cbn in S1, S4, S8, S9, S10, S11, S12, S16. rewrite Ef in S9. destruct S9 as (-> & Eq & _).
    rewrite Es in *. rewrite seqno_0 in S1 by done. specialize (S16 (or_intror eq_refl)). rewrite Eq, zlen_text in S8 by lia. cbn in S8.
    unfold closed_early. change (st c3) with (k_st (core c3)). change (flag SYNACK c3) with (k_syn (core c3)). change (snd_una (snd c3)) with (k_una (core c3)).
    change (iss c3) with (k_iss (core c3)). change (wq c3) with (k_wq (core c3)). change (flgcnt c3) with (k_flg (core c3)). change (tmss (base c3)) with (k_mss (core c3)).
    change (cwind (base c3)) with (k_cwind (core c3)). change (snd_wnd (base c3)) with (k_wnd (core c3)). rewrite E3. cbn. split_and!; try done; lia. }
  unfold tcpoutput. change 100%nat with (Datatypes.S 99). rewrite output_loop_S. apply wp_bind. unfold output_round. do 2 cv_step.
  pose proof Hc as (-> & _). cbn [silent]. cv_step. cv_step. apply wp_bind, wp_when_same; [intros c' Q K; apply wp_bind, wp_onbase; apply wp_setflag; [done|]; intros c5 E5; apply K; by rewrite E5|]. intros c4 E4.
  apply (closed_early_core _ _ _ E4) in Hc as Hc4. assert (snd_ptr (snd c4) <> iss c /\ out c4 = out c3) as [Hp4 Eo4].
  { change (snd_ptr (snd c4)) with (k_ptr (core c4)). change (out c4) with (k_out (core c4)). by rewrite E4. }
  cv_step. cv_step. cbv zeta. pose proof Hc4 as (_ & -> & _ & -> & _). rewrite (proj2 (Z.eqb_neq _ _) Hp4). cbn [negb andb]. cv_step. cbn [negb]. cv_step. by rewrite Eo4.
Qed.
(** The next round sends the text from [iss] on. *)
Definition early_segment (c : Conv) (seg : Tcp) (data : list Z) : Prop :=
  seq seg = iss c /\ tflag seg SYN = false /\ tflag seg URG = false /\ exists k, 0 < k <= written c /\ data = text str 0 k /\ (tflag seg FIN = true -> k = written c).
Lemma early_made c k sndcnt n : snd_ptr (snd k) = iss c -> st k = Finwait1 -> wq k = text str 0 (written c) -> 0 < written c -> 0 < n ->
  early_segment c (segment_made sndcnt 0 n k).1 (segment_made sndcnt 0 n k).2.
Proof.
  intros Ep Es Eq HW Hn. unfold segment_made, segment_flags. rewrite Es. destruct (Z.eqb_spec n 0); [lia|].
  assert (wqcopy n 0 k = text str 0 (Z.min n (written c))) as Ed.
  { rewrite (wqcopy_text str 0 (written c) k 0 n); [f_equal; lia|lia|lia|done|]. by rewrite Eq, Z.sub_0_r. }
  rewrite Ed, zlen_text by lia. cbn [negb andb].
  assert (forall fl, fl = ACK \/ fl = Z.lor ACK FIN -> forall d, Z.land (if u32 (0 + d) =? u32 sndcnt then Z.lor fl PSH else fl) SYN = 0 /\
    Z.land (if u32 (0 + d) =? u32 sndcnt then Z.lor fl PSH else fl) URG = 0 /\ (fl = ACK -> Z.land (if u32 (0 + d) =? u32 sndcnt then Z.lor fl PSH else fl) FIN = 0)) as Hfl
    by (intros fl [-> | ->] d; destruct (_ =? _); done).
  destruct (Z.eqb_spec (Z.max 0 (Z.min n (written c))) n) as [E|E]; cbn [negb]; cbv zeta.
  - destruct (Hfl ACK (or_introl eq_refl) n) as (H1 & H2 & H3). split; [exact Ep|]. unfold tflag. cbn [fst flags]. rewrite H1, H2. split; [done|]. split; [done|].
    exists (Z.min n (written c)). split; [lia|]. split; [done|]. by rewrite H3.
  - destruct (Hfl (Z.lor ACK FIN) (or_intror eq_refl) (u32 (n - 1))) as (H1 & H2 & _). split; [exact Ep|]. unfold tflag. cbn [fst flags]. rewrite H1, H2. split; [done|]. split; [done|].
    exists (Z.min n (written c)). split; [lia|]. split; [done|]. intros _. lia.
Qed.
Lemma early_round c k : outcome_ok -> closed_early c k -> snd_ptr (snd k) = iss c ->
  post output_round k (fun more k' => more = true /\ exists l seg data, out k' = l ++ Segment seg data :: out k /\ early_segment c seg data).
Proof.
  intros Hok (Es & Ef & Eu & Ei & Hi & Eq & Eg & HW & Hm & Hc & Hw) Ep. unfold output_round. apply post_bind, post_the. rewrite Es. apply post_bind, post_the, post_bind.
  eapply (post_mono _ _ (same_round k)); [by apply post_blocked|].
  intros [] k1 (E1 & E2 & E3 & E4 & E5 & E6 & E7 & E8 & E9 & E10 & _). apply post_bind, post_the. cbv zeta. rewrite E2, E4, E10, Ep, Ei, Z.eqb_refl, Eu, Z.sub_diag. cbn [negb andb].
  change (u32 0) with 0. assert (exists u, usable_window k1 0 = Some u /\ 1 <= u) as (u & -> & Hu).
  { unfold usable_window. rewrite E5, E6. destruct (Z.eqb_spec (snd_wnd (base k)) 0); [by exists 1|]. eexists. split; [done|]. rewrite Z.geb_leb. by_tests. }
  unfold wqlen. rewrite E8, E9, E7, Eq, Eg, zlen_text by lia. rewrite (s32_eq 0 _ (written c + 2)) by lia. rewrite Z.sub_0_r, (u32_small (written c + 2)) by lia.
  set (n := if u <? _ then _ else _). set (n' := if _ <? n then _ else n). assert (1 <= n') as Hn by (subst n' n; by_tests). clearbody n' n.
  destruct (Z.eqb_spec n' 0); [lia|]. cbn [andb]. eapply post_mono; [apply (send_segment_made (early_segment c))|].
  - intros k2 D1 D2 D3 D4. apply early_made; [by rewrite D2, E2|by rewrite D3, E3|by rewrite D4, E8|lia|lia].
  - intros [|] k2 H; [|destruct H as (_ & cx & Hx); by apply Hok in Hx]. split; [done|]. destruct H as (l & seg & data & H & _ & Hs). exists l, seg, data. by rewrite <- E1.
Qed.
Lemma post_timer_early c k : outcome_ok -> keeps (leaves any_out) others -> closed_early c k -> s32 (backedoff k + tstart (timer k) * MSPTICK) < MAXBACKMS ->
  post (handle Timer) k (fun _ k' => exists l seg data, out k' = l ++ Segment seg data :: out k /\ early_segment c seg data).
Proof.
  intros Hok HO Hk Hb. cbn [handle]. apply post_bind, post_onconv. unfold tcptimeout. apply post_bind, post_the. pose proof (proj1 Hk) as Es.
  change (st (with_timer _ k)) with (st k). rewrite Es. apply post_bind, post_onbase, post_bind, post_onconv, post_bind, post_the.
  set (k1 := with_backedoff _ _). change (backedoff k1) with (s32 (backedoff k + tstart (timer k) * MSPTICK)).
  destruct (decide _) as [?|_]; [done|]. rewrite Z.geb_leb. destruct (Z.leb_spec MAXBACKMS (s32 (backedoff k + tstart (timer k) * MSPTICK))) as [Hl|_]; [lia|].
  unfold settimer, tcprxmit. apply post_bind, post_bind, post_onbase, post_onconv, post_bind, post_bind, post_onbase, post_bind, post_onsnd, post_bind, post_onconv, post_bind, post_onbase.
  set (k2 := with_base _ _). assert (out k2 = out k /\ snd_ptr (snd k2) = snd_una (snd k) /\ closed_early c k2) as (Eo & Ep & Hk2).
  { split; [done|]. split; [done|]. destruct Hk as (E1 & E2 & E3 & E4 & E5 & E6 & E7 & E8 & E9 & E10 & E11). split; [done|]. split; [transitivity (flag SYNACK k); [exact (flag_lor k (Z.lor RETRAN FORCE) eq_refl)|done]|].
    do 6 (split; [done|]). split; [exact E9|]. split; [exact E9|exact E11]. }
  clearbody k2. clear k1 Hb. unfold tcpoutput. change 100%nat with (Datatypes.S 99). rewrite output_loop_S. apply post_bind.
  eapply post_mono; [apply (early_round c); [done|done|]; rewrite Ep; apply Hk|].
  intros more k3 (-> & l & seg & data & E3 & Hs). cbn [negb].
  assert (keeps (leaves any_out) (when (0 mod 4 =? 1) others ;; output_loop 99 (0 + 1))) as HK.
  { apply (keeps_bind _); [by apply (keeps_when _)|intros _; by apply leaves_loop]. }
  specialize (HK k3). set (m := bind (when (0 mod 4 =? 1) others) _) in *. unfold post at 1. clearbody m. destruct (m k3) as [[] k4| | |]; try done. destruct HK as (l2 & E4 & _).
  apply post_bind, post_onconv, post_onsnd. exists (l2 ++ l), seg, data. split; [|exact Hs]. 
  change (out k4 = (l2 ++ l) ++ Segment seg data :: out k). by rewrite E4, E3, Eo, app_assoc.
Qed.

(** What the other end makes of it. *)
Lemma text_shift n : text (fun i => str (i + 1)) 0 n = text str 1 n.
Proof. unfold text. change 1 with (1 + 0) at 2. rewrite <- fmap_add_seqZ, <- list_fmap_compose. apply list_fmap_ext. intros i x _. cbn. f_equal. lia. Qed.
Lemma early_received c s ok seg bp k F : seq seg = iss c -> tflag seg SYN = false -> tflag seg FIN = false -> tflag seg URG = false -> 0 < k < 2 ^ 16 - 2 -> 0 <= iss c < 2 ^ 32 ->
  opened c s -> cdata bp = text str 0 k -> Forall wfb bp -> qinv (bp ++ F) (rq s) (mem s) ->
  wp (rx_segment ok seg bp k) s (fun _ s' => exists n, Z.min (k - 1) (rwnd (rcv (tcb s))) <= n /\ cdata (bfirst (rq s')) = text str 1 n).
Proof.
  intros Eseq Hs Hf Hu Hk Hi (E1 & E2 & E3 & E4 & E5 & E6 & E7 & E8 & _) Hd Hwf Hq.
  set (str' := fun i => str (i + 1)).
  assert (rx_ok str' (seqno (iss c) 1) 0 [] (bp ++ F) s) as Hrx.
  { split; [|constructor]. split; rewrite ?E4; cbn; try done; try lia.
    - rewrite E1. change (seqno (seqno (iss c) 1) 0) with (u32 (seqno (iss c) 1 + 0)). by rewrite seqno_add.
    - unfold qlen. rewrite E6. lia.
    - constructor. }
  eapply wp_mono; [apply (rx_segment_spec str' (seqno (iss c) 1) ok 0 [] F (-1) seg bp k s Hrx); [|lia]|].
  - split; try done; [|lia|].
    + rewrite Eseq. change (seqno (seqno (iss c) 1) (-1)) with (u32 (seqno (iss c) 1 + -1)). rewrite seqno_add. symmetry. by apply seqno_0.
    + rewrite Hd. unfold text, str'. change 0 with (1 + -1). rewrite <- fmap_add_seqZ, <- list_fmap_compose. apply list_fmap_ext. intros i x _. cbn. f_equal. lia.
  - intros _ s' (n' & ps' & B1 & _ & B3 & B4). exists n'. rewrite E5 in B3. cbn in B3. rewrite Z.sub_0_r in B3. unfold str' in B3. rewrite text_shift in B3. split; [|exact B3].
    destruct (Z.eq_dec (rwnd (rcv (tcb s))) 0) as [->|]; [lia|]. destruct (Z.eq_dec k 1) as [->|]; [lia|].
    unfold in_window in B4. destruct (Z.eqb_spec k 0); [lia|]. specialize (B4 ltac:(lia) ltac:(lia)). lia.
Qed.
(** C31: a defect. [tcpclose] in [Syn_received] goes on to [Finwait1] although the SYN that has been sent may not have been acknowledged. From then on
    [tcpoutput] takes what starts at [iss] for a segment of a state in which the SYN is over: when the timer fires, the text is sent from the
    number of the SYN on, one octet too early, without the SYN; no truthful segment is like that. The other end, which has had the SYN and waits for the octet after it,
    takes the first octet for one it has: if the FIN is not in the same segment, what it reads starts with the second byte of the stream. *)
Theorem close_loses_first_byte c : outcome_ok -> keeps (leaves any_out) others -> well str c -> st c = Syn_received -> flag SYNACK c = false ->
  snd_ptr (snd c) <> iss c -> 0 < written c ->
  exists c1, handle Close c = Ret () c1 /\ st c1 = Finwait1 /\
    forall c2, s32 (backedoff c1 + tstart (timer c1) * MSPTICK) < MAXBACKMS -> handle Timer c1 = Ret () c2 ->
    exists l seg k, out c2 = l ++ Segment seg (text str 0 k) :: out c1 /\ 0 < k <= written c /\ seq seg = iss c /\ tflag seg SYN = false /\
      ~ truthful str (iss c) (written c) false (Segment seg (text str 0 k)) /\
      forall s ok bp F, tflag seg FIN = false -> k < 2 ^ 16 - 2 -> opened c s -> cdata bp = text str 0 k -> Forall wfb bp -> qinv (bp ++ F) (rq s) (mem s) ->
        exists s' n, rx_segment ok seg bp k s = Ret () s' /\ Z.min (k - 1) (rwnd (rcv (tcb s))) <= n /\ cdata (bfirst (rq s')) = text str 1 n.
Proof.
  intros Hok HO Hw Es Ef Hp HW.
  pose proof (wp_close_early c Hw Es Ef Hp HW) as ([] & c1 & E1 & Hc & _)%wp_exists. exists c1. split; [exact E1|]. split; [apply Hc|]. intros c2 Hb E2.
  pose proof (post_timer_early c c1 Hok HO Hc Hb) as H. unfold post in H. rewrite E2 in H. destruct H as (l & seg & data & Eo & Eseq & Hs & Hu & k & Hk & -> & _).
  pose proof Hc as (_ & _ & _ & _ & Hi & _ & _ & HW' & _). exists l, seg, k. split; [exact Eo|]. split; [exact Hk|]. split; [exact Eseq|]. split; [exact Hs|]. split.
  - intros (p & Ep & Hrest). rewrite Hs in Hrest. destruct Hrest as (_ & Hp1 & _ & Hfit & _). rewrite zlen_text in Hfit by lia.
    destruct Hfit as [Hfit|Hfit]; [apply (f_equal zlen) in Hfit; rewrite zlen_text in Hfit by lia; unfold zlen in Hfit; cbn in Hfit; lia|].
    rewrite Eseq in Ep. unfold seqno in Ep. destruct (u32_k (iss c + p)) as [j Ej]. lia.
  - intros s ok bp F Hf Hk2 Hop Hd Hwf Hq.
    pose proof (early_received c s ok seg bp k F Eseq Hs Hf Hu ltac:(lia) Hi Hop Hd Hwf Hq) as ([] & s' & E & n & H)%wp_exists. by exists s', n.
Qed.
End Session.

(** ** A conversation, from the call on *)
Definition drive (l : list Event) (c : Conv) : Conv := fold_left (fun c e => after (handle demo_str e) c) l c.
(** Called, answered, four bytes written and sent. *)
Definition demo_answered : Conv := drive [Input demo_ack [] 0] demo_started.
Definition demo_wrote : Conv := drive [Write 4] demo_answered.
Definition demo_sent : Conv := drive [Kick] demo_wrote.

Lemma demo_answer_allowed : allowed (Input demo_ack [] 0) demo_started.
Proof.
  split; [|split; [|by vm_compute]].
  - destruct demo_started_well as [F (M & _)]. exists F. exact M.
  - split; [constructor|]. cbn. by vm_compute.
Qed.
Lemma demo_step e c : allowed e c -> value (handle demo_str e) c = Some () -> step demo_str c (drive [e] c).
Proof. intros Ha E. exists e. split; [exact Ha|left]. by apply ret_after. Qed.
Lemma front_one {A} (x y : A) l L : x :: L = l ++ y :: L -> x = y.
Proof. intros E. change (x :: L) with ([x] ++ L) in E. change (y :: L) with ([y] ++ L) in E. rewrite app_assoc in E. apply app_inv_tail in E. by destruct l as [|? [|]]; injection E. Qed.
Lemma ret_state {S A} (m : M S A) s a a' s1 s2 : m s = Ret a s1 -> m s = Ret a' s2 -> s1 = s2.
Proof. intros -> E. by injection E. Qed.
Lemma demo_drive e c : value (handle demo_str e) c = Some () -> handle demo_str e c = Ret () (drive [e] c).
Proof. intros E. by apply ret_after. Qed.
Lemma demo_steps : rtc (step demo_str) demo_started demo_sent.
Proof.
  eapply rtc_l; [apply (demo_step (Input demo_ack [] 0)); [exact demo_answer_allowed|by vm_compute]|].
  eapply rtc_l; [apply (demo_step (Write 4)); [|by vm_compute]|].
  { split; [done|]. split; [by vm_compute|]. split; [by vm_compute|]. split; [by vm_compute|by vm_compute]. }
  apply rtc_once. apply (demo_step Kick); [done|by vm_compute].
Qed.

Lemma demo_answered_handled : exists c', (handle demo_str (Input demo_ack [] 0) demo_started = Ret () c' \/
    exists er n, Input demo_ack [] 0 = Read n /\ handle demo_str (Input demo_ack [] 0) demo_started = Error er c') /\ well demo_str c'.
Proof. apply (conversation_safe demo_str); [exact (demo_rely demo_str)|exact demo_started_well|exact demo_answer_allowed]. Defined.

Lemma session_invariant_witness : Forall (truthful demo_str (iss demo_sent) (written demo_sent) (wqopen demo_sent)) (out demo_sent) /\ on (timer demo_sent) = TcptimerON.
Proof.
  destruct (session_invariant demo_str TCP_CONNECT DEF_MSS demo_fresh demo_started demo_sent) as (H1 & H2); [exact (demo_rely demo_str)|by intros|exact demo_fresh_ok|reflexivity|split; reflexivity|..].
  - unfold demo_started. apply ret_after. by vm_compute.
  - exact demo_steps.
  - split; [exact H1|]. destruct H2 as [_ H2]; [split; vm_compute; discriminate|]. apply H2; [discriminate|]. vm_compute. discriminate.
Defined.

(** The other end, with the segment in two of its blocks' memory. *)
Definition demo_peer : Ts :=
  mkTs (mkTcb (mkRcv 4294967291 65535 0 false 0 0) [] 0 QMAX 0 0 1460 1460 8760 0 0 0 0 0) (new_queue QMAX Qcoalesce false) bst2.
Definition demo_four : Tcp := mkTcp 80 1024 4294967291 70001 (Z.lor ACK PSH) 0 65535 0 0 0.
Definition demo_received : Ts := after (rx_segment true demo_four [demo_text 0 0] 4) demo_peer.
Lemma demo_opened : opened demo_started demo_peer.
Proof.
  do 8 (split; [by vm_compute|]). exists [demo_text 0 0; demo_text 1 4]. split; try done.
Qed.
Lemma demo_arrives : arrives demo_str demo_sent 0 demo_four [demo_text 0 0] 4.
Proof.
  exists (mkTcp 1024 80 4294967291 70001 (Z.lor ACK PSH) 0 65535 0 0 0), (text demo_str 0 4).
  split; [vm_compute; by left|]. split; [done|]. split; [done|]. split; [done|]. do 6 (split; [by vm_compute|]).
  split; [apply Forall_singleton; vm_compute; intuition discriminate|].
  intros p _ Hp Hw _. assert (written demo_sent = 4) as E by (by vm_compute). lia.
Qed.
Lemma stream_prefix_witness : exists n, 0 <= n <= written demo_sent /\ cdata (bfirst (rq demo_received)) = text demo_str 0 n.
Proof.
  apply (stream_prefix demo_str demo_started demo_peer demo_sent demo_received []);
    [exact (demo_rely demo_str)|apply demo_others; apply _|exact demo_started_well|by vm_compute|exact demo_opened|].
  eapply rtc_r; [|eapply (ex_deliver demo_str true demo_four [demo_text 0 0] 4 [demo_text 1 4] ())].
  - assert (forall c, rtc (step demo_str) demo_started c -> rtc (exchange demo_str) (demo_started, demo_peer, []) (c, demo_peer, [])) as H.
    { intros c Hc. induction Hc as [|a b d Hab _ IH]; [reflexivity|]. eapply rtc_l; [by apply ex_send|exact IH]. }
    apply H, demo_steps.
  - exact demo_arrives.
  - split; try done.
  - unfold demo_received. apply ret_after. by vm_compute.
Defined.

(** ** A close too early *)
(** Both ends call at once, the other with a window of three; the user closes before the SYN has been acknowledged. *)
Definition demo_syn : Tcp := mkTcp 80 1024 70000 0 SYN 0 3 0 1460 0.
Definition demo_said : Conv := drive [Write 4] demo_started.
Definition demo_kicked : Conv := drive [Kick] demo_said.
Definition demo_crossed : Conv := drive [Input demo_syn [] 0] demo_kicked.
Lemma demo_crossed_well : well demo_str demo_crossed.
Proof.
  assert (rtc (step demo_str) demo_started demo_kicked) as Hk.
  { eapply rtc_l; [apply (demo_step (Write 4)); [|by vm_compute]|].
    { split; [done|]. split; [by vm_compute|]. split; [by vm_compute|]. split; by vm_compute. }
    apply rtc_once. apply (demo_step Kick); [done|by vm_compute]. }
  refine (well_steps demo_str _ _ (demo_rely demo_str) _ demo_started_well). eapply rtc_r; [exact Hk|]. apply (demo_step (Input demo_syn [] 0)); [|by vm_compute].
  pose proof (well_steps demo_str _ _ (demo_rely demo_str) Hk demo_started_well) as [F (M & _)].
  split; [exists F; exact M|]. split; [split; [constructor|by vm_compute]|by vm_compute].
Qed.
Lemma demo_peer_opened : opened demo_crossed demo_peer.
Proof.
  do 8 (split; [by vm_compute|]). exists [demo_text 0 0; demo_text 1 4]. split; try done.
Qed.
(** The closed one, the segment its timer sends, and its text as it arrives. *)
Definition demo_closing : Conv := drive [Close] demo_crossed.
Definition demo_early : Conv := drive [Timer] demo_closing.
Definition demo_resent : Tcp := mkTcp 1024 80 4294967290 70001 ACK 0 65535 0 0 0.
Definition demo_three : Block := demo_block 0 (text demo_str 0 3).
Lemma close_loses_first_byte_witness : out demo_early = Segment demo_resent (text demo_str 0 3) :: out demo_closing /\
  ~ truthful demo_str (iss demo_crossed) (written demo_crossed) false (Segment demo_resent (text demo_str 0 3)) /\
  exists s' n, rx_segment true demo_resent [demo_three] 3 demo_peer = Ret () s' /\ 2 <= n /\ cdata (bfirst (rq s')) = text demo_str 1 n.
Proof.
  destruct (close_loses_first_byte demo_str demo_crossed) as (c1 & E1 & _ & H); [discriminate|apply demo_others; apply _|exact demo_crossed_well|by vm_compute|by vm_compute|by vm_compute|by vm_compute|].
  assert (handle demo_str Close demo_crossed = Ret () demo_closing) as E1' by (unfold demo_closing; apply demo_drive; by vm_compute).
  pose proof (ret_state _ _ _ _ _ _ E1 E1') as ->. clear E1 E1'.
  destruct (H demo_early) as (l & seg & k & Eo & Hk & _ & _ & Hnt & Hrx); [by vm_compute|unfold demo_early; apply demo_drive; by vm_compute|].
  assert (out demo_early = Segment demo_resent (text demo_str 0 3) :: out demo_closing) as Eo' by (by vm_compute).
  split; [exact Eo'|]. rewrite Eo' in Eo. apply front_one in Eo. injection Eo as <- Ek.
  assert (k = 3) as -> by (apply (f_equal zlen) in Ek; rewrite !zlen_text in Ek by lia; lia).
  split; [exact Hnt|]. 
  assert (qinv ([demo_three] ++ [demo_text 1 4]) (rq demo_peer) (mem demo_peer)) as Hq by (split; [constructor|done|done|by intros ?|split; [done|by vm_compute]]).
  assert (Forall wfb [demo_three]) as Hwf by (apply Forall_singleton; vm_compute; intuition discriminate).
  assert (cdata [demo_three] = text demo_str 0 3) as Hd by (by vm_compute).
  assert (tflag demo_resent FIN = false) as Hf by (by vm_compute).
  destruct (Hrx demo_peer true [demo_three] [demo_text 1 4] Hf eq_refl demo_peer_opened Hd Hwf Hq) as (s' & n & Er & Hn & Ed).
  exists s', n. split; [exact Er|]. split; [exact Hn|exact Ed].
Defined.
