(* ===== verification/Qlock.v ===== *)
(** * Sleeping locks: port/qlock.c

    A [QLock] or [RWlock] has a queue of waiting processes, linked through
    [Proc.qnext] with a [head] and a [tail]; the pointers are modelled as they
    are.  Every routine holds the spin lock [use] from its first access to the
    structure to its last, so it is one step of the interleaving: a process that
    must wait puts itself on the queue and calls [sched] ([false] here), and
    has the lock when another process's release has made it ready.

    The abstract side is a list of holders and a list of waiters; the routines
    are shown to implement it and it is shown to exclude, to queue first come
    first served, and never to leave a free lock with waiters. *)

From stdpp Require Import base list gmap strings.
From Stdlib Require Import ZArith Lia.
From S2P Require Import Prelude.
Open Scope Z_scope.
Open Scope nix_scope.

(** ** Processes (port/portdat.h) *)

Inductive Pstate :=
  | Dead | Moribund | Ready | Scheding | Running | Queueing | QueueingR | QueueingW
  | Wakeme | Broken | Stopped | Rendezvous | Waitrelease.
#[export] Instance Pstate_eq_dec : EqDecision Pstate.
Proof. solve_decision. Defined.

(** The fields of a [Proc] these routines use. *)
Record Proc := mkProc { qnext : option nat; state : Pstate; procqpc : Z }.
Definition set_qnext x p := mkProc x (state p) (procqpc p).
Definition set_state x p := mkProc (qnext p) x (procqpc p).
Definition set_procqpc x p := mkProc (qnext p) (state p) x.

(** The processes and, oldest first, the ones made ready. *)
Record St := mkSt { procs : gmap nat Proc; readied : list nat }.

Definition deref (p : nat) : M St Proc := fun s =>
  match procs s !! p with Some x => Ret x s | None => Undef "bad process"%string end.
Definition assign (p : nat) (g : Proc -> Proc) : M St () := fun s =>
  match procs s !! p with
  | Some x => Ret tt (mkSt (<[p := g x]> (procs s)) (readied s))
  | None => Undef "bad process"%string
  end.

(** The state [ready] gives a process; the run queue it goes to is logged. *)
Definition ready (p : nat) : M St () :=
  assign p (set_state Ready) ;; modify (fun s => mkSt (procs s) (readied s ++ [p])).

Record QLock := mkQLock { q_head : option nat; q_tail : option nat; locked : Z; qpc : Z }.
Record RWlock := mkRWlock {
  head : option nat; tail : option nat; wpc : Z; wproc : option nat; readers : Z; writer : Z
}.
Record Rwstats := mkRwstats { s_rlock : Z; s_rlockq : Z; s_wlock : Z; s_wlockq : Z; s_qlock : Z; s_qlockq : Z }.

Definition set_q_list h t q := mkQLock h t (locked q) (qpc q).
Definition set_locked x c q := mkQLock (q_head q) (q_tail q) x c.
Definition set_qpc c q := mkQLock (q_head q) (q_tail q) (locked q) c.
Definition set_list h t q := mkRWlock h t (wpc q) (wproc q) (readers q) (writer q).
Definition set_readers x q := mkRWlock (head q) (tail q) (wpc q) (wproc q) x (writer q).
Definition set_writer x q := mkRWlock (head q) (tail q) (wpc q) (wproc q) (readers q) x.
Definition set_wproc c p q := mkRWlock (head q) (tail q) c p (readers q) (writer q).

Definition inc_rlock r := mkRwstats (u32 (s_rlock r + 1)) (s_rlockq r) (s_wlock r) (s_wlockq r) (s_qlock r) (s_qlockq r).
Definition inc_rlockq r := mkRwstats (s_rlock r) (u32 (s_rlockq r + 1)) (s_wlock r) (s_wlockq r) (s_qlock r) (s_qlockq r).
Definition inc_wlock r := mkRwstats (s_rlock r) (s_rlockq r) (u32 (s_wlock r + 1)) (s_wlockq r) (s_qlock r) (s_qlockq r).
Definition inc_wlockq r := mkRwstats (s_rlock r) (s_rlockq r) (s_wlock r) (u32 (s_wlockq r + 1)) (s_qlock r) (s_qlockq r).
Definition inc_qlock r := mkRwstats (s_rlock r) (s_rlockq r) (s_wlock r) (s_wlockq r) (u32 (s_qlock r + 1)) (s_qlockq r).
Definition inc_qlockq r := mkRwstats (s_rlock r) (s_rlockq r) (s_wlock r) (s_wlockq r) (s_qlock r) (u32 (s_qlockq r + 1)).

(** A lock, the processes and [rwstats]. *)
Record Ls (L : Type) := mkLs { lk : L; st : St; stats : Rwstats }.
Arguments mkLs {L} _ _ _.
Arguments lk {L} _.
Arguments st {L} _.
Arguments stats {L} _.

Definition onst {L A} (m : M St A) : M (Ls L) A := fun s =>
  match m (st s) with
  | Ret a x => Ret a (mkLs (lk s) x (stats s))
  | Error e x => Error e (mkLs (lk s) x (stats s))
  | Panic msg => Panic msg
  | Undef msg => Undef msg
  end.
Definition upd {L} (g : L -> L) : M (Ls L) () := modify (fun s => mkLs (g (lk s)) (st s) (stats s)).
Definition count {L} (g : Rwstats -> Rwstats) : M (Ls L) () := modify (fun s => mkLs (lk s) (st s) (g (stats s))).

(** ** The queue of waiting processes *)

(** [p = q->tail; if(p == 0) q->head = up; else p->qnext = up; q->tail = up; up->qnext = 0;
    up->state = st]: the new head and tail. *)
Definition enqueue (up : nat) (st : Pstate) (h t : option nat) : M St (option nat * option nat) :=
  h <- match t with
       | None => ret (Some up)
       | Some p => assign p (set_qnext (Some up)) ;; ret h
       end ;;
  assign up (set_qnext None) ;;
  assign up (set_state st) ;;
  ret (h, Some up).

(** [q->head = p->qnext; if(q->head == 0) q->tail = 0] *)
Definition dequeue (p : nat) (t : option nat) : M St (option nat * option nat) :=
  x <- deref p ;;
  ret (qnext x, if bool_decide (qnext x = None) then None else t).

(** ** Exclusive locks *)

(** [up]: the process that calls, [None] at interrupt level. *)
Definition qlock (up : option nat) (pc : Z) : M (Ls QLock) bool :=
  count inc_qlock ;;
  q <- gets lk ;;
  if locked q =? 0 then upd (set_locked 1 pc) ;; ret true
  else
    match up with
    | None => panic "qlock"%string
    | Some up =>
      count inc_qlockq ;;
      let* (h, t) := onst (enqueue up Queueing (q_head q) (q_tail q)) in
      upd (set_q_list h t) ;;
      onst (assign up (set_procqpc pc)) ;;
      ret false
    end.
(** After [sched()] in [qlock]. *)
Definition qlock_resume (pc : Z) : M (Ls QLock) () := upd (set_qpc pc).

(** [use_free]: whether [canlock] gets the spin lock. *)
Definition canqlock (use_free : bool) (pc : Z) : M (Ls QLock) bool :=
  if negb use_free then ret false
  else
    q <- gets lk ;;
    if negb (locked q =? 0) then ret false
    else upd (set_locked 1 pc) ;; ret true.

Definition qunlock : M (Ls QLock) () :=
  q <- gets lk ;;
  match q_head q with
  | Some p =>
    let* (h, t) := onst (dequeue p (q_tail q)) in
    upd (set_q_list h t) ;;
    onst (ready p)
  | None => upd (set_locked 0 0)
  end.

(** ** Readers and writers *)

Definition rlock (up : option nat) : M (Ls RWlock) bool :=
  count inc_rlock ;;
  q <- gets lk ;;
  if (writer q =? 0) && bool_decide (head q = None) then
    upd (set_readers (s32 (readers q + 1))) ;; ret true
  else
    count inc_rlockq ;;
    match up with
    | None => panic "rlock"%string
    | Some up =>
      let* (h, t) := onst (enqueue up QueueingR (head q) (tail q)) in
      upd (set_list h t) ;; ret false
    end.

Definition runlock : M (Ls RWlock) () :=
  q <- gets lk ;;
  let n := s32 (readers q - 1) in
  upd (set_readers n) ;;
  match head q with
  | None => ret tt
  | Some p =>
    if n >? 0 then ret tt
    else
      (* start waiting writer *)
      x <- onst (deref p) ;;
      if bool_decide (state x <> QueueingW) then panic "runlock"%string
      else
        let* (h, t) := onst (dequeue p (tail q)) in
        upd (set_list h t) ;;
        upd (set_writer 1) ;;
        onst (ready p)
  end.

Definition wlock (up : option nat) (pc : Z) : M (Ls RWlock) bool :=
  count inc_wlock ;;
  q <- gets lk ;;
  if (readers q =? 0) && (writer q =? 0) then
    upd (set_wproc pc up) ;; upd (set_writer 1) ;; ret true
  else
    count inc_wlockq ;;
    match up with
    | None => panic "wlock"%string
    | Some up =>
      let* (h, t) := onst (enqueue up QueueingW (head q) (tail q)) in
      upd (set_list h t) ;; ret false
    end.

(** [while(q->head != nil && q->head->state == QueueingR)] *)
Fixpoint wake_readers (fuel : nat) : M (Ls RWlock) () :=
  match fuel with
  | O => undef "fuel"%string
  | S fuel =>
    q <- gets lk ;;
    match head q with
    | None => ret tt
    | Some p =>
      x <- onst (deref p) ;;
      if bool_decide (state x = QueueingR) then
        upd (set_list (qnext x) (tail q)) ;;
        upd (set_readers (s32 (readers q + 1))) ;;
        onst (ready p) ;;
        wake_readers fuel
      else ret tt
    end
  end.

Definition wunlock : M (Ls RWlock) () :=
  q <- gets lk ;;
  match head q with
  | None => upd (set_writer 0)
  | Some p =>
    x <- onst (deref p) ;;
    if bool_decide (state x = QueueingW) then
      (* start waiting writer *)
      let* (h, t) := onst (dequeue p (tail q)) in
      upd (set_list h t) ;;
      onst (ready p)
    else if bool_decide (state x <> QueueingR) then panic "wunlock"%string
    else
      (* waken waiting readers: a process is on the queue once *)
      n <- gets (fun s => size (procs (st s))) ;;
      wake_readers (S n) ;;
      upd (fun q => if bool_decide (head q = None) then set_list None None q else q) ;;
      upd (set_writer 0)
  end.

Definition canrlock : M (Ls RWlock) bool :=
  count inc_rlock ;;
  q <- gets lk ;;
  if (writer q =? 0) && bool_decide (head q = None) then
    upd (set_readers (s32 (readers q + 1))) ;; ret true
  else ret false.

(** ** The abstract locks *)

Inductive want := WantR | WantW.
#[export] Instance want_eq_dec : EqDecision want.
Proof. solve_decision. Defined.

(** Who holds the lock and who waits, in order. *)
Record Rw := mkRw { rholders : list nat; wholder : option nat; waiting : list (nat * want) }.

Inductive rwop := Rlock (p : nat) | Runlock (p : nat) | Wlock (p : nat) | Wunlock (p : nat) | Canrlock (p : nat).

Definition is_reader (x : nat * want) : bool := match x.2 with WantR => true | WantW => false end.
Fixpoint remove1 (p : nat) (l : list nat) : list nat :=
  match l with [] => [] | x :: l => if decide (x = p) then l else x :: remove1 p l end.
Fixpoint leading_readers (l : list (nat * want)) : list nat * list (nat * want) :=
  match l with
  | (p, WantR) :: l => let '(r, l) := leading_readers l in (p :: r, l)
  | _ => ([], l)
  end.

(** The state after an operation and whether it got the lock. *)
Definition rw_next (o : rwop) (a : Rw) : Rw * bool :=
  match o with
  | Rlock p =>
    match wholder a, waiting a with
    | None, [] => (mkRw (p :: rholders a) None [], true)
    | _, _ => (mkRw (rholders a) (wholder a) (waiting a ++ [(p, WantR)]), false)
    end
  | Canrlock p =>
    match wholder a, waiting a with
    | None, [] => (mkRw (p :: rholders a) None [], true)
    | _, _ => (a, false)
    end
  | Wlock p =>
    match rholders a, wholder a with
    | [], None => (mkRw [] (Some p) (waiting a), true)
    | _, _ => (mkRw (rholders a) (wholder a) (waiting a ++ [(p, WantW)]), false)
    end
  | Runlock p =>
    match remove1 p (rholders a), waiting a with
    | [], (w, _) :: l => (mkRw [] (Some w) l, true)
    | r, l => (mkRw r (wholder a) l, true)
    end
  | Wunlock p =>
    match waiting a with
    | (w, WantW) :: l => (mkRw (rholders a) (Some w) l, true)
    | l => let '(r, l) := leading_readers l in (mkRw (rev r ++ rholders a) None l, true)
    end
  end.

Definition rw_excludes (a : Rw) : Prop := wholder a <> None -> rholders a = [].

(** The invariant: a writer holds the lock alone; a lock with waiters is held;
    the readers in front wait for a writer; a process waits once. *)
Record rw_ok (a : Rw) : Prop := {
  ok_excludes : rw_excludes a;
  ok_held : waiting a <> [] -> wholder a <> None \/ rholders a <> [];
  ok_front : forall p l, waiting a = (p, WantR) :: l -> wholder a <> None;
  ok_once : NoDup (waiting a).*1
}.

(** What a process may do: it is not waiting; it unlocks what it holds; the
    count of readers stays an [int]. *)
Definition rwop_ok (o : rwop) (a : Rw) : Prop :=
  match o with
  | Rlock p | Wlock p | Canrlock p => p ∉ (waiting a).*1
  | Runlock p => p ∈ rholders a
  | Wunlock p => wholder a = Some p
  end /\ zlen (rholders a) + zlen (waiting a) < 2 ^ 31 - 1.

Definition run_rw (o : rwop) : M (Ls RWlock) bool :=
  match o with
  | Rlock p => rlock (Some p)
  | Wlock p => wlock (Some p) 0
  | Canrlock p => canrlock
  | Runlock p => runlock ;; ret true
  | Wunlock p => wunlock ;; ret true
  end.
Definition actor (o : rwop) : nat :=
  match o with Rlock p | Runlock p | Wlock p | Wunlock p | Canrlock p => p end.

(** ** The queue as a list *)

Fixpoint chain (ps : gmap nat Proc) (p : option nat) (l : list nat) : Prop :=
  match l with
  | [] => p = None
  | x :: l => p = Some x /\ exists pr, ps !! x = Some pr /\ chain ps (qnext pr) l
  end.

Record waitq (ps : gmap nat Proc) (h t : option nat) (l : list (nat * Pstate)) : Prop := {
  wq_chain : chain ps h l.*1;
  wq_tail : t = last l.*1;
  wq_once : NoDup l.*1;
  wq_state : forall p k, (p, k) ∈ l -> state <$> ps !! p = Some k
}.

Lemma chain_other ps p l x y : x ∉ l -> chain ps p l -> chain (<[x := y]> ps) p l.
Proof.
  revert p. induction l as [|z l IH]; intros p Hx; [done|]. apply not_elem_of_cons in Hx as [Hz Hx].
  intros (-> & pr & Hpr & Hc). split; [done|]. exists pr. rewrite lookup_insert_ne by done. auto.
Qed.

Lemma chain_snoc ps h l t pr up u : up ∉ l ++ [t] -> NoDup (l ++ [t]) ->
  ps !! t = Some pr -> qnext u = None -> chain ps h (l ++ [t]) ->
  chain (<[up := u]> (<[t := set_qnext (Some up) pr]> ps)) h ((l ++ [t]) ++ [up]).
Proof.
  intros Hup Hnd Ht Hu. revert h. induction l as [|x l IH]; intros h; cbn [app chain] in *.
  - intros (-> & pr' & Hpr' & _). split; [done|]. apply not_elem_of_cons in Hup as [Hup _].
    exists (set_qnext (Some up) pr). rewrite lookup_insert_ne, lookup_insert_eq by done.
    split; [done|]. split; [done|]. exists u. by rewrite lookup_insert_eq.
  - intros (-> & pr' & Hpr' & Hc). split; [done|]. apply not_elem_of_cons in Hup as [Hup1 Hup].
    apply NoDup_cons in Hnd as [Hx Hnd]. exists pr'.
    rewrite !lookup_insert_ne by (intros ->; set_solver). split; [done|]. by apply IH.
Qed.

Lemma chain_ext ps ps' p l : (forall x, x ∈ l -> qnext <$> ps' !! x = qnext <$> ps !! x) ->
  chain ps p l -> chain ps' p l.
Proof.
  revert p. induction l as [|x l IH]; intros p He; [done|]. intros (-> & pr & Hpr & Hc).
  split; [done|]. pose proof (He x ltac:(left)) as Hx. rewrite Hpr in Hx.
  destruct (ps' !! x) as [pr'|] eqn:E; [|done]. cbn in Hx. injection Hx as Hq. exists pr'.
  split; [done|]. rewrite Hq. apply IH; [|done]. intros y Hy. apply He. by right.
Qed.

Lemma wp_onst {L A} (m : M St A) (s : Ls L) Q :
  wp m (st s) (fun a x => Q a (mkLs (lk s) x (stats s))) -> wp (onst m) s Q.
Proof. unfold wp, onst. by destruct (m (st s)). Qed.
Lemma wp_upd {L} (g : L -> L) (s : Ls L) (Q : () -> Ls L -> Prop) :
  Q tt (mkLs (g (lk s)) (st s) (stats s)) -> wp (upd g) s Q.
Proof. done. Qed.
Lemma wp_lock_count {L} g (s : Ls L) (Q : () -> Ls L -> Prop) :
  Q tt (mkLs (lk s) (st s) (g (stats s))) -> wp (count g) s Q.
Proof. done. Qed.
Lemma wp_proc_deref p pr s (Q : Proc -> St -> Prop) : procs s !! p = Some pr -> Q pr s -> wp (deref p) s Q.
Proof. intros E H. unfold wp, deref. by rewrite E. Qed.
Lemma wp_proc_assign p g pr s (Q : () -> St -> Prop) : procs s !! p = Some pr ->
  Q tt (mkSt (<[p := g pr]> (procs s)) (readied s)) -> wp (assign p g) s Q.
Proof. intros E H. unfold wp, assign. by rewrite E. Qed.

(** What a routine does to processes: it forgets none. *)
Definition keeps (s s' : St) : Prop := forall p, is_Some (procs s !! p) -> is_Some (procs s' !! p).

Lemma keeps_insert s p x l r : keeps s (mkSt l r) -> keeps s (mkSt (<[p := x]> l) r).
Proof.
  intros H q Hq. cbn. destruct (decide (p = q)) as [->|N]; [by rewrite lookup_insert_eq|].
  rewrite lookup_insert_ne by done. by apply H.
Qed.

Lemma fst_snoc {A} l (x : nat) (k : A) : (l ++ [(x, k)]).*1 = l.*1 ++ [x].
Proof. by rewrite fmap_app. Qed.

Lemma wp_wait_enqueue up k h t l s : waitq (procs s) h t l -> up ∉ l.*1 -> is_Some (procs s !! up) ->
  wp (enqueue up k h t) s (fun '(h', t') s' => waitq (procs s') h' t' (l ++ [(up, k)]) /\
    readied s' = readied s /\ keeps s s').
Proof.
  intros [Hc Ht Hn Hs] Hup [u Hu]. unfold enqueue.
  assert (forall ps h', chain ps h' (l.*1 ++ [up]) ->
    (forall p, p ∈ l.*1 -> state <$> ps !! p = state <$> procs s !! p) -> state <$> ps !! up = Some k ->
    waitq ps h' (Some up) (l ++ [(up, k)])) as Hfin.
  { intros ps h' Hc' Hst Hstu. split; rewrite ?fst_snoc, ?last_snoc; try done.
    - apply NoDup_app. split; [done|]. split; [by intros y Hy ->%list_elem_of_singleton | apply NoDup_singleton].
    - intros p k' [Hp|Hp]%elem_of_app.
      + rewrite Hst by (apply list_elem_of_fmap; by exists (p, k')). by apply Hs.
      + apply list_elem_of_singleton in Hp as [= -> ->]. done. }
  destruct (rev l) as [|[x kx] l0] eqn:E; apply (f_equal (@rev _)) in E; rewrite rev_involutive in E; subst l.
  - cbn in Ht, Hc. subst t h. wp_steps. eapply wp_proc_assign; [done|]. wp_steps.
    eapply wp_proc_assign; [cbn; by rewrite lookup_insert_eq|]. wp_steps. cbn [procs readied].
    split_and!; [|done | by apply keeps_insert, keeps_insert; intros ?].
    apply Hfin; [|by intros p Hp%elem_of_nil | by rewrite lookup_insert_eq].
    cbn. split; [done|]. eexists. by rewrite lookup_insert_eq.
  - cbn [rev] in *. rewrite fst_snoc in Hc, Ht, Hn, Hup, Hfin. rewrite last_snoc in Ht. subst t.
    assert (exists pr, procs s !! x = Some pr) as [pr Hpr].
    { specialize (Hs x kx ltac:(set_solver)). destruct (procs s !! x); [by eexists | done]. }
    assert (up <> x) by set_solver.
    wp_steps. eapply wp_proc_assign; [exact Hpr|]. wp_steps. cbn [procs].
    eapply wp_proc_assign; [cbn; by rewrite lookup_insert_ne|]. wp_steps.
    eapply wp_proc_assign; [cbn; by rewrite lookup_insert_eq|]. wp_steps. cbn [procs readied].
    rewrite insert_insert_eq. split_and!; [|done | by apply keeps_insert, keeps_insert; intros ?].
    apply Hfin; [by apply chain_snoc | | by rewrite lookup_insert_eq].
    intros p Hp. rewrite lookup_insert_ne by (intros ->; done).
    destruct (decide (x = p)) as [->|N]; [by rewrite lookup_insert_eq, Hpr | by rewrite lookup_insert_ne].
Qed.

(** Where the head is, for the code that looks at it. *)
Lemma waitq_head ps p k l h t : waitq ps h t ((p, k) :: l) ->
  h = Some p /\ exists pr, ps !! p = Some pr /\ state pr = k /\
    waitq ps (qnext pr) (if bool_decide (qnext pr = None) then None else t) l.
Proof.
  intros [Hc Ht Hn Hs]. cbn in Hc, Hn, Ht. destruct Hc as (-> & pr & Hpr & Hc). split; [done|].
  apply NoDup_cons in Hn as [_ Hn]. exists pr. split; [done|].
  pose proof (Hs p k ltac:(left)) as Hk. rewrite Hpr in Hk. injection Hk as Hk. split; [done|].
  split; [done | | done | intros q k' Hq; apply Hs; by right].
  destruct l as [|[x kx] l]; cbn in Hc |- *; [by rewrite Hc|]. destruct Hc as [Hx _].
  rewrite Hx, bool_decide_eq_false_2 by done. exact Ht.
Qed.
Lemma waitq_nil ps h t : waitq ps h t [] -> h = None.
Proof. by intros [Hc _ _ _]. Qed.
Lemma waitq_empty ps : waitq ps None None [].
Proof. split; try done; [constructor | by intros p k Hp%elem_of_nil]. Qed.

Lemma waitq_ready ps p pr h t l : waitq ps h t l -> p ∉ l.*1 ->
  waitq (<[p := set_state Ready pr]> ps) h t l.
Proof.
  intros [Hc Ht Hn Hs] Hp. split; try done; [by apply chain_other|].
  intros q k Hq. rewrite lookup_insert_ne; [by apply Hs|]. intros ->. apply Hp.
  apply list_elem_of_fmap. by exists (q, k).
Qed.

(** Handing the lock to the process at the head. *)
Lemma wp_ready p pr h t l s : procs s !! p = Some pr -> waitq (procs s) h t l -> p ∉ l.*1 ->
  wp (ready p) s (fun _ s' => waitq (procs s') h t l /\ readied s' = readied s ++ [p] /\
    keeps s s' /\ state <$> procs s' !! p = Some Ready).
Proof.
  intros Hp Hw Hn. unfold ready. wp_steps. eapply wp_proc_assign; [done|]. wp_steps. cbn [procs readied].
  split_and!; [by apply waitq_ready | done | by apply keeps_insert; intros ? | by rewrite lookup_insert_eq].
Qed.

Lemma waitq_once ps p k l h t : waitq ps h t ((p, k) :: l) -> p ∉ l.*1.
Proof. intros [_ _ Hn _]. by apply NoDup_cons in Hn as [? _]. Qed.

(** ** The routines of an [RWlock] implement the abstract lock *)

Definition qstate (w : want) : Pstate := match w with WantR => QueueingR | WantW => QueueingW end.
Definition qentry (x : nat * want) : nat * Pstate := (x.1, qstate x.2).

Record rep (a : Rw) (s : Ls RWlock) : Prop := {
  rep_readers : readers (lk s) = zlen (rholders a);
  rep_writer : writer (lk s) = match wholder a with Some _ => 1 | None => 0 end;
  rep_queue : waitq (procs (st s)) (head (lk s)) (tail (lk s)) (qentry <$> waiting a)
}.

Lemma qentry_fst l : (qentry <$> l).*1 = l.*1.
Proof. rewrite <- list_fmap_compose. by apply list_fmap_ext. Qed.
Lemma zlen_pos {A} (l : list A) : (zlen l =? 0) = match l with [] => true | _ => false end.
Proof. destruct l; [done|]. rewrite zlen_cons. pose proof (zlen_nonneg l). apply Z.eqb_neq. lia. Qed.
Lemma s32_int x : - 2 ^ 31 <= x < 2 ^ 31 -> s32 x = x.
Proof. apply (sgn_small 32). lia. Qed.

(** What an operation leaves alone: processes and the log of [ready]. *)
Definition logs (g : list nat) (s s' : Ls RWlock) : Prop :=
  readied (st s') = readied (st s) ++ g /\ keeps (st s) (st s').

Definition can_wait (p : nat) (s : Ls RWlock) : Prop := is_Some (procs (st s) !! p).

Lemma rep_head_nil a s : rep a s -> bool_decide (head (lk s) = None) = match waiting a with [] => true | _ => false end.
Proof.
  intros [_ _ Hq]. destruct (waiting a) as [|[p k] l]; cbn in Hq.
  - by rewrite (waitq_nil _ _ _ Hq).
  - destruct (waitq_head _ _ _ _ _ _ Hq) as [-> _]. done.
Qed.
Lemma rep_writer_eqb a s : rep a s -> (writer (lk s) =? 0) = match wholder a with None => true | _ => false end.
Proof. intros [_ -> _]. by destruct (wholder a). Qed.

(** Joining the queue. *)
Lemma wp_join a s p w : rep a s -> p ∉ (waiting a).*1 -> can_wait p s ->
  wp (let* (h, t) := onst (enqueue p (qstate w) (head (lk s)) (tail (lk s))) in
      upd (set_list h t) ;; ret false) s (fun r s' =>
    r = false /\ rep (mkRw (rholders a) (wholder a) (waiting a ++ [(p, w)])) s' /\ logs [] s s').
Proof.
  intros [Hr Hw Hq] Hp Hup. wp_steps. apply wp_onst.
  eapply wp_mono; [apply (wp_wait_enqueue p (qstate w) _ _ _ _ Hq); [by rewrite qentry_fst | done]|].
  intros [h t] s' (Hq' & Hrd & Hk). wp_steps. apply wp_upd. wp_steps. split; [done|]. split.
  - split; [exact Hr | exact Hw|]. cbn. rewrite fmap_app. exact Hq'.
  - split; [by rewrite app_nil_r | exact Hk].
Qed.

Lemma wp_share a s p : rep a s -> wholder a = None -> waiting a = [] -> zlen (rholders a) < 2 ^ 31 - 1 ->
  wp (upd (set_readers (s32 (readers (lk s) + 1))) ;; ret true) s (fun r s' =>
    r = true /\ rep (mkRw (p :: rholders a) None []) s' /\ logs [] s s').
Proof.
  intros [Hr Hw Hq] Ew Eq Hb. wp_steps. apply wp_upd. wp_steps. split; [done|]. rewrite Ew, Eq in *. split.
  - split; cbn; [|done|done]. pose proof (zlen_nonneg (rholders a)).
    rewrite Hr, zlen_cons, s32_int by lia. lia.
  - split; [by rewrite app_nil_r | by intros q].
Qed.

(** The processes an operation makes ready. *)
Definition granted (o : rwop) (a : Rw) : list nat :=
  match o with
  | Runlock p =>
    match remove1 p (rholders a), waiting a with [], (w, _) :: _ => [w] | _, _ => [] end
  | Wunlock _ =>
    match waiting a with (w, WantW) :: _ => [w] | l => (leading_readers l).1 end
  | _ => []
  end.

(** What holds after an operation that implements [o]. *)
Definition implements (o : rwop) (a : Rw) (s : Ls RWlock) (r : bool) (s' : Ls RWlock) : Prop :=
  r = (rw_next o a).2 /\ rep (rw_next o a).1 s' /\ logs (granted o a) s s'.

Lemma wp_rlock p a s : rep a s -> rwop_ok (Rlock p) a -> can_wait p s ->
  wp (run_rw (Rlock p)) s (implements (Rlock p) a s).
Proof.
  intros Hr [Hp Hb] Hup. unfold implements. cbn [run_rw]. unfold rlock. wp_steps. apply wp_lock_count. wp_steps.
  cbn [lk st]. rewrite (rep_head_nil a) by done. rewrite (rep_writer_eqb a) by done. cbn [rw_next granted].
  pose proof (zlen_nonneg (waiting a)).
  destruct (wholder a) as [w|] eqn:Ew; [|destruct (waiting a) as [|x l] eqn:Eq]; cbn [andb].
  2: { eapply wp_mono; [apply (wp_share a (mkLs (lk s) (st s) (inc_rlock (stats s))) p); try done; [by destruct Hr | lia]|].
       done. }
  all: wp_steps; apply wp_lock_count; cbn [lk st];
    (eapply wp_mono; [apply (wp_join a (mkLs (lk s) (st s) (inc_rlockq (inc_rlock (stats s)))) p WantR);
      [by destruct Hr | by rewrite ?Eq | done]|]); rewrite ?Ew, ?Eq; done.
Qed.

Lemma wp_canrlock p a s : rep a s -> rwop_ok (Canrlock p) a ->
  wp (run_rw (Canrlock p)) s (implements (Canrlock p) a s).
Proof.
  intros Hr [Hp Hb]. unfold implements. cbn [run_rw]. unfold canrlock. wp_steps. apply wp_lock_count. wp_steps.
  cbn [lk st]. rewrite (rep_head_nil a) by done. rewrite (rep_writer_eqb a) by done. cbn [rw_next granted].
  pose proof (zlen_nonneg (waiting a)).
  assert (logs [] s (mkLs (lk s) (st s) (inc_rlock (stats s)))) as Hl by (split; [by rewrite app_nil_r | by intros q]).
  destruct (wholder a) as [w|] eqn:Ew; [|destruct (waiting a) as [|x l] eqn:Eq]; cbn [andb].
  2: { eapply wp_mono; [apply (wp_share a (mkLs (lk s) (st s) (inc_rlock (stats s))) p); try done; [by destruct Hr | lia]|].
       done. }
  all: apply wp_ret; split; [done|]; split; [by destruct Hr | done].
Qed.

Lemma wp_wlock p a s : rep a s -> rwop_ok (Wlock p) a -> can_wait p s ->
  wp (run_rw (Wlock p)) s (implements (Wlock p) a s).
Proof.
  intros Hr [Hp Hb] Hup. unfold implements. cbn [run_rw]. unfold wlock. wp_steps. apply wp_lock_count. wp_steps.
  cbn [lk st]. rewrite (rep_writer_eqb a s Hr). rewrite (rep_readers a s Hr), zlen_pos. cbn [rw_next granted].
  destruct (rholders a) as [|x l] eqn:Er; [destruct (wholder a) as [w|] eqn:Ew|]; cbn [andb].
  2: { wp_steps. apply wp_upd. wp_steps. apply wp_upd. wp_steps. split; [done|].
       destruct Hr as [Hr1 Hr2 Hr3]. split; [split; [cbn; by rewrite Hr1, Er | done | done]|].
       split; [by rewrite app_nil_r | by intros q]. }
  all: wp_steps; apply wp_lock_count; cbn [lk st];
    (eapply wp_mono; [apply (wp_join a (mkLs (lk s) (st s) (inc_wlockq (inc_wlock (stats s)))) p WantW);
      [by destruct Hr | done | done]|]); rewrite ?Ew, ?Er; try done.
Qed.

Lemma zlen_remove1 p l : p ∈ l -> zlen (remove1 p l) = zlen l - 1.
Proof.
  induction l as [|x l IH]; intros Hp; [by apply not_elem_of_nil in Hp|]. cbn. rewrite zlen_cons.
  destruct (decide (x = p)) as [->|N]; [lia|]. apply elem_of_cons in Hp as [->|Hp]; [done|].
  rewrite zlen_cons, IH by done. lia.
Qed.

Lemma wp_runlock p a s : rep a s -> rw_ok a -> rwop_ok (Runlock p) a ->
  wp (run_rw (Runlock p)) s (implements (Runlock p) a s).
Proof.
  intros Hr Ha [Hp Hb]. unfold implements. cbn [run_rw]. unfold runlock.
  pose proof Hr as [Hr1 Hr2 Hr3]. pose proof (zlen_remove1 p _ Hp) as Hl.
  pose proof (zlen_nonneg (waiting a)). pose proof (zlen_nonneg (remove1 p (rholders a))).
  wp_steps. apply wp_upd. cbn [lk st]. rewrite Hr1, s32_int by lia. rewrite <- Hl. cbn [rw_next granted].
  assert (wholder a = None) as Ew.
  { destruct (wholder a) eqn:E; [|done]. rewrite (ok_excludes a Ha) in Hp by (by rewrite E).
    by apply not_elem_of_nil in Hp. }
  destruct (waiting a) as [|[w k] l] eqn:Eq; cbn [fmap list_fmap] in Hr3.
  { rewrite (waitq_nil _ _ _ Hr3). wp_steps. destruct (remove1 p (rholders a)) eqn:Er;
      (split; [done|]; split; [split; [done | done | done]|]; split; [by rewrite app_nil_r | by intros q]). }
  destruct (waitq_head _ _ _ _ _ _ Hr3) as (Hh & pr & Hpr & Hk & Hw'). rewrite Hh.
  rewrite Z.gtb_ltb. destruct (Z.ltb_spec 0 (zlen (remove1 p (rholders a)))) as [L|L].
  - apply wp_ret, wp_ret. destruct (remove1 p (rholders a)) eqn:Er; [done|].
    split; [done|]. split; [split; [done | done | done]|]. split; [by rewrite app_nil_r | by intros q].
  - assert (remove1 p (rholders a) = []) as Er.
    { destruct (remove1 p (rholders a)); [done|]. rewrite zlen_cons in *. pose proof (zlen_nonneg l0). lia. }
    rewrite Er. wp_steps. apply wp_onst. eapply wp_proc_deref; [exact Hpr|].
    destruct k; [by destruct (ok_front a Ha w l Eq)|]. rewrite Hk. rewrite bool_decide_eq_false_2 by (intros E; by apply E).
    wp_steps. apply wp_onst. unfold dequeue. wp_steps. eapply wp_proc_deref; [exact Hpr|]. wp_steps.
    apply wp_upd. wp_steps. apply wp_upd. wp_steps. apply wp_onst. cbn [lk st head tail set_list set_writer set_readers] in *.
    eapply wp_mono; [apply (wp_ready w pr _ _ _ _ Hpr Hw'); by apply waitq_once in Hr3|].
    intros _ s' (Hq' & Hrd & Hk' & _). wp_steps. split; [done|]. split; [split; [done | done | exact Hq']|]. split; done.
Qed.

Lemma leading_readers_app l : forall r l', leading_readers l = (r, l') ->
  l = ((fun p => (p, WantR)) <$> r) ++ l' /\ (forall p l'', l' <> (p, WantR) :: l'').
Proof.
  induction l as [|[p []] l IH]; intros r l'; cbn; [by intros [= <- <-] | | by intros [= <- <-]].
  destruct (leading_readers l) as [r1 l1]. intros [= <- <-]. destruct (IH r1 l1 eq_refl) as [-> H]. done.
Qed.

(** The loop fixes [tail] up only at its end. *)
Definition waitq_loop (s : Ls RWlock) (l : list (nat * want)) : Prop :=
  waitq (procs (st s)) (head (lk s)) (if bool_decide (head (lk s) = None) then None else tail (lk s)) (qentry <$> l).

Lemma wp_wake_readers fuel : forall l rh s, (length l < fuel)%nat -> waitq_loop s l ->
  readers (lk s) = zlen rh -> zlen rh + zlen l < 2 ^ 31 ->
  wp (wake_readers fuel) s (fun _ s' => waitq_loop s' (leading_readers l).2 /\
    readers (lk s') = zlen (rev (leading_readers l).1 ++ rh) /\ logs (leading_readers l).1 s s').
Proof.
  induction fuel as [|fuel IH]; intros l rh s Hf Hq Hr Hb; [lia|]. cbn [wake_readers]. wp_steps.
  assert (logs [] s s) as Hl0 by (split; [by rewrite app_nil_r | by intros q]).
  destruct l as [|[p k] l]; cbn [fmap list_fmap] in Hq.
  { rewrite (waitq_nil _ _ _ Hq). by apply wp_ret. }
  destruct (waitq_head _ _ _ _ _ _ Hq) as (Hh & pr & Hpr & Hk & Hw). rewrite Hh.
  wp_steps. apply wp_onst. eapply wp_proc_deref; [exact Hpr|]. rewrite Hk. destruct k; cbn [qstate qentry snd].
  2: { rewrite bool_decide_eq_false_2 by done. by apply wp_ret. }
  rewrite bool_decide_eq_true_2 by done. wp_steps. apply wp_upd. wp_steps. apply wp_upd. wp_steps. apply wp_onst.
  cbn [lk st head tail set_list set_readers readers].
  eapply wp_mono; [apply (wp_ready p pr _ _ _ _ Hpr Hw); by apply waitq_once in Hq|].
  intros _ s1 (Hq1 & Hrd & Hkp & _). pose proof (zlen_nonneg l) as Hl. pose proof (zlen_nonneg rh).
  rewrite zlen_cons in Hb. set (s1' := mkLs _ s1 _).
  eapply wp_mono; [apply (IH l (p :: rh) s1')|].
  - cbn in Hf. lia.
  - unfold waitq_loop, s1'. cbn. rewrite Hh, (bool_decide_eq_false_2 (Some p = None)) in Hq1 by done. exact Hq1.
  - subst s1'. cbn. rewrite Hr, s32_int, zlen_cons by lia. lia.
  - rewrite zlen_cons. lia.
  - intros _ s' (Hq' & Hr' & Hrd' & Hk'). cbn [leading_readers].
    destruct (leading_readers l) as [r l']. cbn [fst snd rev] in *. split; [done|].
    split; [by rewrite <- app_assoc|]. split.
    + rewrite Hrd'. cbn. rewrite Hrd, <- app_assoc. done.
    + intros q Hq''. by apply Hk', Hkp.
Qed.

(** A process is on a queue once, so a queue is no longer than the table. *)
Lemma waitq_size ps h t l : waitq ps h t l -> (length l <= size ps)%nat.
Proof.
  intros [_ _ Hn Hs]. rewrite <- size_dom, <- (length_fmap fst), <- (size_list_to_set (C := gset nat)) by done.
  apply subseteq_size. intros p Hp. rewrite elem_of_list_to_set in Hp. apply elem_of_dom.
  apply list_elem_of_fmap in Hp as ([q k] & -> & Hq). specialize (Hs q k Hq). cbn. destruct (ps !! q); [by eexists | done].
Qed.

Lemma wp_wunlock p a s : rep a s -> rw_ok a -> rwop_ok (Wunlock p) a ->
  wp (run_rw (Wunlock p)) s (implements (Wunlock p) a s).
Proof.
  intros Hr Ha [Hp Hb]. unfold implements. cbn [run_rw]. unfold wunlock. pose proof Hr as [Hr1 Hr2 Hr3].
  assert (logs [] s s) as Hl0 by (split; [by rewrite app_nil_r | by intros q]).
  wp_steps. cbn [rw_next granted]. destruct (waiting a) as [|[w k] l] eqn:Eq; cbn [fmap list_fmap] in Hr3.
  { rewrite (waitq_nil _ _ _ Hr3). apply wp_upd. wp_steps. split; [done|]. split; [|done].
    split; [done | done | exact Hr3]. }
  destruct (waitq_head _ _ _ _ _ _ Hr3) as (Hh & pr & Hpr & Hk & Hw'). rewrite Hh.
  wp_steps. apply wp_onst. eapply wp_proc_deref; [exact Hpr|]. rewrite Hk.
  destruct k; cbn [qentry qstate snd].
  - rewrite bool_decide_eq_false_2, bool_decide_eq_false_2 by (try done; intros E; by apply E).
    wp_steps. cbn [st lk].
    pose proof (waitq_size _ _ _ _ Hr3) as Hsz.
    eapply wp_mono; [apply (wp_wake_readers _ ((w, WantR) :: l) (rholders a))|].
    + cbn in Hsz |- *. rewrite length_fmap in Hsz. lia.
    + unfold waitq_loop. cbn [lk st]. rewrite Hh in Hr3 |- *. by rewrite bool_decide_eq_false_2 by done.
    + done.
    + lia.
    + intros _ s1 (Hq1 & Hrd1 & Hl1). wp_steps. apply wp_upd. wp_steps. apply wp_upd. wp_steps.
      destruct (leading_readers ((w, WantR) :: l)) as [r l'] eqn:El. cbn [fst snd] in *.
      unfold waitq_loop in Hq1. split; [done|]. split; [|done].
      split; cbn [rholders wholder waiting]; destruct (bool_decide_reflect (head (lk s1) = None)) as [E|E]; cbn; try done.
      by rewrite E in Hq1.
  - rewrite bool_decide_eq_true_2 by done. wp_steps. apply wp_onst. unfold dequeue. wp_steps.
    eapply wp_proc_deref; [exact Hpr|]. wp_steps. apply wp_upd. wp_steps. apply wp_onst. cbn [lk st head tail set_list] in *.
    eapply wp_mono; [apply (wp_ready w pr _ _ _ _ Hpr Hw'); by apply waitq_once in Hr3|].
    intros _ s' (Hq' & Hrd & Hk' & _). wp_steps. split; [done|]. split; [|done].
    split; [done | by rewrite Hp in Hr2 | exact Hq'].
Qed.

Lemma rw_ok_idle r : rw_ok (mkRw r None []).
Proof. split; unfold rw_excludes; cbn; [by intros [] | by intros [] | done | constructor]. Qed.

(** The abstract lock keeps its invariant. *)
Lemma rw_next_ok o a : rw_ok a -> rwop_ok o a -> rw_ok (rw_next o a).1.
Proof.
  intros Ha [Ho _]. pose proof Ha as [He Hh Hf Hn].
  assert (forall p k, p ∉ (waiting a).*1 -> NoDup (waiting a ++ [(p, k)]).*1) as Happ.
  { intros p k Hp. rewrite fst_snoc. apply NoDup_app. split; [done|].
    split; [by intros y Hy ->%list_elem_of_singleton | apply NoDup_singleton]. }
  destruct o as [p|p|p|p|p]; cbn [rw_next].
  - destruct (wholder a) as [w|] eqn:Ew; [|destruct (waiting a) as [|x l] eqn:Eq].
    + split; unfold rw_excludes; cbn; [intros _; apply He; by rewrite Ew | intros _; by left | done | by apply Happ].
    + split; unfold rw_excludes; cbn; [by intros [] | done | done | constructor].
    + split; unfold rw_excludes; cbn; [done | intros _; by apply Hh | | by apply Happ].
      intros q l' [= -> _]. by destruct (Hf q l).
  - assert (wholder a = None) as Ew.
    { destruct (wholder a) eqn:E; [|done]. rewrite He in Ho by (by rewrite E). by apply not_elem_of_nil in Ho. }
    destruct (waiting a) as [|[w k] l] eqn:Eq; destruct (remove1 p (rholders a)) as [|x r] eqn:Er; rewrite ?Ew.
    1,2: apply rw_ok_idle.
    + apply NoDup_cons in Hn as [_ Hn]. split; unfold rw_excludes; cbn; [done | intros _; by left | done | done].
    + split; unfold rw_excludes; cbn; [done | intros _; by right | intros q l' [= -> -> _]; by destruct (Hf q l) | done].
  - destruct (rholders a) as [|x r] eqn:Er; [destruct (wholder a) as [w|] eqn:Ew|].
    + split; unfold rw_excludes; cbn; [done | intros _; by left | done | by apply Happ].
    + split; unfold rw_excludes; cbn; [done | intros _; by left | done | done].
    + split; unfold rw_excludes; cbn; [intros Hx%He; congruence | intros _; by right | | by apply Happ].
      intros q l'. destruct (waiting a) as [|y l] eqn:Eq; [done|]. intros [= -> _]. by apply (Hf q l).
  - assert (rholders a = []) as Er by (apply He; by rewrite Ho).
    rewrite Er. destruct (waiting a) as [|[w []] l] eqn:Eq.
    + apply rw_ok_idle.
    + destruct (leading_readers ((w, WantR) :: l)) as [r l'] eqn:El. apply leading_readers_app in El as [El Hl'].
      rewrite app_nil_r. assert (rev r <> []) as Hrne.
      { intros E%(f_equal (@rev _)). rewrite rev_involutive in E. subst r. by apply (Hl' w l). }
      rewrite El, fmap_app in Hn. apply NoDup_app in Hn as (_ & _ & Hn).
      split; unfold rw_excludes; cbn; [by intros [] | intros _; by right | by intros q l'' H%Hl' | done].
    + apply NoDup_cons in Hn as [_ Hn]. split; unfold rw_excludes; cbn; [done | intros _; by left | done | done].
  - destruct (wholder a) as [w|] eqn:Ew; [|destruct (waiting a) as [|x l] eqn:Eq]; [exact Ha | apply rw_ok_idle | exact Ha].
Qed.

(** ** Histories *)

Lemma wp_run_rw o a s : rep a s -> rw_ok a -> rwop_ok o a -> can_wait (actor o) s ->
  wp (run_rw o) s (implements o a s).
Proof.
  intros Hr Ha Ho Hc. destruct o;
    [by apply wp_rlock | by apply wp_runlock | by apply wp_wlock | by apply wp_wunlock | by apply wp_canrlock].
Qed.

(** Operations in the order their processes get the spin lock, and what the
    abstract lock makes of them. *)
Fixpoint rw_run (ops : list rwop) : M (Ls RWlock) (list bool) :=
  match ops with [] => ret [] | o :: ops => r <- run_rw o ;; rs <- rw_run ops ;; ret (r :: rs) end.
Fixpoint rw_final (ops : list rwop) (a : Rw) : Rw :=
  match ops with [] => a | o :: ops => rw_final ops (rw_next o a).1 end.
Fixpoint rw_results (ops : list rwop) (a : Rw) : list bool :=
  match ops with [] => [] | o :: ops => (rw_next o a).2 :: rw_results ops (rw_next o a).1 end.
Fixpoint rw_granted (ops : list rwop) (a : Rw) : list nat :=
  match ops with [] => [] | o :: ops => granted o a ++ rw_granted ops (rw_next o a).1 end.
Fixpoint rw_allowed (ops : list rwop) (a : Rw) : Prop :=
  match ops with [] => True | o :: ops => rwop_ok o a /\ rw_allowed ops (rw_next o a).1 end.

(** The processes that went to sleep, from the results. *)
Definition slept (o : rwop) (r : bool) : list nat :=
  match o, r with Rlock p, false | Wlock p, false => [p] | _, _ => [] end.
Definition all_slept (ops : list rwop) (rs : list bool) : list nat := concat (zip_with slept ops rs).

Lemma wp_rw_run ops : forall a s, rep a s -> rw_ok a -> rw_allowed ops a ->
  Forall (fun o => can_wait (actor o) s) ops ->
  wp (rw_run ops) s (fun rs s' => rs = rw_results ops a /\ rep (rw_final ops a) s' /\
    rw_ok (rw_final ops a) /\ logs (rw_granted ops a) s s').
Proof.
  induction ops as [|o ops IH]; intros a s Hr Ha Hop Hc; cbn [rw_run rw_results rw_final rw_granted].
  { apply wp_ret. split_and!; [done..|]. split; [by rewrite app_nil_r | by intros q]. }
  destruct Hop as [Ho Hop]. apply Forall_cons in Hc as [Hc1 Hc]. apply wp_bind.
  eapply wp_mono; [by apply (wp_run_rw o a)|]. intros r s1 (-> & Hr1 & Hl1 & Hk1). apply wp_bind.
  eapply wp_mono; [apply (IH _ s1 Hr1); [by apply rw_next_ok | done |]|].
  { eapply Forall_impl; [exact Hc|]. intros q Hq. by apply Hk1. }
  intros rs s' (-> & Hr' & Ha' & Hl' & Hk'). apply wp_ret. split_and!; [done..|]. split.
  - by rewrite Hl', Hl1, <- app_assoc.
  - intros q Hq. by apply Hk', Hk1.
Qed.

(** First come, first served, one operation at a time. *)
Lemma rw_next_fifo o a : rw_ok a -> rwop_ok o a ->
  (waiting a).*1 ++ slept o (rw_next o a).2 = granted o a ++ (waiting (rw_next o a).1).*1.
Proof.
  intros Ha [Ho _]. destruct o as [p|p|p|p|p]; cbn [rw_next granted].
  - destruct (wholder a); [|destruct (waiting a) as [|x l]]; cbn; rewrite ?fst_snoc; done.
  - destruct (remove1 p (rholders a)), (waiting a) as [|[w k] l1]; cbn; by rewrite ?app_nil_r.
  - destruct (rholders a), (wholder a) as [w|] eqn:Ew; cbn; rewrite ?fst_snoc; try done. by rewrite app_nil_r.
  - destruct (waiting a) as [|[w []] l] eqn:Eq; [done | | cbn; by rewrite app_nil_r].
    destruct (leading_readers ((w, WantR) :: l)) as [r l'] eqn:El. apply leading_readers_app in El as [-> _].
    cbn. rewrite app_nil_r, fmap_app, <- list_fmap_compose. f_equal.
    induction r as [|x r IHr]; [done|]. cbn. by rewrite IHr.
  - destruct (wholder a); [|destruct (waiting a) eqn:Eq]; cbn; rewrite ?Eq, ?app_nil_r; done.
Qed.

Lemma rw_fifo ops : forall a, rw_ok a -> rw_allowed ops a ->
  (waiting a).*1 ++ all_slept ops (rw_results ops a) = rw_granted ops a ++ (waiting (rw_final ops a)).*1.
Proof.
  induction ops as [|o ops IH]; intros a Ha Hop; cbn [rw_results rw_final rw_granted].
  { unfold all_slept. cbn. by rewrite app_nil_r. }
  destruct Hop as [Ho Hop]. unfold all_slept. cbn [zip_with concat].
  rewrite app_assoc, rw_next_fifo by done. rewrite <- !app_assoc. f_equal.
  apply IH; [by apply rw_next_ok | done].
Qed.

Definition acquires (o : rwop) : bool := match o with Rlock _ | Wlock _ | Canrlock _ => true | _ => false end.

(** C19: [rlock], [runlock], [wlock], [wunlock] and [canrlock] implement the
    abstract lock: in any order of calls, by processes that are not asleep and
    release what they hold, no panic is reached, each call returns at once or
    sleeps as the abstract lock says, the count of readers and the writer flag
    are those of its holders, never both set, and a lock with processes on its
    queue is always held by someone. *)
Theorem rwlock_refines ops a s : rep a s -> rw_ok a -> rw_allowed ops a ->
  Forall (fun o => can_wait (actor o) s) ops ->
  wp (rw_run ops) s (fun rs s' => rs = rw_results ops a /\ rep (rw_final ops a) s' /\ rw_ok (rw_final ops a) /\
    (writer (lk s') = 0 \/ readers (lk s') = 0) /\
    (head (lk s') <> None -> writer (lk s') <> 0 \/ 0 < readers (lk s'))).
Proof.
  intros Hr Ha Hop Hc. eapply wp_mono; [by apply wp_rw_run|].
  intros rs s' (-> & Hr' & Ha' & _). split_and!; [done..| |].
  - destruct (wholder (rw_final ops a)) as [w|] eqn:Ew.
    + right. rewrite (rep_readers _ _ Hr'), (ok_excludes _ Ha') by (by rewrite Ew). done.
    + left. by rewrite (rep_writer _ _ Hr'), Ew.
  - intros Hh. destruct (waiting (rw_final ops a)) as [|x l] eqn:Eq.
    { pose proof (rep_queue _ _ Hr') as Hq. rewrite Eq in Hq. by apply waitq_nil in Hq. }
    destruct (ok_held _ Ha') as [Hw|Hrd]; [by rewrite Eq | left | right].
    + rewrite (rep_writer _ _ Hr'). by destruct (wholder _).
    + rewrite (rep_readers _ _ Hr'). destruct (rholders _); [done|]. rewrite zlen_cons.
      match goal with |- context [zlen ?r] => pose proof (zlen_nonneg r) end. lia.
Qed.

(** Processes get an [RWlock] in the order they came. The ones made ready
    are, in order, the ones that were waiting and then the ones that went to
    sleep, less those that still wait; so the one at place [i] is served once
    [i + 1] have been. And no call overtakes the queue: one that gets the lock
    without sleeping found the queue empty. *)
Theorem rwlock_first_come_first_served ops a s : rep a s -> rw_ok a -> rw_allowed ops a ->
  Forall (fun o => can_wait (actor o) s) ops ->
  wp (rw_run ops) s (fun rs s' => exists g left,
    readied (st s') = readied (st s) ++ g /\ chain (procs (st s')) (head (lk s')) left /\
    (waiting a).*1 ++ all_slept ops rs = g ++ left /\
    (forall i p, (waiting a).*1 !! i = Some p -> (i < length g)%nat -> g !! i = Some p)) /\
  (forall o, rwop_ok o a -> can_wait (actor o) s -> acquires o = true ->
    wp (run_rw o) s (fun r _ => r = true -> head (lk s) = None)).
Proof.
  intros Hr Ha Hop Hc. split.
  - eapply wp_mono; [by apply wp_rw_run|]. intros rs s' (-> & Hr' & _ & Hl & _).
    exists (rw_granted ops a), (waiting (rw_final ops a)).*1. pose proof (rw_fifo ops a Ha Hop) as Hf.
    split_and!; [done | | done |].
    + pose proof (wq_chain _ _ _ _ (rep_queue _ _ Hr')) as Hch. by rewrite qentry_fst in Hch.
    + intros i p Hp Hi. pose proof (f_equal (fun l => l !! i) Hf) as E. cbn in E.
      rewrite lookup_app_l in E by (by eapply lookup_lt_Some). rewrite lookup_app_l in E by done. by rewrite <- E.
  - intros o Ho Hco Hacq. eapply wp_mono; [by apply (wp_run_rw o a)|]. intros r s' (-> & _) Et.
    assert (waiting a = []) as Eq.
    { destruct o; cbn in Hacq, Et; try done.
      - destruct (wholder a); [done|]. by destruct (waiting a).
      - destruct (rholders a) eqn:Er; [|done]. destruct (wholder a) eqn:Ew; [done|].
        destruct (waiting a) eqn:Eq; [done|]. by destruct (ok_held a Ha); rewrite ?Eq.
      - destruct (wholder a); [done|]. by destruct (waiting a). }
    pose proof (rep_queue _ _ Hr) as Hq. rewrite Eq in Hq. by apply waitq_nil in Hq.
Qed.

(** No release loses the lock. When the writer, or the last reader,
    releases a lock with a process at the head of its queue, that process is the
    first one made ready, and it holds the lock. *)
Theorem rwlock_release_serves_head o p w k l a s :
  rep a s -> rw_ok a -> waiting a = (w, k) :: l -> rwop_ok o a ->
  (o = Wunlock p \/ o = Runlock p /\ rholders a = [p]) ->
  wp (run_rw o) s (fun _ s' => exists g a', readied (st s') = readied (st s) ++ w :: g /\ rep a' s' /\
    (wholder a' = Some w \/ w ∈ rholders a')).
Proof.
  intros Hr Ha Eq Ho Hrel.
  assert (wp (run_rw o) s (implements o a s)) as Hw.
  { destruct Hrel as [->|[-> _]]; [by apply wp_wunlock | by apply wp_runlock]. }
  eapply wp_mono; [exact Hw|]. intros r s' (_ & Hr' & Hl & _).
  assert (exists g, granted o a = w :: g /\
    (wholder (rw_next o a).1 = Some w \/ w ∈ rholders (rw_next o a).1)) as (g & Eg & Hh).
  { destruct Hrel as [->|[-> Er]]; cbn [granted rw_next]; rewrite Eq.
    - destruct k; [|exists []; split; [done | by left]]. cbn. destruct (leading_readers l) as [r1 l1].
      exists r1. split; [done|]. right. cbn. rewrite !elem_of_app. left. right. by left.
    - rewrite Er. cbn. rewrite decide_True by done. exists []. split; [done | by left]. }
  exists g, (rw_next o a).1. by rewrite <- Eg.
Qed.

(** ** Exclusive locks *)

Record Qa := mkQa { qholder : option nat; qwaiting : list nat }.
Inductive qop := Lock (p : nat) | Canlock (free : bool) (p : nat) | Unlock (p : nat).

(** The state after an operation, whether it got the lock, and the processes it makes ready. *)
Definition q_next (o : qop) (a : Qa) : Qa * bool * list nat :=
  match o with
  | Lock p =>
    match qholder a with
    | None => (mkQa (Some p) (qwaiting a), true, [])
    | Some _ => (mkQa (qholder a) (qwaiting a ++ [p]), false, [])
    end
  | Canlock free p =>
    match qholder a with
    | None => if free then (mkQa (Some p) (qwaiting a), true, []) else (a, false, [])
    | Some _ => (a, false, [])
    end
  | Unlock p =>
    match qwaiting a with
    | [] => (mkQa None [], true, [])
    | w :: l => (mkQa (Some w) l, true, [w])
    end
  end.

Definition qop_ok (o : qop) (a : Qa) : Prop :=
  match o with Lock p | Canlock _ p => p ∉ qwaiting a | Unlock p => qholder a = Some p end.
Record q_ok (a : Qa) : Prop := {
  q_held : qwaiting a <> [] -> qholder a <> None;
  q_once : NoDup (qwaiting a)
}.
Definition qactor (o : qop) : nat := match o with Lock p | Canlock _ p | Unlock p => p end.
Definition run_q (o : qop) : M (Ls QLock) bool :=
  match o with
  | Lock p => qlock (Some p) 0
  | Canlock free p => canqlock free 0
  | Unlock p => qunlock ;; ret true
  end.

Definition queueing (p : nat) : nat * Pstate := (p, Queueing).
Record qrep (a : Qa) (s : Ls QLock) : Prop := {
  qrep_locked : locked (lk s) = match qholder a with Some _ => 1 | None => 0 end;
  qrep_queue : waitq (procs (st s)) (q_head (lk s)) (q_tail (lk s)) (queueing <$> qwaiting a)
}.

Lemma qentry_q l : (queueing <$> l).*1 = l.
Proof. rewrite <- list_fmap_compose. by rewrite list_fmap_id. Qed.
Lemma qrep_eqb a s : qrep a s -> (locked (lk s) =? 0) = match qholder a with None => true | _ => false end.
Proof. intros [-> _]. by destruct (qholder a). Qed.
Lemma waitq_procqpc ps p pr pc h t l : ps !! p = Some pr -> waitq ps h t l ->
  waitq (<[p := set_procqpc pc pr]> ps) h t l.
Proof.
  intros Hp [Hc Ht Hn Hs].
  assert (forall x, qnext <$> <[p := set_procqpc pc pr]> ps !! x = qnext <$> ps !! x /\
    state <$> <[p := set_procqpc pc pr]> ps !! x = state <$> ps !! x) as He.
  { intros x. destruct (decide (p = x)) as [->|N]; [by rewrite lookup_insert_eq, Hp | by rewrite lookup_insert_ne]. }
  split; try done.
  - eapply chain_ext; [|exact Hc]. intros x _. apply He.
  - intros x k Hx. destruct (He x) as [_ ->]. by apply Hs.
Qed.

Lemma wp_run_q o a s : qrep a s -> q_ok a -> qop_ok o a -> is_Some (procs (st s) !! qactor o) ->
  wp (run_q o) s (fun r s' => (r, readied (st s')) = ((q_next o a).1.2, readied (st s) ++ (q_next o a).2) /\
    qrep (q_next o a).1.1 s' /\ keeps (st s) (st s')).
Proof.
  intros Hr Ha Ho Hc. pose proof Hr as [Hl Hq]. assert (keeps (st s) (st s)) as Hks by (by intros p).
  destruct o as [p|free p|p]; cbn [run_q q_next qactor] in *.
  - unfold qlock. wp_steps. apply wp_lock_count. wp_steps. cbn [lk st]. rewrite (qrep_eqb a s Hr).
    destruct (qholder a) as [w|] eqn:Ew.
    + wp_steps. apply wp_lock_count. wp_steps. apply wp_onst. cbn [lk st stats].
      eapply wp_mono; [apply (wp_wait_enqueue p Queueing _ _ _ _ Hq); [by rewrite qentry_q | done]|].
      intros [h t] s1 (Hq1 & Hrd & Hk). wp_steps. apply wp_upd. wp_steps. apply wp_onst. cbn [lk st stats].
      destruct (Hk p Hc) as [pr Hpr]. eapply wp_proc_assign; [exact Hpr|]. wp_steps. cbn [st readied fst snd].
      split; [by rewrite Hrd, app_nil_r|]. split.
      * split; cbn; [done|]. rewrite fmap_app. by apply waitq_procqpc.
      * by apply keeps_insert; destruct s1.
    + wp_steps. apply wp_upd. wp_steps. cbn [st]. split; [by rewrite app_nil_r|]. split; [|done]. by split.
  - unfold canqlock. destruct free; cbn [negb].
    + wp_steps. rewrite (qrep_eqb a s Hr). destruct (qholder a) eqn:Ew; cbn [negb].
      * apply wp_ret. by rewrite app_nil_r.
      * wp_steps. apply wp_upd. wp_steps. cbn [st]. split; [by rewrite app_nil_r|]. split; [|done]. by split.
    + apply wp_ret. destruct (qholder a); by rewrite app_nil_r.
  - unfold qunlock. wp_steps. destruct (qwaiting a) as [|w l] eqn:Eq; cbn [fmap list_fmap] in Hq.
    + rewrite (waitq_nil _ _ _ Hq). apply wp_upd. wp_steps. cbn [st]. split; [by rewrite app_nil_r|].
      split; [|done]. split; [done | exact Hq].
    + destruct (waitq_head _ _ _ _ _ _ Hq) as (Hh & pr & Hpr & _ & Hw). rewrite Hh.
      wp_steps. apply wp_onst. unfold dequeue. wp_steps. eapply wp_proc_deref; [exact Hpr|]. wp_steps. apply wp_upd.
      wp_steps. apply wp_onst. cbn [lk st].
      eapply wp_mono; [apply (wp_ready w pr _ _ _ _ Hpr Hw); by apply waitq_once in Hq|].
      intros _ s' (Hq' & Hrd & Hk' & _). wp_steps. cbn [st fst snd]. split; [by rewrite Hrd|]. split; [|done].
      split; [|exact Hq']. cbn. by rewrite Hl, Ho.
Qed.

Lemma q_next_ok o a : q_ok a -> qop_ok o a -> q_ok (q_next o a).1.1.
Proof.
  intros Ha Ho. pose proof Ha as [Hh Hn]. destruct o as [p|free p|p]; cbn [q_next qop_ok] in *.
  - destruct (qholder a) eqn:Ew; [|by split]. split; [done|]. cbn. apply NoDup_app. split; [done|].
    split; [by intros y Hy ->%list_elem_of_singleton | apply NoDup_singleton].
  - destruct (qholder a), free; [exact Ha | exact Ha | by split | exact Ha].
  - destruct (qwaiting a) as [|w l]; [by split; [|constructor]|]. apply NoDup_cons in Hn as [_ Hn]. by split.
Qed.

Fixpoint q_run (ops : list qop) : M (Ls QLock) (list bool) :=
  match ops with [] => ret [] | o :: ops => r <- run_q o ;; rs <- q_run ops ;; ret (r :: rs) end.
Fixpoint q_allowed (ops : list qop) (a : Qa) : Prop :=
  match ops with [] => True | o :: ops => qop_ok o a /\ q_allowed ops (q_next o a).1.1 end.
Fixpoint q_final (ops : list qop) (a : Qa) : Qa :=
  match ops with [] => a | o :: ops => q_final ops (q_next o a).1.1 end.
Fixpoint q_results (ops : list qop) (a : Qa) : list bool :=
  match ops with [] => [] | o :: ops => (q_next o a).1.2 :: q_results ops (q_next o a).1.1 end.
Definition q_slept (o : qop) (r : bool) : list nat := match o, r with Lock p, false => [p] | _, _ => [] end.

Lemma q_next_fifo o a : qwaiting a ++ q_slept o (q_next o a).1.2 = (q_next o a).2 ++ qwaiting (q_next o a).1.1.
Proof.
  destruct o as [p|free p|p]; cbn [q_next].
  - destruct (qholder a); cbn; by rewrite ?app_nil_r.
  - destruct (qholder a), free; cbn; by rewrite ?app_nil_r.
  - destruct (qwaiting a); cbn; by rewrite ?app_nil_r.
Qed.

(** [qlock], [canqlock] and [qunlock] implement a lock with one holder
    and a queue: in any order of calls by processes that are not asleep and
    release what they hold, [locked] says whether there is a holder, the lock is
    held while anyone waits, a release hands it to the process at the head
    without its ever being free, and the processes made ready are the ones that
    went to sleep, in that order, less those that still wait. *)
Theorem qlock_refines ops : forall a s, qrep a s -> q_ok a -> q_allowed ops a ->
  Forall (fun o => is_Some (procs (st s) !! qactor o)) ops ->
  wp (q_run ops) s (fun rs s' => rs = q_results ops a /\ qrep (q_final ops a) s' /\ q_ok (q_final ops a) /\
    (locked (lk s') = 0 -> q_head (lk s') = None) /\
    exists g, readied (st s') = readied (st s) ++ g /\
      qwaiting a ++ concat (zip_with q_slept ops rs) = g ++ qwaiting (q_final ops a)).
Proof.
  induction ops as [|o ops IH]; intros a s Hr Ha Hop Hc; cbn [q_run q_final q_results].
  { apply wp_ret. split_and!; [done..| |].
    - intros E. rewrite (qrep_locked _ _ Hr) in E. destruct (qholder a) eqn:Ew; [done|].
      pose proof (qrep_queue _ _ Hr) as Hq. destruct (qwaiting a) eqn:Eq; [by apply waitq_nil in Hq|].
      by destruct (q_held _ Ha); rewrite ?Eq.
    - exists []. by rewrite !app_nil_r. }
  destruct Hop as [Ho Hop]. apply Forall_cons in Hc as [Hc1 Hc]. apply wp_bind.
  eapply wp_mono; [by apply (wp_run_q o a)|]. intros r s1 ([= -> Hrd] & Hr1 & Hk). apply wp_bind.
  eapply wp_mono; [apply (IH _ s1 Hr1); [by apply q_next_ok | done |]|].
  { eapply Forall_impl; [exact Hc|]. intros q Hq. by apply Hk. }
  intros rs s' (-> & Hr' & Ha' & Hf' & g & Hg & Hfi). apply wp_ret. split_and!; [done..|].
  exists ((q_next o a).2 ++ g). rewrite Hg, Hrd, <- app_assoc. split; [done|].
  cbn [zip_with concat]. rewrite app_assoc, q_next_fifo, <- !app_assoc. by f_equal.
Qed.

(** ** Instances *)

Definition demo_st : St := mkSt (list_to_map ((fun p => (p, mkProc None Running 0)) <$> [1; 2; 3]%nat)) [].
Definition demo_stats : Rwstats := mkRwstats 0 0 0 0 0 0.
Definition demo_rw : Ls RWlock := mkLs (mkRWlock None None 0 None 0 0) demo_st demo_stats.
Definition demo_ql : Ls QLock := mkLs (mkQLock None None 0 0) demo_st demo_stats.
Definition rw_free : Rw := mkRw [] None [].
(** A reader, a writer that waits for it, a reader behind the writer, and the releases. *)
Definition demo_ops : list rwop := [Rlock 1; Wlock 2; Rlock 3; Runlock 1; Wunlock 2].

Lemma demo_rep : rep rw_free demo_rw.
Proof. split; [done | done | apply waitq_empty]. Qed.
Ltac notin := let H := fresh in intros H; cbn in H; repeat (apply elem_of_cons in H as [H|H]; [done|]);
  by apply not_elem_of_nil in H.
Lemma demo_allowed : rw_allowed demo_ops rw_free.
Proof. repeat split; try notin; by left. Qed.
Lemma demo_can : Forall (fun o => can_wait (actor o) demo_rw) demo_ops.
Proof. repeat constructor; by eexists. Qed.

Lemma rwlock_refines_witness :
  wp (rw_run demo_ops) demo_rw (fun rs s' => rs = [true; false; false; true; true] /\ readers (lk s') = 1).
Proof.
  eapply wp_mono; [apply (rwlock_refines demo_ops rw_free demo_rw)|].
  - apply demo_rep.
  - apply rw_ok_idle.
  - apply demo_allowed.
  - apply demo_can.
  - intros rs s' (-> & Hr & _). split; [reflexivity|]. rewrite (rep_readers _ _ Hr). reflexivity.
Defined.

Lemma rwlock_first_come_first_served_witness :
  wp (rw_run demo_ops) demo_rw (fun rs s' => exists g left, readied (st s') = g /\
    all_slept demo_ops rs = g ++ left).
Proof.
  destruct (rwlock_first_come_first_served demo_ops rw_free demo_rw demo_rep (rw_ok_idle []) demo_allowed demo_can)
    as [H _].
  eapply wp_mono; [exact H|]. intros rs s' (g & left & Hg & _ & Hf & _). exists g, left. split; [exact Hg | exact Hf].
Defined.

(** Process 2 waits to write while 1 reads. *)
Definition demo_wait : Ls RWlock :=
  match rw_run [Rlock 1; Wlock 2] demo_rw with Ret _ s => s | _ => demo_rw end.
Definition rw_wait : Rw := mkRw [1%nat] None [(2%nat, WantW)].
Lemma demo_wait_rep : rep rw_wait demo_wait /\ rw_ok rw_wait.
Proof.
  assert (wp (rw_run [Rlock 1; Wlock 2]) demo_rw (fun _ s' => rep rw_wait s' /\ rw_ok rw_wait)) as H.
  { eapply wp_mono; [apply (wp_rw_run [Rlock 1; Wlock 2] rw_free demo_rw demo_rep (rw_ok_idle []))|].
    - repeat split; try notin.
    - repeat constructor; by eexists.
    - intros rs s' (_ & Hr & Ha & _). split; [exact Hr | exact Ha]. }
  exact H.
Qed.
Lemma rwlock_release_serves_head_witness :
  wp (run_rw (Runlock 1)) demo_wait (fun _ s' => exists g, readied (st s') = 2%nat :: g).
Proof.
  eapply wp_mono; [apply (rwlock_release_serves_head (Runlock 1) 1 2 WantW [] rw_wait demo_wait)|].
  - apply demo_wait_rep.
  - apply demo_wait_rep.
  - reflexivity.
  - split; [by left | reflexivity].
  - right. split; reflexivity.
  - intros _ s' (g & a' & H & _). exists g. exact H.
Defined.

Definition demo_qops : list qop := [Lock 1; Canlock true 3; Lock 2; Unlock 1].
Lemma qlock_refines_witness :
  wp (q_run demo_qops) demo_ql (fun rs s' => rs = [true; false; false; true] /\ locked (lk s') = 1 /\
    readied (st s') = [2%nat]).
Proof.
  eapply wp_mono; [apply (qlock_refines demo_qops (mkQa None []) demo_ql)|].
  - split; [reflexivity | apply waitq_empty].
  - split; [done | constructor].
  - repeat split; notin.
  - repeat constructor; by eexists.
  - intros rs s' (-> & Hr & _ & _ & g & Hg & Hf). split; [reflexivity|]. split; [exact (qrep_locked _ _ Hr)|].
    rewrite Hg. cbn in Hf. rewrite app_nil_r in Hf. by rewrite <- Hf.
Defined.
