(* ===== verification/Sleep.v ===== *)
(** * Sleep, wakeup and notes: port/proc.c

    [sleep], [wakeup] and [postnote] run on several processors at once, and
    [wakeup] and [postnote] at interrupt time too.  They are modelled as the
    steps between which the others can come: each access to a lock, to [r->p],
    to the condition or to [notepending] is one, and an execution is any
    sequence of steps of any agents.

    The routines hold [r]'s lock and [p->rlock] to keep [r->p] and [p->r]
    together; what is shown is that they do, that the panics cannot happen, that
    no wakeup and no note is lost, and that the locks cannot deadlock. *)

From stdpp Require Import base list functions.
From Stdlib Require Import Lia.
From S2P Require Import Prelude Qlock.
Open Scope nat_scope.

Set Warnings "-clear-no-such-hyp".

(** ** The state *)

(** Who runs code: a process, or an interrupt handler. *)
Inductive Agent := Pr (p : nat) | Intr (i : nat).
#[export] Instance Agent_eq_dec : EqDecision Agent.
Proof. solve_decision. Defined.

(** [rlk]: who holds the [Lock] of the [Rendez]. *)
Record Rendez := mkRendez { rlk : option Agent; rp : option nat }.
(** [plk]: who holds [rlock]; [pr]: the field [r]. *)
Record Proc := mkProc { plk : option Agent; pstate : Pstate; pr : option nat; notepending : bool }.

Definition set_rlk x r := mkRendez x (rp r).
Definition set_rp x r := mkRendez (rlk r) x.
Definition set_plk x p := mkProc x (pstate p) (pr p) (notepending p).
Definition set_pstate x p := mkProc (plk p) x (pr p) (notepending p).
Definition set_pr x p := mkProc (plk p) (pstate p) x (notepending p).
Definition set_notepending x p := mkProc (plk p) (pstate p) (pr p) x.

(** Where an agent is: before the step the name says. *)
Inductive Pc :=
  | Idle
  (* sleep(r) by process p *)
  | SlLockR (p r : nat) | SlLockP (p r : nat) | SlSet (p r : nat) | SlCond (p r : nat) | SlNote (p r : nat)
  | SlCommit (p r : nat) | SlDropP (p r : nat) | SlDropR (p r : nat)
  | SlUndo (p r : nat) | SlUndoP (p r : nat) | SlUndoR (p r : nat)
  | Asleep (p r : nat) | SlDone (p : nat)
  (* wakeup(r); p is r->p *)
  | WkLockR (r : nat) | WkGet (r : nat) | WkLockP (r p : nat) | WkReady (r p : nat) | WkDropP (r p : nat) | WkDropR (r : nat)
  (* postnote(p); r is p->r *)
  | PnNote (p : nat) | PnLockP (p : nat) | PnGet (p : nat) | PnTry (p r : nat) | PnReady (p r : nat)
  | PnDropR (p r : nat) | PnDropP (p : nat) | PnRetry (p : nat).

(** [cond r]: what the sleeper's function [f] gives. *)
Record Sys := mkSys {
  rend : nat -> Rendez;
  proc : nat -> Proc;
  cond : nat -> bool;
  pc : Agent -> Pc;
  panicked : bool
}.

Definition goto (a : Agent) (x : Pc) (s : Sys) : Sys := mkSys (rend s) (proc s) (cond s) (<[a := x]> (pc s)) (panicked s).
Definition onr (r : nat) (g : Rendez -> Rendez) (s : Sys) : Sys :=
  mkSys (<[r := g (rend s r)]> (rend s)) (proc s) (cond s) (pc s) (panicked s).
Definition onp (p : nat) (g : Proc -> Proc) (s : Sys) : Sys :=
  mkSys (rend s) (<[p := g (proc s p)]> (proc s)) (cond s) (pc s) (panicked s).
Definition set_cond (r : nat) (b : bool) (s : Sys) : Sys := mkSys (rend s) (proc s) (<[r := b]> (cond s)) (pc s) (panicked s).
Definition panic_now (s : Sys) : Sys := mkSys (rend s) (proc s) (cond s) (pc s) true.

(** ** The routines *)

(** Taking a lock, when it is free; an agent that finds it taken spins. *)
Definition lock_r (a : Agent) (r : nat) (next : Pc) (s : Sys) : option Sys :=
  match rlk (rend s r) with None => Some (goto a next (onr r (set_rlk (Some a)) s)) | Some _ => None end.
Definition lock_p (a : Agent) (p : nat) (next : Pc) (s : Sys) : option Sys :=
  match plk (proc s p) with None => Some (goto a next (onp p (set_plk (Some a)) s)) | Some _ => None end.

(** [ready(p)], as far as it concerns a sleeping process. *)
Definition make_ready (p : nat) (s : Sys) : Sys := onp p (set_pstate Ready) s.

Definition sleep_step (a : Agent) (s : Sys) : option Sys :=
  match pc s a with
  | SlLockR p r => lock_r a r (SlLockP p r) s
  | SlLockP p r => lock_p a p (SlSet p r) s
  | SlSet p r => Some (goto a (SlCond p r) (onr r (set_rp (Some p)) s))
  | SlCond p r => Some (goto a (if cond s r then SlUndo p r else SlNote p r) s)
  | SlNote p r => Some (goto a (if notepending (proc s p) then SlUndo p r else SlCommit p r) s)
  | SlCommit p r => Some (goto a (SlDropP p r) (onp p (fun x => set_pr (Some r) (set_pstate Wakeme x)) s))
  | SlDropP p r => Some (goto a (SlDropR p r) (onp p (set_plk None) s))
  | SlDropR p r => Some (goto a (Asleep p r) (onr r (set_rlk None) s))
  | SlUndo p r => Some (goto a (SlUndoP p r) (onr r (set_rp None) s))
  | SlUndoP p r => Some (goto a (SlUndoR p r) (onp p (set_plk None) s))
  | SlUndoR p r => Some (goto a (SlDone p) (onr r (set_rlk None) s))
  (* if(up->notepending) ... error(Eintr) *)
  | SlDone p => Some (goto a Idle (onp p (set_notepending false) s))
  | _ => None
  end.

Definition wakeup_step (a : Agent) (s : Sys) : option Sys :=
  match pc s a with
  | WkLockR r => lock_r a r (WkGet r) s
  | WkGet r => Some (goto a (match rp (rend s r) with Some p => WkLockP r p | None => WkDropR r end) s)
  | WkLockP r p => lock_p a p (WkReady r p) s
  | WkReady r p =>
    if decide (pstate (proc s p) = Wakeme /\ pr (proc s p) = Some r) then
      Some (goto a (WkDropP r p) (make_ready p (onp p (set_pr None) (onr r (set_rp None) s))))
    else Some (panic_now s)
  | WkDropP r p => Some (goto a (WkDropR r) (onp p (set_plk None) s))
  | WkDropR r => Some (goto a Idle (onr r (set_rlk None) s))
  | _ => None
  end.

Definition postnote_step (a : Agent) (s : Sys) : option Sys :=
  match pc s a with
  | PnNote p => Some (goto a (PnLockP p) (onp p (set_notepending true) s))
  | PnLockP p => lock_p a p (PnGet p) s
  | PnGet p => Some (goto a (match pr (proc s p) with Some r => PnTry p r | None => PnDropP p end) s)
  (* canlock(r) *)
  | PnTry p r =>
    match rlk (rend s r) with
    | None => Some (goto a (PnReady p r) (onr r (set_rlk (Some a)) s))
    | Some _ => Some (goto a (PnRetry p) s)
    end
  | PnReady p r =>
    if decide (pstate (proc s p) = Wakeme /\ rp (rend s r) = Some p) then
      Some (goto a (PnDropR p r) (make_ready p (onr r (set_rp None) (onp p (set_pr None) s))))
    else Some (panic_now s)
  | PnDropR p r => Some (goto a (PnDropP p) (onr r (set_rlk None) s))
  | PnDropP p => Some (goto a Idle (onp p (set_plk None) s))
  | PnRetry p => Some (goto a (PnLockP p) (onp p (set_plk None) s))
  | _ => None
  end.

Definition step (a : Agent) (s : Sys) : option Sys :=
  match pc s a with
  | WkLockR _ | WkGet _ | WkLockP _ _ | WkReady _ _ | WkDropP _ _ | WkDropR _ => wakeup_step a s
  | PnNote _ | PnLockP _ | PnGet _ | PnTry _ _ | PnReady _ _ | PnDropR _ _ | PnDropP _ | PnRetry _ => postnote_step a s
  | _ => sleep_step a s
  end.

(** ** Executions *)

(** What can happen: an agent that is doing something else calls a routine;
    one takes a step; the scheduler runs a process that is ready. *)
Inductive Act :=
  | CallSleep (p r : nat)
  | Signal (a : Agent) (r : nat)  (* the condition becomes true, then wakeup(r) *)
  | CallWakeup (a : Agent) (r : nat)
  | CallPostnote (a : Agent) (p : nat)
  | Clear (r : nat)               (* the condition becomes false *)
  | Step (a : Agent)
  | Dispatch (p : nat).

Section Exec.
(** Only one process sleeps on a [Rendez]. *)
Context (owner : nat -> nat).

Definition call (a : Agent) (x : Pc) (s : Sys) : option Sys :=
  match pc s a with Idle => Some (goto a x s) | _ => None end.

Definition act (e : Act) (s : Sys) : option Sys :=
  match e with
  | CallSleep p r => if decide (owner r = p) then call (Pr p) (SlLockR p r) s else None
  | Signal a r => call a (WkLockR r) (set_cond r true s)
  | CallWakeup a r => call a (WkLockR r) s
  | CallPostnote a p => call a (PnNote p) s
  | Clear r => Some (set_cond r false s)
  | Step a => step a s
  | Dispatch p =>
    match pc s (Pr p), pstate (proc s p) with
    | Asleep _ _, Ready => Some (goto (Pr p) (SlDone p) (onp p (set_pstate Running) s))
    | _, _ => None
    end
  end.

Fixpoint run (es : list Act) (s : Sys) : option Sys :=
  match es with
  | [] => Some s
  | e :: es => match act e s with Some s' => run es s' | None => None end
  end.

Definition start : Sys :=
  mkSys (fun _ => mkRendez None None) (fun _ => mkProc None Running None false) (fun _ => false) (fun _ => Idle) false.

Inductive reach : Sys -> Prop :=
  | reach_start : reach start
  | reach_act e s s' : reach s -> act e s = Some s' -> reach s'.
End Exec.

(** ** The invariant *)

(** The locks an agent holds: that of a [Rendez], a [rlock]. *)
Definition holds_r (x : Pc) : option nat :=
  match x with
  | SlLockP _ r | SlSet _ r | SlCond _ r | SlNote _ r | SlCommit _ r | SlDropP _ r | SlDropR _ r
  | SlUndo _ r | SlUndoP _ r | SlUndoR _ r
  | WkGet r | WkLockP r _ | WkReady r _ | WkDropP r _ | WkDropR r | PnReady _ r | PnDropR _ r => Some r
  | _ => None
  end.
Definition holds_p (x : Pc) : option nat :=
  match x with
  | SlSet p _ | SlCond p _ | SlNote p _ | SlCommit p _ | SlDropP p _ | SlUndo p _ | SlUndoP p _
  | WkReady _ p | WkDropP _ p | PnGet p | PnTry p _ | PnReady p _ | PnDropR p _ | PnDropP p | PnRetry p => Some p
  | _ => None
  end.

(** [Pr p] is in [sleep(r)], in [r->p], and not asleep yet. *)
Definition entering (x : Pc) (p r : nat) : Prop := x = SlCond p r \/ x = SlNote p r \/ x = SlCommit p r \/ x = SlUndo p r.
Definition leaving (x : Pc) (p r : nat) : Prop := x = SlDropP p r \/ x = SlDropR p r \/ x = Asleep p r.
(** An agent that will look at [r->p] because the condition has changed, or
    at [p->r] because there is a note. *)
Definition will_wake (x : Pc) (p r : nat) : Prop := x = WkLockR r \/ x = WkGet r \/ x = WkLockP r p \/ x = WkReady r p.
Definition will_note (x : Pc) (p r : nat) : Prop :=
  x = PnLockP p \/ x = PnGet p \/ x = PnTry p r \/ x = PnReady p r \/ x = PnRetry p.

Section Inv.
Context (owner : nat -> nat).

Definition sleeper (a : Agent) (x : Pc) : Prop :=
  match x with
  | SlLockR p r | SlLockP p r | SlSet p r | SlCond p r | SlNote p r | SlCommit p r | SlDropP p r | SlDropR p r
  | SlUndo p r | SlUndoP p r | SlUndoR p r | Asleep p r => a = Pr p /\ owner r = p
  | SlDone p => a = Pr p
  | _ => True
  end.
Definition away (x : Pc) : bool := match x with SlDropP _ _ | SlDropR _ _ | Asleep _ _ => true | _ => false end.
(** What an agent that is about to take a step relies on: [r->p] is [p];
    [p->r] is [r]. *)
Definition relies_rp (x : Pc) : option (nat * nat) :=
  match x with SlCond p r | SlNote p r | SlCommit p r | SlUndo p r => Some (p, r) | _ => None end.
Definition relies_pr (x : Pc) : option (nat * nat) :=
  match x with
  | SlDropP p r | SlDropR p r | WkLockP r p | WkReady r p | PnTry p r | PnReady p r => Some (p, r)
  | _ => None
  end.

Record inv (s : Sys) : Prop := {
  i_rlk a r : rlk (rend s r) = Some a <-> holds_r (pc s a) = Some r;
  i_plk a p : plk (proc s p) = Some a <-> holds_p (pc s a) = Some p;
  i_sleeper a : sleeper a (pc s a);
  i_running p : away (pc s (Pr p)) = false -> pstate (proc s p) = Running /\ pr (proc s p) = None;
  i_rely_rp a p r : relies_rp (pc s a) = Some (p, r) -> rp (rend s r) = Some p;
  i_rely_pr a p r : relies_pr (pc s a) = Some (p, r) -> pr (proc s p) = Some r;
  i_pr p r : pr (proc s p) = Some r -> pstate (proc s p) = Wakeme /\ rp (rend s r) = Some p /\ leaving (pc s (Pr p)) p r;
  i_asleep p r : pc s (Pr p) = Asleep p r ->
    pr (proc s p) = Some r \/ (pstate (proc s p) = Ready /\ pr (proc s p) = None);
  i_rp p r : rp (rend s r) = Some p -> pr (proc s p) = Some r \/ entering (pc s (Pr p)) p r;
  i_panic : panicked s = false
}.

Lemma inv_owner s p r : inv s -> entering (pc s (Pr p)) p r \/ leaving (pc s (Pr p)) p r -> owner r = p.
Proof.
  intros I H. pose proof (i_sleeper s I (Pr p)) as Hs. unfold entering, leaving in H.
  destruct H as [[E|[E|[E|E]]]|[E|[E|E]]]; rewrite E in Hs; apply Hs.
Qed.

Lemma inv_start : inv start.
Proof. split; cbn; try done; intros; naive_solver. Qed.

Lemma excl_r s a b r : inv s -> holds_r (pc s a) = Some r -> holds_r (pc s b) = Some r -> a = b.
Proof. intros I Ha%(i_rlk s I) Hb%(i_rlk s I). congruence. Qed.
Lemma excl_p s a b p : inv s -> holds_p (pc s a) = Some p -> holds_p (pc s b) = Some p -> a = b.
Proof. intros I Ha%(i_plk s I) Hb%(i_plk s I). congruence. Qed.
Lemma relies_rp_holds x p r : relies_rp x = Some (p, r) -> holds_r x = Some r.
Proof. destruct x; cbn; congruence. Qed.
Lemma relies_pr_holds x p r : relies_pr x = Some (p, r) -> holds_r x = Some r \/ holds_p x = Some p.
Proof. destruct x; cbn; intros; simplify_eq; auto. Qed.

Ltac upd_case := unfold insert, fn_insert in *; repeat case_decide; simplify_eq/=.
(** The cases of one event. *)
Ltac event_cases H :=
  match type of H with act _ ?e _ = _ => destruct e end; cbn [act] in H;
  unfold step, sleep_step, wakeup_step, postnote_step, lock_r, lock_p, make_ready, call in H; cbn [pc set_cond] in H;
  repeat (case_match; try done); simplify_eq.
(** What is known of the agent that acts. *)
Ltac acting s I :=
  try match goal with E : pc s ?a = _ |- _ =>
    let S := fresh "Sa" in pose proof (i_sleeper s I a) as S;
    let R := fresh "Ra" in pose proof (i_rely_rp s I a) as R;
    let R' := fresh "Ra" in pose proof (i_rely_pr s I a) as R';
    rewrite E in S, R, R'; cbn in S, R, R'; first [specialize (R _ _ eq_refl) | clear R]; first [specialize (R' _ _ eq_refl) | clear R'];
    lazymatch type of S with True => clear S | _ /\ _ => destruct S as [S ?]; simplify_eq | _ => simplify_eq end
  end;
  try match goal with R : pr (proc s ?p) = Some ?r |- _ =>
    let P := fresh "Pa" in pose proof (i_pr s I p r R) as P; unfold leaving in P
  end.
(** Case analysis on what was updated. *)
Ltac event H s I :=
  event_cases H; acting s I; cbn; upd_case; repeat match goal with E : pc s _ = _ |- _ => rewrite E in * end; cbn in *;
  try naive_solver congruence.

Lemma rlk_step e s s' : inv s -> act owner e s = Some s' ->
  forall a r, rlk (rend s' r) = Some a <-> holds_r (pc s' a) = Some r.
Proof.
  intros I H a0 r0. pose proof (i_rlk s I a0 r0) as L0. pose proof (fun a => i_rlk s I a r0) as L.
  event_cases H; try (match goal with E : pc s ?a = _ |- _ => pose proof (L a) end); clear L; cbn; upd_case;
    repeat match goal with E : pc s _ = _ |- _ => rewrite E in * end; cbn in *; naive_solver congruence.
Qed.
Lemma plk_step e s s' : inv s -> act owner e s = Some s' ->
  forall a p, plk (proc s' p) = Some a <-> holds_p (pc s' a) = Some p.
Proof.
  intros I H a0 p0. pose proof (i_plk s I a0 p0) as L0. pose proof (fun a => i_plk s I a p0) as L.
  event_cases H; try (match goal with E : pc s ?a = _ |- _ => pose proof (L a) end); clear L; cbn; upd_case;
    repeat match goal with E : pc s _ = _ |- _ => rewrite E in * end; cbn in *; naive_solver congruence.
Qed.
Lemma sleeper_step e s s' : inv s -> act owner e s = Some s' -> forall a, sleeper a (pc s' a).
Proof. intros I H a0. pose proof (i_sleeper s I a0). event H s I. Qed.
Lemma panic_step e s s' : inv s -> act owner e s = Some s' -> panicked s' = false.
Proof.
  intros I H. pose proof (i_panic s I). event_cases H; acting s I; try done;
    exfalso; match goal with n : ~ (_ /\ _) |- _ => apply n; tauto end.
Qed.
Lemma running_step e s s' : inv s -> act owner e s = Some s' ->
  forall p, away (pc s' (Pr p)) = false -> pstate (proc s' p) = Running /\ pr (proc s' p) = None.
Proof.
  intros I H p0. pose proof (i_running s I p0).
  assert (forall r, pc s (Pr p0) = Asleep p0 r -> pstate (proc s p0) = Ready -> pr (proc s p0) = None).
  { intros r E Es. destruct (i_asleep s I p0 r E) as [E'|]; [|tauto]. destruct (i_pr s I _ _ E'). congruence. }
  event H s I.
Qed.
Lemma pr_step e s s' : inv s -> act owner e s = Some s' ->
  forall p r, pr (proc s' p) = Some r -> pstate (proc s' p) = Wakeme /\ rp (rend s' r) = Some p /\ leaving (pc s' (Pr p)) p r.
Proof.
  intros I H p0 r0. pose proof (i_pr s I p0 r0) as P0.
  assert (pr (proc s p0) = Some r0 -> owner r0 = p0) as O.
  { intros E. apply (inv_owner s p0 r0 I). right. by apply P0. }
  unfold leaving in *. event H s I.
Qed.
Lemma asleep_step e s s' : inv s -> act owner e s = Some s' ->
  forall p r, pc s' (Pr p) = Asleep p r -> pr (proc s' p) = Some r \/ (pstate (proc s' p) = Ready /\ pr (proc s' p) = None).
Proof.
  intros I H p0 r0. pose proof (i_asleep s I p0 r0) as P0. event H s I.
Qed.
Lemma rp_step e s s' : inv s -> act owner e s = Some s' ->
  forall p r, rp (rend s' r) = Some p -> pr (proc s' p) = Some r \/ entering (pc s' (Pr p)) p r.
Proof.
  intros I H p0 r0. pose proof (i_rp s I p0 r0) as P0.
  assert (rp (rend s r0) = Some p0 -> owner r0 = p0) as O.
  { intros E. apply (inv_owner s p0 r0 I). destruct (P0 E) as [E'|]; [right; by apply (i_pr s I) | by left]. }
  assert (away (pc s (Pr p0)) = false -> pr (proc s p0) = None) as N by apply (i_running s I p0).
  unfold entering in *. event H s I.
Qed.
Lemma rely_rp_step e s s' : inv s -> act owner e s = Some s' ->
  forall a p r, relies_rp (pc s' a) = Some (p, r) -> rp (rend s' r) = Some p.
Proof.
  intros I H a0 p0 r0. pose proof (i_rely_rp s I a0 p0 r0) as P0. pose proof (fun a => excl_r s a a0 r0 I) as X.
  assert (relies_rp (pc s a0) = Some (p0, r0) -> holds_r (pc s a0) = Some r0) as Hh by apply relies_rp_holds.
  event_cases H; acting s I; try (match goal with E : pc s ?a = _ |- _ => specialize (X a); rewrite E in X; cbn in X end);
  cbn; upd_case; repeat match goal with E : pc s _ = _ |- _ => rewrite E in * end; cbn in *;
  try naive_solver congruence.
Qed.
Lemma rely_pr_step e s s' : inv s -> act owner e s = Some s' ->
  forall a p r, relies_pr (pc s' a) = Some (p, r) -> pr (proc s' p) = Some r.
Proof.
  intros I H a0 p0 r0. pose proof (i_rely_pr s I a0 p0 r0) as P0. pose proof (fun a => excl_r s a a0 r0 I) as X.
  pose proof (fun a => excl_p s a a0 p0 I) as Y.
  assert (relies_pr (pc s a0) = Some (p0, r0) -> holds_r (pc s a0) = Some r0 \/ holds_p (pc s a0) = Some p0) as Hh by apply relies_pr_holds.
  assert (away (pc s (Pr p0)) = false -> pr (proc s p0) = None) as N by apply (i_running s I p0).
  event_cases H; acting s I; try (match goal with E : pc s ?a = _ |- _ => specialize (X a); specialize (Y a); rewrite E in X, Y; cbn in X, Y end);
  cbn; upd_case; repeat match goal with E : pc s _ = _ |- _ => rewrite E in * end; cbn in *;
  try naive_solver congruence.
  intros [= -> ->]. destruct (i_rp s I p0 r0) as [|E]; [done..|].
  assert (a0 = Pr p0); [|subst; destruct E as [E|[E|[E|E]]]; congruence].
  apply (excl_r s _ _ r0 I); [by match goal with E : pc s a0 = _ |- _ => rewrite E end|].
  by destruct E as [-> | [-> | [-> | ->]]].
Qed.

Lemma inv_step e s s' : inv s -> act owner e s = Some s' -> inv s'.
Proof.
  intros I H. split; intros; [by eapply rlk_step | by eapply plk_step | by eapply sleeper_step | by eapply running_step
    | by eapply rely_rp_step | by eapply rely_pr_step | by eapply pr_step | by eapply asleep_step | by eapply rp_step
    | by eapply panic_step].
Qed.
Lemma inv_reach s : reach owner s -> inv s.
Proof. induction 1 as [|e s s' _ IH H]; [apply inv_start | by eapply inv_step]. Qed.

(** ** No wakeup is lost *)

(** [p] has found the condition false, or sleeps. *)
Definition committed (s : Sys) (p r : nat) : Prop :=
  pr (proc s p) = Some r \/ pc s (Pr p) = SlNote p r \/ pc s (Pr p) = SlCommit p r.

Lemma committed_rp s p r : inv s -> committed s p r -> rp (rend s r) = Some p.
Proof.
  intros I [E|E]; [by apply (i_pr s I)|]. apply (i_rely_rp s I (Pr p)). by destruct E as [-> | ->].
Qed.
Lemma committed_step e s s' p r : inv s -> act owner e s = Some s' -> committed s' p r -> cond s' r = true ->
  (committed s p r /\ cond s r = true) \/ exists a, pc s' a = WkLockR r.
Proof.
  intros I H. unfold committed. event H s I.
  all: intros _ _; right; match goal with |- context [decide (?a = _)] => exists a; by rewrite decide_True end.
Qed.
Lemma will_wake_step e s s' p r a : inv s -> act owner e s = Some s' -> committed s p r -> committed s' p r ->
  will_wake (pc s a) p r -> will_wake (pc s' a) p r.
Proof.
  intros I H Hc. pose proof (committed_rp s p r I Hc) as Hrp. unfold committed, will_wake in *.
  assert (away (pc s (Pr p)) = false -> pr (proc s p) = None) as N by apply (i_running s I p). event H s I.
Qed.
Lemma woken s : reach owner s -> forall p r, committed s p r -> cond s r = true -> exists a, will_wake (pc s a) p r.
Proof.
  induction 1 as [|e s s' Hs IH H]; intros p r Hc Ht; [done|]. pose proof (inv_reach s Hs) as I.
  destruct (committed_step e s s' p r I H Hc Ht) as [[Hc' Ht']|[a Ea]].
  - destruct (IH p r Hc' Ht') as [a Ha]. exists a. by eapply will_wake_step.
  - exists a. by left.
Qed.

(** [p] has seen no note, or sleeps. *)
Definition unaware (s : Sys) (p r : nat) : Prop := pr (proc s p) = Some r \/ pc s (Pr p) = SlCommit p r.

Lemma unaware_step e s s' p r : inv s -> act owner e s = Some s' -> unaware s' p r -> notepending (proc s' p) = true ->
  (unaware s p r /\ notepending (proc s p) = true) \/ exists a, pc s' a = PnLockP p.
Proof.
  intros I H. unfold unaware. event H s I.
  all: intros; right; match goal with |- context [decide (?a = _)] => exists a; by rewrite decide_True end.
Qed.
Lemma will_note_step e s s' p r a : inv s -> act owner e s = Some s' -> unaware s p r -> unaware s' p r ->
  will_note (pc s a) p r -> will_note (pc s' a) p r.
Proof.
  intros I H. pose proof (excl_p s a (Pr p) p I) as X. unfold unaware, will_note in *.
  assert (away (pc s (Pr p)) = false -> pr (proc s p) = None) as N by apply (i_running s I p). event H s I.
  intros Hu _ W. assert (p0 = p) as -> by (destruct W as [?|[?|[?|[?|?]]]]; congruence).
  destruct Hu as [|E]; [congruence|]. rewrite E in X. rewrite <- (X eq_refl eq_refl) in E. congruence.
Qed.
Lemma noted s : reach owner s -> forall p r, unaware s p r -> notepending (proc s p) = true -> exists a, will_note (pc s a) p r.
Proof.
  induction 1 as [|e s s' Hs IH H]; intros p r Hc Ht; [done|]. pose proof (inv_reach s Hs) as I.
  destruct (unaware_step e s s' p r I H Hc Ht) as [[Hc' Ht']|[a Ea]].
  - destruct (IH p r Hc' Ht') as [a Ha]. exists a. by eapply will_note_step.
  - exists a. by left.
Qed.

(** ** Deadlock *)

(** A routine that holds a [rlock] never waits. *)
Lemma step_holding_p a s p : holds_p (pc s a) = Some p -> is_Some (step a s).
Proof.
  intros E. unfold step, wakeup_step, postnote_step, sleep_step. destruct (pc s a); try done; repeat case_match; try done; by eexists.
Qed.
Lemma step_waits a s : step a s = None -> pc s a <> Idle -> (forall p r, pc s a <> Asleep p r) ->
  (exists p b, holds_p (pc s a) = None /\ plk (proc s p) = Some b) \/
  (exists r b, holds_r (pc s a) = None /\ rlk (rend s r) = Some b).
Proof.
  unfold step, wakeup_step, postnote_step, sleep_step, lock_r, lock_p. intros H Hi Hs.
  destruct (pc s a) eqn:E; try done; repeat (case_match; try done); try (by left; eauto); try (by right; eauto).
  by edestruct Hs.
Qed.
End Inv.

(** C17: the routines keep [r->p] and [p->r] together: whatever the agents and
    the interleaving of their steps, no [panic] is reached; when [p->r] is [r]
    the process is in state Wakeme and [r->p] is [p]; [r->p] without [p->r] is
    only seen while [p] itself holds both locks; and two agents never hold the
    same lock. *)
Theorem sleep_wakeup_safe owner s : reach owner s ->
  panicked s = false /\
  (forall p r, pr (proc s p) = Some r -> pstate (proc s p) = Wakeme /\ rp (rend s r) = Some p) /\
  (forall p r, rp (rend s r) = Some p -> pr (proc s p) = Some r \/
    (holds_r (pc s (Pr p)) = Some r /\ holds_p (pc s (Pr p)) = Some p)) /\
  (forall a b r, holds_r (pc s a) = Some r -> holds_r (pc s b) = Some r -> a = b) /\
  (forall a b p, holds_p (pc s a) = Some p -> holds_p (pc s b) = Some p -> a = b).
Proof.
  intros Hs. pose proof (inv_reach owner s Hs) as I. split; [apply (i_panic owner s I)|]. split; [|split; [|split]].
  - intros p r E. by destruct (i_pr owner s I p r E) as (? & ? & _).
  - intros p r E. destruct (i_rp owner s I p r E) as [|[E'|[E'|[E'|E']]]]; [by left|..]; right; by rewrite E'.
  - intros a b r. by apply (excl_r owner).
  - intros a b p. by apply (excl_p owner).
Qed.

(** C11: no wakeup and no note is lost: while a process sleeps on [r], if the
    condition is true some agent is in [wakeup(r)] and has not yet made the
    process ready, and if a note is pending some agent is in [postnote] for it
    and has not either. *)
Theorem no_lost_wakeup owner s p r : reach owner s -> pstate (proc s p) = Wakeme -> pr (proc s p) = Some r ->
  (cond s r = true -> exists a, will_wake (pc s a) p r) /\
  (notepending (proc s p) = true -> exists a, will_note (pc s a) p r).
Proof. intros Hs _ E. split; [apply (woken owner s Hs); by left | apply (noted owner s Hs); by left]. Qed.

(** The locks cannot deadlock, although [postnote] takes them in the
    other order: whenever some agent is in one of the routines, and not asleep,
    one of them can take a step; and one that holds a [rlock] always can. *)
Theorem sleep_no_deadlock owner s a : reach owner s -> pc s a <> Idle -> (forall p r, pc s a <> Asleep p r) ->
  (exists b, is_Some (step b s)) /\ (forall p, holds_p (pc s a) = Some p -> is_Some (step a s)).
Proof.
  intros Hs Hi Ha. pose proof (inv_reach owner s Hs) as I. split; [|intros p; apply step_holding_p].
  destruct (step a s) as [s'|] eqn:E; [by exists a; rewrite E; eexists|].
  assert (forall p b, plk (proc s p) = Some b -> is_Some (step b s)) as Hp.
  { intros p b Hb. apply (i_plk owner s I) in Hb. by eapply step_holding_p. }
  destruct (step_waits a s E Hi Ha) as [(p & b & _ & Hb)|(r & b & _ & Hb)]; [exists b; by eapply Hp|].
  apply (i_rlk owner s I) in Hb. destruct (step b s) as [s'|] eqn:Eb; [by exists b; rewrite Eb; eexists|].
  destruct (step_waits b s Eb) as [(p & c & _ & Hc)|(r' & c & E' & _)]; [by intros E0; rewrite E0 in Hb | by intros ? ? E0; rewrite E0 in Hb | |].
  - exists c. by eapply Hp.
  - congruence.
Qed.

(** A test of an address against itself. *)
Lemma decide_True_eq {A} `{EqDecision A} (x : A) {B} (u v : B) : (if decide (x = x) then u else v) = u.
Proof. by rewrite decide_True. Qed.

(** [wakeup] wakes: an agent about to call it for a [Rendez] with a process
    asleep on it, with the two locks free and the others not running, makes the
    process ready in six steps and leaves the locks free. *)
Theorem wakeup_readies owner s a p r : reach owner s -> pc s a = WkLockR r -> pr (proc s p) = Some r ->
  rlk (rend s r) = None -> plk (proc s p) = None ->
  exists s', run owner (replicate 6 (Step a)) s = Some s' /\ pstate (proc s' p) = Ready /\ pr (proc s' p) = None /\
    rp (rend s' r) = None /\ pc s' a = Idle /\ rlk (rend s' r) = None /\ plk (proc s' p) = None /\ panicked s' = false.
Proof.
  intros Hs Ea Ep El Ek. pose proof (inv_reach owner s Hs) as I. destruct (i_pr owner s I p r Ep) as (Es & Er & _).
  cbn [replicate run act]. unfold step at 1. rewrite Ea. unfold wakeup_step at 1. rewrite Ea. unfold lock_r. rewrite El.
  do 6 (unfold step, wakeup_step, lock_p, make_ready, goto, onr, onp, insert, fn_insert; cbn; rewrite ?Er, ?Ek;
        rewrite ?(decide_True_eq p), ?(decide_True_eq r), ?(decide_True_eq a); cbn; rewrite ?Er, ?Ep, ?Ek, ?Es;
        try rewrite (decide_True (P := Wakeme = Wakeme /\ Some r = Some r)) by done; cbn).
  eexists. split; [done|]. cbn.
  repeat (rewrite ?(decide_True_eq p), ?(decide_True_eq r), ?(decide_True_eq a); cbn).
  split_and!; try done. apply (i_panic owner s I).
Qed.

(** ** Witnesses *)

Lemma run_reach owner es : forall s s', reach owner s -> run owner es s = Some s' -> reach owner s'.
Proof.
  induction es as [|e es IH]; intros s s' Hs H; cbn in H; [by injection H as <-|].
  destruct (act owner e s) as [s1|] eqn:E; [|done]. apply (IH s1); [by eapply reach_act | done].
Qed.

(** Process 1 goes to sleep; after it has found the condition false an
    interrupt makes it true, and after it has seen no note another process
    posts one: both then find the locks taken until it is asleep. *)
Definition demo_owner (r : nat) : nat := 1.
Definition demo_trace : list Act :=
  [CallSleep 1 0] ++ replicate 4 (Step (Pr 1)) ++ [Signal (Intr 0) 0; Step (Pr 1); CallPostnote (Pr 2) 1; Step (Pr 2)] ++
  replicate 3 (Step (Pr 1)).
Definition demo_asleep : Sys := default start (run demo_owner demo_trace start).
Lemma demo_asleep_reach : reach demo_owner demo_asleep.
Proof.
  assert (match run demo_owner demo_trace start with Some _ => true | None => false end = true) as H by (vm_compute; reflexivity).
  unfold demo_asleep. destruct (run demo_owner demo_trace start) as [s|] eqn:E; [|done].
  apply (run_reach demo_owner demo_trace start); [apply reach_start | exact E].
Qed.

Lemma sleep_wakeup_safe_witness : rp (rend demo_asleep 0) = Some 1 /\ panicked demo_asleep = false.
Proof.
  destruct (sleep_wakeup_safe demo_owner demo_asleep demo_asleep_reach) as (Hp & Hr & _).
  split; [|exact Hp]. apply (Hr 1 0). vm_compute. reflexivity.
Defined.
Lemma no_lost_wakeup_witness :
  (exists a, will_wake (pc demo_asleep a) 1 0) /\ (exists a, will_note (pc demo_asleep a) 1 0).
Proof.
  destruct (no_lost_wakeup demo_owner demo_asleep 1 0 demo_asleep_reach) as [Hw Hn]; [vm_compute; reflexivity..|].
  split; [apply Hw | apply Hn]; vm_compute; reflexivity.
Defined.
Lemma sleep_no_deadlock_witness : exists b, is_Some (step b demo_asleep).
Proof.
  destruct (sleep_no_deadlock demo_owner demo_asleep (Intr 0) demo_asleep_reach) as [H _].
  - vm_compute. discriminate.
  - intros p r. vm_compute. discriminate.
  - exact H.
Defined.
Lemma wakeup_readies_witness :
  exists s', run demo_owner (replicate 6 (Step (Intr 0))) demo_asleep = Some s' /\ pstate (proc s' 1) = Ready.
Proof.
  destruct (wakeup_readies demo_owner demo_asleep (Intr 0) 1 0 demo_asleep_reach) as (s' & H & Hr & _); [vm_compute; reflexivity..|].
  exists s'. split; [exact H | exact Hr].
Defined.
