(* ===== verification/Sched.v ===== *)
(** * The scheduler's run queues: port/proc.c

    A [Sched] serves [Schedsz] processors and has a queue for each priority:
    processes linked through [rnext] with a [head], a [tail] and a count, a bit of
    [runvec] for each queue that is not empty and [nrdy], the count of them all.
    The pointers are modelled as they are.  Each routine runs with its
    scheduler's lock held, so it is one step.  Processes are those without real
    time parameters ([edf] is nil). *)

From stdpp Require Import base list sets functions strings.
From Stdlib Require Import ZArith Lia.
From S2P Require Import Prelude Chain Qlock.
Open Scope Z_scope.
Open Scope nix_scope.
Set Warnings "-clear-no-such-hyp".

Definition Scaling : Z := 2.
Definition Schedgain : Z := 30.
Definition HZ : Z := 100.
Definition Schedsz : nat := 2.
Definition Nbalance : Z := 3.
Definition Npriq : Z := 20.
Definition Nrq : Z := 22.
Definition CPUD : Z := Schedgain * HZ * Scaling.

(** The fields of a [Proc] the scheduler uses. *)
Record Proc := mkProc {
  pstate : Pstate; mach : option nat; sch : nat; rnext : option nat;
  cpu : Z; lastupdate : Z; basepri : Z; priority : Z; fixedpri : bool;
  wired : option nat; mp : option nat
}.
Record Schedq := mkSchedq { head : option nat; tail : option nat; n : Z }.
Record Sched := mkSched {
  nrdy : Z; runq : Z -> Schedq; runvec : Z; smp : option nat; balancetime : Z; nruns : Z; nrebalance : Z
}.
(** The processes by their address, and [scheds]. *)
Record Sys := mkSys { procs : nat -> Proc; scheds : nat -> Sched }.

Definition set_pstate x p := mkProc x (mach p) (sch p) (rnext p) (cpu p) (lastupdate p) (basepri p) (priority p) (fixedpri p) (wired p) (mp p).
Definition set_mach x p := mkProc (pstate p) x (sch p) (rnext p) (cpu p) (lastupdate p) (basepri p) (priority p) (fixedpri p) (wired p) (mp p).
Definition set_sch x p := mkProc (pstate p) (mach p) x (rnext p) (cpu p) (lastupdate p) (basepri p) (priority p) (fixedpri p) (wired p) (mp p).
Definition set_rnext x p := mkProc (pstate p) (mach p) (sch p) x (cpu p) (lastupdate p) (basepri p) (priority p) (fixedpri p) (wired p) (mp p).
Definition set_cpu c t p := mkProc (pstate p) (mach p) (sch p) (rnext p) c t (basepri p) (priority p) (fixedpri p) (wired p) (mp p).
Definition set_priority x p := mkProc (pstate p) (mach p) (sch p) (rnext p) (cpu p) (lastupdate p) (basepri p) x (fixedpri p) (wired p) (mp p).
Definition set_basepri x f p := mkProc (pstate p) (mach p) (sch p) (rnext p) (cpu p) (lastupdate p) x x f (wired p) (mp p).
Definition set_wired x p := mkProc (pstate p) (mach p) (sch p) (rnext p) (cpu p) (lastupdate p) (basepri p) (priority p) (fixedpri p) x (mp p).
Definition set_mp x p := mkProc (pstate p) (mach p) (sch p) (rnext p) (cpu p) (lastupdate p) (basepri p) (priority p) (fixedpri p) (wired p) x.

Definition set_runq (pri : Z) (q : Schedq) s := mkSched (nrdy s) (<[pri := q]> (runq s)) (runvec s) (smp s) (balancetime s) (nruns s) (nrebalance s).
Definition set_counts (r v : Z) s := mkSched r (runq s) v (smp s) (balancetime s) (nruns s) (nrebalance s).
Definition set_balancetime t s := mkSched (nrdy s) (runq s) (runvec s) (smp s) t (nruns s) (nrebalance s).
Definition inc_nruns s := mkSched (nrdy s) (runq s) (runvec s) (smp s) (balancetime s) (u32 (nruns s + 1)) (nrebalance s).
Definition inc_nrebalance s := mkSched (nrdy s) (runq s) (runvec s) (smp s) (balancetime s) (nruns s) (u32 (nrebalance s + 1)).

Definition onproc (p : nat) (g : Proc -> Proc) : M Sys () :=
  modify (fun s => mkSys (<[p := g (procs s p)]> (procs s)) (scheds s)).
Definition onsched (c : nat) (g : Sched -> Sched) : M Sys () :=
  modify (fun s => mkSys (procs s) (<[c := g (scheds s c)]> (scheds s))).
Definition proc (p : nat) : M Sys Proc := gets (fun s => procs s p).
Definition sched_of (c : nat) : M Sys Sched := gets (fun s => scheds s c).

(** The system as the scheduler sees it: the clock [ticks], the number of
    processors on line and the load; [ticksof m] is [m->ticks]. *)
Class Clock := { ticks : Z; nonline : Z; load : Z; ticksof : nat -> Z }.

Section Sched.
Context `{C : Clock}.

(** [m->sch]: [setsched] gives a processor its scheduler. *)
Definition sched_index (m : nat) : nat := (m / Schedsz)%nat.

(** [up]: is [p] the process that runs here? *)
Definition updatecpu1 (up : bool) (p : Proc) : Proc :=
  let t := s32 (ticks * Scaling + Z.quot Scaling 2) in
  let k := s32 (t - lastupdate p) in
  if k =? 0 then set_cpu (cpu p) (u32 t) p
  else
    let k := if k >? CPUD then CPUD else k in
    let c := if up then 1000 - Z.quot (s32 ((1000 - cpu p) * (CPUD - k))) CPUD
             else Z.quot (s32 (cpu p * (CPUD - k))) CPUD in
    set_cpu (u32 c) (u32 t) p.
Definition updatecpu (up : bool) (p : nat) : M Sys () := onproc p (updatecpu1 up).

Definition reprioritize1 (p : Proc) : Z :=
  if load =? 0 then basepri p
  else
    let fairshare := Z.quot (s32 (nonline * 1000 * 1000)) load in
    let k := if s32 (cpu p) =? 0 then 1 else s32 (cpu p) in
    let ratio := Z.quot (s32 (fairshare + Z.quot k 2)) k in
    (* the comparison is of unsigned numbers *)
    if u32 ratio >? basepri p then basepri p else ratio.
Definition reprioritize (p : nat) : M Sys Z :=
  x <- proc p ;;
  if load =? 0 then ret (basepri x)
  else
    let ratio := s32 (reprioritize1 x) in
    if ratio <? 0 then panic "reprioritize"%string else ret ratio.

Definition procpriority (p : nat) (pri : Z) (fixed : bool) : M Sys () :=
  let pri := if pri >=? Npriq then Npriq - 1 else if pri <? 0 then 0 else pri in
  onproc p (set_basepri pri fixed).

Definition linkproc (p : nat) (pri : Z) : M Sys () :=
  x <- proc p ;;
  match rnext x with
  | Some _ => panic "linkproc"%string
  | None =>
    onproc p (set_priority pri) ;;
    s <- sched_of (sch x) ;;
    let rq := runq s pri in
    h <- (match tail rq with
          | Some t => onproc t (set_rnext (Some p)) ;; ret (head rq)
          | None => ret (Some p)
          end) ;;
    onsched (sch x) (set_runq pri (mkSchedq h (Some p) (s32 (n rq + 1)))) ;;
    onsched (sch x) (fun s => set_counts (s32 (nrdy s + 1)) (Z.lor (runvec s) (Z.shiftl 1 pri)) s)
  end.

(** [rq] is queue [pri] of scheduler [c]; the counts are those of [p->sch]. *)
Definition unlinkproc (c : nat) (pri : Z) (l : option nat) (p : nat) : M Sys () :=
  x <- proc p ;;
  s <- sched_of c ;;
  let rq := runq s pri in
  h <- (match l with
        | Some l => onproc l (set_rnext (rnext x)) ;; ret (head rq)
        | None => ret (rnext x)
        end) ;;
  let t := match rnext x with None => l | Some _ => tail rq end in
  onproc p (set_rnext None) ;;
  (match h with
   | None =>
     if decide (sch x = c) then
       onsched c (fun s => set_counts (nrdy s) (Z.land (runvec s) (Z.lnot (Z.shiftl 1 pri))) s)
     else undef "rq - sch->runq: pointers into two schedulers"%string
   | Some _ => ret tt
   end) ;;
  onsched c (set_runq pri (mkSchedq h t (s32 (n rq - 1)))) ;;
  onsched (sch x) (fun s => set_counts (s32 (nrdy s - 1)) (runvec s) s).

Definition anyready (m : nat) : M Sys bool := s <- sched_of (sched_index m) ;; ret (negb (runvec s =? 0)).
Definition anyhigher (m up : nat) : M Sys bool :=
  s <- sched_of (sched_index m) ;; x <- proc up ;;
  ret (negb (Z.land (runvec s) (Z.lnot (Z.shiftl 1 (priority x + 1) - 1)) =? 0)).

Definition ready (up : bool) (p : nat) : M Sys () :=
  updatecpu up p ;;
  pri <- reprioritize p ;;
  onproc p (set_priority pri) ;;
  onproc p (set_pstate Ready) ;;
  linkproc p pri.

(** Can [p], on a queue of scheduler [c], run on [m] now? *)
Definition runnable (m : nat) (affinity : bool) (x : Proc) : bool :=
  match mach x with
  | Some _ => false
  | None =>
    match wired x with
    | Some w => negb (sch x =? sched_index w)%nat || (w =? m)%nat
    | None => match mp x with None => true | Some m' => negb affinity || (m' =? m)%nat end
    end
  end.

(** [for(p = rq->head; p != nil; p = p->rnext)]; [l] is the one before. *)
Fixpoint rq_scan (fuel : nat) (m : nat) (affinity : bool) (l p : option nat) : M Sys (option (option nat * nat)) :=
  match p with
  | None => ret None
  | Some p =>
    match fuel with
    | O => undef "fuel"%string
    | S fuel =>
      x <- proc p ;;
      if runnable m affinity x then
        (* a process wired to another scheduler moves there *)
        (match mach x, wired x with
         | None, Some w => if (sch x =? sched_index w)%nat then ret tt else onproc p (set_sch (sched_index w))
         | _, _ => ret tt
         end) ;;
        ret (Some (l, p))
      else rq_scan fuel m affinity (Some p) (rnext x)
    end
  end.
Definition rqrunproc (c : nat) (pri : Z) (m : nat) (affinity : bool) : M Sys (option nat) :=
  s <- sched_of c ;;
  r <- rq_scan (S (Z.to_nat (n (runq s pri)))) m affinity None (head (runq s pri)) ;;
  match r with
  | Some (l, p) => unlinkproc c pri l p ;; ret (Some p)
  | None => ret None
  end.

(** One queue of [rebalance], from [again:] or from the process after [l]. *)
Fixpoint rebalance_queue (fuel : nat) (c : nat) (pri : Z) (l p : option nat) : M Sys () :=
  match p with
  | None => ret tt
  | Some p =>
    match fuel with
    | O => undef "fuel"%string
    | S fuel =>
      updatecpu false p ;;
      npri <- reprioritize p ;;
      if negb (npri =? pri) then
        onsched c inc_nrebalance ;;
        unlinkproc c pri l p ;;
        linkproc p npri ;;
        s <- sched_of c ;;
        rebalance_queue fuel c pri None (head (runq s pri))
      else
        x <- proc p ;;
        rebalance_queue fuel c pri (Some p) (rnext x)
    end
  end.
Fixpoint rebalance_from (k : nat) (c : nat) (pri : Z) : M Sys () :=
  match k with
  | O => ret tt
  | S k =>
    s <- sched_of c ;;
    let q := runq s pri in
    rebalance_queue (S (Z.to_nat (n q)) * S (Z.to_nat (n q))) c pri None (head q) ;;
    rebalance_from k c (pri + 1)
  end.
Definition rebalance (c : nat) : M Sys () := rebalance_from (Z.to_nat Npriq) c 0.

(** [for(i = Nrq-1; i >= 0; i--)]; [prefer]: look for affinity first. *)
Fixpoint pick (k : nat) (c m : nat) (prefer : bool) : M Sys (option nat) :=
  match k with
  | O => ret None
  | S k =>
    let i := Z.of_nat k in
    p <- (if prefer then rqrunproc c i m true else ret None) ;;
    p <- (match p with Some _ => ret p | None => rqrunproc c i m false end) ;;
    match p with Some p => ret (Some p) | None => pick k c m prefer end
  end.

(** One round of [runproc]'s loop; [None]: nothing to run, the processor idles. *)
Definition runproc (m : nat) : M Sys (option nat) :=
  let c := sched_index m in
  onsched c inc_nruns ;;
  s <- sched_of c ;;
  (if bool_decide (smp s = Some m) && (u32 (ticksof m - balancetime s) >=? HZ) then
     rebalance c ;; onsched c (set_balancetime (ticksof m))
   else ret tt) ;;
  s <- sched_of c ;;
  p <- pick (Z.to_nat Nrq) c m (negb (nruns s mod Nbalance =? 0)) ;;
  match p with
  | None => ret None
  | Some p => onproc p (set_pstate Scheding) ;; onproc p (set_mp (Some m)) ;; ret (Some p)
  end.

(** The end of [sched]: [p] runs on [m]. *)
Definition dispatch (m p : nat) : M Sys () :=
  updatecpu false p ;;
  pri <- reprioritize p ;;
  onproc p (set_priority pri) ;;
  onproc p (set_pstate Running) ;;
  onproc p (set_mach (Some m)).

(** [schedinit], when [up] has given up the processor: up to, and with,
    [up->mach = nil]. *)
Definition leave (up : nat) : M Sys () :=
  updatecpu true up ;;
  x <- proc up ;;
  match pstate x with
  | Running => ready true up
  | Moribund => onproc up (set_pstate Dead)
  | _ => ret tt
  end.
Definition switch_out (up : nat) : M Sys () := leave up ;; onproc up (set_mach None).

Definition PriNormal : Z := 10.
(** What [newproc], called on [m], sets of a process from [psalloc]. *)
Definition newproc (m p : nat) : M Sys () :=
  onproc p (set_pstate Scheding) ;;
  onproc p (set_mach None) ;;
  onproc p (set_mp None) ;;
  onproc p (set_wired None) ;;
  procpriority p PriNormal false ;;
  onproc p (set_cpu 0 (u32 (ticks * Scaling))) ;;
  onproc p (set_sch (sched_index m)).
(** A process made by [kproc], [sysrfork] or [userinit]; until it is ready only
    its maker knows it. *)
Definition start (m p : nat) : M Sys () := newproc m p ;; ready false p.
End Sched.

(** ** The processors

    What each processor does: it looks for a process, has one that [runproc]
    gave it, runs it, or is in [schedinit] after it.  The routines above are the
    steps, in any interleaving; [m]'s clock interrupts and the locks of the
    callers are not. *)
Inductive Cpu := Idle | Chose (p : nat) | On (p : nat) | Leaving (p : nat).
Record World := mkWorld { sys : Sys; cpus : nat -> Cpu }.

Definition blocked (st : Pstate) : bool :=
  match st with Queueing | QueueingR | QueueingW | Wakeme | Broken | Stopped | Rendezvous | Waitrelease => true | _ => false end.
Definition assign_state (p : nat) (st : Pstate) (s : Sys) : Sys := mkSys (<[p := set_pstate st (procs s p)]> (procs s)) (scheds s).
Definition set_cpus (m : nat) (k : Cpu) (w : World) (s : Sys) : World := mkWorld s (<[m := k]> (cpus w)).

(** [PROCMAX], the size of the table of processes.  With [reuse], [newproc] may
    take any process that [psrelease] has put on the free list; without it, only
    one whose processor is done with it. *)
Inductive step `{Clock} (PROCMAX : nat) (reuse : bool) : World -> World -> Prop :=
  | step_none w m s : cpus w m = Idle -> runproc m (sys w) = Ret None s -> step PROCMAX reuse w (mkWorld s (cpus w))
  | step_choose w m p s : cpus w m = Idle -> runproc m (sys w) = Ret (Some p) s -> step PROCMAX reuse w (set_cpus m (Chose p) w s)
  | step_dispatch w m p s : cpus w m = Chose p -> dispatch m p (sys w) = Ret tt s -> step PROCMAX reuse w (set_cpus m (On p) w s)
  | step_block w m p st : cpus w m = On p -> pstate (procs (sys w) p) = Running -> blocked st = true ->
      step PROCMAX reuse w (mkWorld (assign_state p st (sys w)) (cpus w))
  | step_exit w m p : cpus w m = On p -> pstate (procs (sys w) p) = Running ->
      step PROCMAX reuse w (mkWorld (assign_state p Moribund (sys w)) (cpus w))
  | step_leave w m p s : cpus w m = On p -> leave p (sys w) = Ret tt s -> step PROCMAX reuse w (set_cpus m (Leaving p) w s)
  | step_out w m p s : cpus w m = Leaving p -> onproc p (set_mach None) (sys w) = Ret tt s -> step PROCMAX reuse w (set_cpus m Idle w s)
  | step_wake w p s : blocked (pstate (procs (sys w) p)) = true -> ready false p (sys w) = Ret tt s ->
      step PROCMAX reuse w (mkWorld s (cpus w))
  | step_new w m p s : (p < PROCMAX)%nat -> pstate (procs (sys w) p) = Dead -> (reuse = false -> forall m', cpus w m' <> Leaving p) ->
      start m p (sys w) = Ret tt s -> step PROCMAX reuse w (mkWorld s (cpus w)).

Definition boot_proc : Proc := mkProc Dead None 0 None 0 0 0 0 false None None.
(** [smps]: [sch->mp], which the last processor through [schedinit] has set. *)
Definition boot (smps : nat -> option nat) : World :=
  mkWorld (mkSys (fun _ => boot_proc) (fun c => mkSched 0 (fun _ => mkSchedq None None 0) 0 (smps c) 0 0 0)) (fun _ => Idle).
Inductive reachable `{Clock} (PROCMAX : nat) (reuse : bool) (smps : nat -> option nat) : World -> Prop :=
  | reach_boot : reachable PROCMAX reuse smps (boot smps)
  | reach_step w w' : reachable PROCMAX reuse smps w -> step PROCMAX reuse w w' -> reachable PROCMAX reuse smps w'.

(** [p] is the process of processor [m]: its kernel stack is, or is about to be, in use there. *)
Definition owns (w : World) (m p : nat) : Prop := cpus w m = Chose p \/ cpus w m = On p \/ cpus w m = Leaving p.

(** ** The queues as lists *)
(** [L c i]: queue [i] of scheduler [c], from its head. *)
Definition Queues : Type := nat -> Z -> list nat.
Definition queue_lens (q : Z -> list nat) : Z := zsum ((fun i => zlen (q i)) <$> seqZ 0 Nrq).
Definition queued (L : Queues) (p : nat) : Prop := exists c i, p ∈ L c i.
Definition next_of (s : Sys) (p : nat) : option nat := rnext (procs s p).

Record sched_ok (L : Queues) (s : Sys) : Prop := {
  so_seg c i : seg (next_of s) (head (runq (scheds s c) i)) (L c i) None;
  so_tail c i : tail (runq (scheds s c) i) = last (L c i);
  so_n c i : n (runq (scheds s c) i) = zlen (L c i);
  so_nrdy c : nrdy (scheds s c) = queue_lens (L c);
  so_bound c : queue_lens (L c) < 2 ^ 31;
  so_vec c : 0 <= runvec (scheds s c);
  so_bit c i : 0 <= i -> Z.testbit (runvec (scheds s c)) i = negb (bool_decide (L c i = []));
  so_range c i : L c i <> [] -> 0 <= i < Nrq;
  so_once c i : NoDup (L c i);
  so_member c i p : p ∈ L c i -> sch (procs s p) = c /\ priority (procs s p) = i /\ pstate (procs s p) = Ready;
  so_free p : ~ queued L p -> next_of s p = None
}.

Definition with_queue (c : nat) (i : Z) (l : list nat) (L : Queues) : Queues := <[c := <[i := l]> (L c)]> L.

Lemma with_queue_eq c i l L : with_queue c i l L c i = l.
Proof. unfold with_queue, insert, fn_insert. by rewrite !decide_True. Qed.
Lemma with_queue_ne c i l L c' i' : c <> c' \/ i <> i' -> with_queue c i l L c' i' = L c' i'.
Proof. unfold with_queue, insert, fn_insert. intros H. repeat case_decide; naive_solver. Qed.

Lemma zsum_update (f g : Z -> Z) i l : NoDup l -> i ∈ l -> (forall j, j <> i -> g j = f j) ->
  zsum (g <$> l) = zsum (f <$> l) - f i + g i.
Proof.
  intros Hn Hi E. induction l as [|j l IH]; [by apply elem_of_nil in Hi|]. apply NoDup_cons in Hn as [Hj Hn].
  cbn. destruct (decide (i = j)) as [->|Ne].
  - assert (g <$> l = f <$> l) as ->; [|unfold zsum; lia]. apply list_fmap_ext. intros k x Hx. apply E. intros ->.
    apply Hj. by eapply list_elem_of_lookup_2.
  - apply elem_of_cons in Hi as [->|Hi]; [done|]. unfold zsum in *. rewrite IH by done. rewrite (E j) by done. lia.
Qed.
Lemma queue_lens_with c i l L : 0 <= i < Nrq ->
  queue_lens (with_queue c i l L c) = queue_lens (L c) - zlen (L c i) + zlen l.
Proof.
  intros Hi. unfold queue_lens. rewrite (zsum_update (fun j => zlen (L c j)) _ i).
  - cbn. by rewrite with_queue_eq.
  - apply NoDup_seqZ.
  - apply elem_of_seqZ. unfold Nrq in *. lia.
  - intros j Hj. rewrite with_queue_ne by auto. done.
Qed.
Lemma queue_lens_other c i l L c' : c' <> c -> queue_lens (with_queue c i l L c') = queue_lens (L c').
Proof. intros Hc. unfold queue_lens. f_equal. apply list_fmap_ext. intros k j _. by rewrite with_queue_ne by auto. Qed.
Lemma zsum_ge0 l : Forall (Z.le 0) l -> 0 <= zsum l.
Proof. induction 1 as [|x l Hx _ IH]; cbn in *; unfold zsum in *; lia. Qed.
Lemma queue_lens_ge q i : 0 <= i < Nrq -> zlen (q i) <= queue_lens q.
Proof.
  intros Hi. unfold queue_lens. assert (i ∈ seqZ 0 Nrq) as Hin by (apply elem_of_seqZ; unfold Nrq in *; lia).
  apply list_elem_of_split in Hin as (l1 & l2 & ->). rewrite fmap_app, zsum_app, fmap_cons.
  assert (forall l, 0 <= zsum ((fun j => zlen (q j)) <$> l)) as H0.
  { intros l. apply zsum_ge0. apply Forall_fmap, Forall_forall. intros j _. apply zlen_nonneg. }
  pose proof (H0 l1). pose proof (H0 l2). cbn. unfold zsum in *. lia.
Qed.

(** What linking and unlinking leave alone: all but [rnext] of a process, and
    the fields of a scheduler that are not about its queues. *)
Definition same_proc (x y : Proc) : Prop := y = set_rnext (rnext y) x.
Definition same_sched (x y : Sched) : Prop := smp y = smp x /\ nruns y = nruns x.

Lemma wp_onproc p g s (Q : () -> Sys -> Prop) : Q tt (mkSys (<[p := g (procs s p)]> (procs s)) (scheds s)) -> wp (onproc p g) s Q.
Proof. done. Qed.
Lemma wp_onsched c g s (Q : () -> Sys -> Prop) : Q tt (mkSys (procs s) (<[c := g (scheds s c)]> (scheds s))) -> wp (onsched c g) s Q.
Proof. done. Qed.

(** What a process is to the queues. *)
Definition place (x : Proc) : nat * Z * Pstate := (sch x, priority x, pstate x).
Lemma same_place x y : same_proc x y -> place y = place x.
Proof. unfold same_proc. by intros ->. Qed.
Lemma member_place L s c i p : sched_ok L s -> p ∈ L c i -> place (procs s p) = (c, i, Ready).
Proof. intros O Hp. destruct (so_member L s O c i p Hp) as (E1 & E2 & E3). unfold place. by rewrite E1, E2, E3. Qed.
Lemma member_once L s c i c' j p : sched_ok L s -> p ∈ L c i -> p ∈ L c' j -> c' = c /\ j = i.
Proof. intros O H1 H2. pose proof (member_place L s c i p O H1). pose proof (member_place L s c' j p O H2). split; congruence. Qed.

Section Proofs.
Context `{C : Clock}.

Ltac upds := unfold insert, fn_insert in *; cbn in *; repeat case_decide; simplify_eq/=.

Lemma testbit_set v i j : 0 <= i -> 0 <= j -> Z.testbit (Z.lor v (Z.shiftl 1 i)) j = (i =? j) || Z.testbit v j.
Proof.
  intros Hi Hj. rewrite Z.lor_spec, Z.shiftl_1_l, Z.pow2_bits_eqb by lia. apply orb_comm.
Qed.
Lemma testbit_clear v i j : 0 <= i -> 0 <= j -> Z.testbit (Z.land v (Z.lnot (Z.shiftl 1 i))) j = negb (i =? j) && Z.testbit v j.
Proof.
  intros Hi Hj. rewrite Z.land_spec, Z.lnot_spec, Z.shiftl_1_l, Z.pow2_bits_eqb by lia. apply andb_comm.
Qed.

(** A change of one queue. *)
Lemma sched_ok_update L s s' c i l : sched_ok L s -> 0 <= i < Nrq ->
  (forall c', c' <> c -> scheds s' c' = scheds s c') -> (forall j, j <> i -> runq (scheds s' c) j = runq (scheds s c) j) ->
  seg (next_of s') (head (runq (scheds s' c) i)) l None -> tail (runq (scheds s' c) i) = last l ->
  n (runq (scheds s' c) i) = zlen l ->
  nrdy (scheds s' c) = nrdy (scheds s c) - zlen (L c i) + zlen l -> queue_lens (with_queue c i l L c) < 2 ^ 31 ->
  0 <= runvec (scheds s' c) ->
  (forall j, 0 <= j -> Z.testbit (runvec (scheds s' c)) j =
    if decide (j = i) then negb (bool_decide (l = [])) else Z.testbit (runvec (scheds s c)) j) ->
  NoDup l -> (forall q, q ∈ l -> place (procs s' q) = (c, i, Ready)) ->
  (forall c' j q, c' <> c \/ j <> i -> q ∈ L c' j -> next_of s' q = next_of s q /\ place (procs s' q) = place (procs s q)) ->
  (forall q, ~ queued (with_queue c i l L) q -> next_of s' q = None) ->
  sched_ok (with_queue c i l L) s'.
Proof.
  intros O Hi Hx Hj Hs Ht Hn Hr Hb Hv Hbit Hd Hm Ho Hf.
  assert (forall c' j, c' <> c \/ j <> i -> runq (scheds s' c') j = runq (scheds s c') j) as Hq.
  { intros c' j Ne. destruct (decide (c' = c)) as [->|Nc]; [apply Hj; naive_solver | by rewrite Hx]. }
  assert (forall c' j (P : list nat -> Schedq -> Prop), P l (runq (scheds s' c) i) ->
    (c' <> c \/ j <> i -> P (L c' j) (runq (scheds s c') j)) -> P (with_queue c i l L c' j) (runq (scheds s' c') j)) as Hcase.
  { intros c' j P H1 H2. destruct (decide (c' = c /\ j = i)) as [[-> ->]|Ne]; [by rewrite with_queue_eq|].
    assert (c' <> c \/ j <> i) as Ne' by (destruct (decide (c' = c)), (decide (j = i)); naive_solver).
    rewrite with_queue_ne, Hq by naive_solver. by apply H2. }
  split; try done; intros c'.
  - intros j. apply (Hcase c' j (fun l q => seg (next_of s') (head q) l None)); [done|]. intros Ne.
    eapply seg_ext; [|apply (so_seg L s O)]. intros q Hq'. by apply (Ho c' j).
  - intros j. apply (Hcase c' j (fun l q => tail q = last l)); [done|]. intros _. apply (so_tail L s O).
  - intros j. apply (Hcase c' j (fun l q => n q = zlen l)); [done|]. intros _. apply (so_n L s O).
  - destruct (decide (c' = c)) as [->|Ne]; [rewrite queue_lens_with by done | rewrite queue_lens_other by done; rewrite (Hx c' Ne); apply (so_nrdy L s O)].
    rewrite Hr, (so_nrdy L s O). done.
  - destruct (decide (c' = c)) as [->|Ne]; [done | rewrite queue_lens_other by done; apply (so_bound L s O)].
  - destruct (decide (c' = c)) as [->|Ne]; [done|]. rewrite (Hx c' Ne). apply (so_vec L s O).
  - intros j Hj'. destruct (decide (c' = c)) as [->|Ne].
    + rewrite Hbit by done. destruct (decide (j = i)) as [->|Nj]; [by rewrite with_queue_eq|].
      rewrite with_queue_ne by naive_solver. by apply (so_bit L s O).
    + rewrite (Hx c' Ne). rewrite with_queue_ne by naive_solver. by apply (so_bit L s O).
  - intros j. destruct (decide (c' = c /\ j = i)) as [[-> ->]|Ne]; [done|].
    rewrite with_queue_ne by (destruct (decide (c' = c)), (decide (j = i)); naive_solver). apply (so_range L s O).
  - intros j. apply (Hcase c' j (fun l q => NoDup l)); [done|]. intros _. apply (so_once L s O).
  - intros j q. destruct (decide (c' = c /\ j = i)) as [[-> ->]|Ne]; [rewrite with_queue_eq; intros Hq'; pose proof (Hm q Hq') as E; by inversion E|].
    assert (c' <> c \/ j <> i) as Ne' by (destruct (decide (c' = c)), (decide (j = i)); naive_solver).
    rewrite with_queue_ne by naive_solver. intros Hq'. destruct (Ho c' j q Ne' Hq') as [_ E].
    rewrite (member_place L s c' j q O Hq') in E. by inversion E.
Qed.

Definition same_scheds (s s' : Sys) : Prop := forall c, same_sched (scheds s c) (scheds s' c).
(** Each process is [g] of what it was but for [rnext]. *)
Definition same_procs (g : nat -> Proc -> Proc) (s s' : Sys) : Prop :=
  forall q, same_proc (g q (procs s q)) (procs s' q).
Definition prio_at (p : nat) (pri : Z) (q : nat) (x : Proc) : Proc := if decide (q = p) then set_priority pri x else x.

Lemma queue_bound L s c i : sched_ok L s -> 0 <= i < Nrq -> 0 <= zlen (L c i) <= queue_lens (L c) /\ queue_lens (L c) < 2 ^ 31.
Proof.
  intros O Hi. split; [split; [apply zlen_nonneg | by apply (queue_lens_ge (L c))] | apply (so_bound L s O)].
Qed.

Lemma wp_proc p s (Q : Proc -> Sys -> Prop) : Q (procs s p) s -> wp (proc p) s Q.
Proof. done. Qed.
Lemma wp_sched_of c s (Q : Sched -> Sys -> Prop) : Q (scheds s c) s -> wp (sched_of c) s Q.
Proof. done. Qed.
Ltac sched_step :=
  lazymatch goal with
  | |- wp (proc _) _ _ => apply wp_proc; cbn [procs scheds]
  | |- wp (sched_of _) _ _ => apply wp_sched_of; cbn [procs scheds]
  | |- wp (onproc _ _) _ _ => apply wp_onproc; cbn [procs scheds]
  | |- wp (onsched _ _) _ _ => apply wp_onsched; cbn [procs scheds]
  | _ => wp_step
  end.
Ltac sched_steps := repeat sched_step.
Ltac sch_cbn := cbn [procs scheds runq runvec nrdy smp balancetime nruns nrebalance set_runq set_counts head tail n].
Ltac fns := repeat (sch_cbn; first
  [ rewrite fn_at | rewrite fnz_at | rewrite fn_off by congruence | rewrite fnz_off by congruence ]); sch_cbn.
(** A process after assignments to two of them. *)
Ltac cases := unfold next_of; cbn [procs]; unfold insert, fn_insert; repeat case_decide; subst.

Lemma place_prio_at p pri q x : q <> p -> place (prio_at p pri q x) = place x.
Proof. intros H. unfold prio_at. by rewrite decide_False. Qed.
Lemma sched_ok_link L s s' p pri : let c := sch (procs s p) in let q := runq (scheds s c) pri in
  sched_ok L s -> ~ queued L p -> pstate (procs s p) = Ready -> 0 <= pri < Nrq -> queue_lens (L c) + 1 < 2 ^ 31 ->
  same_procs (prio_at p pri) s s' ->
  (forall q, next_of s' q = if bool_decide (last (L c pri) = Some q) then Some p else next_of s q) ->
  (forall c', c' <> c -> scheds s' c' = scheds s c') -> (forall j, j <> pri -> runq (scheds s' c) j = runq (scheds s c) j) ->
  runq (scheds s' c) pri = mkSchedq (match last (L c pri) with None => Some p | Some _ => head q end) (Some p) (s32 (n q + 1)) ->
  nrdy (scheds s' c) = s32 (nrdy (scheds s c) + 1) ->
  runvec (scheds s' c) = Z.lor (runvec (scheds s c)) (Z.shiftl 1 pri) ->
  sched_ok (with_queue c pri (L c pri ++ [p]) L) s'.
Proof.
  intros c q O Hp Hr Hi Hb Hsp Hnx Hx Hj Eq En Ev. subst q.
  pose proof (so_n L s O c pri) as Hn. pose proof (so_nrdy L s O c) as Hy.
  assert (p ∉ L c pri) as Hnp by (intros H; apply Hp; by exists c, pri).
  pose proof (so_once L s O c pri) as Hd. destruct (queue_bound L s c pri O Hi) as [Hz Hz'].
  assert (queue_lens (with_queue c pri (L c pri ++ [p]) L c) = queue_lens (L c) + 1) as Hql
    by (rewrite queue_lens_with, zlen_app, zlen_cons, zlen_nil by done; lia).
  assert (last (L c pri) <> Some p) as Hlp by (intros [l' E]%last_Some; rewrite E in Hnp; set_solver).
  apply (sched_ok_update L s _ c pri); try done; rewrite ?Eq, ?En, ?Ev, ?zlen_app, ?zlen_cons, ?zlen_nil; cbn [head tail n].
  - eapply (seg_extend (next_of s)); [done|done|apply (so_seg L s O)| |].
    + intros q _. apply Hnx.
    + rewrite Hnx, bool_decide_false by done. by apply (so_free L s O).
  - by rewrite last_snoc.
  - rewrite Hn, s32_int by lia. lia.
  - rewrite Hy, s32_int by lia. lia.
  - lia.
  - apply Z.lor_nonneg. split; [apply (so_vec L s O) | apply Z.shiftl_nonneg; lia].
  - intros j Hj'. rewrite testbit_set by lia. case_decide as Ej.
    + subst j. rewrite Z.eqb_refl. cbn. by destruct (L c pri).
    + destruct (Z.eqb_spec pri j); [congruence|done].
  - apply NoDup_app. split_and!; [done | set_solver | apply NoDup_singleton].
  - intros q Hq. rewrite (same_place _ _ (Hsp q)). apply elem_of_app in Hq as [Hq|Hq%list_elem_of_singleton].
    + rewrite place_prio_at by (intros ->; done). by eapply member_place.
    + subst q. unfold prio_at. rewrite decide_True by done. unfold place. cbn. by rewrite Hr.
  - intros c' j q Ne Hq. assert (q <> p) as Nqp by (intros ->; apply Hp; by exists c', j). split.
    + rewrite Hnx, bool_decide_false; [done|]. intros El%last_Some. destruct El as [l' El].
      destruct (member_once L s c pri c' j q O); [rewrite El; set_solver | done | naive_solver].
    + rewrite (same_place _ _ (Hsp q)). by apply place_prio_at.
  - intros q Hq. rewrite Hnx, bool_decide_false.
    + apply (so_free L s O). intros (c' & j & Hm). apply Hq. exists c', j.
      destruct (decide (c' = c /\ j = pri)) as [[-> ->]|Ne]; [rewrite with_queue_eq; set_solver|].
      rewrite with_queue_ne; [done|]. destruct (decide (c' = c)), (decide (j = pri)); naive_solver.
    + intros [l' El]%last_Some. apply Hq. exists c, pri. rewrite with_queue_eq, El. set_solver.
Qed.

Lemma wp_linkproc L s p pri (Q : () -> Sys -> Prop) : sched_ok L s -> ~ queued L p -> pstate (procs s p) = Ready ->
  0 <= pri < Nrq -> let c := sch (procs s p) in queue_lens (L c) + 1 < 2 ^ 31 ->
  (forall s', sched_ok (with_queue c pri (L c pri ++ [p]) L) s' -> same_procs (prio_at p pri) s s' -> same_scheds s s' -> Q tt s') ->
  wp (linkproc p pri) s Q.
Proof.
  intros O Hp Hr Hi c Hb K. unfold linkproc. sched_steps.
  pose proof (so_free L s O p Hp) as E. unfold next_of in E. rewrite E. fold c.
  pose proof (so_tail L s O c pri) as Ht.
  assert (tail (runq (scheds s c) pri) <> Some p) as Nt.
  { rewrite Ht. intros [l' El]%last_Some. apply Hp. exists c, pri. rewrite El. set_solver. }
  sched_steps. fold c.
  match goal with |- wp _ _ ?R =>
    cut (forall s', same_procs (prio_at p pri) s s' ->
      (forall q, next_of s' q = if bool_decide (last (L c pri) = Some q) then Some p else next_of s q) ->
      scheds s' = scheds s -> R (match last (L c pri) with None => Some p | Some _ => head (runq (scheds s c) pri) end) s') end.
  - intros K'. destruct (tail (runq (scheds s c) pri)) as [t|] eqn:Et; [do 3 sched_step | sched_step];
      rewrite <- Ht in K'; apply K'; try done.
    + intros q. unfold same_proc, prio_at. cases; try done. by destruct (procs s q).
    + intros q. cases; try rewrite bool_decide_true by done; try rewrite bool_decide_false by congruence; first [done | congruence].
    + intros q. unfold same_proc, prio_at. cases; try done. by destruct (procs s q).
    + intros q. cases; done.
  - intros s' Hsp Hnx Es. cbv beta. sched_steps. fold c. rewrite !Es. fns. apply K.
    + apply (sched_ok_link L s); try done; fold c; fns; try done; intros; by fns.
    + done.
    + intros c'. unfold same_sched. cbn. cases; done.
Qed.

(** ** [unlinkproc] *)
Lemma sched_ok_unlink L s s' c pri p l1 l2 : let q := runq (scheds s c) pri in
  sched_ok L s -> 0 <= pri < Nrq -> L c pri = l1 ++ p :: l2 ->
  same_procs (fun _ x => x) s s' ->
  (forall q, next_of s' q = if decide (q = p) then None else if bool_decide (last l1 = Some q) then next_of s p else next_of s q) ->
  (forall c', c' <> c -> scheds s' c' = scheds s c') -> (forall j, j <> pri -> runq (scheds s' c) j = runq (scheds s c) j) ->
  runq (scheds s' c) pri = mkSchedq (match last l1 with None => next_of s p | Some _ => head q end)
    (match next_of s p with None => last l1 | Some _ => tail q end) (s32 (n q - 1)) ->
  nrdy (scheds s' c) = s32 (nrdy (scheds s c) - 1) ->
  runvec (scheds s' c) = (match l1 ++ l2 with [] => Z.land (runvec (scheds s c)) (Z.lnot (Z.shiftl 1 pri)) | _ => runvec (scheds s c) end) ->
  sched_ok (with_queue c pri (l1 ++ l2) L) s'.
Proof.
  intros q O Hi El Hsp Hnx Hx Hj Eq En Ev. subst q.
  pose proof (so_n L s O c pri) as Hn. pose proof (so_nrdy L s O c) as Hy.
  pose proof (so_once L s O c pri) as Hd. destruct (queue_bound L s c pri O Hi) as [Hz Hz'].
  pose proof (so_seg L s O c pri) as Hs.
  rewrite El in Hn, Hd, Hz, Hs. rewrite zlen_app, zlen_cons in Hn, Hz.
  assert (queue_lens (with_queue c pri (l1 ++ l2) L c) = queue_lens (L c) - 1) as Hql
    by (rewrite queue_lens_with, El, !zlen_app, zlen_cons by done; lia).
  pose proof (zlen_nonneg l1). pose proof (zlen_nonneg l2).
  apply (sched_ok_update L s _ c pri); try done; rewrite ?Eq, ?En, ?Ev, ?El, ?zlen_app, ?zlen_cons; cbn [head tail n].
  - eapply (seg_remove (next_of s)); [done|done|]. intros q Hq. by rewrite Hnx, decide_False.
  - rewrite (seg_next _ _ _ _ _ Hs), (so_tail L s O), El. destruct l2 as [|x l2]; [by rewrite app_nil_r|]. by rewrite !last_app_cons, last_cons_cons.
  - rewrite Hn, s32_int by lia. lia.
  - rewrite Hy, s32_int by lia. lia.
  - lia.
  - destruct (l1 ++ l2); [|apply (so_vec L s O)]. apply Z.land_nonneg. left. apply (so_vec L s O).
  - intros j Hj'. pose proof (so_bit L s O c j Hj') as Hb. case_decide as Ej.
    + subst j. rewrite El in Hb. destruct (l1 ++ l2); cbn.
      * rewrite testbit_clear, Z.eqb_refl by lia. done.
      * rewrite Hb. by destruct l1.
    + destruct (l1 ++ l2); [|done]. rewrite testbit_clear by lia. destruct (Z.eqb_spec pri j); [congruence|done].
  - apply NoDup_app in Hd as (D1 & D2 & [_ D3]%NoDup_cons). apply NoDup_app. split_and!; [done|set_solver|done].
  - intros q Hq. rewrite (same_place _ _ (Hsp q)). eapply member_place; [done|]. rewrite El. set_solver.
  - intros c' j q Ne Hq. split; [|by apply same_place]. rewrite Hnx.
    assert (forall x, x ∈ L c pri -> q <> x) as Hout by (intros x Hx' ->; destruct (member_once L s c pri c' j x O); naive_solver).
    rewrite decide_False by (apply Hout; rewrite El; set_solver). rewrite bool_decide_false; [done|].
    intros [l' ->]%last_Some. apply (Hout q); [rewrite El; set_solver|done].
  - intros q Hq. rewrite Hnx. case_decide as Eq'; [done|]. rewrite bool_decide_false.
    + apply (so_free L s O). intros (c' & j & Hm). apply Hq. exists c', j.
      destruct (decide (c' = c /\ j = pri)) as [[-> ->]|Ne]; [rewrite with_queue_eq; rewrite El in Hm; set_solver|].
      rewrite with_queue_ne; [done|]. destruct (decide (c' = c)), (decide (j = pri)); naive_solver.
    + intros [l' ->]%last_Some. apply Hq. exists c, pri. rewrite with_queue_eq. set_solver.
Qed.

Lemma wp_unlinkproc L s c pri l1 p l2 (Q : () -> Sys -> Prop) : sched_ok L s -> 0 <= pri < Nrq -> L c pri = l1 ++ p :: l2 ->
  (forall s', sched_ok (with_queue c pri (l1 ++ l2) L) s' -> same_procs (fun _ x => x) s s' -> same_scheds s s' -> Q tt s') ->
  wp (unlinkproc c pri (last l1) p) s Q.
Proof.
  intros O Hi El K. unfold unlinkproc. sched_steps.
  destruct (so_member L s O c pri p) as (Ec & _ & _); [rewrite El; set_solver|]. rewrite Ec.
  pose proof (so_seg L s O c pri) as Hs. pose proof (so_once L s O c pri) as Hd. rewrite El in Hs, Hd.
  assert (last l1 <> Some p) as Np.
  { intros [l' ->]%last_Some. apply NoDup_app in Hd as (_ & D & _). apply (D p); set_solver. }
  match goal with |- wp _ _ ?R =>
    cut (forall s', same_procs (fun _ x => x) s s' ->
      (forall q, q <> p -> next_of s' q = if bool_decide (last l1 = Some q) then next_of s p else next_of s q) ->
      scheds s' = scheds s -> R (match last l1 with None => next_of s p | Some _ => head (runq (scheds s c) pri) end) s') end.
  - intros K'. destruct (last l1) as [t|] eqn:Et; [do 3 sched_step | sched_step]; apply K'; try done.
    + intros q. unfold same_proc. cases; try done; by destruct (procs s q).
    + intros q Nq. cases; try rewrite bool_decide_true by done; try rewrite bool_decide_false by congruence; first [done | congruence].
    + intros q. unfold same_proc. by destruct (procs s q).
  - intros s' Hsp Hnx Es. cbv beta zeta. sched_steps. change (rnext (procs s p)) with (next_of s p).
    set (h := match last l1 with Some _ => head (runq (scheds s c) pri) | None => next_of s p end).
    assert (h = hd_error (l1 ++ l2)) as Eh.
    { subst h. rewrite (seg_next _ _ _ _ _ Hs). rewrite (seg_head _ _ _ Hs).
      destruct l1 as [|x l1]; [done|]. rewrite last_cons. by destruct (last l1). }
    match goal with |- wp _ _ ?R =>
      cut (forall s'', procs s'' = <[p := set_rnext None (procs s' p)]> (procs s') -> (forall c', c' <> c -> scheds s'' c' = scheds s c') ->
        (scheds s'' c = set_counts (nrdy (scheds s c)) (match l1 ++ l2 with
          | [] => Z.land (runvec (scheds s c)) (Z.lnot (Z.shiftl 1 pri)) | _ => runvec (scheds s c) end) (scheds s c)) -> R tt s'') end.
    + intros K'. clearbody h. destruct h as [y|], (l1 ++ l2) as [|x l]; try done; [|rewrite decide_True by done]; sched_step;
        apply K'; cbn [procs scheds]; try rewrite Es; try done; intros; fns; first [done | by destruct (scheds s c)].
    + intros s'' Ep Ex Ec''. cbv beta. sched_steps. rewrite Ec''. fns.
      assert (forall q, same_proc (procs s q) (procs s'' q)) as Hsp''.
      { intros q. rewrite Ep. specialize (Hsp q). unfold same_proc in *. cases; rewrite Hsp; done. }
      apply K; [|done|].
      * apply (sched_ok_unlink L s _ c pri p); try done; fns; try done; try (intros; by fns).
        2: { intros c'' Ne. rewrite !fn_off by congruence. by apply Ex. }
        intros q. unfold next_of at 1. cbn [procs]. rewrite Ep. case_decide as Eq; [subst q; by fns|].
        fns. by apply Hnx.
      * intros c'. unfold same_sched. destruct (decide (c' = c)) as [->|]; fns; [done|]. by rewrite Ex.
Qed.

(** ** What the routines leave alone *)

Lemma sched_ok_frame L s s' : sched_ok L s -> (forall q, next_of s' q = next_of s q) ->
  (forall q, queued L q -> place (procs s' q) = place (procs s q)) ->
  (forall c, runq (scheds s' c) = runq (scheds s c) /\ nrdy (scheds s' c) = nrdy (scheds s c) /\ runvec (scheds s' c) = runvec (scheds s c)) ->
  sched_ok L s'.
Proof.
  intros O Hn Hp Hs.
  assert (forall c, runq (scheds s' c) = runq (scheds s c)) as Hq by (intros c; by destruct (Hs c)).
  assert (forall c, nrdy (scheds s' c) = nrdy (scheds s c)) as Hr by (intros c; by destruct (Hs c) as (_ & ? & _)).
  assert (forall c, runvec (scheds s' c) = runvec (scheds s c)) as Hv by (intros c; by destruct (Hs c) as (_ & _ & ?)).
  pose proof (member_place L s) as Hm. destruct O. split; intros c; try rewrite Hq; try rewrite Hr; try rewrite Hv; auto.
  - intros i. eapply seg_ext; [|done]. done.
  - apply so_range0.
  - intros i p Hi. specialize (so_member0 c i p Hi) as (E1 & E2 & E3).
    assert (place (procs s' p) = (c, i, Ready)) as E by (rewrite Hp by (by exists c, i); unfold place; congruence). by inversion E.
  - intros Hf. rewrite Hn. auto.
Qed.

(** The priority a process is due at the clock's time. *)
Definition due (x : Proc) : Z := s32 (reprioritize1 (updatecpu1 false x)).
(** What only dispatching and running change. *)
Definition still (x y : Proc) : Prop :=
  mach y = mach x /\ mp y = mp x /\ wired y = wired x /\ sch y = sch x /\ basepri y = basepri x /\ pstate y = pstate x /\ due y = due x.

Lemma still_refl x : still x x.
Proof. done. Qed.
Lemma still_trans x y z : still x y -> still y z -> still x z.
Proof. unfold still. intuition congruence. Qed.

Lemma s32_wrap x : exists k, s32 x = x + k * 2 ^ 32.
Proof.
  unfold s32, sgn. pose proof (Z.div_mod x (2 ^ 32)) as E.
  destruct (_ <? _); [exists (- (x / 2 ^ 32)) | exists (- (x / 2 ^ 32) - 1)]; lia.
Qed.
Lemma s32_sub_u32 x : s32 (x - u32 x) = 0.
Proof.
  unfold u32. pose proof (Z.div_mod x (2 ^ 32)) as E. unfold s32, sgn.
  replace (x - x mod 2 ^ 32) with (x / 2 ^ 32 * 2 ^ 32) by lia. rewrite Z_mod_mult. done.
Qed.
Lemma updatecpu1_idem x : updatecpu1 false (updatecpu1 false x) = updatecpu1 false x.
Proof.
  set (t := s32 (ticks * Scaling + Z.quot Scaling 2)).
  assert (forall c, updatecpu1 false (set_cpu c (u32 t) x) = set_cpu c (u32 t) x) as H.
  { intros c. unfold updatecpu1. fold t. cbn [lastupdate set_cpu]. by rewrite s32_sub_u32. }
  unfold updatecpu1 at 2 3. fold t. cbv zeta. destruct (_ =? 0); apply H.
Qed.
Lemma due_updatecpu x : due (updatecpu1 false x) = due x.
Proof. unfold due. by rewrite updatecpu1_idem. Qed.
Lemma reprioritize1_range x : 0 <= basepri x < Npriq -> 0 <= reprioritize1 x <= basepri x.
Proof.
  unfold reprioritize1. cbv zeta. destruct (load =? 0); [lia|]. rewrite Z.gtb_ltb.
  set (k := if s32 (cpu x) =? 0 then 1 else s32 (cpu x)).
  set (a := Z.quot _ load + Z.quot k 2). destruct (Z.ltb_spec (basepri x) (u32 (Z.quot (s32 a) k))) as [|Hle]; [lia|].
  assert (k <> 0) as Hk by (subst k; destruct (Z.eqb_spec (s32 (cpu x)) 0); lia).
  pose proof (sgn_range 32 a ltac:(lia)) as Ha. fold (s32 a) in Ha.
  assert (Z.abs (Z.quot (s32 a) k) <= 2 ^ 31).
  { pose proof (Z.quot_abs (s32 a) k Hk) as E. rewrite <- E.
    transitivity (Z.abs (s32 a)); [|lia]. apply Z.quot_le_upper_bound; [lia|]. nia. }
  revert Hle. unfold u32, Npriq in *. generalize dependent (Z.quot (s32 a) k). intros r Hr Hle.
  destruct (Z_lt_le_dec r 0).
  - rewrite <- (Z.mod_unique r (2 ^ 32) (-1) (r + 2 ^ 32)) in Hle by lia. lia.
  - rewrite Z.mod_small in Hle by lia. lia.
Qed.

Lemma due_set_rnext r x : due (set_rnext r x) = due x.
Proof. unfold due, updatecpu1. cbn. by destruct (_ =? 0). Qed.
Lemma due_set_priority i x : due (set_priority i x) = due x.
Proof. unfold due, updatecpu1. cbn. by destruct (_ =? 0). Qed.
Lemma due_range x : 0 <= basepri x < Npriq -> 0 <= due x <= basepri x.
Proof.
  intros H. pose proof (reprioritize1_range (updatecpu1 false x)) as R. unfold due.
  assert (basepri (updatecpu1 false x) = basepri x) as E by (unfold updatecpu1; by destruct (_ =? 0)).
  rewrite E in R. rewrite s32_int; unfold Npriq in *; lia.
Qed.

Definition stills (s s' : Sys) : Prop := forall q, still (procs s q) (procs s' q).
Lemma same_still x y : same_proc x y -> still x y.
Proof. unfold same_proc. intros ->. unfold still. rewrite due_set_rnext. done. Qed.
Lemma prio_at_still p pri q x y : same_proc (prio_at p pri q x) y -> still x y.
Proof.
  intros H%same_still. eapply still_trans; [|exact H]. unfold prio_at. case_decide; [|done].
  unfold still. rewrite due_set_priority. done.
Qed.
Lemma updatecpu1_still x : still x (updatecpu1 false x).
Proof. unfold still. rewrite due_updatecpu. unfold updatecpu1. by destruct (_ =? 0). Qed.
Lemma updatecpu1_place up x : rnext (updatecpu1 up x) = rnext x /\ place (updatecpu1 up x) = place x.
Proof. unfold updatecpu1, place. by destruct (_ =? 0). Qed.

(** An assignment to a process that leaves its links and its place. *)
Lemma sched_ok_onproc L s p g : sched_ok L s -> rnext (g (procs s p)) = rnext (procs s p) ->
  (queued L p -> place (g (procs s p)) = place (procs s p)) ->
  sched_ok L (mkSys (<[p := g (procs s p)]> (procs s)) (scheds s)).
Proof.
  intros O H1 H2. apply (sched_ok_frame L s); [done| | |done].
  - intros q. cases; [|done]. done.
  - intros q Hq. cbn. cases; [|done]. auto.
Qed.
Lemma wp_reprioritize p s (Q : Z -> Sys -> Prop) : 0 <= basepri (procs s p) < Npriq ->
  Q (reprioritize1 (procs s p)) s -> wp (reprioritize p) s Q.
Proof.
  intros Hb K. unfold reprioritize. sched_steps. destruct (load =? 0) eqn:El.
  { sched_steps. unfold reprioritize1 in K. by rewrite El in K. }
  pose proof (reprioritize1_range (procs s p) Hb) as R.
  rewrite s32_int by (unfold Npriq in *; lia). destruct (Z.ltb_spec (reprioritize1 (procs s p)) 0); [lia|done].
Qed.
(** [updatecpu] and [reprioritize] of a process that does not run here. *)
Lemma wp_due {A} L s p (f : Z -> M Sys A) (Q : A -> Sys -> Prop) : sched_ok L s -> 0 <= basepri (procs s p) < Npriq ->
  (forall s', sched_ok L s' -> stills s s' -> same_scheds s s' -> wp (f (due (procs s p))) s' Q) ->
  wp (updatecpu false p ;; pri <- reprioritize p ;; f pri) s Q.
Proof.
  intros O Hb K. unfold updatecpu. sched_steps. destruct (updatecpu1_place false (procs s p)) as [E1 E2].
  assert (basepri (updatecpu1 false (procs s p)) = basepri (procs s p)) as Eb by (unfold updatecpu1; by destruct (_ =? 0)).
  apply wp_reprioritize; cbn [procs]; rewrite fn_at; [by rewrite Eb|].
  replace (reprioritize1 (updatecpu1 false (procs s p))) with (due (procs s p)).
  - apply K; [by apply sched_ok_onproc| |done]. intros q. cbn. cases; [apply updatecpu1_still | done].
  - unfold due. apply s32_int. pose proof (reprioritize1_range (updatecpu1 false (procs s p))) as R.
    rewrite Eb in R. unfold Npriq in *. lia.
Qed.

(** ** [rebalance] *)
Lemma with_queue_elem c i l L c' j p : p ∈ with_queue c i l L c' j <->
  (c' = c /\ j = i /\ p ∈ l) \/ ((c' <> c \/ j <> i) /\ p ∈ L c' j).
Proof.
  destruct (decide (c' = c /\ j = i)) as [[-> ->]|Ne]; [rewrite with_queue_eq; naive_solver|].
  assert (c <> c' \/ i <> j) by (destruct (decide (c' = c)), (decide (j = i)); naive_solver).
  rewrite with_queue_ne by done. naive_solver.
Qed.
Lemma queued_elem L p c i : p ∈ L c i -> queued L p.
Proof. intros H. by exists c, i. Qed.
Lemma unqueued L s c i l1 p l2 : sched_ok L s -> L c i = l1 ++ p :: l2 -> ~ queued (with_queue c i (l1 ++ l2) L) p.
Proof.
  intros O El (c' & j & [(-> & -> & H)|[Ne H]]%with_queue_elem).
  - pose proof (so_once L s O c i) as D. rewrite El in D. apply NoDup_app in D as (_ & D1 & [D2 _]%NoDup_cons). set_solver.
  - destruct (member_once L s c i c' j p O) as [-> ->]; [rewrite El; set_solver|done|naive_solver].
Qed.

(** [s0] and [L0]: the start. *)
Record reb (s0 : Sys) (L0 : Queues) (c : nat) (L : Queues) (s : Sys) : Prop := {
  rb_ok : sched_ok L s;
  rb_still : stills s0 s;
  rb_scheds : same_scheds s0 s;
  rb_other c' i : c' <> c -> L c' i = L0 c' i;
  rb_high i : Npriq <= i -> L c i = L0 c i;
  rb_queued p : queued L p <-> queued L0 p
}.
Definition prios_ok (s : Sys) : Prop := forall p, 0 <= basepri (procs s p) < Npriq.
(** The queues below [pri] have the processes that are due there. *)
Definition settled (s0 : Sys) (c : nat) (pri : Z) (L : Queues) : Prop :=
  forall i p, 0 <= i < pri -> p ∈ L c i -> due (procs s0 p) = i.

Lemma stills_trans s1 s2 s3 : stills s1 s2 -> stills s2 s3 -> stills s1 s3.
Proof. intros H1 H2 q. eapply still_trans; done. Qed.
Lemma same_scheds_trans s1 s2 s3 : same_scheds s1 s2 -> same_scheds s2 s3 -> same_scheds s1 s3.
Proof. intros H1 H2 c. unfold same_scheds, same_sched in *. specialize (H1 c). specialize (H2 c). intuition congruence. Qed.
Lemma reb_next s0 L0 c L s s' : reb s0 L0 c L s -> sched_ok L s' -> stills s s' -> same_scheds s s' -> reb s0 L0 c L s'.
Proof.
  intros R O H1 H2. destruct R. split; try done; [by eapply stills_trans | by eapply same_scheds_trans].
Qed.

(** One process moves to the queue it is due on. *)
Lemma wp_move s0 L0 c L s pri l1 p l2 npri {A} (m : M Sys A) (Q : A -> Sys -> Prop) : reb s0 L0 c L s -> 0 <= pri < Npriq ->
  0 <= npri < Npriq -> npri <> pri -> L c pri = l1 ++ p :: l2 ->
  (forall L' s', reb s0 L0 c L' s' -> L' c pri = l1 ++ l2 ->
    (forall i q, i <> pri -> q ∈ L' c i -> q ∈ L c i \/ (q = p /\ i = npri)) -> wp m s' Q) ->
  wp (unlinkproc c pri (last l1) p ;; linkproc p npri ;; m) s Q.
Proof.
  intros R Hi Hn Ne El K. pose proof (rb_ok _ _ _ _ _ R) as O. apply wp_bind.
  assert (p ∈ L c pri) as Hin by (rewrite El; set_solver).
  apply (wp_unlinkproc L s c pri l1 p l2); [done | unfold Nrq, Npriq in *; lia | done |].
  intros s1 O1 Hp1 Hs1. set (L1 := with_queue c pri (l1 ++ l2) L) in *. apply wp_bind.
  pose proof (member_place L s c pri p O Hin) as Ep. rewrite <- (same_place _ _ (Hp1 p)) in Ep.
  inversion Ep as [[E1 E2 E3]].
  assert (queue_lens (L1 c) + 1 = queue_lens (L c)) as Hb.
  { unfold L1. rewrite queue_lens_with by (unfold Nrq, Npriq in *; lia). rewrite El, !zlen_app, zlen_cons. lia. }
  apply (wp_linkproc L1 s1); rewrite ?E1; [done | eapply unqueued; done | done | unfold Nrq, Npriq in *; lia | |].
  { pose proof (so_bound L s O c). lia. }
  intros s2 O2 Hp2 Hs2. set (L2 := with_queue c npri (L1 c npri ++ [p]) L1) in *.
  assert (L1 c npri = L c npri) as E1n by (unfold L1; rewrite with_queue_ne by auto; done).
  assert (forall q, queued L2 q <-> queued L q) as Hq.
  { intros q. unfold queued, L2. rewrite E1n. setoid_rewrite with_queue_elem. unfold L1. setoid_rewrite with_queue_elem. split.
    - intros (c' & j & [(-> & -> & [H| ->%list_elem_of_singleton]%elem_of_app)|[_ [(-> & -> & H)|[_ H]]]]).
      + by exists c, npri.
      + by exists c, pri.
      + exists c, pri. rewrite El. set_solver.
      + by exists c', j.
    - intros (c' & j & H). destruct (decide (q = p)) as [->|Np]; [exists c, npri; left; set_solver|].
      exists c', j. destruct (decide (c' = c)) as [->|Nc]; [|right; split; [by left|]; right; split; [by left|done]].
      destruct (decide (j = npri)) as [->|Nj]; [left; set_solver|]. right. split; [by right|].
      destruct (decide (j = pri)) as [->|Nj']; [left; rewrite El in H; set_solver|right; split; [by right|done]]. }
  destruct R as [_ Rs Rc Ro Rh Rq]. apply (K L2).
  - split; [done| | | | |].
    + eapply stills_trans; [done|]. eapply stills_trans; intros q; [apply same_still, Hp1 | eapply prio_at_still, Hp2].
    + eapply same_scheds_trans; [done|]. by eapply same_scheds_trans.
    + intros c' i Nc. unfold L2, L1. rewrite !with_queue_ne by auto. by apply Ro.
    + intros i Hii. unfold L2, L1. rewrite !with_queue_ne by lia. by apply Rh.
    + intros q. by rewrite Hq.
  - unfold L2. rewrite with_queue_ne by auto. unfold L1. by rewrite with_queue_eq.
  - intros i q Nei [(_ & -> & H)|[_ H]]%with_queue_elem.
    + rewrite E1n in H. set_solver.
    + apply with_queue_elem in H as [(_ & -> & _)|[_ H]]; [done|by left].
Qed.

Definition misfits (s : Sys) (pri : Z) (l : list nat) : nat := length (filter (fun p => due (procs s p) <> pri) l).
Lemma misfits_cons s pri p l : misfits s pri (p :: l) = ((if decide (due (procs s p) = pri) then 0 else 1) + misfits s pri l)%nat.
Proof. unfold misfits. rewrite filter_cons. repeat case_decide; try done. Qed.
Lemma misfits_app s pri l k : misfits s pri (l ++ k) = (misfits s pri l + misfits s pri k)%nat.
Proof. unfold misfits. by rewrite filter_app, length_app. Qed.
Lemma misfits_le s pri l : (misfits s pri l <= length l)%nat.
Proof. apply length_filter. Qed.
Lemma misfits_none s pri l : Forall (fun p => due (procs s p) = pri) l -> misfits s pri l = 0%nat.
Proof. induction 1 as [|p l Hp _ IH]; [done|]. rewrite misfits_cons, decide_True by done. done. Qed.

(** The fuel: each process is passed once, and once more for each that moves. *)
Lemma wp_rebalance_queue s0 L0 c pri (Q : () -> Sys -> Prop) : prios_ok s0 -> 0 <= pri < Npriq -> forall fuel l1 l2 L s,
  reb s0 L0 c L s -> L c pri = l1 ++ l2 -> Forall (fun p => due (procs s0 p) = pri) l1 -> settled s0 c pri L ->
  (length l2 + misfits s0 pri l2 * S (length (l1 ++ l2)) <= fuel)%nat ->
  (forall L' s', reb s0 L0 c L' s' -> settled s0 c (pri + 1) L' -> Q tt s') ->
  wp (rebalance_queue fuel c pri (last l1) (hd_error l2)) s Q.
Proof.
  intros Hpr Hi fuel. induction fuel as [|fuel IH]; intros l1 l2 L s R El F1 Hset Hfuel K.
  all: destruct l2 as [|p l2]; cbn [rebalance_queue hd_error length] in *; [|try lia].
  1, 2: apply wp_ret; apply (K L); [done|]; intros i p Hr Hp; destruct (decide (i = pri)) as [->|];
    [rewrite El, app_nil_r in Hp; rewrite Forall_forall in F1; by apply F1 | apply Hset; [lia|done]].
  pose proof (rb_still _ _ _ _ _ R p) as (_ & _ & _ & _ & Eb & _ & Ed). pose proof (Hpr p) as Hbp. rewrite <- Eb in Hbp.
  apply (wp_due L); [apply R | done|]. intros s1 O1 Hs1 Hc1. rewrite Ed.
  apply (reb_next _ _ _ _ _ s1) in R; [|done..]. rewrite misfits_cons in Hfuel.
  destruct (Z.eqb_spec (due (procs s0 p)) pri) as [E|Ne]; cbn [negb].
  - rewrite decide_True in Hfuel by done. sched_steps.
    change (rnext (procs s1 p)) with (next_of s1 p). pose proof (so_seg L s1 O1 c pri) as Hs. rewrite El in Hs.
    rewrite (seg_next _ _ _ _ _ Hs). replace (Some p) with (last (l1 ++ [p])) by apply last_snoc.
    apply (IH _ _ L); [done | by rewrite <- app_assoc | | done | | done].
    + apply Forall_app. by split; [|constructor].
    + rewrite <- app_assoc. cbn [app]. lia.
  - rewrite decide_False in Hfuel by done. apply wp_bind, wp_onsched. cbn [procs scheds].
    set (s2 := mkSys _ _). assert (sched_ok L s2) as O2.
    { apply (sched_ok_frame L s1); try done. intros c'. cbn. cases; done. }
    apply (reb_next _ _ _ _ _ s2) in R; [|done|intros q; apply still_refl|intros c'; unfold same_sched; cbn; cases; done].
    eapply wp_move; [done|done| |done|done|].
    { pose proof (due_range (procs s0 p) (Hpr p)). specialize (Hpr p). lia. }
    intros L' s' R' El' Hin. sched_steps. pose proof (so_seg L' s' (rb_ok _ _ _ _ _ R') c pri) as Hs.
    rewrite (seg_head _ _ _ Hs), El'. change None with (last (@nil nat)).
    apply (IH [] _ L'); [done | done | done | | | done].
    + intros i q Hiq Hq. destruct (Hin i q) as [H|[-> ->]]; [lia|done|by apply Hset|done].
    + rewrite misfits_app, (misfits_none s0 pri l1) by done. cbn [app]. rewrite !length_app in *. cbn [length] in *. nia.
Qed.

Lemma wp_rebalance_from s0 L0 c (Q : () -> Sys -> Prop) : prios_ok s0 -> forall k pri L s, 0 <= pri -> pri + Z.of_nat k = Npriq ->
  reb s0 L0 c L s -> settled s0 c pri L ->
  (forall L' s', reb s0 L0 c L' s' -> settled s0 c Npriq L' -> Q tt s') -> wp (rebalance_from k c pri) s Q.
Proof.
  intros Hpr k. induction k as [|k IH]; intros pri L s H0 Hk R Hset K; cbn [rebalance_from].
  - apply wp_ret, (K L); [done|]. replace Npriq with pri by lia. done.
  - sched_steps. pose proof (rb_ok _ _ _ _ _ R) as O. rewrite (so_n L s O), (seg_head _ _ _ (so_seg L s O c pri)).
    change None with (last (@nil nat)).
    apply (wp_rebalance_queue s0 L0 c pri _ Hpr) with (L := L); [lia|done|done|done|done| |].
    + pose proof (misfits_le s0 pri (L c pri)). unfold zlen. rewrite Nat2Z.id. cbn [app]. nia.
    + intros L' s' R' Hset'. apply (IH (pri + 1) L'); [lia|lia|done..].
Qed.
Lemma wp_rebalance c L s (Q : () -> Sys -> Prop) : sched_ok L s -> prios_ok s ->
  (forall L' s', reb s L c L' s' -> settled s c Npriq L' -> Q tt s') -> wp (rebalance c) s Q.
Proof.
  intros O Hpr K. apply (wp_rebalance_from s L c Q Hpr _ 0 L); [lia|done| | |done].
  - by split.
  - intros i p Hi. lia.
Qed.

(** ** [runproc] *)
(** [procwired] has given a process that is wired the scheduler of its
    processor. *)
Definition wired_ok (s : Sys) : Prop := forall p w, wired (procs s p) = Some w -> sched_index w = sch (procs s p).
Definition runs (s : Sys) (m : nat) (aff : bool) (p : nat) : bool := runnable m aff (procs s p).

Lemma runnable_wired x w m aff : wired x = Some w -> sched_index w = sch x -> runnable m aff x = match mach x with Some _ => false | None => (w =? m)%nat end.
Proof. intros E1 E2. unfold runnable. rewrite E1, E2, Nat.eqb_refl. done. Qed.

Lemma wp_rq_scan L s c pri m aff (Q : option (option nat * nat) -> Sys -> Prop) : sched_ok L s -> wired_ok s -> forall fuel l1 l2,
  L c pri = l1 ++ l2 -> (length l2 <= fuel)%nat ->
  (forall l p l', l2 = l ++ p :: l' -> runs s m aff p = true -> Forall (fun q => runs s m aff q = false) l -> Q (Some (last (l1 ++ l), p)) s) ->
  (Forall (fun q => runs s m aff q = false) l2 -> Q None s) ->
  wp (rq_scan fuel m aff (last l1) (hd_error l2)) s Q.
Proof.
  intros O Hw fuel. induction fuel as [|fuel IH]; intros l1 l2 El Hf Ks Kn; (destruct l2 as [|p l2]; cbn [rq_scan hd_error length] in *; [|try lia]).
  1, 2: apply wp_ret; auto.
  sched_steps. destruct (runnable m aff (procs s p)) eqn:Er.
  - apply wp_bind. match goal with |- wp ?e _ _ => replace e with (ret tt : M Sys ()) end.
    + sched_steps. pose proof (Ks [] p l2 eq_refl Er ltac:(done)) as K. by rewrite app_nil_r in K.
    + destruct (mach (procs s p)); [done|]. destruct (wired (procs s p)) as [w|] eqn:Ew; [|done].
      rewrite (Hw p w Ew), Nat.eqb_refl. done.
  - change (rnext (procs s p)) with (next_of s p). pose proof (so_seg L s O c pri) as Hs. rewrite El in Hs.
    rewrite (seg_next _ _ _ _ _ Hs). replace (Some p) with (last (l1 ++ [p])) by apply last_snoc.
    apply IH; [by rewrite <- app_assoc | lia | |].
    + intros l q l' -> Hq Hl. rewrite <- app_assoc. apply (Ks (p :: l) q l'); [done|done|by constructor].
    + intros Hl. apply Kn. by constructor.
Qed.

(** The first process of a list that can run. *)
Definition first_of (s : Sys) (m : nat) (aff : bool) (l l1 : list nat) (p : nat) (l2 : list nat) : Prop :=
  l = l1 ++ p :: l2 /\ runs s m aff p = true /\ Forall (fun q => runs s m aff q = false) l1.

Lemma wp_rqrunproc L s c pri m aff (Q : option nat -> Sys -> Prop) : sched_ok L s -> wired_ok s -> 0 <= pri < Nrq ->
  (forall l1 p l2 s', first_of s m aff (L c pri) l1 p l2 -> sched_ok (with_queue c pri (l1 ++ l2) L) s' ->
    stills s s' -> same_scheds s s' -> Q (Some p) s') ->
  (Forall (fun q => runs s m aff q = false) (L c pri) -> Q None s) ->
  wp (rqrunproc c pri m aff) s Q.
Proof.
  intros O Hw Hi Ks Kn. unfold rqrunproc. sched_steps.
  rewrite (so_n L s O), (seg_head _ _ _ (so_seg L s O c pri)). change None with (last (@nil nat)) at 1.
  apply (wp_rq_scan L s c pri); [done|done|done| | |].
  - unfold zlen. rewrite Nat2Z.id. lia.
  - intros l1 p l2 El Hp Hl. cbn [app]. apply wp_bind. apply (wp_unlinkproc L s c pri l1 p l2); [done|done|done|].
    intros s' O' Hsp Hs'. apply wp_ret. apply (Ks l1 p l2); [done|done| |done]. intros q. apply same_still, Hsp.
  - intros H. apply wp_ret, Kn, H.
Qed.

(** What [runproc] takes from a queue: with [prefer], the first process that
    ran on [m] last (or never ran), if there is one; else the first that can run. *)
Definition choice (s : Sys) (m : nat) (prefer : bool) (l l1 : list nat) (p : nat) (l2 : list nat) : Prop :=
  (prefer = true /\ first_of s m true l l1 p l2) \/
  ((prefer = true -> Forall (fun q => runs s m true q = false) l) /\ first_of s m false l l1 p l2).

Lemma runs_still s s' m aff p : stills s s' -> runs s' m aff p = runs s m aff p.
Proof. intros H. destruct (H p) as (E1 & E2 & E3 & E4 & _). unfold runs, runnable. by rewrite E1, E2, E3, E4. Qed.
Lemma choice_runs s m prefer l l1 p l2 : choice s m prefer l l1 p l2 -> runs s m false p = true /\ l = l1 ++ p :: l2.
Proof.
  intros [[_ (E & R & _)]|[_ (E & R & _)]]; [|done]. split; [|done]. revert R. unfold runs, runnable.
  destruct (mach (procs s p)), (wired (procs s p)), (mp (procs s p)); done.
Qed.
Lemma choice_still s s' m prefer l l1 p l2 : stills s s' -> choice s' m prefer l l1 p l2 -> choice s m prefer l l1 p l2.
Proof. intros H. unfold choice, first_of. setoid_rewrite (fun aff q => runs_still s s' m aff q H). done. Qed.

Lemma wp_pick L s c m prefer (Q : option nat -> Sys -> Prop) : sched_ok L s -> wired_ok s -> forall k, Z.of_nat k <= Nrq ->
  (forall i l1 p l2 s', 0 <= i < Z.of_nat k -> choice s m prefer (L c i) l1 p l2 ->
    (forall j, i < j < Z.of_nat k -> Forall (fun q => runs s m false q = false) (L c j)) ->
    sched_ok (with_queue c i (l1 ++ l2) L) s' -> stills s s' -> same_scheds s s' -> Q (Some p) s') ->
  ((forall j, 0 <= j < Z.of_nat k -> Forall (fun q => runs s m false q = false) (L c j)) -> Q None s) ->
  wp (pick k c m prefer) s Q.
Proof.
  intros O Hw k. induction k as [|k IH]; intros Hk Ks Kn; cbn [pick].
  - apply wp_ret, Kn. lia.
  - apply wp_bind.
    assert (forall l1 p l2 s', choice s m prefer (L c (Z.of_nat k)) l1 p l2 -> sched_ok (with_queue c (Z.of_nat k) (l1 ++ l2) L) s' ->
      stills s s' -> same_scheds s s' -> Q (Some p) s') as Ks0 by (intros l1 p l2 s' Hc; apply (Ks (Z.of_nat k)); [lia|done|lia]).
    assert ((prefer = true -> Forall (fun q => runs s m true q = false) (L c (Z.of_nat k))) ->
      wp (p <- rqrunproc c (Z.of_nat k) m false ;; match p with Some p => ret (Some p) | None => pick k c m prefer end) s Q) as Kf.
    { intros Hpre. apply wp_bind, (wp_rqrunproc L); [done|done|lia| |].
      - intros l1 p l2 s' Hf O' Hs' Hc'. apply wp_ret, (Ks0 l1 p l2); [by right|done..].
      - intros Hn. apply IH; [lia| |].
        + intros i l1 p l2 s' Hi Hc Hj. apply Ks; [lia|done|]. intros j Hj'.
          destruct (decide (j = Z.of_nat k)) as [->|]; [done|]. apply Hj. lia.
        + intros Hj. apply Kn. intros j Hj'. destruct (decide (j = Z.of_nat k)) as [->|]; [done|]. apply Hj. lia. }
    destruct prefer; [|apply wp_ret; by apply Kf].
    apply (wp_rqrunproc L); [done|done|lia| |].
    + intros l1 p l2 s' Hf O' Hs' Hc'. sched_steps. apply (Ks0 l1 p l2); [by left|done..].
    + intros Hn. by apply Kf.
Qed.

(** What [runproc] does to a process it takes. *)
Definition taken (m p : nat) (q : nat) (x : Proc) : Proc := if decide (q = p) then set_mp (Some m) (set_pstate Scheding x) else x.

(** [sch->nruns++] *)
Definition begun (c : nat) (s : Sys) : Sys := mkSys (procs s) (<[c := inc_nruns (scheds s c)]> (scheds s)).
Lemma taken_still m p q x y : still x y -> still (taken m p q x) (taken m p q y).
Proof.
  unfold taken. case_decide; [|done]. intros (E1 & E2 & E3 & E4 & E5 & E6 & E7). unfold still.
  assert (forall z, due (set_mp (Some m) (set_pstate Scheding z)) = due z) as Ed
    by (intros z; unfold due, updatecpu1; cbn; by destruct (_ =? 0)).
  rewrite !Ed. cbn. done.
Qed.

Lemma wp_runproc L s m (Q : option nat -> Sys -> Prop) : let c := sched_index m in
  let prefer := negb (u32 (nruns (scheds s c) + 1) mod Nbalance =? 0) in
  sched_ok L s -> prios_ok s -> wired_ok s ->
  (forall L1 s1 i l1 p l2 s', reb (begun c s) L c L1 s1 -> (L1 = L \/ settled s c Npriq L1) -> choice s m prefer (L1 c i) l1 p l2 ->
    (forall j, i < j < Nrq -> Forall (fun q => runs s m false q = false) (L1 c j)) -> 0 <= i < Nrq ->
    sched_ok (with_queue c i (l1 ++ l2) L1) s' -> (forall q, still (taken m p q (procs s q)) (procs s' q)) -> Q (Some p) s') ->
  (forall L1 s', reb (begun c s) L c L1 s' -> (L1 = L \/ settled s c Npriq L1) ->
    (forall j, 0 <= j < Nrq -> Forall (fun q => runs s m false q = false) (L1 c j)) -> Q None s') ->
  wp (runproc m) s Q.
Proof.
  intros c prefer O Hp Hw Ks Kn. unfold runproc. fold c. apply wp_bind, wp_onsched.
  fold (begun c s). set (s1 := begun c s) in *. cbv beta.
  assert (forall L1 s2, reb s1 L c L1 s2 -> (L1 = L \/ settled s c Npriq L1) -> wp (s <- sched_of c ;;
    p <- pick (Z.to_nat Nrq) c m (negb (nruns s mod Nbalance =? 0)) ;;
    match p with
    | None => ret None
    | Some p => onproc p (set_pstate Scheding) ;; onproc p (set_mp (Some m)) ;; ret (Some p)
    end) s2 Q) as Kp.
  { intros L1 s2 R Hl. sched_steps. destruct (rb_scheds _ _ _ _ _ R c) as [_ ->].
    replace (nruns (scheds s1 c)) with (u32 (nruns (scheds s c) + 1)) by (subst s1; unfold begun; fns; done).
    pose proof (rb_still _ _ _ _ _ R) as Hs2. change (stills s s2) in Hs2.
    assert (wired_ok s2) as Hw2.
    { intros p w. destruct (Hs2 p) as (_ & _ & -> & -> & _). apply Hw. }
    apply (wp_pick L1); [apply R|done|done| |].
    - intros i l1 p l2 s3 Hi Hc Hj O3 Hs3 _. sched_steps. apply (Ks L1 s2 i l1 p l2); try done.
      + eapply choice_still; done.
      + intros j Hj'. eapply Forall_impl; [by apply Hj|]. cbn. intros q. by rewrite (runs_still s s2).
      + destruct (choice_runs _ _ _ _ _ _ _ Hc) as [_ El].
        pose proof (unqueued L1 s2 c i l1 p l2 (rb_ok _ _ _ _ _ R) El) as Nq.
        apply (sched_ok_frame _ s3); [done| | |done]; intros q; [cases; done|]. intros Hq. cases; done.
      + intros q. cbn [procs]. pose proof (taken_still m p q _ _ (still_trans _ _ _ (Hs2 q) (Hs3 q))) as T.
        revert T. unfold taken. case_decide as Eq; [subst q|]; by fns.
    - intros Hn. sched_steps. apply (Kn L1); [done|done|]. intros j Hj. eapply Forall_impl; [by apply Hn|].
      cbn. intros q. by rewrite (runs_still s s2). }
  assert (reb s1 L c L s1) as R1.
  { split; try done. apply (sched_ok_frame L s); try done. intros c'. subst s1. unfold begun. cbn. cases; done. }
  apply wp_bind, wp_sched_of, wp_bind. destruct (_ && _); [|apply wp_ret; by apply (Kp L); [|left]]. apply wp_bind.
  apply (wp_rebalance c L s1); [apply R1|done|]. intros L1 s2 R Hset. apply wp_onsched.
  apply (Kp L1); [|by right]. destruct R as [O2 Rs Rc Ro Rh Rq]. split; try done.
  - apply (sched_ok_frame L1 s2); try done. intros c'. cbn. cases; done.
  - eapply same_scheds_trans; [done|]. intros c'. unfold same_sched. cbn. cases; done.
Qed.

(** ** The other routines *)
(** What [ready] and the like do not change. *)
Definition core (x : Proc) := (mach x, mp x, wired x, sch x, basepri x).
Definition cores (s s' : Sys) (p : nat) : Prop :=
  (forall q, core (procs s' q) = core (procs s q)) /\ (forall q, q <> p -> pstate (procs s' q) = pstate (procs s q)).

Lemma still_core x y : still x y -> core y = core x /\ pstate y = pstate x.
Proof. intros (E1 & E2 & E3 & E4 & E5 & E6 & _). unfold core. split; congruence. Qed.
Lemma cores_onproc s p g : core (g (procs s p)) = core (procs s p) ->
  cores s (mkSys (<[p := g (procs s p)]> (procs s)) (scheds s)) p.
Proof. intros H. split; intros q; [|intros Hq]; cases; done. Qed.
Lemma cores_stills s s' p : stills s s' -> cores s s' p.
Proof. intros H. split; intros q; [|intros _]; by apply still_core. Qed.
Lemma cores_trans s1 s2 s3 p : cores s1 s2 p -> cores s2 s3 p -> cores s1 s3 p.
Proof. intros [H1 H2] [H3 H4]. split; intros q; [|intros Hq]; [by rewrite H3 | by rewrite H4, H2]. Qed.
Lemma updatecpu1_core up x : core (updatecpu1 up x) = core x /\ pstate (updatecpu1 up x) = pstate x.
Proof. unfold updatecpu1, core. by destruct (_ =? 0). Qed.
Lemma cores_basepri s s' p q : cores s s' p -> basepri (procs s' q) = basepri (procs s q).
Proof. intros [H _]. specialize (H q). by inversion H. Qed.

Lemma wp_updatecpu L up s p (Q : () -> Sys -> Prop) : sched_ok L s ->
  (forall s', sched_ok L s' -> cores s s' p -> pstate (procs s' p) = pstate (procs s p) -> Q tt s') -> wp (updatecpu up p) s Q.
Proof.
  intros O K. unfold updatecpu. destruct (updatecpu1_place up (procs s p)) as [E1 E2], (updatecpu1_core up (procs s p)) as [E3 E4].
  apply wp_onproc, K; [by apply sched_ok_onproc | by apply cores_onproc | by fns].
Qed.
(** An assignment to a process that is on no queue. *)
Lemma wp_setproc L s p g (Q : () -> Sys -> Prop) : sched_ok L s -> ~ queued L p -> rnext (g (procs s p)) = rnext (procs s p) ->
  (forall s', sched_ok L s' -> procs s' p = g (procs s p) -> (forall q, q <> p -> procs s' q = procs s q) -> Q tt s') ->
  wp (onproc p g) s Q.
Proof.
  intros O Hq Hr K. apply wp_onproc, K; [by apply sched_ok_onproc | by fns | intros q Ne; by fns].
Qed.
Lemma cores_set s s' p g : procs s' p = g (procs s p) -> (forall q, q <> p -> procs s' q = procs s q) ->
  core (g (procs s p)) = core (procs s p) -> cores s s' p.
Proof. intros E1 E2 E3. split; intros q; [destruct (decide (q = p)) as [->|Ne]; [by rewrite E1|] | intros Ne]; by rewrite E2. Qed.

Lemma wp_sched_ready L up s p (Q : () -> Sys -> Prop) : let c := sch (procs s p) in
  sched_ok L s -> ~ queued L p -> 0 <= basepri (procs s p) < Npriq -> queue_lens (L c) + 1 < 2 ^ 31 ->
  (forall pri s', 0 <= pri <= basepri (procs s p) -> sched_ok (with_queue c pri (L c pri ++ [p]) L) s' -> cores s s' p ->
    pstate (procs s' p) = Ready -> (up = false -> pri = due (procs s p)) -> Q tt s') ->
  wp (ready up p) s Q.
Proof.
  intros c O Hq Hb Hl K. unfold ready. apply wp_bind. unfold updatecpu. apply wp_onproc.
  set (x := updatecpu1 up (procs s p)). destruct (updatecpu1_place up (procs s p)) as [E1 E2], (updatecpu1_core up (procs s p)) as [E3 E4].
  fold x in E1, E2, E3, E4. set (s1 := mkSys _ _).
  assert (sched_ok L s1) as O1 by (by apply sched_ok_onproc). assert (cores s s1 p) as C1 by (by apply cores_onproc).
  assert (procs s1 p = x) as Ex by (subst s1; by fns).
  assert (basepri x = basepri (procs s p)) as Eb by (by inversion E3).
  apply wp_bind, wp_reprioritize; rewrite Ex; [by rewrite Eb|]. pose proof (reprioritize1_range x) as R. rewrite Eb in R. specialize (R Hb).
  set (pri := reprioritize1 x) in *. apply wp_bind. apply (wp_setproc L); [done|done|done|]. intros s2 O2 P2 N2.
  apply wp_bind. apply (wp_setproc L); [done|done|done|]. intros s3 O3 P3 N3.
  assert (cores s s3 p) as C3.
  { eapply cores_trans; [exact C1|]. eapply cores_trans; [exact (cores_set _ _ _ _ P2 N2 eq_refl) | exact (cores_set _ _ _ _ P3 N3 eq_refl)]. }
  rewrite P2, Ex in P3.
  assert (sch (procs s3 p) = c) as E5 by (destruct C3 as [C3 _]; specialize (C3 p); by inversion C3).
  apply (wp_linkproc L); rewrite ?E5; [done|done|by rewrite P3|unfold Nrq, Npriq in *; lia|done|].
  intros s' O' Hsp _. apply (K pri); [done|done| | |].
  - eapply cores_trans; [done|]. apply cores_stills. intros q. eapply prio_at_still, Hsp.
  - destruct (prio_at_still _ _ _ _ _ (Hsp p)) as (_ & _ & _ & _ & _ & -> & _). by rewrite P3.
  - intros ->. unfold pri, due. rewrite s32_int; [done|]. fold x. unfold Npriq in *. fold pri. lia.
Qed.

Lemma not_ready_unqueued L s p : sched_ok L s -> pstate (procs s p) <> Ready -> ~ queued L p.
Proof. intros O H (c & i & Hp). destruct (so_member L s O c i p Hp) as (_ & _ & E). done. Qed.

(** The state [schedinit] leaves a process in. *)
Definition left_state (st : Pstate) : Pstate := match st with Running => Ready | Moribund => Dead | st => st end.
Lemma wp_leave L s p (Q : () -> Sys -> Prop) : sched_ok L s -> 0 <= basepri (procs s p) < Npriq ->
  (~ queued L p -> queue_lens (L (sch (procs s p))) + 1 < 2 ^ 31) ->
  (forall L' s', sched_ok L' s' -> cores s s' p -> pstate (procs s' p) = left_state (pstate (procs s p)) ->
    (forall q, queued L' q -> queued L q \/ q = p) -> Q tt s') ->
  wp (leave p) s Q.
Proof.
  intros O Hb Hl K. unfold leave. apply wp_bind, (wp_updatecpu L); [done|]. intros s1 O1 C1 E1. sched_steps. rewrite E1.
  pose proof (cores_basepri _ _ _ p C1) as Eb. assert (sch (procs s1 p) = sch (procs s p)) as Es
    by (destruct C1 as [C1 _]; specialize (C1 p); by inversion C1).
  destruct (pstate (procs s p)) eqn:Est; cbn [left_state] in *; try (apply wp_ret, (K L); [done|done|by rewrite E1|by left]).
  - assert (~ queued L p) as Hq by (eapply not_ready_unqueued; [done|congruence]).
    apply (wp_setproc L); [done|done|done|]. intros s2 O2 P2 N2. apply (K L); [done| |by rewrite P2|by left].
    eapply cores_trans; [done|]. exact (cores_set _ _ _ _ P2 N2 eq_refl).
  - assert (~ queued L p) as Hq by (eapply not_ready_unqueued; [done|congruence]).
    apply (wp_sched_ready L); rewrite ?Es, ?Eb; [done|done|done|by apply Hl|]. intros pri s2 _ O2 C2 E2 _.
    apply (K _ _ O2); [by eapply cores_trans|done|].
    intros q (c' & j & [(_ & _ & H)|[_ H]]%with_queue_elem); [|left; by exists c', j].
    apply elem_of_app in H as [H| ->%list_elem_of_singleton]; [left; by eapply queued_elem|by right].
Qed.

(** Several assignments to a process that is on no queue. *)
Definition only (p : nat) (x : Proc) (s s' : Sys) : Prop := procs s' p = x /\ forall q, q <> p -> procs s' q = procs s q.
Lemma wp_set_then {A} L s p g x s0 (m : M Sys A) (Q : A -> Sys -> Prop) : sched_ok L s -> ~ queued L p -> only p x s0 s ->
  rnext (g x) = rnext x -> (forall s', sched_ok L s' -> only p (g x) s0 s' -> wp m s' Q) -> wp (onproc p g ;; m) s Q.
Proof.
  intros O Hq [E1 E2] Hr K. apply wp_bind, (wp_setproc L); [done|done|by rewrite E1|]. intros s' O' P N. apply K; [done|].
  split; [by rewrite P, E1|]. intros q Ne. by rewrite N, E2.
Qed.
Lemma only_refl p s : only p (procs s p) s s.
Proof. done. Qed.

Lemma wp_dispatch L s m p (Q : () -> Sys -> Prop) : sched_ok L s -> ~ queued L p -> 0 <= basepri (procs s p) < Npriq ->
  (forall x s', sched_ok L s' -> only p x s s' -> mach x = Some m -> pstate x = Running -> wired x = wired (procs s p) ->
    sch x = sch (procs s p) -> basepri x = basepri (procs s p) -> Q tt s') ->
  wp (dispatch m p) s Q.
Proof.
  intros O Hq Hb K. unfold dispatch, updatecpu. set (x := procs s p) in *.
  destruct (updatecpu1_place false x) as [E1 _], (updatecpu1_core false x) as [E3 _]. inversion E3 as [[F1 F2 F3 F4 F5]].
  apply (wp_set_then L s p _ x s); [done|done|done|done|]. intros s1 O1 [P1 N1].
  apply wp_bind, wp_reprioritize; rewrite P1; [by rewrite F5|].
  eapply (wp_set_then L); [done|done|by split|done|]. intros s2 O2 X2.
  eapply (wp_set_then L); [done|done|done|done|]. intros s3 O3 [P3 N3].
  apply (wp_setproc L); [done|done|done|]. intros s4 O4 P4 N4.
  eapply K; [done| | | | | |]; [split; [exact P4|]; intros q Ne; by rewrite N4, N3|..]; rewrite P3; done.
Qed.

Lemma wp_newproc L s m p (Q : () -> Sys -> Prop) : sched_ok L s -> ~ queued L p ->
  (forall x s', sched_ok L s' -> only p x s s' -> mach x = None -> mp x = None -> wired x = None -> pstate x = Scheding ->
    sch x = sched_index m -> basepri x = PriNormal -> Q tt s') ->
  wp (newproc m p) s Q.
Proof.
  intros O Hq K. unfold newproc, procpriority. change (if PriNormal >=? Npriq then _ else _) with PriNormal.
  pose proof (only_refl p s) as X.
  do 6 (eapply (wp_set_then L); [eassumption|done|eassumption|done|]; clear X; intros ? ? X).
  destruct X as [P N]. apply (wp_setproc L); [done|done|done|]. intros s9 O9 P9 N9.
  eapply K; [done|split; [exact P9|]; intros q Ne; by rewrite N9, N|..]; rewrite P; done.
Qed.

(** ** The system *)
Lemma zsum_bind {A B} (f : A -> list B) l : zsum ((fun x => zlen (f x)) <$> l) = zlen (l ≫= f).
Proof.
  induction l as [|x l IH]; [done|]. rewrite fmap_cons, zsum_cons. cbn [mbind list_bind]. rewrite zlen_app.
  f_equal. exact IH.
Qed.
Lemma queue_room L s c p PROCMAX : sched_ok L s -> (forall q, queued L q -> (q < PROCMAX)%nat) -> (p < PROCMAX)%nat -> ~ queued L p ->
  Z.of_nat PROCMAX < 2 ^ 31 -> queue_lens (L c) + 1 < 2 ^ 31.
Proof.
  intros O Hlt Hp Hq Hm. unfold queue_lens. rewrite zsum_bind. set (l := seqZ 0 Nrq ≫= L c).
  assert (forall q, q ∈ l -> queued L q) as Hin by (intros q (i & Hi & _)%list_elem_of_bind; by exists c, i).
  assert (NoDup (p :: l)) as Hd.
  { apply NoDup_cons. split; [intros H; by apply Hq, Hin|]. apply NoDup_bind.
    - intros i j q _ _ H1 H2. by destruct (member_once L s c i c j q O H1 H2).
    - intros i _. by apply (so_once L s O).
    - apply NoDup_seqZ. }
  assert (p :: l ⊆+ seq 0 PROCMAX) as Hsub.
  { apply NoDup_submseteq; [done|]. intros q [->|H]%elem_of_cons; apply elem_of_seq; [lia|].
    specialize (Hlt q (Hin q H)). lia. }
  apply submseteq_length in Hsub. rewrite length_seq in Hsub. cbn in Hsub. unfold zlen. lia.
Qed.

Definition cpu_ok (PROCMAX : nat) (s : Sys) (m : nat) (k : Cpu) : Prop :=
  match k with
  | Idle => True
  | Chose p => (p < PROCMAX)%nat /\ pstate (procs s p) = Scheding /\ mach (procs s p) = None /\ mp (procs s p) = Some m
  | On p => (p < PROCMAX)%nat /\ pstate (procs s p) <> Dead /\ mach (procs s p) = Some m
  | Leaving p => (p < PROCMAX)%nat /\ mach (procs s p) = Some m
  end.
Record world_ok (PROCMAX : nat) (L : Queues) (w : World) : Prop := {
  wo_sched : sched_ok L (sys w);
  wo_prios : prios_ok (sys w);
  wo_wired : wired_ok (sys w);
  wo_live p : pstate (procs (sys w) p) <> Dead -> (p < PROCMAX)%nat;
  wo_cpu m : cpu_ok PROCMAX (sys w) m (cpus w m)
}.

Lemma owns_once PROCMAX L w m m' p : world_ok PROCMAX L w -> owns w m p -> owns w m' p -> m = m'.
Proof.
  intros W H1 H2. pose proof (wo_cpu _ _ _ W m) as C1. pose proof (wo_cpu _ _ _ W m') as C2.
  destruct H1 as [E1|[E1|E1]], H2 as [E2|[E2|E2]]; rewrite E1 in C1; rewrite E2 in C2; cbn in C1, C2; intuition congruence.
Qed.

Lemma cpu_ok_same PROCMAX s s' m k : cpu_ok PROCMAX s m k ->
  (forall p, k = Chose p \/ k = On p \/ k = Leaving p -> core (procs s' p) = core (procs s p) /\ pstate (procs s' p) = pstate (procs s p)) ->
  cpu_ok PROCMAX s' m k.
Proof.
  intros H E. destruct k as [|p|p|p]; cbn in *; [done|..]; destruct (E p) as [E1 E2]; try (by auto); inversion E1; rewrite ?E2; intuition congruence.
Qed.
(** A step of processor [m], whose process, if any, is [p]. *)
Lemma cpus_ok_step PROCMAX L w s' m p cpus' : world_ok PROCMAX L w -> (forall m', m' <> m -> cpus' m' = cpus w m') ->
  cpu_ok PROCMAX s' m (cpus' m) -> (forall m', owns w m' p -> m' = m) ->
  (forall q, q <> p -> core (procs s' q) = core (procs (sys w) q) /\ pstate (procs s' q) = pstate (procs (sys w) q)) ->
  forall m', cpu_ok PROCMAX s' m' (cpus' m').
Proof.
  intros W Ec Hm Ho Hs m'. destruct (decide (m' = m)) as [->|Ne]; [done|]. rewrite Ec by done.
  eapply cpu_ok_same; [by apply (wo_cpu _ _ _ W)|]. intros q Hq. apply Hs. intros ->. by apply Ne, Ho.
Qed.

Lemma prios_cores s s' : prios_ok s -> (forall q, core (procs s' q) = core (procs s q)) -> prios_ok s'.
Proof. intros H E q. specialize (E q). specialize (H q). inversion E. congruence. Qed.
Lemma wired_cores s s' : wired_ok s -> (forall q, core (procs s' q) = core (procs s q)) -> wired_ok s'.
Proof. intros H E q w Ew. specialize (E q). inversion E as [[E1 E2 E3 E4 E5]]. rewrite E4. apply H. by rewrite <- E3. Qed.

Lemma step_none_ok PROCMAX L w m s : world_ok PROCMAX L w -> cpus w m = Idle -> runproc m (sys w) = Ret None s ->
  exists L', world_ok PROCMAX L' (mkWorld s (cpus w)).
Proof.
  intros W Ei E. destruct W as [O Hp Hw Hl Hc].
  refine (wp_ret_inv _ _ (fun r s => r = None -> exists L', world_ok PROCMAX L' (mkWorld s (cpus w))) _ _ _ E eq_refl).
  apply (wp_runproc L); [done..| |].
  - by intros.
  - intros L1 s' R _ _ _. exists L1. pose proof (rb_still _ _ _ _ _ R) as Hs. change (stills (sys w) s') in Hs.
    split; cbn [sys cpus]; [apply R| | | |].
    + eapply prios_cores; [done|]. intros q. by apply still_core.
    + eapply wired_cores; [done|]. intros q. by apply still_core.
    + intros p. destruct (still_core _ _ (Hs p)) as [_ ->]. apply Hl.
    + intros m'. eapply cpu_ok_same; [apply Hc|]. intros q _. by apply still_core.
Qed.

Definition same_but (p : nat) (s s' : Sys) : Prop :=
  forall q, q <> p -> core (procs s' q) = core (procs s q) /\ pstate (procs s' q) = pstate (procs s q).
Lemma cores_same_but s s' p : cores s s' p -> same_but p s s'.
Proof. intros [H1 H2] q Ne. auto. Qed.
Lemma only_same_but s s' p x : only p x s s' -> same_but p s s'.
Proof. intros [_ H] q Ne. by rewrite H. Qed.

Lemma world_ok_next PROCMAX L L' w s' m p cpus' : world_ok PROCMAX L w -> sched_ok L' s' -> same_but p (sys w) s' ->
  (p < PROCMAX)%nat -> 0 <= basepri (procs s' p) < Npriq ->
  (forall c, wired (procs s' p) = Some c -> sched_index c = sch (procs s' p)) ->
  (forall m', m' <> m -> cpus' m' = cpus w m') -> cpu_ok PROCMAX s' m (cpus' m) -> (forall m', owns w m' p -> m' = m) ->
  world_ok PROCMAX L' (mkWorld s' cpus').
Proof.
  intros W O Hs Hp Hb Hw Hc Hm Ho. split; cbn [sys cpus]; [done| | | |].
  - intros q. destruct (decide (q = p)) as [->|Ne]; [done|]. destruct (Hs q Ne) as [E _]. inversion E as [[E1 E2 E3 E4 E5]].
    rewrite E5. apply (wo_prios _ _ _ W).
  - intros q c. destruct (decide (q = p)) as [->|Ne]; [apply Hw|]. destruct (Hs q Ne) as [E _]. inversion E as [[E1 E2 E3 E4 E5]].
    rewrite E3, E4. apply (wo_wired _ _ _ W).
  - intros q. destruct (decide (q = p)) as [->|Ne]; [done|]. destruct (Hs q Ne) as [_ ->]. apply (wo_live _ _ _ W).
  - by eapply cpus_ok_step.
Qed.
Lemma core_prio PROCMAX L w s' p : world_ok PROCMAX L w -> core (procs s' p) = core (procs (sys w) p) ->
  0 <= basepri (procs s' p) < Npriq /\ (forall c, wired (procs s' p) = Some c -> sched_index c = sch (procs s' p)).
Proof.
  intros W E. inversion E as [[E1 E2 E3 E4 E5]]. rewrite E3, E4, E5. split; [apply (wo_prios _ _ _ W) | apply (wo_wired _ _ _ W)].
Qed.

Lemma step_choose_ok PROCMAX L w m p s : world_ok PROCMAX L w -> cpus w m = Idle -> runproc m (sys w) = Ret (Some p) s ->
  exists L', world_ok PROCMAX L' (set_cpus m (Chose p) w s).
Proof.
  intros W Ei E.
  refine (wp_ret_inv _ _ (fun r s => r = Some p -> exists L', world_ok PROCMAX L' (set_cpus m (Chose p) w s)) _ _ _ E eq_refl).
  apply (wp_runproc L); [apply W..| |by intros].
  intros L1 s1 i l1 p' l2 s' R _ Hch _ _ O' Hs' [= ->]. exists (with_queue (sched_index m) i (l1 ++ l2) L1).
  destruct (choice_runs _ _ _ _ _ _ _ Hch) as [Hr El].
  pose proof (rb_still _ _ _ _ _ R p) as S1. change (still (procs (sys w) p) (procs s1 p)) in S1.
  destruct (still_core _ _ S1) as [_ Ep].
  destruct (so_member _ _ (rb_ok _ _ _ _ _ R) (sched_index m) i p) as (_ & _ & Er); [rewrite El; set_solver|]. rewrite Ep in Er.
  assert (mach (procs (sys w) p) = None) as Em by (revert Hr; unfold runs, runnable; by destruct (mach (procs (sys w) p))).
  pose proof (Hs' p) as Sp. unfold taken in Sp. rewrite decide_True in Sp by done. destruct (still_core _ _ Sp) as [Ec Eps].
  inversion Ec as [[E1 E2 E3 E4 E5]]. cbn in E1, E2, E3, E4, E5, Eps.
  assert (p < PROCMAX)%nat as Hlt by (apply (wo_live _ _ _ W); by rewrite Er).
  eapply (world_ok_next PROCMAX L _ w s' m p); [done|done| |done| | | | |].
  - intros q Ne. specialize (Hs' q). unfold taken in Hs'. rewrite decide_False in Hs' by done. by apply still_core.
  - rewrite E5. apply (wo_prios _ _ _ W).
  - rewrite E3, E4. apply (wo_wired _ _ _ W).
  - intros m' Ne. by fns.
  - fns. cbn. split_and!; [done|done|by rewrite E1|done].
  - intros m' Ho. pose proof (wo_cpu _ _ _ W m') as C'. destruct Ho as [X|[X|X]]; rewrite X in C'; cbn in C'; intuition congruence.
Qed.

Lemma step_dispatch_ok PROCMAX L w m p s : world_ok PROCMAX L w -> cpus w m = Chose p -> dispatch m p (sys w) = Ret tt s ->
  world_ok PROCMAX L (set_cpus m (On p) w s).
Proof.
  intros W Ei E. pose proof (wo_cpu _ _ _ W m) as Cm. rewrite Ei in Cm. destruct Cm as (Hlt & Est & _ & _).
  refine (wp_ret_inv _ _ (fun _ s => world_ok PROCMAX L (set_cpus m (On p) w s)) _ _ _ E).
  apply (wp_dispatch L); [apply W| |apply W|].
  { eapply not_ready_unqueued; [apply W|congruence]. }
  intros x s' O' [X N] E1 E2 E3 E4 E5.
  eapply (world_ok_next PROCMAX L _ w s' m p); [done|done|by eapply only_same_but|done| | | | |]; rewrite ?X.
  - rewrite E5. apply (wo_prios _ _ _ W).
  - rewrite E3, E4. apply (wo_wired _ _ _ W).
  - intros m' Ne. by fns.
  - fns. cbn. rewrite X, E1, E2. done.
  - intros m' Ho. eapply owns_once; [done|done|]. by left.
Qed.

(** The running process of [m] changes its state. *)
Lemma step_assign_ok PROCMAX L w m p st : world_ok PROCMAX L w -> cpus w m = On p -> pstate (procs (sys w) p) = Running -> st <> Dead ->
  world_ok PROCMAX L (mkWorld (assign_state p st (sys w)) (cpus w)).
Proof.
  intros W Ei Er Hst. pose proof (wo_cpu _ _ _ W m) as Cm. rewrite Ei in Cm. destruct Cm as (Hlt & _ & Em).
  assert (~ queued L p) as Nq by (eapply not_ready_unqueued; [apply W|congruence]).
  assert (core (procs (assign_state p st (sys w)) p) = core (procs (sys w) p)) as Ec by (unfold assign_state; by fns).
  destruct (core_prio _ _ _ _ _ W Ec) as [Hb Hw].
  eapply (world_ok_next PROCMAX L _ w _ m p); [done| | |done|done|done|done| |].
  - apply sched_ok_onproc; [apply W|done|]. intros H. by destruct Nq.
  - intros q Ne. unfold assign_state. by fns.
  - rewrite Ei. cbn. unfold assign_state. fns. done.
  - intros m' Ho. eapply owns_once; [done|done|]. right. by left.
Qed.

Lemma world_room PROCMAX L w p c : world_ok PROCMAX L w -> Z.of_nat PROCMAX < 2 ^ 31 -> (p < PROCMAX)%nat -> ~ queued L p ->
  queue_lens (L c) + 1 < 2 ^ 31.
Proof.
  intros W HP Hp Hq. eapply queue_room; [apply W| |exact Hp|done|done]. intros q (c' & i & H).
  destruct (so_member _ _ (wo_sched _ _ _ W) c' i q H) as (_ & _ & E). apply (wo_live _ _ _ W). by rewrite E.
Qed.

Lemma step_leave_ok PROCMAX L w m p s : world_ok PROCMAX L w -> Z.of_nat PROCMAX < 2 ^ 31 -> cpus w m = On p -> leave p (sys w) = Ret tt s ->
  exists L', world_ok PROCMAX L' (set_cpus m (Leaving p) w s).
Proof.
  intros W HP Ei E. pose proof (wo_cpu _ _ _ W m) as Cm. rewrite Ei in Cm. destruct Cm as (Hlt & _ & Em).
  refine (wp_ret_inv _ _ (fun _ s => exists L', world_ok PROCMAX L' (set_cpus m (Leaving p) w s)) _ _ _ E).
  apply (wp_leave L); [apply W|apply W|by eapply world_room|]. intros L' s' O' C' Est Hq. exists L'.
  assert (core (procs s' p) = core (procs (sys w) p)) as Ec by apply C'.
  destruct (core_prio _ _ _ _ _ W Ec) as [Hb Hw].
  eapply (world_ok_next PROCMAX L _ w _ m p); [done|done|by apply cores_same_but|done|done|done| | |].
  - intros m' Ne. by fns.
  - fns. cbn. split; [done|]. inversion Ec. congruence.
  - intros m' Ho. eapply owns_once; [done|done|]. right. by left.
Qed.

Lemma step_out_ok PROCMAX L w m p s : world_ok PROCMAX L w -> cpus w m = Leaving p -> onproc p (set_mach None) (sys w) = Ret tt s ->
  world_ok PROCMAX L (set_cpus m Idle w s).
Proof.
  intros W Ei [= <-]. pose proof (wo_cpu _ _ _ W m) as Cm. rewrite Ei in Cm. destruct Cm as (Hlt & Em).
  eapply (world_ok_next PROCMAX L _ w _ m p); [done| | |done| | | | |]; cbn [procs]; rewrite ?fn_at.
  - apply (sched_ok_onproc L (sys w) p (set_mach None)); [apply W|done|done].
  - intros q Ne. by fns.
  - apply (wo_prios _ _ _ W).
  - apply (wo_wired _ _ _ W).
  - intros m' Ne. by fns.
  - done.
  - intros m' Ho. eapply owns_once; [done|done|]. right. by right.
Qed.

(** [p], which is off the queues, is made ready, not by the processor it may still be on. *)
Lemma ready_ok PROCMAX L w p s : world_ok PROCMAX L w -> Z.of_nat PROCMAX < 2 ^ 31 -> (p < PROCMAX)%nat -> ~ queued L p ->
  (forall m, cpus w m <> Chose p) -> ready false p (sys w) = Ret tt s -> exists L', world_ok PROCMAX L' (mkWorld s (cpus w)).
Proof.
  intros W HP Hlt Nq Hch E.
  refine (wp_ret_inv _ _ (fun _ s => exists L', world_ok PROCMAX L' (mkWorld s (cpus w))) _ _ _ E).
  apply (wp_sched_ready L); [apply W|done|apply W|by eapply world_room|]. intros pri s' _ O' C' Est _. eexists.
  destruct (core_prio _ _ _ _ _ W (proj1 C' p)) as [Hb Hw]. pose proof (cores_same_but _ _ _ C') as Hs.
  destruct C' as [Hc _]. split; cbn [sys cpus]; [done| | | |].
  - eapply prios_cores; [apply W|done].
  - eapply wired_cores; [apply W|done].
  - intros q. destruct (decide (q = p)) as [->|Ne]; [done|]. destruct (Hs q Ne) as [_ ->]. apply (wo_live _ _ _ W).
  - intros m. pose proof (wo_cpu _ _ _ W m) as Cm. destruct (cpus w m) as [|q|q|q] eqn:Ek; cbn in *; [done|..].
    all: destruct (decide (q = p)) as [->|Ne]; [|destruct (Hs q Ne) as [E1 E2]; inversion E1; rewrite ?E2; intuition congruence].
    + by destruct (Hch m).
    + specialize (Hc p). inversion Hc. rewrite Est. intuition congruence.
    + specialize (Hc p). inversion Hc. intuition congruence.
Qed.

Lemma step_wake_ok PROCMAX L w p s : world_ok PROCMAX L w -> Z.of_nat PROCMAX < 2 ^ 31 -> blocked (pstate (procs (sys w) p)) = true ->
  ready false p (sys w) = Ret tt s -> exists L', world_ok PROCMAX L' (mkWorld s (cpus w)).
Proof.
  intros W HP Hbl E. eapply ready_ok; [done|done| | | |done].
  - apply (wo_live _ _ _ W). intros E'. by rewrite E' in Hbl.
  - eapply not_ready_unqueued; [apply W|]. intros E'. by rewrite E' in Hbl.
  - intros m Em. pose proof (wo_cpu _ _ _ W m) as Cm. rewrite Em in Cm. destruct Cm as (_ & E' & _). by rewrite E' in Hbl.
Qed.

Lemma step_new_ok PROCMAX L w m p s : world_ok PROCMAX L w -> Z.of_nat PROCMAX < 2 ^ 31 -> (p < PROCMAX)%nat ->
  pstate (procs (sys w) p) = Dead -> (forall m', cpus w m' <> Leaving p) -> start m p (sys w) = Ret tt s ->
  exists L', world_ok PROCMAX L' (mkWorld s (cpus w)).
Proof.
  intros W HP Hlt Hd Hg E.
  assert (~ queued L p) as Nq by (eapply not_ready_unqueued; [apply W|congruence]).
  assert (forall m', owns w m' p -> False) as No.
  { intros m' Ho. pose proof (wo_cpu _ _ _ W m') as C'. destruct Ho as [X|[X|X]]; rewrite X in C'; cbn in C'; [intuition congruence..|].
    by destruct (Hg m'). }
  assert (wp (newproc m p) (sys w) (fun _ s1 => forall s, ready false p s1 = Ret tt s -> exists L', world_ok PROCMAX L' (mkWorld s (cpus w)))) as H.
  { apply (wp_newproc L); [apply W|done|]. intros x s1 O1 [X N] E1 E2 E3 E4 E5 E6 s' Er.
    apply (ready_ok PROCMAX L (mkWorld s1 (cpus w)) p); [|done|done|done| |done].
    - eapply (world_ok_next PROCMAX L _ w s1 m p); [done|done|by eapply only_same_but|done| | |done| |]; rewrite ?X.
      + rewrite E6. done.
      + by rewrite E3.
      + eapply cpu_ok_same; [apply (wo_cpu _ _ _ W)|]. intros q Hq. rewrite N; [done|]. intros ->. by apply (No m).
      + intros m' Ho. by destruct (No m').
    - intros m' Em. apply (No m'). by left. }
  unfold wp in H. unfold start, bind in E. destruct (newproc m p (sys w)) as [[] s1| | |] eqn:En; try done. by apply H.
Qed.

Lemma boot_ok PROCMAX smps : world_ok PROCMAX (fun _ _ => []) (boot smps).
Proof.
  split; [|done..]. split; try done.
  - intros c i _. cbn. by rewrite Z.bits_0.
  - intros c i. apply NoDup_nil_2.
  - intros c i p H. by apply elem_of_nil in H.
Qed.
Lemma world_ok_step PROCMAX L w w' : Z.of_nat PROCMAX < 2 ^ 31 -> world_ok PROCMAX L w -> step PROCMAX false w w' ->
  exists L', world_ok PROCMAX L' w'.
Proof.
  intros HP W St. destruct St as [w m s H E|w m p s H E|w m p s H E|w m p st H H1 H2|w m p H H1|w m p s H E|w m p s H E|w p s H E|w m p s H H1 H2 E].
  - by eapply step_none_ok.
  - by eapply step_choose_ok.
  - exists L. by eapply step_dispatch_ok.
  - exists L. eapply step_assign_ok; [done..|]. intros ->. done.
  - exists L. by eapply step_assign_ok.
  - by eapply step_leave_ok.
  - exists L. by eapply step_out_ok.
  - by eapply step_wake_ok.
  - eapply step_new_ok; [done..| |done]. by apply H2.
Qed.
Lemma reachable_ok PROCMAX smps w : Z.of_nat PROCMAX < 2 ^ 31 -> reachable PROCMAX false smps w -> exists L, world_ok PROCMAX L w.
Proof.
  intros HP. induction 1 as [|w w' _ [L W] St]; [eexists; apply boot_ok|]. by eapply world_ok_step.
Qed.

(** What a processor does next. *)
Definition turn (w : World) (m : nat) : M Sys () :=
  match cpus w m with
  | Idle => runproc m ;; ret tt
  | Chose p => dispatch m p
  | On p => leave p
  | Leaving p => onproc p (set_mach None)
  end.

(** C22: Processors take their turns in any order; processes block, wake, exit
    and are created, in a structure that no processor is still leaving ([reuse] is false: what happens otherwise is
    [exiting_process_reused]); none is wired, which would spoil the counts ([wired_process_miscounted]), and [execsched]
    and preemption are not among the steps. Then the run queues are always well formed. Each is a chain from
    its head to its tail, with its count; [nrdy] is the sum of them, [runvec] has
    the bits of the queues that are not empty; a process is on one queue at most,
    of its scheduler and its priority, and is then [Ready]. And the next step of a
    processor cannot panic. *)
Theorem run_queues_well_formed PROCMAX smps w m : Z.of_nat PROCMAX < 2 ^ 31 -> reachable PROCMAX false smps w ->
  (exists L, sched_ok L (sys w)) /\ wp (turn w m) (sys w) (fun _ s => exists L, sched_ok L s).
Proof.
  intros HP R. destruct (reachable_ok _ _ _ HP R) as [L W]. split; [exists L; apply W|].
  pose proof (wo_cpu _ _ _ W m) as Cm. unfold turn. destruct (cpus w m) as [|p|p|p]; cbn in Cm.
  - apply wp_bind, (wp_runproc L); [apply W..| |].
    + intros. apply wp_ret. by eexists.
    + intros L1 s' R1 _ _. apply wp_ret. exists L1. apply R1.
  - apply (wp_dispatch L); [apply W| |apply W|by eauto].
    eapply not_ready_unqueued; [apply W|]. destruct Cm as (_ & -> & _). done.
  - apply (wp_leave L); [apply W|apply W|intros Nq; eapply world_room; [exact W|done|apply Cm|done]|by eauto].
  - apply wp_onproc. exists L. by apply (sched_ok_onproc L (sys w) p (set_mach None)); [apply W|..].
Qed.

(** C21: No process is ever on two processors. [p->mach], which [runproc] tests and
    [schedinit] clears last, sees to it that a process that was made ready
    before its processor had left it does not run elsewhere. *)
Theorem one_processor PROCMAX smps w m m' p : Z.of_nat PROCMAX < 2 ^ 31 -> reachable PROCMAX false smps w ->
  owns w m p -> owns w m' p -> m = m'.
Proof. intros HP R. destruct (reachable_ok _ _ _ HP R) as [L W]. by eapply owns_once. Qed.

(** C23: [runproc] takes the process it should: from the highest queue that has
    one that can run, the first that can; but two times of three the first
    that last ran on this processor, or never ran, if that queue has one.
    It finds none only if no process can run.  Once a second the queues are first
    rebalanced. *)
Theorem runproc_picks L s m : sched_ok L s -> prios_ok s -> wired_ok s ->
  let c := sched_index m in let prefer := negb (u32 (nruns (scheds s c) + 1) mod Nbalance =? 0) in
  let none i L := Forall (fun q => runs s m false q = false) (L c i) in
  wp (runproc m) s (fun r s' => exists L1, (forall p, queued L1 p <-> queued L p) /\ (L1 = L \/ settled s c Npriq L1) /\
    match r with
    | Some p => exists i l1 l2, choice s m prefer (L1 c i) l1 p l2 /\ (forall j, i < j < Nrq -> none j L1) /\
        sched_ok (with_queue c i (l1 ++ l2) L1) s' /\ pstate (procs s' p) = Scheding /\ mp (procs s' p) = Some m
    | None => sched_ok L1 s' /\ forall j, 0 <= j < Nrq -> none j L1
    end).
Proof.
  intros O Hp Hw c prefer none. apply (wp_runproc L); [done..| |].
  - intros L1 s1 i l1 p l2 s' R Hl Hch Hj _ O' Hs'. exists L1. split; [apply R|]. split; [done|].
    exists i, l1, l2. specialize (Hs' p). unfold taken in Hs'. rewrite decide_True in Hs' by done.
    destruct (still_core _ _ Hs') as [Ec Ep]. inversion Ec. done.
  - intros L1 s' R Hl Hj. exists L1. split; [apply R|]. split; [done|]. split; [apply R|done].
Qed.

(** C24: [rebalance] ends, for all that it starts each queue over whenever it moves
    a process; then each process is on the queue it is due on, none is lost, and the
    queues of the other schedulers and of the real time processes are as they were. *)
Theorem rebalance_settles L s c : sched_ok L s -> prios_ok s ->
  exists L' s', rebalance c s = Ret tt s' /\ sched_ok L' s' /\ (forall p, queued L' p <-> queued L p) /\
    (forall i p, 0 <= i < Npriq -> p ∈ L' c i -> due (procs s' p) = i) /\
    (forall c' i, c' <> c \/ Npriq <= i -> L' c' i = L c' i) /\ (forall p, due (procs s' p) = due (procs s p)).
Proof.
  intros O Hp.
  assert (wp (rebalance c) s (fun _ s' => exists L', reb s L c L' s' /\ settled s c Npriq L')) as H
    by (apply (wp_rebalance c L); eauto).
  apply wp_exists in H as ([] & s' & E & L' & R & Hset). exists L', s'. split; [done|]. split; [apply R|].
  assert (forall p, due (procs s' p) = due (procs s p)) as Hd by (intros p; by destruct (rb_still _ _ _ _ _ R p) as (_ & _ & _ & _ & _ & _ & ?)).
  split_and!; [apply R| | |done].
  - intros i p Hi Hin. rewrite Hd. by apply Hset.
  - intros c' i [Nc|Hi]; [by apply (rb_other _ _ _ _ _ R)|]. destruct (decide (c' = c)) as [->|]; [by apply (rb_high _ _ _ _ _ R) | by apply (rb_other _ _ _ _ _ R)].
Qed.

(** [rqrunproc] gives a process that was wired to a processor of another
    scheduler that scheduler before [unlinkproc] takes it off this one's queue; so
    this one still counts it in [nrdy], and the other counts one less than it has. *)
Theorem wired_process_miscounted L s c pri p l2 w m aff : sched_ok L s -> 0 <= pri < Nrq -> L c pri = p :: l2 -> l2 <> [] ->
  mach (procs s p) = None -> wired (procs s p) = Some w -> sched_index w <> c ->
  let c' := sched_index w in
  wp (rqrunproc c pri m aff) s (fun r s' => r = Some p /\
    head (runq (scheds s' c) pri) = hd_error l2 /\ n (runq (scheds s' c) pri) = zlen l2 /\ (forall i, i <> pri -> runq (scheds s' c) i = runq (scheds s c) i) /\
    nrdy (scheds s' c) = queue_lens (L c) /\
    runq (scheds s' c') = runq (scheds s c') /\ nrdy (scheds s' c') = queue_lens (L c') - 1).
Proof.
  intros O Hi El Hl2 Hm Hw Hc c'. unfold rqrunproc. sched_steps.
  pose proof (so_n L s O c pri) as Hn. pose proof (so_seg L s O c pri) as Hs. rewrite El in Hn, Hs. rewrite zlen_cons in Hn.
  pose proof (zlen_nonneg l2). rewrite (seg_head _ _ _ Hs). cbn [hd_error].
  assert (sch (procs s p) = c) as Es by (destruct (so_member L s O c pri p) as [E _]; [rewrite El; set_solver|done]).
  cbn [rq_scan]. sched_steps.
  assert (runnable m aff (procs s p) = true) as -> .
  { unfold runnable. rewrite Hm, Hw, Es. destruct (Nat.eqb_spec c (sched_index w)); [congruence|done]. }
  rewrite Hm, Hw, Es. destruct (Nat.eqb_spec c (sched_index w)); [congruence|]. sched_steps.
  pose proof (seg_next _ _ [] _ _ Hs) as Hx. unfold next_of in Hx.
  destruct (queue_bound L s c pri O Hi) as [Hz Hz']. rewrite El, zlen_cons in Hz.
  pose proof (so_nrdy L s O c) as Hy. pose proof (so_nrdy L s O c') as Hy'. pose proof (so_bound L s O c') as Hb'.
  unfold unlinkproc. sched_steps. fns. cbn [rnext set_sch sch]. rewrite Hx. destruct l2 as [|q l2]; [done|]. cbn [hd_error]. sched_steps. fns.
  fold c'.
  assert (0 <= queue_lens (L c')) as H0 by (apply zsum_ge0, Forall_fmap, Forall_forall; intros i _; apply zlen_nonneg).
  split_and!; try done.
  - rewrite Hn, s32_int by lia. lia.
  - intros i Ne. by fns.
  - rewrite Hy', s32_int by lia. done.
Qed.
End Proofs.

(** ** Examples *)
(** Two processors of one scheduler, and no load. *)
Definition demo_clock : Clock := {| ticks := 0; nonline := 2; load := 0; ticksof := fun _ => 0 |}.
#[local] Existing Instance demo_clock.

Definition w0 := boot (fun _ => None).
Definition w1 := mkWorld (after (start 0 0) (sys w0)) (cpus w0).
Definition w2 := set_cpus 0 (Chose 0) w1 (after (runproc 0) (sys w1)).
Definition w3 := set_cpus 0 (On 0) w2 (after (dispatch 0 0) (sys w2)).
Definition w4 := mkWorld (assign_state 0 Moribund (sys w3)) (cpus w3).
Definition w5 := set_cpus 0 (Leaving 0) w4 (after (leave 0) (sys w4)).
(** Processor 1 makes a new process of it. *)
Definition w6 := mkWorld (after (start 1 0) (sys w5)) (cpus w5).
Definition w7 := set_cpus 1 (Chose 0) w6 (after (runproc 1) (sys w6)).
Definition w8 := set_cpus 1 (On 0) w7 (after (dispatch 1 0) (sys w7)).
(** Processor 0 clears [p->mach]. *)
Definition w9 := set_cpus 0 Idle w8 (after (onproc 0 (set_mach None)) (sys w8)).
Definition w10 := mkWorld (assign_state 0 Wakeme (sys w9)) (cpus w9).
Definition w11 := mkWorld (after (ready false 0) (sys w10)) (cpus w10).
Definition w12 := set_cpus 0 (Chose 0) w11 (after (runproc 0) (sys w11)).
Definition w13 := set_cpus 0 (On 0) w12 (after (dispatch 0 0) (sys w12)).

Lemma reach_w3 reuse : reachable 100 reuse (fun _ => None) w3.
Proof.
  eapply (reach_step _ _ _ w2); [|by eapply (step_dispatch _ _ w2 0 0); [|apply ret_after; vm_compute]].
  eapply (reach_step _ _ _ w1); [|by eapply (step_choose _ _ w1 0 0); [|apply ret_after; vm_compute]].
  eapply (reach_step _ _ _ w0); [apply reach_boot|]. eapply (step_new _ _ w0 0 0); [lia|done|done|]. apply ret_after. by vm_compute.
Qed.

(** [schedinit] frees the process that exits, with [psrelease], before it
    clears its [mach]. So [newproc] on another processor can take it again, and
    the late [up->mach = nil] clears the [mach] of the new process. A process can then
    run on two processors at once. *)
Theorem exiting_process_reused :
  exists w, reachable 100 true (fun _ => None) w /\ cpus w 0%nat = On 0 /\ cpus w 1%nat = On 0.
Proof.
  exists w13. split; [|split; by vm_compute].
  eapply (reach_step _ _ _ w12); [|by eapply (step_dispatch _ _ w12 0 0); [|apply ret_after]; vm_compute].
  eapply (reach_step _ _ _ w11); [|by eapply (step_choose _ _ w11 0 0); [|apply ret_after]; vm_compute].
  eapply (reach_step _ _ _ w10); [|by eapply (step_wake _ _ w10 0); [|apply ret_after]; vm_compute].
  eapply (reach_step _ _ _ w9); [|by eapply (step_block _ _ w9 1 0); vm_compute].
  eapply (reach_step _ _ _ w8); [|by eapply (step_out _ _ w8 0 0); [|apply ret_after]; vm_compute].
  eapply (reach_step _ _ _ w7); [|by eapply (step_dispatch _ _ w7 1 0); [|apply ret_after]; vm_compute].
  eapply (reach_step _ _ _ w6); [|by eapply (step_choose _ _ w6 1 0); [|apply ret_after]; vm_compute].
  eapply (reach_step _ _ _ w5); [|eapply (step_new _ _ w5 1 0); [lia|by vm_compute|done|]; apply ret_after; by vm_compute].
  eapply (reach_step _ _ _ w4); [|by eapply (step_leave _ _ w4 0 0); [|apply ret_after]; vm_compute].
  eapply (reach_step _ _ _ w3); [apply (reach_w3 true)|]. by eapply (step_exit _ _ w3 0 0); vm_compute.
Qed.

Lemma run_queues_well_formed_witness : reachable 100 false (fun _ => None) w3 /\
  wp (turn w3 0) (sys w3) (fun _ s => exists L, sched_ok L s).
Proof.
  split; [apply reach_w3|]. refine (proj2 (run_queues_well_formed 100 (fun _ => None) w3 0 _ _)); [done|apply reach_w3].
Defined.
Lemma one_processor_witness : owns w3 0 0 /\ 0%nat = 0%nat.
Proof.
  split; [right; left; by vm_compute|].
  apply (one_processor 100 (fun _ => None) w3 0 0 0); [done|apply reach_w3|right; left; by vm_compute..].
Defined.

(** Processes 1 and 2 wait on queue 10; 1 may be wired. *)
Definition demo_queued (nx wr : option nat) : Proc := mkProc Ready None 0 nx 0 0 10 10 false wr None.
Definition demo_sys (wr : option nat) : Sys :=
  mkSys (<[1%nat := demo_queued (Some 2%nat) wr]> (<[2%nat := demo_queued None None]> (fun _ => boot_proc)))
    (<[0%nat := mkSched 2 (<[10 := mkSchedq (Some 1%nat) (Some 2%nat) 2]> (fun _ => mkSchedq None None 0)) (2 ^ 10) None 0 0 0]>
      (fun _ => mkSched 0 (fun _ => mkSchedq None None 0) 0 None 0 0 0)).
Definition demo_queues : Queues := with_queue 0 10 [1%nat; 2%nat] (fun _ _ => []).
Lemma demo_sched_ok wr : sched_ok demo_queues (demo_sys wr).
Proof.
  pose proof (wo_sched 0 _ _ (boot_ok 0 (fun _ => None))) as O.
  apply (sched_ok_update _ _ (demo_sys wr) 0 10 [1%nat; 2%nat] O); try done.
  - intros c Ne. unfold demo_sys. cbn. unfold insert, fn_insert. repeat case_decide; congruence.
  - intros j Ne. unfold demo_sys. cbn. unfold insert, fn_insert. repeat (case_decide; cbn); congruence.
  - intros j Hj. change (runvec (scheds (demo_sys wr) 0)) with (2 ^ 10). rewrite Z.pow2_bits_eqb by done.
    case_decide as E; [by subst j|]. destruct (Z.eqb_spec 10 j); [congruence|]. cbn. by rewrite Z.bits_0.
  - repeat constructor; set_solver.
  - intros q Hq. repeat (apply elem_of_cons in Hq as [->|Hq]; [done|]). by apply elem_of_nil in Hq.
  - intros c j q _ H. by apply elem_of_nil in H.
  - intros q Hq. unfold demo_sys, next_of. cbn. unfold insert, fn_insert. repeat case_decide; try done. subst q. destruct Hq. exists 0%nat, 10.
    rewrite with_queue_eq. by left.
Qed.
Lemma demo_prios wr : prios_ok (demo_sys wr).
Proof. intros p. unfold demo_sys. cbn. unfold insert, fn_insert. by repeat case_decide. Qed.

Lemma runproc_picks_witness : sched_ok demo_queues (demo_sys None) /\ value (runproc 1) (demo_sys None) = Some (Some 1%nat) /\
  wp (runproc 1) (demo_sys None) (fun r s' => exists L1, forall p, queued L1 p <-> queued demo_queues p).
Proof.
  split; [apply demo_sched_ok|]. split; [by vm_compute|].
  eapply wp_mono; [apply (runproc_picks demo_queues (demo_sys None) 1)|].
  - apply demo_sched_ok.
  - apply demo_prios.
  - intros p w. unfold demo_sys. cbn. unfold insert, fn_insert. by repeat case_decide.
  - intros r s' (L1 & H & _). by exists L1.
Defined.
Lemma rebalance_settles_witness : exists s', rebalance 0 (demo_sys None) = Ret tt s'.
Proof.
  destruct (rebalance_settles demo_queues (demo_sys None) 0) as (L' & s' & E & _); [apply demo_sched_ok|apply demo_prios|].
  by exists s'.
Defined.
Lemma wired_process_miscounted_witness :
  wp (rqrunproc 0 10 0 true) (demo_sys (Some 2%nat)) (fun r s' => r = Some 1%nat /\ nrdy (scheds s' 0%nat) = 2 /\ nrdy (scheds s' 1%nat) = -1).
Proof.
  eapply wp_mono; [apply (wired_process_miscounted demo_queues (demo_sys (Some 2%nat)) 0 10 1 [2%nat] 2 0 true)|];
    [apply demo_sched_ok|done|done|done|done|done|done|].
  intros r s' (-> & _ & _ & _ & E1 & _ & E2). split; [done|]. split; [by rewrite E1; vm_compute | exact E2].
Defined.
