(* ===== verification/Tod.v ===== *)
(** * The time of day: port/tod.c and port/mul64fract.c

    [Tod] is the structure [tod]: the factors that convert fast clock ticks to
    nanoseconds and back, fixed point numbers with 32 bits of fraction, and the
    time of a reading of the clock.  [fastticks] is the machine's counter: its
    readings, and [sys->ticks], are arguments. *)

From stdpp Require Import base list.
From Stdlib Require Import ZArith Lia.
From S2P Require Import Prelude.
Open Scope Z_scope.

Definition TODFREQ : Z := 1000000000.
Definition MicroFREQ : Z := 1000000.
Definition HZ : Z := 100.

(** ** mul64fract.c *)
Definition mul64fract (a b : Z) : Z :=
  let bl := Z.land b 0xffffffff in
  let bh := Z.shiftr b 32 in
  let al := Z.land a 0xffffffff in
  let ah := Z.shiftr a 32 in
  let res := Z.shiftr (u64 (al * bl)) 32 in
  let res := u64 (res + u64 (al * bh)) in
  let res := u64 (res + u64 (ah * bl)) in
  u64 (res + u64 (Z.shiftl (u64 (ah * bh)) 32)).

Definition mk64fract (to from : Z) : Z := u64 (Z.shiftl to 32) / from.

(** ** The structure *)
Record Tod := mkTod {
  init : bool; multiplier : Z; divider : Z; umultiplier : Z; udivider : Z; hz : Z;
  tlast : Z; off : Z; lasttime : Z; delta : Z; sstart : Z; send : Z
}.
Definition set_factors (m d um ud f : Z) t := mkTod (init t) m d um ud f (tlast t) (off t) (lasttime t) (delta t) (sstart t) (send t).
Definition set_last l o t := mkTod (init t) (multiplier t) (divider t) (umultiplier t) (udivider t) (hz t) l o (lasttime t) (delta t) (sstart t) (send t).
Definition set_lasttime x t := mkTod (init t) (multiplier t) (divider t) (umultiplier t) (udivider t) (hz t) (tlast t) (off t) x (delta t) (sstart t) (send t).
Definition set_slew d s e t := mkTod (init t) (multiplier t) (divider t) (umultiplier t) (udivider t) (hz t) (tlast t) (off t) (lasttime t) d s e.
Definition set_init t := mkTod true (multiplier t) (divider t) (umultiplier t) (udivider t) (hz t) (tlast t) (off t) (lasttime t) (delta t) (sstart t) (send t).

Definition todsetfreq (f : Z) (t : Tod) : Tod :=
  set_factors (mk64fract TODFREQ (u64 f)) (u64 (mk64fract (u64 f) TODFREQ + 1))
    (mk64fract MicroFREQ (u64 f)) (u64 (mk64fract (u64 f) MicroFREQ + 1)) f t.

(** [freq], [ticks]: what [fastticks] says of the counter.  [todfix] is also set
    to run every 100 ms, by [addclock0link]. *)
Definition todinit (freq ticks : Z) (t : Tod) : Tod :=
  if init t then t else set_init (todsetfreq freq (set_last ticks (off t) t)).

Definition todset (x dlt n ticks systicks : Z) (t : Tod) : Tod :=
  if x >=? 0 then set_slew 0 (send t) (send t) (set_lasttime 0 (set_last ticks x t))
  else
    let n := if n <=? 0 then 1 else n in
    let n := s32 (n * HZ) in
    let n := if (dlt <? 0) && (n >? s64 (- dlt)) then s32 (- dlt) else n in
    let n := if (dlt >? 0) && (n >? dlt) then s32 dlt else n in
    set_slew (Z.quot dlt n) (u32 systicks) (u32 (systicks + n)) t.

(** The correction of [todget], a part for each tick of the slow clock. *)
Definition slew (systicks : Z) (t : Tod) : Tod :=
  if sstart t =? send t then t
  else
    let x := if systicks >=? send t then send t else systicks in
    set_slew (delta t) x (send t) (set_last (tlast t) (s64 (off t + delta t * u32 (x - sstart t))) t).

Definition todget (ticks systicks : Z) (t : Tod) : Z * Tod :=
  let t := slew systicks t in
  let diff := s64 (ticks - tlast t) in
  let diff := if diff <? 0 then 0 else diff in
  let x := u64 (mul64fract diff (multiplier t) + off t) in
  (* the comparison is of unsigned numbers *)
  if x <? u64 (lasttime t) then (lasttime t, t) else (s64 x, set_lasttime (s64 x) t).

Definition tod2fastticks (ns : Z) (t : Tod) : Z := u64 (mul64fract (u64 (ns - off t)) (divider t) + tlast t).

Definition todfix (ticks : Z) (t : Tod) : Tod :=
  let diff := s64 (ticks - tlast t) in
  if diff >? hz t then
    set_last ticks (s64 (mul64fract (u64 diff) (multiplier t) + off t)) t
  else t.

Definition seconds (ticks systicks : Z) (t : Tod) : Z * Tod :=
  let '(x, t) := todget ticks systicks t in (s32 (u64 x / TODFREQ), t).

Definition fastticks2us (ticks : Z) (t : Tod) : Z := mul64fract ticks (umultiplier t).
Definition us2fastticks (us : Z) (t : Tod) : Z := mul64fract us (udivider t).
Definition ms2fastticks (ms : Z) (t : Tod) : Z := u64 (hz t * ms) / 1000.
Definition ns2fastticks (ns : Z) (t : Tod) : Z := mul64fract ns (divider t).
Definition fastticks2ns (ticks : Z) (t : Tod) : Z := mul64fract ticks (multiplier t).

(** ** Fixed point multiplication *)
Lemma u64_add_l x y : u64 (u64 x + y) = u64 (x + y).
Proof. apply Zplus_mod_idemp_l. Qed.
Lemma u64_add_r x y : u64 (x + u64 y) = u64 (x + y).
Proof. apply Zplus_mod_idemp_r. Qed.
Lemma u64_small x : 0 <= x < 2 ^ 64 -> u64 x = x.
Proof. apply Z.mod_small. Qed.
Lemma u64_shiftl_u64 x : u64 (u64 x * 2 ^ 32) = u64 (x * 2 ^ 32).
Proof. apply Zmult_mod_idemp_l. Qed.
Lemma s64_int x : - 2 ^ 63 <= x < 2 ^ 63 -> s64 x = x.
Proof. intros H. by apply (sgn_small 64). Qed.

Lemma mul64fract_u64 a b : 0 <= a < 2 ^ 64 -> 0 <= b < 2 ^ 64 -> mul64fract a b = u64 (a * b / 2 ^ 32).
Proof.
  intros Ha Hb. unfold mul64fract. change 0xffffffff with (Z.ones 32). rewrite !Z.land_ones, !Z.shiftr_div_pow2 by lia.
  rewrite Z.shiftl_mul_pow2, u64_shiftl_u64 by lia. rewrite !u64_add_r. rewrite u64_add_l, <- !Z.add_assoc, u64_add_l, !Z.add_assoc.
  pose proof (Z.mod_pos_bound a (2 ^ 32) ltac:(lia)). pose proof (Z.mod_pos_bound b (2 ^ 32) ltac:(lia)).
  set (al := a mod 2 ^ 32) in *. set (bl := b mod 2 ^ 32) in *.
  pose proof (Z.div_mod a (2 ^ 32) ltac:(lia)) as Ea. pose proof (Z.div_mod b (2 ^ 32) ltac:(lia)) as Eb.
  fold al in Ea. fold bl in Eb. set (ah := a / 2 ^ 32) in *. set (bh := b / 2 ^ 32) in *.
  rewrite (u64_small (al * bl)) by nia. f_equal.
  replace (a * b) with (al * bl + (al * bh + ah * bl + ah * bh * 2 ^ 32) * 2 ^ 32) by (rewrite Ea, Eb; ring).
  rewrite Z.div_add by lia. ring.
Qed.

(** [mul64fract] computes the middle 64 bits of the 128-bit product: the
    integer part of the product with a number that has 32 bits of fraction. *)
Theorem mul64fract_middle a b : 0 <= a < 2 ^ 64 -> 0 <= b < 2 ^ 64 -> mul64fract a b = Z.shiftr (a * b) 32 mod 2 ^ 64.
Proof. intros Ha Hb. rewrite mul64fract_u64, Z.shiftr_div_pow2 by lia. done. Qed.
Lemma mul64fract_middle_witness : mul64fract 0xffffffffffffffff 0x1_80000001 = Z.shiftr (0xffffffffffffffff * 0x1_80000001) 32 mod 2 ^ 64.
Proof. apply mul64fract_middle; lia. Defined.

Lemma mk64fract_small to from : 0 <= to < 2 ^ 32 -> mk64fract to from = to * 2 ^ 32 / from.
Proof. intros H. unfold mk64fract. rewrite Z.shiftl_mul_pow2, u64_small by lia. done. Qed.

(** The factors [todsetfreq] sets for a clock below 2^32 Hz. *)
Definition factors (f : Z) (t : Tod) : Prop :=
  hz t = f /\ multiplier t = TODFREQ * 2 ^ 32 / f /\ divider t = f * 2 ^ 32 / TODFREQ + 1.
Lemma todsetfreq_factors f t : 0 < f < 2 ^ 32 -> factors f (todsetfreq f t).
Proof.
  intros Hf. unfold factors, todsetfreq. cbn [hz multiplier divider set_factors]. rewrite (u64_small f) by lia.
  rewrite !mk64fract_small by (unfold TODFREQ; lia). split_and!; try done.
  apply u64_small. unfold TODFREQ. split; [|].
  - pose proof (Z.div_pos (f * 2 ^ 32) 1000000000). lia.
  - pose proof (Z.div_lt_upper_bound (f * 2 ^ 32) 1000000000 (2 ^ 64 - 1)). lia.
Qed.

(** A time in nanoseconds becomes a number of ticks that is less than one tick
    too short, and too long by at most one tick for each 2^32 nanoseconds. *)
Theorem ns2fastticks_accurate f ns t : 0 < f < 2 ^ 32 -> 0 <= ns < 2 ^ 62 -> ns * f < 2 ^ 62 * TODFREQ ->
  let k := ns2fastticks ns (todsetfreq f t) in
  ns * f < (k + 1) * TODFREQ /\ k * 2 ^ 32 * TODFREQ <= ns * (f * 2 ^ 32 + TODFREQ).
Proof.
  intros Hf Hns Hb k. destruct (todsetfreq_factors f t Hf) as (_ & _ & Ed).
  subst k. unfold ns2fastticks. rewrite Ed. set (d := f * 2 ^ 32 / TODFREQ + 1).
  assert (f * 2 ^ 32 < d * TODFREQ <= f * 2 ^ 32 + TODFREQ) as Hd.
  { pose proof (Z.div_mod (f * 2 ^ 32) TODFREQ ltac:(done)). pose proof (Z.mod_pos_bound (f * 2 ^ 32) TODFREQ ltac:(done)). subst d. lia. }
  assert (0 <= d < 2 ^ 64) as Hd' by (unfold TODFREQ in *; nia).
  assert (ns * d * TODFREQ <= ns * (f * 2 ^ 32 + TODFREQ)) as H1 by nia.
  assert (ns * (f * 2 ^ 32) <= ns * d * TODFREQ) as H2 by nia.
  clearbody d. rewrite mul64fract_u64 by lia.
  pose proof (Z.div_mod (ns * d) (2 ^ 32) ltac:(lia)) as E. pose proof (Z.mod_pos_bound (ns * d) (2 ^ 32) ltac:(lia)) as M.
  assert (0 <= ns * d / 2 ^ 32) by (apply Z.div_pos; nia).
  unfold TODFREQ in *. rewrite u64_small by nia. nia.
Qed.
Definition demo_tod : Tod := mkTod false 0 0 0 0 0 0 0 0 0 0 0.
Lemma ns2fastticks_accurate_witness : ns2fastticks 20000 (todsetfreq 2400000000 demo_tod) = 48000 /\ 20000 * 2400000000 < (48000 + 1) * TODFREQ.
Proof.
  split; [by vm_compute|].
  destruct (ns2fastticks_accurate 2400000000 20000 demo_tod) as [H _]; [lia|lia|unfold TODFREQ; lia|exact H].
Defined.

(** ** Reading the time *)
(** A read of the time, the call of [todfix] and an adjustment by [todset], each
    with the readings of the clocks then. *)
Inductive event :=
  | Get (ticks systicks : Z) | Fix (ticks : Z) | Adjust (dlt n ticks systicks : Z).
Definition run1 (e : event) (t : Tod) : list Z * Tod :=
  match e with
  | Get ticks systicks => let '(x, t) := todget ticks systicks t in ([x], t)
  | Fix ticks => ([], todfix ticks t)
  | Adjust dlt n ticks systicks => ([], todset (-1) dlt n ticks systicks t)
  end.
Fixpoint run (es : list event) (t : Tod) : list Z * Tod :=
  match es with
  | [] => ([], t)
  | e :: es => let '(r1, t) := run1 e t in let '(r2, t) := run es t in (r1 ++ r2, t)
  end.

Lemma u64_s64 x : u64 (s64 x) = u64 x.
Proof.
  unfold s64, sgn, u64. pose proof (Z.mod_pos_bound x (2 ^ 64) ltac:(lia)).
  destruct (_ <? _); [by rewrite Zmod_mod|].
  replace (x mod 2 ^ 64 - 2 ^ 64) with (x mod 2 ^ 64 + (-1) * 2 ^ 64) by lia. rewrite Z_mod_plus_full. apply Zmod_mod.
Qed.

Lemma u64_u64 x : u64 (u64 x) = u64 x.
Proof. apply Zmod_mod. Qed.

Lemma todget_lasttime ticks systicks t :
  let '(x, t') := todget ticks systicks t in lasttime t' = x /\ u64 (lasttime t) <= u64 x.
Proof.
  unfold todget. assert (lasttime (slew systicks t) = lasttime t) as E by (unfold slew; by destruct (_ =? _)).
  destruct (Z.ltb_spec (u64 (mul64fract (if s64 (ticks - tlast (slew systicks t)) <? 0 then 0 else s64 (ticks - tlast (slew systicks t)))
    (multiplier (slew systicks t)) + off (slew systicks t))) (u64 (lasttime (slew systicks t)))) as [|H].
  - by rewrite E.
  - split; [done|]. rewrite E in H. rewrite u64_s64, u64_u64. done.
Qed.

Lemma run_monotone (es : list event) (t : Tod) : let '(xs, t') := run es t in
  forall i j x y, (i <= j)%nat -> xs !! i = Some x -> xs !! j = Some y -> u64 (lasttime t) <= u64 x <= u64 y.
Proof.
  revert t. induction es as [|e es IH]; intros t; cbn [run]; [done|].
  destruct e as [ticks systicks|ticks|dlt n ticks systicks]; cbn [run1].
  - pose proof (todget_lasttime ticks systicks t) as H. destruct (todget ticks systicks t) as [x t1]. destruct H as [El Hx].
    specialize (IH t1). destruct (run es t1) as [xs t2]. cbn [app].
    intros [|i] [|j] y z Hij Hy Hz; cbn in Hy, Hz; simplify_eq; [lia| |lia|].
    + destruct (IH j j z z) as [H _]; [lia|done|done|]. lia.
    + destruct (IH i j y z) as [H1 H2]; [lia|done|done|]. lia.
  - specialize (IH (todfix ticks t)). destruct (run es (todfix ticks t)) as [xs t2]. cbn [app].
    assert (lasttime (todfix ticks t) = lasttime t) as E by (unfold todfix; by destruct (_ >? _)). by rewrite E in IH.
  - specialize (IH (todset (-1) dlt n ticks systicks t)). by destruct (run es (todset (-1) dlt n ticks systicks t)) as [xs t2].
Qed.

(** Time never goes back: whatever the clocks read and however the time is
    adjusted, the times [todget] returns never decrease, as the unsigned numbers
    that they are. *)
Theorem todget_monotone (es : list event) (t : Tod) i j x y : (i <= j)%nat -> (run es t).1 !! i = Some x -> (run es t).1 !! j = Some y ->
  u64 (lasttime t) <= u64 x <= u64 y.
Proof. pose proof (run_monotone es t) as H. destruct (run es t) as [xs t']. apply H. Qed.

(** ** Accuracy *)
(** The time at the reading [k], without rounding in between. *)
Definition time_at (t : Tod) (k : Z) : Z := off t + (k - tlast t) * multiplier t / 2 ^ 32.
Definition reading (e : event) : Z := match e with Get k _ | Fix k | Adjust _ _ k _ => k end.
Definition readings (es : list event) : list Z := flat_map (fun e => match e with Get k _ => [k] | _ => [] end) es.
Definition fixes (es : list event) : Z := zlen (flat_map (fun e => match e with Fix k => [k] | _ => [] end) es).
Definition unadjusted (e : event) : Prop := match e with Adjust _ _ _ _ => False | _ => True end.
(** The readings do not go back from [k], nor beyond [k']. *)
Fixpoint forward (k : Z) (es : list event) (k' : Z) : Prop :=
  match es with [] => k <= k' | e :: es => k <= reading e /\ forward (reading e) es k' end.

(** [t0]: the start; [n] calls of [todfix] have rounded since. *)
Record on_time (t0 : Tod) (kmax n k : Z) (t : Tod) : Prop := {
  ot_mult : multiplier t = multiplier t0;
  ot_slew : sstart t = send t;
  ot_last : 0 <= tlast t <= k;
  ot_off : 0 <= off t;
  ot_near k' : k <= k' <= kmax -> time_at t0 k' - n <= time_at t k' <= time_at t0 k';
  ot_lasttime : 0 <= lasttime t <= time_at t k
}.

Section Accuracy.
Context (t0 : Tod) (kmax : Z).
Hypotheses (Hm : 0 <= multiplier t0 < 2 ^ 64) (Hk : kmax < 2 ^ 63) (Hmax : time_at t0 kmax < 2 ^ 63).

Lemma time_at_mono t k k' : 0 <= multiplier t -> k <= k' -> time_at t k <= time_at t k'.
Proof. intros H Hk'. unfold time_at. pose proof (Z.div_le_mono ((k - tlast t) * multiplier t) ((k' - tlast t) * multiplier t) (2 ^ 32)). nia. Qed.

(** What the routines compute, without overflow. *)
Lemma elapsed n k k' t : on_time t0 kmax n k t -> k <= k' <= kmax ->
  s64 (k' - tlast t) = k' - tlast t /\ 0 <= k' - tlast t /\
  mul64fract (k' - tlast t) (multiplier t) + off t = time_at t k' /\ 0 <= time_at t k' < 2 ^ 63.
Proof.
  intros [E1 E2 Hl Ho Hn Ht] Hk'. rewrite s64_int by lia. split; [done|]. split; [lia|].
  pose proof (Hn k' Hk') as B. pose proof (time_at_mono t0 k' kmax ltac:(lia) ltac:(lia)).
  assert (0 <= (k' - tlast t) * multiplier t / 2 ^ 32) by (apply Z.div_pos; nia).
  rewrite mul64fract_u64 by lia. unfold time_at in *. rewrite u64_small by lia. lia.
Qed.

Lemma get_on_time n k t k' sy : on_time t0 kmax n k t -> k <= k' <= kmax ->
  let '(x, t') := todget k' sy t in on_time t0 kmax n k' t' /\ x = time_at t k'.
Proof.
  intros O Hk'. destruct (elapsed n k k' t O Hk') as (E1 & E2 & E3 & E4).
  assert (slew sy t = t) as Es by (unfold slew; rewrite (ot_slew _ _ _ _ _ O), Z.eqb_refl; done).
  unfold todget. rewrite Es, E1. destruct (Z.ltb_spec (k' - tlast t) 0); [lia|]. rewrite E3.
  destruct O as [M1 M2 Ml Mo Mn Mt]. pose proof (time_at_mono t k k' ltac:(lia) ltac:(lia)).
  rewrite !u64_small by lia. destruct (Z.ltb_spec (time_at t k') (lasttime t)); [lia|].
  rewrite s64_int by lia. split; [|done]. split; cbn; try done; [lia| |].
  - intros k2 Hk2. apply (Mn k2). lia.
  - change (time_at (set_lasttime (time_at t k') t) k') with (time_at t k'). lia.
Qed.

Lemma fix_on_time n k t k' : on_time t0 kmax n k t -> k <= k' <= kmax -> on_time t0 kmax (n + 1) k' (todfix k' t).
Proof.
  intros O Hk'. destruct (elapsed n k k' t O Hk') as (E1 & E2 & E3 & E4).
  destruct O as [M1 M2 Ml Mo Mn Mt]. pose proof (time_at_mono t k k' ltac:(lia) ltac:(lia)).
  unfold todfix. rewrite E1. destruct (_ >? _).
  - rewrite (u64_small (k' - tlast t)) by lia. rewrite E3, s64_int by lia. split; cbn; try done; [lia|lia| |].
    + intros k2 Hk2. pose proof (Mn k2 ltac:(lia)) as B. unfold time_at in B |- *. cbn.
      replace ((k2 - tlast t) * multiplier t) with ((k' - tlast t) * multiplier t + (k2 - k') * multiplier t) in B by ring.
      set (a := (k' - tlast t) * multiplier t) in *. set (b := (k2 - k') * multiplier t) in *.
      unfold time_at. fold a. clearbody a b.
      pose proof (Z.div_mod a (2 ^ 32) ltac:(lia)). pose proof (Z.div_mod b (2 ^ 32) ltac:(lia)). pose proof (Z.div_mod (a + b) (2 ^ 32) ltac:(lia)).
      pose proof (Z.mod_pos_bound a (2 ^ 32) ltac:(lia)). pose proof (Z.mod_pos_bound b (2 ^ 32) ltac:(lia)). pose proof (Z.mod_pos_bound (a + b) (2 ^ 32) ltac:(lia)).
      lia.
    + unfold time_at at 1. cbn. rewrite Z.sub_diag, Z.mul_0_l, Z.div_0_l by lia. lia.
  - split; try done; [lia| |lia]. intros k2 Hk2. pose proof (Mn k2 ltac:(lia)). lia.
Qed.

Definition accurate (n : Z) (k x : Z) : Prop := time_at t0 k - n <= x <= time_at t0 k.
Lemma run_on_time es : forall n k t, 0 <= n -> on_time t0 kmax n k t -> Forall unadjusted es -> forward k es kmax ->
  Forall2 (accurate (n + fixes es)) (readings es) (run es t).1.
Proof.
  induction es as [|e es IH]; intros n k t Hn O Hu Hf; [constructor|]. apply Forall_cons in Hu as [He Hu]. destruct Hf as [Hf1 Hf2].
  assert (reading e <= kmax) as Hle.
  { clear -Hf2. revert Hf2. generalize (reading e). induction es as [|e2 es IH]; intros k; cbn; [done|]. intros [H1 H2]. apply IH in H2. lia. }
  destruct e as [k1 sy|k1|]; [| |done]; cbn [run run1 reading] in *.
  - pose proof (get_on_time n k t k1 sy O ltac:(lia)) as G. destruct (todget k1 sy t) as [x t1]. destruct G as [O1 ->].
    specialize (IH n k1 t1 Hn O1 Hu Hf2). destruct (run es t1) as [xs t2]. cbn. constructor; [|exact IH].
    pose proof (ot_near _ _ _ _ _ O k1 ltac:(lia)). pose proof (zlen_nonneg (flat_map (fun e => match e with Fix k => [k] | _ => [] end) es)).
    unfold accurate, fixes in *. cbn [flat_map app]. lia.
  - pose proof (fix_on_time n k t k1 O ltac:(lia)) as O1. specialize (IH (n + 1) k1 _ ltac:(lia) O1 Hu Hf2).
    destruct (run es (todfix k1 t)) as [xs t2]. cbn in *. unfold fixes in *. cbn. rewrite zlen_cons. by rewrite Z.add_assoc.
Qed.
End Accuracy.

(** C32: The clock keeps time: [todfix] moves the origin of the conversion to avoid
    overflow, and each move costs a nanosecond at most.  The times that
    [todget] returns are never ahead of the exact conversion of the counter since the
    start and behind it by no more than the calls of [todfix]. *)
Theorem clock_keeps_time t0 es kmax : 0 <= multiplier t0 < 2 ^ 64 -> sstart t0 = send t0 -> 0 <= tlast t0 ->
  0 <= lasttime t0 <= off t0 -> kmax < 2 ^ 63 -> time_at t0 kmax < 2 ^ 63 -> Forall unadjusted es -> forward (tlast t0) es kmax ->
  Forall2 (fun k x => time_at t0 k - fixes es <= x <= time_at t0 k) (readings es) (run es t0).1.
Proof.
  intros Hm Hs Hl Ht Hk Hmax Hu Hf. apply (run_on_time t0 kmax Hm Hk Hmax es 0 (tlast t0) t0); [lia| |done|done].
  assert (time_at t0 (tlast t0) = off t0) as E by (unfold time_at; rewrite Z.sub_diag, Z.mul_0_l, Z.div_0_l by lia; lia).
  split; try done; lia.
Qed.

Definition demo_clock : Tod := set_last 1000 5000000000 (todsetfreq 2400000000 demo_tod).
Definition demo_events : list event := [Get 2401000 0; Fix 2400001000; Get 2400002001 1; Fix 4800002333; Get 4800009999 2].
Lemma clock_keeps_time_witness : (run demo_events demo_clock).1 = [5000999999; 6000000416; 7000003748] /\
  Forall2 (fun k x => time_at demo_clock k - 2 <= x <= time_at demo_clock k) (readings demo_events) (run demo_events demo_clock).1.
Proof.
  split; [by vm_compute|].
  apply (clock_keeps_time demo_clock demo_events 4800009999); try by vm_compute.
  repeat constructor.
Defined.

(** Adjusted back by a second, over a second. *)
Definition demo_slewed : list event := [Get 2401000 0; Adjust (-1000000000) 1 2401000 0; Get 240001000 10; Get 2400001000 100].
Lemma todget_monotone_witness : (run demo_slewed demo_clock).1 = [5000999999; 5000999999; 5000999999] /\ u64 5000999999 <= u64 5000999999.
Proof.
  split; [by vm_compute|].
  apply (todget_monotone demo_slewed demo_clock 0 2); [lia|by vm_compute..].
Defined.
