(* ===== verification/Clock.v ===== *)
(** * The timers of the kernel: port/portclock.c

    Each processor has a list of [Timer]s, linked through [tnext] in the order of
    [twhen], and a hardware timer that [timerset] sets.  [timeradd] and [timerdel] run
    on any processor; [timerintr] takes the timers that are due off the list of its
    processor and calls their routines without the lock.  Each stretch of code under
    the lock of a list is one step, so that the routines interleave. *)

From stdpp Require Import base list sets functions strings sorting.
From Stdlib Require Import ZArith Lia.
From S2P Require Import Prelude Chain Tod.
Open Scope Z_scope.
Open Scope nix_scope.
Set Warnings "-clear-no-such-hyp".

Definition Trelative : Z := 0.
Definition Tperiodic : Z := 1.

(** [tf]: whether the timer has a routine; the one without is the HZ clock. *)
Record Timer := mkTimer { tmode : Z; tns : Z; tf : bool; tt : option nat; twhen : Z; tnext : option nat }.
Definition set_tns x t := mkTimer (tmode t) x (tf t) (tt t) (twhen t) (tnext t).
Definition set_tt x t := mkTimer (tmode t) (tns t) (tf t) x (twhen t) (tnext t).
Definition set_twhen x t := mkTimer (tmode t) (tns t) (tf t) (tt t) x (tnext t).
Definition set_tnext x t := mkTimer (tmode t) (tns t) (tf t) (tt t) (twhen t) x.

(** What a processor does with its interrupt: nothing; the loop of [timerintr],
    with the time it read and whether to call [hzclock]; the routine of [t]. *)
Inductive Intr := Quiet | Looping (now0 : Z) (hz : bool) | Calling (t : nat) (now0 : Z) (hz : bool).

(** The timers by their address, [ntimers] of them; the lists and the hardware
    timer of each processor, and its [m->ticks]; the fast clock. *)
Record Sys := mkSys {
  timer : nat -> Timer; ntimers : nat; heads : nat -> option nat; armed : nat -> option Z; mticks : nat -> Z; systicks : Z; now : Z
}.
Definition set_timer t x s := mkSys (<[t := x]> (timer s)) (ntimers s) (heads s) (armed s) (mticks s) (systicks s) (now s).
Definition set_head m h s := mkSys (timer s) (ntimers s) (<[m := h]> (heads s)) (armed s) (mticks s) (systicks s) (now s).
Definition set_armed m a s := mkSys (timer s) (ntimers s) (heads s) (<[m := a]> (armed s)) (mticks s) (systicks s) (now s).
Definition set_ticks m k y s := mkSys (timer s) (ntimers s) (heads s) (armed s) (<[m := k]> (mticks s)) y (now s).
Definition set_now x s := mkSys (timer s) (ntimers s) (heads s) (armed s) (mticks s) (systicks s) x.

Definition ontimer (t : nat) (g : Timer -> Timer) : M Sys () := modify (fun s => set_timer t (g (timer s t)) s).
Definition the (t : nat) : M Sys Timer := gets (fun s => timer s t).
(** The hardware timer interrupts at [when], or before. *)
Definition timerset (m : nat) (when : Z) : M Sys () := modify (set_armed m (Some when)).
Definition fastticks : M Sys Z := gets now.

(** [Timer **last]: [&tt->head], or [&t->tnext]. *)
Definition deref (m : nat) (last : option nat) : M Sys (option nat) :=
  match last with None => gets (fun s => heads s m) | Some t => x <- the t ;; ret (tnext x) end.
Definition assign (m : nat) (last v : option nat) : M Sys () :=
  match last with None => modify (set_head m v) | Some t => ontimer t (set_tnext v) end.

Section Clock.
Context (tod : Tod).

Definition ns2ticks (ns : Z) : Z := ns2fastticks (u64 ns) tod.

(** A periodic timer of the same period. *)
Fixpoint same_period (fuel : nat) (t : option nat) (ns : Z) : M Sys (option nat) :=
  match t with
  | None => ret None
  | Some t =>
    match fuel with
    | O => undef "fuel"%string
    | S fuel =>
      x <- the t ;;
      if (tmode x =? Tperiodic) && (tns x =? ns) then ret (Some t) else same_period fuel (tnext x) ns
    end
  end.

(** The last timer that is not after [when], as a pointer to where [t] goes. *)
Fixpoint place (fuel : nat) (m : nat) (last : option nat) (when : Z) : M Sys (option nat) :=
  t <- deref m last ;;
  match t with
  | None => ret last
  | Some t =>
    match fuel with
    | O => undef "fuel"%string
    | S fuel => x <- the t ;; if twhen x >? when then ret last else place fuel m (Some t) when
    end
  end.

Definition tadd (m nt : nat) : M Sys Z :=
  x <- the nt ;;
  match tt x with
  | Some _ => panic "assert: nt->tt == nil"%string
  | None =>
    (if tmode x =? Trelative then
       (if tns x <=? 0 then ontimer nt (set_tns 1) else ret ()) ;;
       x <- the nt ;; now <- fastticks ;;
       ontimer nt (set_twhen (s64 (now + ns2ticks (tns x))))
     else if tmode x =? Tperiodic then
       if tns x <? 100000 then panic "assert: nt->tns >= 100000"%string
       else
         (if twhen x =? 0 then
            n <- gets ntimers ;; h <- gets (fun s => heads s m) ;;
            p <- same_period n h (tns x) ;;
            w <- (match p with Some p => y <- the p ;; ret (twhen y) | None => fastticks end) ;;
            ontimer nt (set_twhen w)
          else ret ()) ;;
         let when := ns2ticks (tns x) in
         let when := if when =? 0 then 1 else when in
         ontimer nt (fun x => set_twhen (s64 (twhen x + when)) x)
     else panic "timer"%string) ;;
    x <- the nt ;; n <- gets ntimers ;;
    last <- place n m None (twhen x) ;;
    v <- deref m last ;;
    ontimer nt (set_tnext v) ;;
    assign m last (Some nt) ;;
    ontimer nt (set_tt (Some m)) ;;
    ret (match last with None => twhen x | Some _ => 0 end)
  end.

(** The pointer to [dt], or the end of the list. *)
Fixpoint find (fuel : nat) (m : nat) (last : option nat) (dt : nat) : M Sys (option nat * bool) :=
  t <- deref m last ;;
  match t with
  | None => ret (last, false)
  | Some t =>
    if (t =? dt)%nat then ret (last, true)
    else match fuel with O => undef "fuel"%string | S fuel => find fuel m (Some t) dt end
  end.

Definition tdel (dt : nat) : M Sys Z :=
  x <- the dt ;;
  match tt x with
  | None => ret 0
  | Some m =>
    n <- gets ntimers ;;
    r <- find n m None dt ;;
    let '(last, found) := r in
    (if found then
       ontimer dt (set_tt None) ;; y <- the dt ;; assign m last (tnext y)
     else ret ()) ;;
    h <- gets (fun s => heads s m) ;;
    match last, h with
    | None, Some h => y <- the h ;; ret (twhen y)
    | _, _ => ret 0
    end
  end.

Definition timeradd (m nt : nat) : M Sys () :=
  x <- the nt ;;
  (match tt x with Some _ => tdel nt ;; ret () | None => ret () end) ;;
  when <- tadd m nt ;;
  if when =? 0 then ret () else timerset m when.

Definition timerdel (m dt : nat) : M Sys () :=
  x <- the dt ;;
  match tt x with
  | None => ret ()
  | Some k =>
    when <- tdel dt ;;
    if negb (when =? 0) && (k =? m)%nat then
      h <- gets (fun s => heads s k) ;;
      match h with Some h => y <- the h ;; timerset m (twhen y) | None => undef "tt->head->twhen"%string end
    else ret ()
  end.

(** The clock of the scheduler and the alarms; what else it does is not state of
    this module. *)
Definition hzclock (m : nat) : M Sys () :=
  modify (fun s => let k := u32 (mticks s m + 1) in set_ticks m k (if (m =? 0)%nat then k else systicks s) s).

(** [timerintr] from its start to its loop, from the lock at the head of the
    loop to the call of a routine or the return, and from the call to the next round. *)
Definition intr_start (m : nat) : M Sys Intr := n <- fastticks ;; ret (Looping n false).
Definition intr_round (m : nat) (now0 : Z) (hz : bool) : M Sys Intr :=
  h <- gets (fun s => heads s m) ;;
  match h with
  | None => ret Quiet
  | Some t =>
    x <- the t ;;
    if twhen x >? now0 then
      timerset m (twhen x) ;; (if hz then hzclock m else ret ()) ;; ret Quiet
    else
      modify (set_head m (tnext x)) ;;
      match tt x with
      | Some k => if (k =? m)%nat then ontimer t (set_tt None) ;; ret (Calling t now0 (hz || negb (tf x)))
                  else panic "assert: t->tt == tt"%string
      | None => panic "assert: t->tt == tt"%string
      end
  end.
Definition intr_again (m t : nat) (now0 : Z) (hz : bool) : M Sys Intr :=
  x <- the t ;;
  (if tmode x =? Tperiodic then tadd m t ;; ret () else ret ()) ;;
  ret (Looping now0 hz).

(** [timerintr] when the routines leave the timers alone. *)
Fixpoint intr_loop (fuel : nat) (m : nat) (now0 : Z) (hz : bool) (fired : list nat) : M Sys (list nat) :=
  match fuel with
  | O => undef "fuel"%string
  | S fuel =>
    i <- intr_round m now0 hz ;;
    match i with
    | Calling t now0 hz => intr_again m t now0 hz ;; intr_loop fuel m now0 hz (fired ++ [t])
    | _ => ret fired
    end
  end.

(** ** The processors *)
Record World := mkWorld { sys : Sys; intr : nat -> Intr }.
Definition calls (w : World) (t : nat) : Prop := exists k now0 hz, intr w k = Calling t now0 hz.
Definition valid (x : Timer) : Prop := tmode x = Trelative \/ (tmode x = Tperiodic /\ 100000 <= tns x).
Definition with_public (mode ns : Z) (f : bool) (x : Timer) : Timer := mkTimer mode ns f (tt x) (twhen x) (tnext x).

(** What happens, in any order: the fast clock advances; a timer that is not in
    use is given its mode, period and routine; [timeradd] and [timerdel] on any
    processor ([timeradd] holds [nt]'s lock, so that nothing comes between its two
    parts but the interrupt of a processor that has the timer off its list already);
    the interrupt and its parts.  A periodic timer is not added while its
    routine runs.  No time is 0, the value that means no time. *)
Inductive step : World -> World -> Prop :=
  | step_tick w x : now (sys w) <= x -> step w (mkWorld (set_now x (sys w)) (intr w))
  | step_public w t mode ns f : tt (timer (sys w) t) = None -> ~ calls w t -> valid (with_public mode ns f (timer (sys w) t)) ->
      step w (mkWorld (set_timer t (with_public mode ns f (timer (sys w) t)) (sys w)) (intr w))
  | step_add w m t s : (t < ntimers (sys w))%nat -> valid (timer (sys w) t) ->
      (calls w t -> tmode (timer (sys w) t) = Trelative) ->
      timeradd m t (sys w) = Ret () s -> twhen (timer s t) <> 0 -> step w (mkWorld s (intr w))
  | step_del w m t s : timerdel m t (sys w) = Ret () s -> step w (mkWorld s (intr w))
  | step_intr w m s i : intr w m = Quiet -> intr_start m (sys w) = Ret i s ->
      step w (mkWorld (set_armed m None s) (<[m := i]> (intr w)))
  | step_round w m now0 hz s i : intr w m = Looping now0 hz -> intr_round m now0 hz (sys w) = Ret i s ->
      step w (mkWorld s (<[m := i]> (intr w)))
  | step_again w m t now0 hz s i : intr w m = Calling t now0 hz -> intr_again m t now0 hz (sys w) = Ret i s ->
      step w (mkWorld s (<[m := i]> (intr w))).

Definition idle_timer : Timer := mkTimer 0 0 false None 0 None.
Definition boot (n : nat) (start : Z) : World :=
  mkWorld (mkSys (fun _ => idle_timer) n (fun _ => None) (fun _ => None) (fun _ => 0) 0 start) (fun _ => Quiet).
Inductive reachable (n : nat) (start : Z) : World -> Prop :=
  | reach_boot : reachable n start (boot n start)
  | reach_step w w' : reachable n start w -> step w w' -> reachable n start w'.

Definition tk2ms (ticks : Z) : Z := u32 (u64 (u64 ticks * 1000) / HZ).
Definition ms2tk (ms : Z) : Z :=
  if ms >=? Z.quot 1000000000 HZ then u32 (ms / 1000 * HZ) else u32 (ms * HZ + 500) / 1000.

(** ** The lists *)
Definition next_of (s : Sys) (t : nat) : option nat := tnext (timer s t).
Definition by_time (s : Sys) (l : list nat) : Prop := StronglySorted (fun a b => twhen (timer s a) <= twhen (timer s b)) l.
(** [L m]: the list of processor [m]. *)
Record lists_ok (L : nat -> list nat) (s : Sys) : Prop := {
  lo_seg m : seg (next_of s) (heads s m) (L m) None;
  lo_once m : NoDup (L m);
  lo_tt t m : tt (timer s t) = Some m <-> t ∈ L m;
  lo_sorted m : by_time s (L m);
  lo_count m t : t ∈ L m -> (t < ntimers s)%nat
}.

Lemma lo_length L s m : lists_ok L s -> (length (L m) <= ntimers s)%nat.
Proof.
  intros O. assert (L m ⊆+ seq 0 (ntimers s)) as H.
  { apply NoDup_submseteq; [apply (lo_once _ _ O)|]. intros t Ht. apply elem_of_seq. pose proof (lo_count _ _ O m t Ht). lia. }
  apply submseteq_length in H. by rewrite length_seq in H.
Qed.

Lemma wp_the t s (Q : Timer -> Sys -> Prop) : Q (timer s t) s -> wp (the t) s Q.
Proof. done. Qed.
Lemma wp_ontimer t g s (Q : () -> Sys -> Prop) : Q () (set_timer t (g (timer s t)) s) -> wp (ontimer t g) s Q.
Proof. done. Qed.
Lemma wp_timerset m w s (Q : () -> Sys -> Prop) : Q () (set_armed m (Some w) s) -> wp (timerset m w) s Q.
Proof. done. Qed.
Lemma wp_fastticks s (Q : Z -> Sys -> Prop) : Q (now s) s -> wp fastticks s Q.
Proof. done. Qed.
(** The pointer after the elements [l1] of a list. *)
Lemma wp_deref_timer L s m l1 l2 (Q : option nat -> Sys -> Prop) : lists_ok L s -> L m = l1 ++ l2 -> Q (hd_error l2) s -> wp (deref m (list.last l1)) s Q.
Proof.
  intros O El K. pose proof (lo_seg _ _ O m) as Hs. rewrite El in Hs.
  destruct l1 as [|t l1 _] using rev_ind; cbn [list.last deref]; [|rewrite last_snoc; cbn [deref]].
  - apply wp_gets. by rewrite (seg_head _ _ _ Hs).
  - apply wp_bind, wp_the, wp_ret. change (tnext (timer s t)) with (next_of s t). rewrite <- app_assoc in Hs. by rewrite (seg_next _ _ _ _ _ Hs).
Qed.

Ltac clk_step :=
  lazymatch goal with
  | |- wp (the _) _ _ => apply wp_the
  | |- wp (ontimer _ _) _ _ => apply wp_ontimer
  | |- wp (timerset _ _) _ _ => apply wp_timerset
  | |- wp fastticks _ _ => apply wp_fastticks
  | _ => wp_step
  end; cbv beta.
Ltac clk_steps := repeat clk_step.

Lemma wp_place L s m when (Q : option nat -> Sys -> Prop) : lists_ok L s -> forall fuel l1 l2, L m = l1 ++ l2 -> (length l2 <= fuel)%nat ->
  Forall (fun t => twhen (timer s t) <= when) l1 ->
  (forall l1 l2, L m = l1 ++ l2 -> Forall (fun t => twhen (timer s t) <= when) l1 -> Forall (fun t => when < twhen (timer s t)) l2 -> Q (list.last l1) s) ->
  wp (place fuel m (list.last l1) when) s Q.
Proof.
  intros O fuel. induction fuel as [|fuel IH]; intros l1 l2 El Hf Hl K; cbn [place]; apply wp_bind, (wp_deref_timer L s m l1 l2 _ O El);
    (destruct l2 as [|t l2]; cbn [hd_error length] in *; [|try lia]).
  1, 2: apply wp_ret; by apply (K l1 []).
  clk_steps. destruct (Z.gtb_spec (twhen (timer s t)) when) as [Hw|Hw].
  - apply wp_ret, (K l1 (t :: l2)); [done|done|]. constructor; [lia|].
    pose proof (lo_sorted _ _ O m) as S. rewrite El in S. apply StronglySorted_app_1_r, StronglySorted_inv in S as [_ S].
    eapply Forall_impl; [exact S|]. cbn. lia.
  - replace (Some t) with (list.last (l1 ++ [t])) by apply last_snoc.
    apply (IH _ l2); [by rewrite <- app_assoc|lia| |done]. apply Forall_app. by repeat constructor.
Qed.

Lemma wp_find L s m dt (Q : option nat * bool -> Sys -> Prop) : lists_ok L s -> forall fuel l1 l2 l3, L m = l1 ++ l2 ++ dt :: l3 ->
  (length l2 <= fuel)%nat -> Q (list.last (l1 ++ l2), true) s -> wp (find fuel m (list.last l1) dt) s Q.
Proof.
  intros O fuel. induction fuel as [|fuel IH]; intros l1 l2 l3 El Hf K; cbn [find]; apply wp_bind, (wp_deref_timer L s m l1 (l2 ++ dt :: l3) _ O El);
    (destruct l2 as [|t l2]; cbn [hd_error length app] in *; [|try lia]).
  1, 2: rewrite Nat.eqb_refl; apply wp_ret; by rewrite app_nil_r in K.
  destruct (Nat.eqb_spec t dt) as [->|Ne].
  - pose proof (lo_once _ _ O m) as D. rewrite El in D. apply NoDup_app in D as (_ & _ & [D _]%NoDup_cons). set_solver.
  - replace (Some t) with (list.last (l1 ++ [t])) by apply last_snoc.
    apply (IH _ l2 l3); [by rewrite <- app_assoc|lia|]. by rewrite <- app_assoc.
Qed.

Definition same_timer (x y : Timer) : Prop := y = set_tnext (tnext y) x.

(** [nt] is put in the list of [m], after [l1]. *)
Lemma lists_ok_insert L s s' m nt l1 l2 : lists_ok L s -> tt (timer s nt) = None -> (nt < ntimers s)%nat -> L m = l1 ++ l2 ->
  (forall q, q <> nt -> same_timer (timer s q) (timer s' q)) -> tt (timer s' nt) = Some m -> next_of s' nt = hd_error l2 ->
  (forall q, q <> nt -> next_of s' q = if bool_decide (list.last l1 = Some q) then Some nt else next_of s q) ->
  (forall k, heads s' k = if decide (k = m) then match list.last l1 with None => Some nt | Some _ => heads s m end else heads s k) ->
  ntimers s' = ntimers s ->
  Forall (fun t => twhen (timer s t) <= twhen (timer s' nt)) l1 -> Forall (fun t => twhen (timer s' nt) < twhen (timer s t)) l2 ->
  lists_ok (<[m := l1 ++ nt :: l2]> L) s'.
Proof.
  intros O Et Hc El Hs Etn En Hx Hh Ec H1 H2.
  assert (forall k, nt ∉ L k) as Hnt by (intros k; rewrite <- (lo_tt _ _ O), Et; done).
  assert (forall k q, q ∈ L k -> q <> nt) as Hne by (intros k q Hq ->; by apply (Hnt k)).
  assert (forall q, q <> nt -> twhen (timer s' q) = twhen (timer s q) /\ tt (timer s' q) = tt (timer s q)) as Hw.
  { intros q Ne. specialize (Hs q Ne). unfold same_timer in Hs. rewrite Hs. done. }
  assert (forall k l, (forall q, q ∈ l -> q ∈ L k) -> by_time s l -> by_time s' l) as Hsorted.
  { intros k l Hin. induction 1 as [|t l _ IH Hl]; [constructor|]. constructor; [apply IH; set_solver|].
    rewrite Forall_forall in Hl |- *. intros q Hq. destruct (Hw t) as [-> _]; [apply (Hne k); set_solver|].
    destruct (Hw q) as [-> _]; [apply (Hne k); set_solver|]. by apply Hl. }
  pose proof (lo_once _ _ O m) as Dm. pose proof (lo_sorted _ _ O m) as Sm. pose proof (lo_seg _ _ O m) as Cm. rewrite El in Dm, Sm, Cm.
  split.
  - intros k. rewrite Hh. case_decide as E; [subst k; rewrite fn_at | rewrite fn_off by congruence].
    + apply (seg_insert (next_of s)); try done. rewrite <- El. apply Hnt.
    + eapply seg_ext; [|apply (lo_seg _ _ O)]. intros q Hq. rewrite Hx by (by apply (Hne k)). rewrite bool_decide_false; [done|].
      intros [l' E']%last_Some. apply (lo_tt _ _ O) in Hq. assert (q ∈ L m) as Hq' by (rewrite El, E'; set_solver).
      apply (lo_tt _ _ O) in Hq'. congruence.
  - intros k. destruct (decide (k = m)) as [->|Ne]; [rewrite fn_at | rewrite fn_off by congruence; apply (lo_once _ _ O)].
    rewrite <- Permutation_middle. apply NoDup_cons. split; [|done]. rewrite <- El. apply Hnt.
  - intros q k. destruct (decide (q = nt)) as [->|Ne].
    + rewrite Etn. destruct (decide (k = m)) as [->|Nk]; [rewrite fn_at; set_solver|rewrite fn_off by congruence].
      split; [congruence|]. intros H. by destruct (Hnt k).
    + destruct (Hw q Ne) as [_ ->]. rewrite (lo_tt _ _ O). destruct (decide (k = m)) as [->|Nk]; [rewrite fn_at, El|by rewrite fn_off by congruence].
      set_solver.
  - intros k. destruct (decide (k = m)) as [->|Ne]; [rewrite fn_at|rewrite fn_off by congruence; apply (Hsorted k); [done|apply (lo_sorted _ _ O)]].
    apply StronglySorted_app in Sm as (S0 & S1 & S2). rewrite Forall_forall in H1, H2.
    assert (forall q, q ∈ l1 ++ l2 -> twhen (timer s' q) = twhen (timer s q)) as Hq
      by (intros q Hq; apply Hw, (Hne m); by rewrite El).
    apply StronglySorted_app. split_and!.
    + intros x1 x2 X1 [->|X2]%elem_of_cons; rewrite Hq by set_solver; [by apply H1|]. rewrite Hq by set_solver. by apply S0.
    + apply (Hsorted m); [rewrite El; set_solver|done].
    + constructor; [apply (Hsorted m); [rewrite El; set_solver|done]|]. apply Forall_forall. intros q X. rewrite (Hq q) by set_solver.
      specialize (H2 q X). lia.
  - intros k q. rewrite Ec. destruct (decide (q = nt)) as [->|Ne]; [done|]. destruct (decide (k = m)) as [->|Nk].
    + rewrite fn_at. intros H. apply (lo_count _ _ O m). rewrite El. set_solver.
    + rewrite fn_off by congruence. apply (lo_count _ _ O).
Qed.

(** [dt] is taken off the list of [m]. *)
Lemma lists_ok_remove L s s' m dt l1 l2 : lists_ok L s -> L m = l1 ++ dt :: l2 ->
  (forall q, q <> dt -> same_timer (timer s q) (timer s' q)) -> tt (timer s' dt) = None ->
  (forall q, q <> dt -> next_of s' q = if bool_decide (list.last l1 = Some q) then next_of s dt else next_of s q) ->
  (forall k, heads s' k = if decide (k = m) then match list.last l1 with None => next_of s dt | Some _ => heads s m end else heads s k) ->
  ntimers s' = ntimers s ->
  lists_ok (<[m := l1 ++ l2]> L) s'.
Proof.
  intros O El Hs Et Hx Hh Ec.
  pose proof (lo_once _ _ O m) as Dm. pose proof (lo_sorted _ _ O m) as Sm. pose proof (lo_seg _ _ O m) as Cm. rewrite El in Dm, Sm, Cm.
  assert (dt ∉ l1 ++ l2) as Hnd by (rewrite <- Permutation_middle in Dm; apply NoDup_cons in Dm as [H _]; done).
  assert (tt (timer s dt) = Some m) as Etd by (apply (lo_tt _ _ O); rewrite El; set_solver).
  assert (forall k, k <> m -> dt ∉ L k) as Hnt by (intros k Ne H; apply (lo_tt _ _ O) in H; congruence).
  assert (forall q, q <> dt -> twhen (timer s' q) = twhen (timer s q) /\ tt (timer s' q) = tt (timer s q)) as Hw.
  { intros q Ne. specialize (Hs q Ne). unfold same_timer in Hs. rewrite Hs. done. }
  assert (forall l, dt ∉ l -> by_time s l -> by_time s' l) as Hsorted.
  { intros l Hl. induction 1 as [|t l _ IH Hf]; [constructor|]. apply not_elem_of_cons in Hl as [Ne Hl]. constructor; [by apply IH|].
    rewrite Forall_forall in Hf |- *. intros q Hq. destruct (Hw t) as [-> _]; [done|].
    destruct (Hw q) as [-> _]; [by intros ->|]. by apply Hf. }
  split.
  - intros k. rewrite Hh. case_decide as E; [subst k; rewrite fn_at | rewrite fn_off by congruence].
    + by apply (seg_remove (next_of s) _ l1 dt l2).
    + eapply seg_ext; [|apply (lo_seg _ _ O)]. intros q Hq. rewrite Hx by (intros ->; by apply (Hnt k)). rewrite bool_decide_false; [done|].
      intros [l' E']%last_Some. apply (lo_tt _ _ O) in Hq. assert (q ∈ L m) as Hq' by (rewrite El, E'; set_solver).
      apply (lo_tt _ _ O) in Hq'. congruence.
  - intros k. destruct (decide (k = m)) as [->|Ne]; [rewrite fn_at | rewrite fn_off by congruence; apply (lo_once _ _ O)].
    rewrite <- Permutation_middle in Dm. by apply NoDup_cons in Dm as [_ D].
  - intros q k. destruct (decide (q = dt)) as [->|Ne].
    + rewrite Et. destruct (decide (k = m)) as [->|Nk]; [rewrite fn_at|rewrite fn_off by congruence].
      * by split.
      * split; [done|]. intros H. by destruct (Hnt k).
    + destruct (Hw q Ne) as [_ ->]. rewrite (lo_tt _ _ O). destruct (decide (k = m)) as [->|Nk]; [rewrite fn_at, El|by rewrite fn_off by congruence].
      set_solver.
  - intros k. destruct (decide (k = m)) as [->|Ne]; [rewrite fn_at|rewrite fn_off by congruence; apply Hsorted; [by apply Hnt|apply (lo_sorted _ _ O)]].
    apply StronglySorted_app in Sm as (S0 & S1 & [S2 _]%StronglySorted_inv).
    apply Hsorted; [done|]. apply StronglySorted_app. split_and!; [|done|done]. intros x1 x2 X1 X2. apply S0; set_solver.
  - intros k q. rewrite Ec. destruct (decide (k = m)) as [->|Nk].
    + rewrite fn_at. intros H. apply (lo_count _ _ O m). rewrite El. set_solver.
    + rewrite fn_off by congruence. apply (lo_count _ _ O).
Qed.

(** What the routines of the lists leave alone, but for timer [t]. *)
Definition but (t : nat) (s s' : Sys) : Prop :=
  (forall q, q <> t -> same_timer (timer s q) (timer s' q)) /\ ntimers s' = ntimers s /\ armed s' = armed s /\
  mticks s' = mticks s /\ systicks s' = systicks s /\ now s' = now s /\
  tmode (timer s' t) = tmode (timer s t) /\ tf (timer s' t) = tf (timer s t).

Ltac upd := unfold next_of, set_timer, set_head; cbn [timer heads ntimers armed mticks systicks now]; unfold insert, fn_insert; repeat case_decide; simplify_eq/=.

(** The pointers of [assign]. *)
Lemma wp_assign_to s m p v (Q : () -> Sys -> Prop) :
  (forall s', (forall q, same_timer (timer s q) (timer s' q)) ->
    (forall q, next_of s' q = if bool_decide (p = Some q) then v else next_of s q) ->
    (forall k, heads s' k = if decide (k = m) then match p with None => v | Some _ => heads s m end else heads s k) ->
    ntimers s' = ntimers s -> armed s' = armed s -> mticks s' = mticks s -> systicks s' = systicks s -> now s' = now s -> Q () s') ->
  wp (assign m (p) v) s Q.
Proof.
  intros K. destruct p as [t|]; cbn [assign]; [apply wp_ontimer|apply wp_modify]; apply K; try done.
  - intros q. unfold same_timer. upd; [done|]. by destruct (timer s q).
  - intros q. destruct (decide (t = q)) as [->|Ne]; [rewrite bool_decide_true by done|rewrite bool_decide_false by congruence]; by upd.
  - intros k. by case_decide; subst.
  - intros q. unfold same_timer, set_head; cbn. by destruct (timer s q).
  - intros k. by upd.
Qed.

Lemma wp_tdel L s m dt l1 l2 (Q : Z -> Sys -> Prop) : lists_ok L s -> L m = l1 ++ dt :: l2 ->
  (forall s', lists_ok (<[m := l1 ++ l2]> L) s' -> but dt s s' -> tt (timer s' dt) = None -> twhen (timer s' dt) = twhen (timer s dt) ->
    tns (timer s' dt) = tns (timer s dt) ->
    Q (match l1, l2 with [], h :: _ => twhen (timer s h) | _, _ => 0 end) s') ->
  wp (tdel dt) s Q.
Proof.
  intros O El K. unfold tdel. clk_steps.
  assert (tt (timer s dt) = Some m) as Et by (apply (lo_tt _ _ O); rewrite El; set_solver). rewrite Et. clk_steps.
  apply (wp_find L s m dt _ O (ntimers s) [] l1 l2 El).
  { pose proof (lo_length _ _ m O) as H. rewrite El, length_app in H. cbn in H. lia. }
  cbn [app]. clk_steps.
  assert (tnext (timer (set_timer dt (set_tt None (timer s dt)) s) dt) = next_of s dt) as -> by (cbn [timer set_timer]; by rewrite fn_at).
  apply wp_assign_to. intros s' Hs Hx Hh E1 E2 E3 E4 E5. clk_steps.
  assert (forall q, next_of (set_timer dt (set_tt None (timer s dt)) s) q = next_of s q)
    as Hn by (intros q; unfold next_of; cbn [timer set_timer]; destruct (decide (dt = q)) as [->|Ne]; [by rewrite fn_at|by rewrite fn_off]).
  assert (but dt s s' /\ tt (timer s' dt) = None /\ twhen (timer s' dt) = twhen (timer s dt) /\ tns (timer s' dt) = tns (timer s dt)) as (B & T1 & T2 & T3).
  { pose proof (Hs dt) as Hd. unfold same_timer in Hd. cbn [timer set_timer] in Hd. rewrite fn_at in Hd. rewrite Hd.
    split; [|done]. split; [|by rewrite Hd]. intros q Ne. specialize (Hs q). cbn [timer set_timer] in Hs. by rewrite fn_off in Hs by congruence. }
  assert (lists_ok (<[m := l1 ++ l2]> L) s') as O'.
  { apply (lists_ok_remove L s s' m dt); [done|done|apply B|done| |done|done]. intros q Ne. by rewrite Hx, Hn. }
  specialize (K s' O' B T1 T2 T3). pose proof (lo_seg _ _ O' m) as Hs'. rewrite fn_at in Hs'. rewrite (seg_head _ _ _ Hs').
  destruct l1 as [|x l1]; cbn [list.last app hd_error] in *.
  - destruct l2 as [|h l2]; cbn [hd_error]; clk_steps; [done|].
    assert (h <> dt) as Ne by (intros ->; pose proof (lo_once _ _ O m) as D; rewrite El in D; apply NoDup_cons in D as [D _]; set_solver).
    destruct B as [B _]. specialize (B h Ne). unfold same_timer in B. rewrite B. exact K.
  - destruct (list.last (x :: l1)) eqn:E; [clk_steps; exact K | by apply last_None in E].
Qed.

(** The time a timer is set to fire. *)
Definition period (ns : Z) : Z := let when := ns2ticks ns in if when =? 0 then 1 else when.
Inductive due_at (L : nat -> list nat) (s : Sys) (m nt : nat) : Z -> Prop :=
  | due_relative : tmode (timer s nt) = Trelative ->
      due_at L s m nt (s64 (now s + ns2ticks (if tns (timer s nt) <=? 0 then 1 else tns (timer s nt))))
  | due_periodic : tmode (timer s nt) = Tperiodic -> twhen (timer s nt) <> 0 ->
      due_at L s m nt (s64 (twhen (timer s nt) + period (tns (timer s nt))))
  | due_first : tmode (timer s nt) = Tperiodic -> twhen (timer s nt) = 0 ->
      Forall (fun t => ~ (tmode (timer s t) = Tperiodic /\ tns (timer s t) = tns (timer s nt))) (L m) ->
      due_at L s m nt (s64 (now s + period (tns (timer s nt))))
  | due_combined t l1 l2 : tmode (timer s nt) = Tperiodic -> twhen (timer s nt) = 0 -> L m = l1 ++ t :: l2 ->
      tmode (timer s t) = Tperiodic -> tns (timer s t) = tns (timer s nt) ->
      Forall (fun t => ~ (tmode (timer s t) = Tperiodic /\ tns (timer s t) = tns (timer s nt))) l1 ->
      due_at L s m nt (s64 (twhen (timer s t) + period (tns (timer s nt)))).

Lemma wp_same_period L s m ns (Q : option nat -> Sys -> Prop) : lists_ok L s -> forall fuel l1 l2, L m = l1 ++ l2 -> (length l2 <= fuel)%nat ->
  let same t := tmode (timer s t) = Tperiodic /\ tns (timer s t) = ns in
  (forall l3 t l4, l2 = l3 ++ t :: l4 -> same t -> Forall (fun t => ~ same t) l3 -> Q (Some t) s) ->
  (Forall (fun t => ~ same t) l2 -> Q None s) ->
  wp (same_period fuel (hd_error l2) ns) s Q.
Proof.
  intros O fuel. induction fuel as [|fuel IH]; intros l1 l2 El Hf same Ks Kn; (destruct l2 as [|t l2]; cbn [same_period hd_error length] in *; [|try lia]).
  1, 2: apply wp_ret; by apply Kn.
  clk_steps. destruct ((tmode (timer s t) =? Tperiodic) && (tns (timer s t) =? ns)) eqn:E.
  - apply andb_true_iff in E as [E1%Z.eqb_eq E2%Z.eqb_eq]. apply wp_ret, (Ks [] t l2); done.
  - assert (~ same t) as Ns by (intros [H1 H2]; rewrite H1, H2, !Z.eqb_refl in E; done).
    change (tnext (timer s t)) with (next_of s t). pose proof (lo_seg _ _ O m) as Hs. rewrite El in Hs. rewrite (seg_next _ _ _ _ _ Hs).
    apply (IH (l1 ++ [t]) l2); [by rewrite <- app_assoc|lia| |].
    + intros l3 q l4 -> Hq Hl. apply (Ks (t :: l3) q l4); [done|done|by constructor].
    + intros Hl. apply Kn. by constructor.
Qed.

(** Only timer [t] is assigned to, and is then [x]. *)
Definition only (t : nat) (x : Timer) (s s' : Sys) : Prop :=
  timer s' t = x /\ (forall q, q <> t -> timer s' q = timer s q) /\ heads s' = heads s /\ ntimers s' = ntimers s /\
  armed s' = armed s /\ mticks s' = mticks s /\ systicks s' = systicks s /\ now s' = now s.
Lemma only_timer_refl t s : only t (timer s t) s s.
Proof. done. Qed.
Lemma wp_only t x s0 s g (Q : () -> Sys -> Prop) : only t x s0 s -> (forall s', only t (g x) s0 s' -> Q () s') -> wp (ontimer t g) s Q.
Proof.
  intros (E & N & E1 & E2 & E3 & E4 & E5 & E6) K. apply wp_ontimer, K. unfold only. cbn [timer heads ntimers armed mticks systicks now set_timer].
  rewrite fn_at, E. split; [done|]. split; [|done]. intros q Ne. rewrite fn_off by congruence. by apply N.
Qed.

(** The first part of [tadd] sets [twhen]. *)
Lemma wp_tadd_when L s m nt (Q : () -> Sys -> Prop) : lists_ok L s -> 
  valid (timer s nt) ->
  (forall w x s', due_at L s m nt w -> tmode x = tmode (timer s nt) -> tf x = tf (timer s nt) -> tt x = tt (timer s nt) -> twhen x = w -> valid x ->
    (tmode (timer s nt) = Tperiodic -> tns x = tns (timer s nt)) -> only nt x s s' -> Q () s') ->
  let x := timer s nt in
  wp (if tmode x =? Trelative then
       (if tns x <=? 0 then ontimer nt (set_tns 1) else ret ()) ;;
       x <- the nt ;; now <- fastticks ;;
       ontimer nt (set_twhen (s64 (now + ns2ticks (tns x))))
     else if tmode x =? Tperiodic then
       if tns x <? 100000 then panic "assert: nt->tns >= 100000"%string
       else
         (if twhen x =? 0 then
            n <- gets ntimers ;; h <- gets (fun s => heads s m) ;;
            p <- same_period n h (tns x) ;;
            w <- (match p with Some p => y <- the p ;; ret (twhen y) | None => fastticks end) ;;
            ontimer nt (set_twhen w)
          else ret ()) ;;
         let when := ns2ticks (tns x) in
         let when := if when =? 0 then 1 else when in
         ontimer nt (fun x => set_twhen (s64 (twhen x + when)) x)
     else panic "timer"%string) s Q.
Proof.
  intros O Hm K x. subst x. pose proof (only_timer_refl nt s) as X0. destruct Hm as [Hm|[Hm Hns]]; rewrite Hm.
  - change (Trelative =? Trelative) with true. cbv iota. apply wp_bind.
    assert (wp (if tns (timer s nt) <=? 0 then ontimer nt (set_tns 1) else ret ()) s (fun _ s' =>
      only nt (set_tns (if tns (timer s nt) <=? 0 then 1 else tns (timer s nt)) (timer s nt)) s s')) as H.
    { destruct (tns (timer s nt) <=? 0); [by apply (wp_only _ _ _ _ _ _ X0)|]. apply wp_ret. by destruct (timer s nt). }
    eapply wp_mono; [exact H|]. intros [] s1 X1. cbv beta. destruct X1 as (E & N & E1 & E2 & E3 & E4 & E5 & E6).
    clk_step. clk_step. clk_step. clk_step. rewrite E, E6. cbn [tns set_tns].
    eapply wp_only; [by split|]. intros s2 X2. eapply (K _ _ s2); [by apply due_relative|..|exact X2]; try done; [by left|]. intros Hp. rewrite Hm in Hp. discriminate Hp.
  - change (Tperiodic =? Trelative) with false. change (Tperiodic =? Tperiodic) with true. cbv iota.
    destruct (Z.ltb_spec (tns (timer s nt)) 100000); [lia|]. apply wp_bind. cbv zeta. fold (period (tns (timer s nt))).
    assert (forall w s1, (forall w', w' = s64 (w + period (tns (timer s nt))) -> due_at L s m nt w') -> only nt (set_twhen w (timer s nt)) s s1 ->
      wp (ontimer nt (fun x => set_twhen (s64 (twhen x + period (tns (timer s nt)))) x)) s1 Q) as Kw.
    { intros w s1 Hw X1. eapply wp_only; [exact X1|]. intros s2 X2. eapply (K _ _ s2); [by apply Hw|..|exact X2]; try done. by right. }
    destruct (Z.eqb_spec (twhen (timer s nt)) 0) as [E0|E0].
    + do 5 clk_step. rewrite (seg_head _ _ _ (lo_seg _ _ O m)).
      apply (wp_same_period L s m _ _ O (ntimers s) [] (L m)); [done|by apply lo_length| |].
      * intros l3 t l4 El [Ht1 Ht2] Hl. do 4 clk_step. apply (wp_only _ _ _ _ _ _ X0). intros s1 X1.
        eapply Kw; [|exact X1]. intros w' ->. by eapply due_combined.
      * intros Hl. do 2 clk_step. apply (wp_only _ _ _ _ _ _ X0). intros s1 X1. eapply Kw; [|exact X1]. intros w' ->. by apply due_first.
    + apply wp_ret. apply (Kw (twhen (timer s nt)) s); [|by destruct (timer s nt)]. intros w' ->. by apply due_periodic.
Qed.

Lemma off_lists L s nt : lists_ok L s -> tt (timer s nt) = None -> forall k, nt ∉ L k.
Proof. intros O E k H. apply (lo_tt _ _ O) in H. congruence. Qed.
Lemma same_timer_refl x y : y = x -> same_timer x y.
Proof. intros ->. by destruct x. Qed.
Lemma lists_ok_only L s s' nt x : lists_ok L s -> tt (timer s nt) = None -> tt x = None -> only nt x s s' -> lists_ok L s'.
Proof.
  intros O Et Ex (E & N & E1 & E2 & _). pose proof (off_lists L s nt O Et) as Hn.
  assert (forall k q, q ∈ L k -> timer s' q = timer s q) as Hq by (intros k q Hq; apply N; intros ->; by apply (Hn k)).
  split.
  - intros k. rewrite E1. eapply seg_ext; [|apply (lo_seg _ _ O)]. intros q Hin. unfold next_of. by rewrite (Hq k).
  - apply (lo_once _ _ O).
  - intros q k. destruct (decide (q = nt)) as [->|Ne]; [|rewrite N by done; apply (lo_tt _ _ O)].
    rewrite E, Ex. split; [done|]. intros H. by destruct (Hn k).
  - intros k. pose proof (lo_sorted _ _ O k) as S. assert (forall q, q ∈ L k -> timer s' q = timer s q) as Hk by apply Hq.
    revert S Hk. generalize (L k). intros l S. induction S as [|t l _ IH Hl]; intros Hk; [constructor|].
    constructor; [apply IH; set_solver|]. rewrite Forall_forall in Hl |- *. intros q Hin. rewrite !Hk by set_solver. by apply Hl.
  - intros k q. rewrite E2. apply (lo_count _ _ O).
Qed.

Lemma wp_tadd L s m nt (Q : Z -> Sys -> Prop) : lists_ok L s -> tt (timer s nt) = None -> (nt < ntimers s)%nat ->
  valid (timer s nt) ->
  (forall w l1 l2 s', due_at L s m nt w -> L m = l1 ++ l2 -> lists_ok (<[m := l1 ++ nt :: l2]> L) s' -> but nt s s' ->
    twhen (timer s' nt) = w -> valid (timer s' nt) ->
    (tmode (timer s nt) = Tperiodic -> tns (timer s' nt) = tns (timer s nt)) -> Q (match l1 with [] => w | _ => 0 end) s') ->
  wp (tadd m nt) s Q.
Proof.
  intros O Et Hc Hm K. unfold tadd. apply wp_bind, wp_the. rewrite Et. apply wp_bind.
  apply (wp_tadd_when L s m nt _ O Hm). intros w x s1 Hw X1 X2 X3 X4 X5 X6 (E & N & E1 & E2 & E3 & E4 & E5 & E6).
  assert (lists_ok L s1) as O1 by (eapply lists_ok_only; [exact O|done| |by repeat split]; congruence).
  pose proof (off_lists L s nt O Et) as Hnt.
  apply wp_bind, wp_the, wp_bind, wp_gets, wp_bind. rewrite E, X4.
  apply (wp_place L s1 m w _ O1 (ntimers s1) [] (L m)); [done|by apply lo_length|constructor|].
  intros l1 l2 El H1 H2. apply wp_bind, (wp_deref_timer L s1 m l1 l2 _ O1 El), wp_bind, wp_ontimer.
  set (s2 := set_timer nt _ s1). apply wp_bind, wp_assign_to. intros s3 Hs Hx Hh F1 F2 F3 F4 F5. apply wp_bind, wp_ontimer, wp_ret.
  set (s4 := set_timer nt _ s3).
  assert (forall q, q <> nt -> timer s4 q = timer s3 q /\ timer s2 q = timer s1 q) as Hoff
    by (intros q Ne; subst s4 s2; cbn [timer set_timer]; by rewrite !fn_off by congruence).
  assert (timer s2 nt = set_tnext (hd_error l2) x) as Ex2 by (subst s2; cbn [timer set_timer]; by rewrite fn_at, E).
  assert (timer s4 nt = set_tt (Some m) (set_tnext (next_of s3 nt) x)) as Ex4.
  { subst s4. cbn [timer set_timer]. rewrite fn_at. pose proof (Hs nt) as Hn. unfold same_timer in Hn. rewrite Hn, Ex2. done. }
  assert (list.last l1 <> Some nt) as Hl1 by (intros [l' E']%last_Some; apply (Hnt m); rewrite El, E'; set_solver).
  assert (next_of s3 nt = hd_error l2) as En3 by (rewrite Hx, bool_decide_false by done; unfold next_of; by rewrite Ex2).
  assert (match l1 with [] => w | _ => 0 end = match list.last l1 with Some _ => 0 | None => w end) as <-.
  { destruct l1 as [|y l1]; [done|]. destruct (list.last (y :: l1)) eqn:E'; [done|by apply last_None in E']. }
  assert (forall q, q <> nt -> same_timer (timer s q) (timer s4 q)) as Hsame.
  { intros q Ne. destruct (Hoff q Ne) as [-> H]. specialize (Hs q). rewrite H, N in Hs by done. done. }
  apply (K w l1 l2); [done|done| | |by rewrite Ex4|by rewrite Ex4|by rewrite Ex4].
  - apply (lists_ok_insert L s1 s4 m nt l1 l2); try done.
    + rewrite E. congruence.
    + by rewrite E2.
    + intros q Ne. rewrite N by done. by apply Hsame.
    + by rewrite Ex4.
    + unfold next_of. by rewrite Ex4.
    + intros q Ne. unfold next_of at 1. destruct (Hoff q Ne) as [-> H]. change (tnext (timer s3 q)) with (next_of s3 q). rewrite Hx. unfold next_of. by rewrite H.
    + rewrite Ex4. by rewrite <- X4 in H1.
    + rewrite Ex4. by rewrite <- X4 in H2.
  - split; [done|]. rewrite Ex4. cbn [tmode tf set_tt set_tnext]. split; [by rewrite <- E2|]. split_and!; [by rewrite <- E3|by rewrite <- E4|by rewrite <- E5|by rewrite <- E6|done|done].
Qed.

(** ** The invariant *)
(** The hardware timer of [m] is set for the head of its list. *)
Definition armed_ok (L : nat -> list nat) (s : Sys) (m : nat) : Prop :=
  forall h, hd_error (L m) = Some h -> exists a, armed s m = Some a /\ a <= twhen (timer s h).
Record world_ok (L : nat -> list nat) (w : World) : Prop := {
  wo_lists : lists_ok L (sys w);
  wo_armed m : intr w m = Quiet -> armed_ok L (sys w) m;
  wo_valid t : (exists m, t ∈ L m) \/ calls w t -> valid (timer (sys w) t) /\ (t < ntimers (sys w))%nat;
  wo_calls m t now0 hz : intr w m = Calling t now0 hz -> tmode (timer (sys w) t) = Tperiodic ->
    tt (timer (sys w) t) = None /\ forall k now1 hz1, intr w k = Calling t now1 hz1 -> k = m
}.


(** What matters of a timer that is not touched. *)
Lemma but_same t s s' q : but t s s' -> q <> t ->
  twhen (timer s' q) = twhen (timer s q) /\ tt (timer s' q) = tt (timer s q) /\ tmode (timer s' q) = tmode (timer s q) /\ tns (timer s' q) = tns (timer s q).
Proof. intros [H _] Ne. specialize (H q Ne). unfold same_timer in H. by rewrite H. Qed.
Lemma but_mode t s s' q : but t s s' -> tmode (timer s' q) = tmode (timer s q).
Proof. intros B. destruct (decide (q = t)) as [->|Ne]; [apply B|by apply (but_same t s s')]. Qed.

(** As [but], with the hardware timers free to change. *)
Definition touched (t : nat) (s s' : Sys) : Prop :=
  (forall q, q <> t -> same_timer (timer s q) (timer s' q)) /\ ntimers s' = ntimers s /\ now s' = now s /\
  tmode (timer s' t) = tmode (timer s t).
Lemma but_touched t s s' : but t s s' -> touched t s s'.
Proof. intros (H1 & H2 & _ & _ & _ & H3 & H4 & _). done. Qed.
Lemma same_timer_trans x y z : same_timer x y -> same_timer y z -> same_timer x z.
Proof. unfold same_timer. intros H1 H2. rewrite H2, H1. done. Qed.
Lemma touched_trans t s1 s2 s3 : touched t s1 s2 -> touched t s2 s3 -> touched t s1 s3.
Proof.
  intros (H1 & H2 & H3 & H4) (K1 & K2 & K3 & K4). split; [|split_and!; congruence].
  intros q Ne. eapply same_timer_trans; [by apply H1|by apply K1].
Qed.
Lemma touched_refl t s : touched t s s.
Proof. split; [|done]. intros q _. by apply same_timer_refl. Qed.
Lemma touched_armed t m a s s' : touched t s s' -> touched t s (set_armed m a s').
Proof. done. Qed.
Lemma touched_same t s s' q : touched t s s' -> q <> t ->
  twhen (timer s' q) = twhen (timer s q) /\ tt (timer s' q) = tt (timer s q) /\ tmode (timer s' q) = tmode (timer s q) /\ tns (timer s' q) = tns (timer s q).
Proof. intros [H _] Ne. specialize (H q Ne). unfold same_timer in H. by rewrite H. Qed.

(** Taking a timer off a list makes the head later, if anything. *)
Lemma armed_remove L s s' m dt l1 l2 k : lists_ok L s -> L m = l1 ++ dt :: l2 -> but dt s s' -> armed_ok L s k ->
  armed_ok (<[m := l1 ++ l2]> L) s' k.
Proof.
  intros O El B A h. pose proof (lo_once _ _ O m) as D. pose proof (lo_sorted _ _ O m) as S. rewrite El in D, S.
  destruct B as (Bs & _ & Ea & _). rewrite Ea.
  assert (forall q, q <> dt -> twhen (timer s' q) = twhen (timer s q)) as Hw.
  { intros q Ne. specialize (Bs q Ne). unfold same_timer in Bs. by rewrite Bs. }
  destruct (decide (k = m)) as [->|Ne]; [rewrite fn_at|rewrite fn_off by congruence].
  - intros Hh. destruct l1 as [|x l1]; cbn in *.
    + destruct l2 as [|y l2]; [done|]. cbn in Hh. simplify_eq. destruct (A dt) as (a & Ha & Hle); [by rewrite El|].
      exists a. split; [done|]. apply NoDup_cons in D as [D _]. rewrite Hw by (intros ->; set_solver).
      apply StronglySorted_inv in S as [_ S]. rewrite Forall_forall in S. specialize (S h). set_solver by lia.
    + simplify_eq. destruct (A h) as (a & Ha & Hle); [by rewrite El|]. exists a. rewrite Hw; [done|]. intros ->.
      apply NoDup_cons in D as [D _]. set_solver.
  - intros Hh. destruct (A h Hh) as (a & Ha & Hle). exists a. split; [done|]. rewrite Hw; [done|]. intros ->.
    assert (dt ∈ L k) as H1 by (destruct (L k); cbn in Hh; simplify_eq; by left).
    assert (dt ∈ L m) as H2 by (rewrite El; set_solver). apply (lo_tt _ _ O) in H1, H2. congruence.
Qed.

Lemma wp_timerdel L s m dt (Q : () -> Sys -> Prop) : lists_ok L s ->
  (forall L' s', lists_ok L' s' -> touched dt s s' -> tt (timer s' dt) = None -> tns (timer s' dt) = tns (timer s dt) ->
    (forall k, armed_ok L s k -> armed_ok L' s' k) ->
    (forall k q, q ∈ L' k <-> q <> dt /\ q ∈ L k) -> (tt (timer s dt) = None -> s' = s) -> Q () s') ->
  wp (timerdel m dt) s Q.
Proof.
  intros O K. unfold timerdel. clk_steps. destruct (tt (timer s dt)) as [k|] eqn:Et.
  - assert (dt ∈ L k) as Hin by (by apply (lo_tt _ _ O)). apply list_elem_of_split in Hin as (l1 & l2 & El).
    apply wp_bind. apply (wp_tdel L s k dt l1 l2); [done|done|]. intros s1 O1 B T1 T2 T3.
    assert (forall j q, q ∈ <[k := l1 ++ l2]> L j <-> q <> dt /\ q ∈ L j) as Hin.
    { intros j q. rewrite <- (lo_tt _ _ O1), <- (lo_tt _ _ O). destruct (decide (q = dt)) as [->|Ne].
      - rewrite T1. naive_solver.
      - destruct (but_same dt s s1 q B Ne) as (_ & -> & _). naive_solver. }
    assert (forall j, armed_ok L s j -> armed_ok (<[k := l1 ++ l2]> L) s1 j) as A1 by (intros j; by eapply armed_remove).
    destruct (negb _ && _) eqn:Ec.
    + apply andb_true_iff in Ec as [E1 ->%Nat.eqb_eq]. destruct l1 as [|x l1]; [|done]. destruct l2 as [|h l2]; [done|].
      clk_step. clk_step. rewrite (seg_head _ _ _ (lo_seg _ _ O1 m)), fn_at. cbn [app hd_error]. clk_steps.
      eapply (K _ (set_armed m (Some (twhen (timer s1 h))) s1)); [| |exact T1|exact T3| |exact Hin|done].
      * destruct O1. by split.
      * by apply touched_armed, but_touched.
      * intros j Aj. specialize (A1 j Aj). intros h' Hh'. destruct (decide (j = m)) as [->|Nj].
        -- exists (twhen (timer s1 h)). cbn [armed set_armed timer]. rewrite fn_at. split; [done|].
           rewrite fn_at in Hh'. cbn in Hh'. simplify_eq. lia.
        -- destruct (A1 h' Hh') as (a & Ha & Hle). exists a. cbn [armed set_armed timer]. by rewrite fn_off by congruence.
    + apply wp_ret. eapply K; [exact O1|by apply but_touched|done|done|done|exact Hin|done].
  - apply wp_ret. apply (K L); [done|apply touched_refl|done|done|done| |done].
    intros k q. split; [|naive_solver]. intros H. split; [|done]. intros ->. apply (lo_tt _ _ O) in H. congruence.
Qed.

(** Putting one in leaves the head, or is the head. *)
Lemma armed_insert L s s' m nt l1 l2 k : lists_ok L s -> tt (timer s nt) = None -> L m = l1 ++ l2 ->
  (forall q, q <> nt -> twhen (timer s' q) = twhen (timer s q)) ->
  armed s' = (match l1 with [] => <[m := Some (twhen (timer s' nt))]> (armed s) | _ => armed s end) ->
  armed_ok L s k -> armed_ok (<[m := l1 ++ nt :: l2]> L) s' k.
Proof.
  intros O Et El Hw Ea A h Hh. pose proof (off_lists L s nt O Et) as Hn.
  assert (forall j q, hd_error (L j) = Some q -> q <> nt) as Hne.
  { intros j q Hq ->. apply (Hn j). destruct (L j); cbn in Hq; simplify_eq. by left. }
  destruct (decide (k = m)) as [->|Ne]; [rewrite fn_at in Hh|rewrite fn_off in Hh by congruence].
  - destruct l1 as [|x l1]; cbn in Hh; simplify_eq.
    + exists (twhen (timer s' h)). rewrite Ea, fn_at. split; [done|lia].
    + assert (hd_error (L m) = Some h) as Hx by (by rewrite El). destruct (A h Hx) as (a & Ha & Hle).
      exists a. rewrite Ea, Hw by (by eapply Hne). done.
  - destruct (A h Hh) as (a & Ha & Hle). exists a. rewrite Hw by (by eapply Hne). rewrite Ea. destruct l1; [by rewrite fn_off by congruence|done].
Qed.

Lemma wp_timeradd L s m nt (Q : () -> Sys -> Prop) : lists_ok L s -> (nt < ntimers s)%nat -> valid (timer s nt) ->
  (forall L' s', lists_ok L' s' -> touched nt s s' -> valid (timer s' nt) -> nt ∈ L' m ->
    (twhen (timer s' nt) <> 0 -> forall k, armed_ok L s k -> armed_ok L' s' k) ->
    (forall k q, q <> nt -> q ∈ L' k <-> q ∈ L k) -> Q () s') ->
  wp (timeradd m nt) s Q.
Proof.
  intros O Hlt Hv K. unfold timeradd. apply wp_bind, wp_the, wp_bind.
  assert (wp (match tt (timer s nt) with Some _ => tdel nt ;; ret () | None => ret () end) s (fun _ s1 => exists L1,
    lists_ok L1 s1 /\ but nt s s1 /\ tt (timer s1 nt) = None /\ tns (timer s1 nt) = tns (timer s nt) /\
    (forall k, armed_ok L s k -> armed_ok L1 s1 k) /\ (forall k q, q ∈ L1 k <-> q <> nt /\ q ∈ L k))) as H.
  { destruct (tt (timer s nt)) as [k|] eqn:Et.
    - assert (nt ∈ L k) as Hin by (by apply (lo_tt _ _ O)). apply list_elem_of_split in Hin as (l1 & l2 & El).
      apply wp_bind, (wp_tdel L s k nt l1 l2); [done|done|]. intros s1 O1 B T1 T2 T3. apply wp_ret. exists (<[k := l1 ++ l2]> L).
      split; [done|]. split; [done|split; [done|split; [done|split]]].
      + intros j. by eapply armed_remove.
      + intros j q. rewrite <- (lo_tt _ _ O1), <- (lo_tt _ _ O). destruct (decide (q = nt)) as [->|Ne].
        * rewrite T1. naive_solver.
        * destruct (but_same nt s s1 q B Ne) as (_ & -> & _). naive_solver.
    - apply wp_ret. exists L. split; [done|]. split; [|split; [done|split; [done|split; [done|]]]].
      + split; [|done]. intros q _. by apply same_timer_refl.
      + intros k q. split; [|naive_solver]. intros H. split; [|done]. intros ->. apply (lo_tt _ _ O) in H. congruence. }
  eapply wp_mono; [exact H|]. intros [] s1 (L1 & O1 & B1 & T1 & T3 & A1 & M1). cbv beta.
  assert (ntimers s1 = ntimers s) as Ec by apply B1.
  assert (valid (timer s1 nt)) as Hv1 by (unfold valid; rewrite T3, (but_mode nt s s1 nt B1); exact Hv).
  apply wp_bind, (wp_tadd L1 s1); [done|done|by rewrite Ec|done|].
  intros w l1 l2 s2 _ El O2 B2 Ew Hv2 _.
  assert (forall k q, q <> nt -> q ∈ <[m := l1 ++ nt :: l2]> L1 k <-> q ∈ L k) as Hin.
  { intros k q Ne. rewrite <- (lo_tt _ _ O2). destruct (but_same nt s1 s2 q B2 Ne) as (_ & -> & _). rewrite (lo_tt _ _ O1), M1. clear -Ne. tauto. }
  assert (touched nt s s2) as Ht by (eapply touched_trans; by apply but_touched).
  assert (nt ∈ <[m := l1 ++ nt :: l2]> L1 m) as Hm by (rewrite fn_at; apply elem_of_app; right; left).
  assert (forall q, q <> nt -> twhen (timer s2 q) = twhen (timer s1 q)) as Hw by (intros q Ne; by destruct (but_same nt s1 s2 q B2 Ne)).
  assert (armed s2 = armed s1) as Ea by apply B2.
  destruct l1 as [|x l1]; cbn [app] in *.
  - destruct (Z.eqb_spec w 0) as [E0|E0].
    + apply wp_ret. apply (K _ s2 O2 Ht Hv2 Hm); [|exact Hin]. intros Hne. congruence.
    + apply wp_timerset. eapply (K (<[m := nt :: l2]> L1)); [destruct O2; by split| | |exact Hm| |exact Hin].
      * by apply touched_armed.
      * exact Hv2.
      * intros _ k Ak. eapply (armed_insert L1 s1 _ m nt [] l2); [done|done|done|exact Hw| |by apply A1].
        cbn [armed set_armed timer]. by rewrite Ea, <- Ew.
  - cbn [Z.eqb]. apply wp_ret, (K _ s2 O2 Ht Hv2 Hm); [|exact Hin].
    intros _ k Ak. eapply (armed_insert L1 s1 _ m nt (x :: l1) l2); [done|done|done|exact Hw|exact Ea|by apply A1].
Qed.

Lemma armed_other L L' s s' t k : L' k = L k -> (forall q, hd_error (L k) = Some q -> q <> t) -> 
  (forall q, q <> t -> twhen (timer s' q) = twhen (timer s q)) -> armed s' k = armed s k -> armed_ok L s k -> armed_ok L' s' k.
Proof.
  intros El Hne Hw Ea A h Hh. rewrite El in Hh. destruct (A h Hh) as (a & Ha & Hle). exists a. rewrite Ea, Hw by (by eapply Hne). done.
Qed.
Lemma lists_ok_same L s s' : timer s' = timer s -> heads s' = heads s -> ntimers s' = ntimers s -> lists_ok L s -> lists_ok L s'.
Proof.
  intros E1 E2 E3 []. split; unfold next_of, by_time in *; rewrite ?E1, ?E2, ?E3; done.
Qed.

(** The three ways a round ends. *)
Lemma wp_intr_round L s m now0 hz (Q : Intr -> Sys -> Prop) : lists_ok L s ->
  (L m = [] -> Q Quiet s) ->
  (forall t l s', L m = t :: l -> now0 < twhen (timer s t) -> timer s' = timer s -> heads s' = heads s -> ntimers s' = ntimers s ->
    now s' = now s -> armed s' = <[m := Some (twhen (timer s t))]> (armed s) -> Q Quiet s') ->
  (forall t l s', L m = t :: l -> twhen (timer s t) <= now0 -> lists_ok (<[m := l]> L) s' -> but t s s' -> tt (timer s' t) = None ->
    twhen (timer s' t) = twhen (timer s t) -> tns (timer s' t) = tns (timer s t) -> Q (Calling t now0 (hz || negb (tf (timer s t)))) s') ->
  wp (intr_round m now0 hz) s Q.
Proof.
  intros O K0 K1 K2. unfold intr_round. clk_step. clk_step. rewrite (seg_head _ _ _ (lo_seg _ _ O m)).
  destruct (L m) as [|t l] eqn:El; cbn [hd_error]; [clk_steps; by apply K0|]. clk_step. clk_step.
  destruct (Z.gtb_spec (twhen (timer s t)) now0) as [Hw|Hw].
  - clk_step. clk_step. destruct hz; unfold hzclock; clk_steps; by eapply K1.
  - assert (tt (timer s t) = Some m) as Et by (apply (lo_tt _ _ O); rewrite El; by left). rewrite Et, Nat.eqb_refl. clk_steps.
    set (s' := set_timer _ _ _).
    assert (forall q, q <> t -> timer s' q = timer s q) as N by (intros q Ne; subst s'; cbn [timer set_timer set_head]; by rewrite fn_off by congruence).
    assert (timer s' t = set_tt None (timer s t)) as E by (subst s'; cbn [timer set_timer set_head]; by rewrite fn_at).
    eapply (K2 t l s'); [done|lia| | |by rewrite E..].
    + apply (lists_ok_remove L s s' m t [] l); [done|done| |by rewrite E| | |done].
      * intros q Ne. apply same_timer_refl. by apply N.
      * intros q Ne. unfold next_of. by rewrite N.
      * intros k. subst s'. cbn [heads set_timer set_head list.last]. destruct (decide (k = m)) as [->|Nk]; [by rewrite fn_at|by rewrite fn_off by congruence].
    + split; [|rewrite E; done]. intros q Ne. apply same_timer_refl. by apply N.
Qed.

Lemma wp_intr_again L s m t now0 hz (Q : Intr -> Sys -> Prop) : lists_ok L s -> valid (timer s t) -> (t < ntimers s)%nat ->
  (tmode (timer s t) = Tperiodic -> tt (timer s t) = None) ->
  (tmode (timer s t) = Trelative -> Q (Looping now0 hz) s) ->
  (forall w l1 l2 s', tmode (timer s t) = Tperiodic -> due_at L s m t w -> L m = l1 ++ l2 -> lists_ok (<[m := l1 ++ t :: l2]> L) s' -> but t s s' ->
    twhen (timer s' t) = w -> valid (timer s' t) -> tns (timer s' t) = tns (timer s t) -> Q (Looping now0 hz) s') ->
  wp (intr_again m t now0 hz) s Q.
Proof.
  intros O Hv Hlt Ht K0 K1. unfold intr_again. clk_step. clk_step. destruct (Z.eqb_spec (tmode (timer s t)) Tperiodic) as [E|E].
  - apply wp_bind, wp_bind, (wp_tadd L s); [done|by apply Ht|done|done|]. intros w l1 l2 s' Hd El O' B Ew Hv' Hn. clk_steps. eapply K1; try done. by apply Hn.
  - clk_steps. apply K0. destruct Hv as [H|[H _]]; [done|by destruct E].
Qed.

(** ** Every step keeps the invariant *)
Lemma valid_same x y : tmode y = tmode x -> tns y = tns x -> valid x -> valid y.
Proof. unfold valid. by intros -> ->. Qed.

(** A step of the routines of the lists that touches timer [t] only. *)
Lemma world_ok_touched L L' w s' t : world_ok L w -> lists_ok L' s' -> touched t (sys w) s' ->
  (forall k, armed_ok L (sys w) k -> armed_ok L' s' k) -> (forall k q, q <> t -> q ∈ L' k <-> q ∈ L k) ->
  ((exists k, t ∈ L' k) \/ calls w t -> valid (timer s' t) /\ (t < ntimers (sys w))%nat) ->
  (calls w t -> tmode (timer s' t) = Tperiodic -> tt (timer s' t) = None) ->
  world_ok L' (mkWorld s' (intr w)).
Proof.
  intros W O Ht HA Hin Hv Hc. destruct Ht as (Hs & En & Ex & Em). assert (touched t (sys w) s') as Ht by done.
  split; cbn [sys intr]; [done| | |].
  - intros m Hq. by apply HA, (wo_armed _ _ W).
  - intros q Hq. rewrite En. destruct (decide (q = t)) as [->|Ne]; [by apply Hv|].
    destruct (touched_same t _ _ q Ht Ne) as (_ & _ & E1 & E2).
    destruct (wo_valid _ _ W q) as [V1 V2]; [|split; [by eapply valid_same|done]].
    destruct Hq as [[k Hk]|Hk]; [left; exists k; by apply Hin|by right].
  - intros m q now0 hz Hi Hp. destruct (decide (q = t)) as [->|Ne].
    + split; [apply Hc; [by exists m, now0, hz|done]|]. eapply (wo_calls _ _ W); [exact Hi|]. congruence.
    + destruct (touched_same t _ _ q Ht Ne) as (_ & -> & E1 & _). eapply (wo_calls _ _ W); [exact Hi|congruence].
Qed.

(** A step of the interrupt of [m] that touches timer [t] only. *)
Lemma world_ok_intr L L' w s' m i t : world_ok L w -> lists_ok L' s' -> touched t (sys w) s' ->
  (forall k, k <> m -> armed_ok L (sys w) k -> armed_ok L' s' k) -> (i = Quiet -> armed_ok L' s' m) ->
  (forall k q, q <> t -> q ∈ L' k <-> q ∈ L k) ->
  valid (timer s' t) -> (t < ntimers (sys w))%nat -> (forall q now0 hz, i = Calling q now0 hz -> q = t) ->
  (tmode (timer s' t) = Tperiodic -> (i = Quiet \/ exists now0 hz, i = Looping now0 hz) -> forall k now0 hz, intr w k = Calling t now0 hz -> k = m) ->
  (tmode (timer s' t) = Tperiodic -> forall now0 hz, i = Calling t now0 hz -> tt (timer s' t) = None /\ forall k now0 hz, intr w k <> Calling t now0 hz) ->
  world_ok L' (mkWorld s' (<[m := i]> (intr w))).
Proof.
  intros W O Ht HA Hi Hin Hv Hlt Hq Hl Hc. pose proof Ht as (Hs & En & Ex & Em).
  split; cbn [sys intr]; [done| | |].
  - intros k. destruct (decide (k = m)) as [->|Ne]; [rewrite fn_at; exact Hi|rewrite fn_off by congruence].
    intros Hk. apply HA; [done|]. by apply (wo_armed _ _ W).
  - intros q Hor. rewrite En. destruct (decide (q = t)) as [->|Ne]; [done|].
    destruct (touched_same t _ _ q Ht Ne) as (_ & _ & E1 & E2).
    destruct (wo_valid _ _ W q) as [V1 V2]; [|split; [by eapply valid_same|done]].
    destruct Hor as [[k Hk]|(k & n0 & hz & Hk)]; [left; exists k; by apply Hin|right].
    cbn [intr] in Hk. destruct (decide (k = m)) as [->|Nk]; [rewrite fn_at in Hk; by apply Hq in Hk|rewrite fn_off in Hk by congruence].
    by exists k, n0, hz.
  - intros k q n0 hz Hk Hp. destruct (decide (q = t)) as [->|Ne].
    + destruct (decide (k = m)) as [->|Nk].
      * rewrite fn_at in Hk. destruct (Hc Hp n0 hz Hk) as [H1 H2]. split; [done|]. intros k' n1 hz1 Hk'.
        destruct (decide (k' = m)) as [->|Nk']; [done|rewrite fn_off in Hk' by congruence]. by apply H2 in Hk'.
      * rewrite fn_off in Hk by congruence. exfalso. destruct i as [|n1 hz1|q n1 hz1].
        -- apply Nk. eapply Hl; eauto.
        -- apply Nk. eapply Hl; eauto.
        -- assert (q = t) as -> by (by eapply Hq). destruct (Hc Hp n1 hz1 eq_refl) as [_ H2]. by eapply H2.
    + destruct (touched_same t _ _ q Ht Ne) as (_ & -> & E1 & _).
      destruct (decide (k = m)) as [->|Nk]; [rewrite fn_at in Hk; by apply Hq in Hk|rewrite fn_off in Hk by congruence].
      destruct (wo_calls _ _ W k q n0 hz Hk) as [H1 H2]; [congruence|]. split; [done|]. intros k' n1 hz1 Hk'.
      destruct (decide (k' = m)) as [->|Nk']; [rewrite fn_at in Hk'; by apply Hq in Hk'|rewrite fn_off in Hk' by congruence]. by eapply H2.
Qed.

Lemma in_lists_touched L L' s s' t : lists_ok L s -> lists_ok L' s' -> touched t s s' -> forall k q, q <> t -> q ∈ L' k <-> q ∈ L k.
Proof.
  intros O O' Ht k q Ne. rewrite <- (lo_tt _ _ O'), <- (lo_tt _ _ O). destruct (touched_same t _ _ q Ht Ne) as (_ & -> & _). done.
Qed.
Lemma head_in (L : nat -> list nat) k h : hd_error (L k) = Some h -> h ∈ L k.
Proof. destruct (L k); cbn; intros; simplify_eq. by left. Qed.

Lemma step_public_ok L w t mode ns f : world_ok L w -> tt (timer (sys w) t) = None -> ~ calls w t ->
  valid (with_public mode ns f (timer (sys w) t)) -> world_ok L (mkWorld (set_timer t (with_public mode ns f (timer (sys w) t)) (sys w)) (intr w)).
Proof.
  intros W Et Hc Hv. set (s' := set_timer t _ _). pose proof (wo_lists _ _ W) as O. pose proof (off_lists _ _ t O Et) as Hn.
  assert (only t (with_public mode ns f (timer (sys w) t)) (sys w) s') as X.
  { subst s'. unfold only. cbn [timer set_timer]. rewrite fn_at. split; [done|]. split; [|done]. intros q Ne. by rewrite fn_off by congruence. }
  assert (forall q, q <> t -> timer s' q = timer (sys w) q) as N by apply X.
  split; cbn [sys intr].
  - eapply lists_ok_only; [exact O|done| |exact X]. done.
  - intros m Hq. eapply (armed_other L L (sys w) s' t); [done| | |done|by apply (wo_armed _ _ W)].
    + intros q Hh ->. by apply (Hn m), head_in.
    + intros q Ne. by rewrite N.
  - intros q Hq. assert (q <> t) as Ne by (intros ->; destruct Hq as [[k Hk]|Hk]; [by apply (Hn k)|done]).
    rewrite N by done. by apply (wo_valid _ _ W).
  - intros m q n0 hz Hi. assert (q <> t) as Ne by (intros ->; apply Hc; by exists m, n0, hz). rewrite N by done.
    by apply (wo_calls _ _ W m q n0 hz).
Qed.

Lemma step_add_ok L w m t s : world_ok L w -> (t < ntimers (sys w))%nat -> valid (timer (sys w) t) ->
  (calls w t -> tmode (timer (sys w) t) = Trelative) -> timeradd m t (sys w) = Ret () s -> twhen (timer s t) <> 0 ->
  exists L', world_ok L' (mkWorld s (intr w)).
Proof.
  intros W Hlt Hv Hc E Hne.
  refine (wp_ret_inv _ _ (fun _ s => twhen (timer s t) <> 0 -> exists L', world_ok L' (mkWorld s (intr w))) _ _ _ E Hne).
  apply (wp_timeradd L); [apply W|done|done|]. intros L' s' O' Ht Hv' _ HA Hin Hne'. exists L'.
  eapply world_ok_touched; [exact W|done|exact Ht|by apply HA|exact Hin|done|].
  intros Hca Hp. destruct Ht as (_ & _ & _ & Em). rewrite Em, (Hc Hca) in Hp. done.
Qed.

Lemma step_del_ok L w m t s : world_ok L w -> timerdel m t (sys w) = Ret () s -> exists L', world_ok L' (mkWorld s (intr w)).
Proof.
  intros W E. refine (wp_ret_inv _ _ (fun _ s => exists L', world_ok L' (mkWorld s (intr w))) _ _ _ E).
  apply (wp_timerdel L); [apply W|]. intros L' s' O' Ht T1 T2 HA Hin _. exists L'.
  eapply world_ok_touched; [exact W|done|exact Ht|exact HA| | |done].
  - intros k q Ne. rewrite Hin. clear -Ne. tauto.
  - intros [[k Hk]|Hk]; [apply Hin in Hk as [? _]; done|]. destruct (wo_valid _ _ W t) as [V1 V2]; [by right|].
    split; [|done]. eapply valid_same; [apply Ht|exact T2|exact V1].
Qed.

Lemma step_intr_ok L w m n : world_ok L w -> intr w m = Quiet -> world_ok L (mkWorld (set_armed m None (sys w)) (<[m := Looping n false]> (intr w))).
Proof.
  intros W Hq. split; cbn [sys intr].
  - eapply lists_ok_same; [| | |apply W]; done.
  - intros k Hk. destruct (decide (k = m)) as [->|Ne]; [by rewrite fn_at in Hk|rewrite fn_off in Hk by congruence].
    intros h Hh. destruct (wo_armed _ _ W k Hk h Hh) as (a & Ha & Hle). exists a. cbn [armed set_armed timer]. by rewrite fn_off by congruence.
  - intros t [Ht|(k & n0 & hz & Hk)]; [apply (wo_valid _ _ W); by left|]. apply (wo_valid _ _ W). right. cbn [intr] in Hk.
    destruct (decide (k = m)) as [->|Ne]; [by rewrite fn_at in Hk|rewrite fn_off in Hk by congruence]. by exists k, n0, hz.
  - intros k t n0 hz Hk Hp. destruct (decide (k = m)) as [->|Ne]; [by rewrite fn_at in Hk|rewrite fn_off in Hk by congruence].
    destruct (wo_calls _ _ W k t n0 hz Hk Hp) as [H1 H2]. split; [done|]. intros k' n1 hz1 Hk'.
    destruct (decide (k' = m)) as [->|Ne']; [by rewrite fn_at in Hk'|rewrite fn_off in Hk' by congruence]. by eapply H2.
Qed.

Lemma step_round_ok L w m now0 hz s i : world_ok L w -> intr w m = Looping now0 hz -> intr_round m now0 hz (sys w) = Ret i s ->
  exists L', world_ok L' (mkWorld s (<[m := i]> (intr w))).
Proof.
  intros W Hi E. pose proof (wo_lists _ _ W) as O.
  assert (forall s' , timer s' = timer (sys w) -> heads s' = heads (sys w) -> ntimers s' = ntimers (sys w) ->
    (forall k, k <> m -> armed s' k = armed (sys w) k) -> armed_ok L s' m -> world_ok L (mkWorld s' (<[m := Quiet]> (intr w)))) as Hquiet.
  { intros s' E1 E2 E3 E4 Hm. split; cbn [sys intr].
    - by eapply lists_ok_same.
    - intros k Hk. destruct (decide (k = m)) as [->|Ne]; [done|rewrite fn_off in Hk by congruence].
      intros h Hh. destruct (wo_armed _ _ W k Hk h Hh) as (a & Ha & Hle). exists a. by rewrite E1, E4.
    - intros t Ht. rewrite E1, E3. apply (wo_valid _ _ W). destruct Ht as [Ht|(k & n0 & hz1 & Hk)]; [by left|right]. cbn [intr] in Hk.
      destruct (decide (k = m)) as [->|Ne]; [by rewrite fn_at in Hk|rewrite fn_off in Hk by congruence]. by exists k, n0, hz1.
    - intros k t n0 hz1 Hk Hp. rewrite E1 in *. destruct (decide (k = m)) as [->|Ne]; [by rewrite fn_at in Hk|rewrite fn_off in Hk by congruence].
      destruct (wo_calls _ _ W k t n0 hz1 Hk Hp) as [H1 H2]. split; [done|]. intros k' n1 hz2 Hk'.
      destruct (decide (k' = m)) as [->|Ne']; [by rewrite fn_at in Hk'|rewrite fn_off in Hk' by congruence]. by eapply H2. }
  refine (wp_ret_inv _ _ (fun i s => exists L', world_ok L' (mkWorld s (<[m := i]> (intr w)))) _ _ _ E).
  apply (wp_intr_round L); [done| | |].
  - intros El. exists L. apply Hquiet; try done. intros h Hh. by rewrite El in Hh.
  - intros t l s' El Hw E1 E2 E3 E4 E5. exists L. apply Hquiet; try done.
    + intros k Ne. by rewrite E5, fn_off by congruence.
    + intros h Hh. rewrite El in Hh. cbn in Hh. simplify_eq. exists (twhen (timer (sys w) h)). rewrite E5, fn_at, E1. split; [done|lia].
  - intros t l s' El Hw O' B T1 T2 T3. exists (<[m := l]> L). pose proof (but_touched _ _ _ B) as Ht.
    destruct (wo_valid _ _ W t) as [V1 V2]; [left; exists m; rewrite El; by left|].
    eapply (world_ok_intr L); [exact W|done|exact Ht| |done|by eapply in_lists_touched| |done|by intros; simplify_eq| |].
    + intros k Ne HA. by apply (armed_remove L (sys w) s' m t [] l).
    + eapply valid_same; [by eapply but_mode|exact T3|exact V1].
    + intros _ [?|(? & ? & ?)]; done.
    + intros Hp n0 hz1 _. split; [done|]. intros k n1 hz2 Hk. destruct (wo_calls _ _ W k t n1 hz2 Hk) as [H1 _].
      { by rewrite <- (but_mode _ _ _ t B). }
      assert (tt (timer (sys w) t) = Some m) as H2 by (apply (lo_tt _ _ O); rewrite El; by left). congruence.
Qed.

Lemma step_again_ok L w m t now0 hz s i : world_ok L w -> intr w m = Calling t now0 hz -> intr_again m t now0 hz (sys w) = Ret i s ->
  exists L', world_ok L' (mkWorld s (<[m := i]> (intr w))).
Proof.
  intros W Hi E. pose proof (wo_lists _ _ W) as O. destruct (wo_valid _ _ W t) as [V1 V2]; [right; by exists m, now0, hz|].
  refine (wp_ret_inv _ _ (fun i s => exists L', world_ok L' (mkWorld s (<[m := i]> (intr w)))) _ _ _ E).
  apply (wp_intr_again L); [done|done|done| | |].
  - intros Hp. by destruct (wo_calls _ _ W m t now0 hz Hi Hp).
  - intros Hr. exists L. eapply (world_ok_intr L L w (sys w) m _ t); [exact W|done|apply touched_refl|done|done|done|done|done|done| |].
    + intros Hp. rewrite Hr in Hp. discriminate Hp.
    + done.
  - intros w' l1 l2 s' Hp _ El O' B _ Hv' _. eexists. pose proof (but_touched _ _ _ B) as Ht.
    destruct (wo_calls _ _ W m t now0 hz Hi Hp) as [H1 H2].
    eapply (world_ok_intr L); [exact W|exact O'|exact Ht| |done|by eapply in_lists_touched|done|done|done| |done].
    + intros k Ne HA. eapply (armed_other L _ (sys w) s' t); [by rewrite fn_off by congruence| | | |exact HA].
      * intros q Hh ->. by apply (off_lists _ _ t O H1 k), head_in.
      * intros q Nq. by destruct (but_same t _ _ q B Nq).
      * destruct B as (_ & _ & -> & _). done.
    + intros _ _ k n1 hz1 Hk. by eapply H2.
Qed.

Lemma boot_world_ok n start : world_ok (fun _ => []) (boot n start).
Proof.
  split; cbn.
  - split; try done.
    + intros m. apply NoDup_nil_2.
    + intros t m. split; [done|]. intros H. by apply elem_of_nil in H.
    + intros m. constructor.
    + intros m t H. by apply elem_of_nil in H.
  - intros m _ h Hh. done.
  - intros t [[m Hm]|(k & n0 & hz & Hk)]; [by apply elem_of_nil in Hm|done].
  - done.
Qed.
Lemma reachable_world_ok n start w : reachable n start w -> exists L, world_ok L w.
Proof.
  induction 1 as [|w w' _ [L W] St]; [eexists; apply boot_world_ok|].
  destruct St as [w x Hx|w t mode ns f H1 H2 H3|w m t s H1 H2 H3 H4 H5|w m t s H1|w m s i H1 H2|w m now0 hz s i H1 H2|w m t now0 hz s i H1 H2].
  - exists L. destruct W as [W1 W2 W3 W4]. split; [eapply lists_ok_same; [| | |exact W1]; done|exact W2|exact W3|exact W4].
  - exists L. by apply step_public_ok.
  - by eapply step_add_ok.
  - by eapply step_del_ok.
  - exists L. injection H2 as <- <-. by apply step_intr_ok.
  - by eapply step_round_ok.
  - by eapply step_again_ok.
Qed.

(** ** A whole interrupt *)
Section Interrupt.
Context (m : nat) (now0 : Z).

Definition periodic (x : Timer) : bool := tmode x =? Tperiodic.
(** How often a timer fires by [now0], and when it fires next. *)
Definition fires (x : Timer) : Z :=
  if now0 <? twhen x then 0 else if periodic x then (now0 - twhen x) / period (tns x) + 1 else 1.
Definition later (x : Timer) : Z := twhen x + fires x * period (tns x).
Definition count (t : nat) (l : list nat) : Z := zlen (filter (fun q => q = t) l).
(** The rounds left, but for the last. *)
Definition work (s : Sys) (l : list nat) : nat := sum_list ((fun t => Z.to_nat (fires (timer s t))) <$> l).

Definition in_range (s : Sys) (t : nat) : Prop :=
  valid (timer s t) /\ (t < ntimers s)%nat /\ 0 < twhen (timer s t) /\ now0 + period (tns (timer s t)) < 2 ^ 63.

Lemma period_pos ns : 1 <= period ns.
Proof.
  unfold period, ns2ticks, ns2fastticks. cbv zeta.
  match goal with |- 1 <= (if ?x =? 0 then 1 else ?x) => assert (0 <= x) by (unfold mul64fract, u64; apply Z.mod_pos_bound; lia); destruct (Z.eqb_spec x 0); lia end.
Qed.
Lemma later_due x : periodic x = true -> twhen x <= now0 -> now0 < later x <= now0 + period (tns x).
Proof.
  intros Hp Hw. unfold later, fires. rewrite Hp. destruct (Z.ltb_spec now0 (twhen x)); [lia|]. pose proof (period_pos (tns x)).
  pose proof (Z.div_mod (now0 - twhen x) (period (tns x)) ltac:(lia)). pose proof (Z.mod_pos_bound (now0 - twhen x) (period (tns x)) ltac:(lia)). nia.
Qed.
(** Firing once. *)
Lemma fires_step x y : periodic x = true -> twhen x <= now0 -> tmode y = tmode x -> tns y = tns x -> twhen y = twhen x + period (tns x) ->
  fires x = 1 + fires y /\ later y = later x.
Proof.
  intros Hp Hw E1 E2 E3. assert (periodic y = true) as Hy by (unfold periodic; by rewrite E1).
  assert (fires x = 1 + fires y) as Ef.
  { unfold fires. rewrite Hp, Hy, E2, E3. destruct (Z.ltb_spec now0 (twhen x)); [lia|]. pose proof (period_pos (tns x)).
    destruct (Z.ltb_spec now0 (twhen x + period (tns x))).
    - rewrite Z.div_small by lia. lia.
    - replace (now0 - (twhen x + period (tns x))) with (now0 - twhen x + (-1) * period (tns x)) by lia.
      rewrite Z.div_add by lia. lia. }
  split; [done|]. unfold later. rewrite Ef, E2, E3. lia.
Qed.

Lemma fires_same x y : twhen y = twhen x /\ tmode y = tmode x /\ tns y = tns x -> fires y = fires x.
Proof. unfold fires, periodic. by intros (-> & -> & ->). Qed.
Lemma fires_pos x : twhen x <= now0 -> 1 <= fires x.
Proof.
  intros H. unfold fires. destruct (Z.ltb_spec now0 (twhen x)); [lia|]. destruct (periodic x); [|lia].
  pose proof (Z.div_pos (now0 - twhen x) (period (tns x)) ltac:(lia) ltac:(pose proof (period_pos (tns x)); lia)). lia.
Qed.
Lemma fires_nonneg x : 0 <= fires x.
Proof. destruct (Z.le_gt_cases (twhen x) now0) as [H|H]; [pose proof (fires_pos x H); lia|]. unfold fires. by rewrite (proj2 (Z.ltb_lt _ _) H). Qed.

Lemma count_snoc t l q : count t (l ++ [q]) = count t l + (if decide (q = t) then 1 else 0).
Proof. unfold count. rewrite filter_app, zlen_app. cbn. by case_decide. Qed.

(** The outcome, from the state [s] and the list [l]. *)
Record fired_ok (s : Sys) (L : nat -> list nat) (fired0 fired : list nat) (L' : nat -> list nat) (s' : Sys) : Prop := {
  fo_lists : lists_ok L' s';
  fo_other k : k <> m -> L' k = L k;
  fo_in t : t ∈ L' m <-> t ∈ L m /\ (periodic (timer s t) = true \/ now0 < twhen (timer s t));
  fo_when t : t ∈ L' m -> now0 < twhen (timer s' t) /\ twhen (timer s' t) = later (timer s t);
  fo_count t : count t fired = count t fired0 + (if decide (t ∈ L m) then fires (timer s t) else 0)
}.

Lemma work_cons s t l : work s (t :: l) = (Z.to_nat (fires (timer s t)) + work s l)%nat.
Proof. done. Qed.
Lemma work_perm s l l' : l ≡ₚ l' -> work s l = work s l'.
Proof. intros H. unfold work. by rewrite H. Qed.
Lemma work_ext s s' l : (forall t, t ∈ l -> fires (timer s' t) = fires (timer s t)) -> work s' l = work s l.
Proof.
  intros H. unfold work. f_equal. apply list_fmap_ext. intros i t Ht. rewrite H; [done|]. by eapply list_elem_of_lookup_2.
Qed.

Lemma fired_none s L fired : lists_ok L s -> (forall t, t ∈ L m -> now0 < twhen (timer s t)) -> fired_ok s L fired fired L s.
Proof.
  intros O H. assert (forall t, t ∈ L m -> fires (timer s t) = 0) as Hf.
  { intros t Ht. unfold fires. destruct (Z.ltb_spec now0 (twhen (timer s t))); [done|]. specialize (H t Ht). lia. }
  split; try done.
  - intros t. split; [|by intros [? _]]. intros Ht. split; [done|]. right. by apply H.
  - intros t Ht. split; [by apply H|]. unfold later. rewrite Hf by done. lia.
  - intros t. case_decide; [rewrite Hf by done|]; lia.
Qed.

(** The rest of the list after the head [t], and what is done with [t]. *)
Lemma fired_then s L s1 L1 t l fired fired' L' s' : lists_ok L s -> L m = t :: l -> twhen (timer s t) <= now0 ->
  (forall k, k <> m -> L1 k = L k) -> (forall q, q <> t -> q ∈ L1 m <-> q ∈ l) ->
  (forall q, q <> t -> twhen (timer s1 q) = twhen (timer s q) /\ tmode (timer s1 q) = tmode (timer s q) /\ tns (timer s1 q) = tns (timer s q)) ->
  (if periodic (timer s t) then t ∈ L1 m /\ tmode (timer s1 t) = tmode (timer s t) /\ tns (timer s1 t) = tns (timer s t) /\
     twhen (timer s1 t) = twhen (timer s t) + period (tns (timer s t)) else t ∉ L1 m) ->
  fired_ok s1 L1 (fired ++ [t]) fired' L' s' -> fired_ok s L fired fired' L' s'.
Proof.
  intros O El Hw Hk Hin Hs Ht [F1 F2 F3 F4 F5].
  assert (t ∉ l) as Nt by (pose proof (lo_once _ _ O m) as D; rewrite El in D; by apply NoDup_cons in D as [D _]).
  assert (forall q, q <> t -> periodic (timer s1 q) = periodic (timer s q) /\ fires (timer s1 q) = fires (timer s q) /\ later (timer s1 q) = later (timer s q)) as Hq.
  { intros q Ne. destruct (Hs q Ne) as (E1 & E2 & E3). unfold later, fires, periodic. by rewrite E1, E2, E3. }
  assert (forall q, q <> t -> q ∈ L1 m <-> q ∈ L m) as Hin' by (intros q Ne; rewrite (Hin q Ne), El, elem_of_cons; clear -Ne; tauto).
  split; [done|intros k Nk; by rewrite F2, Hk by done| | |].
  - intros q. rewrite F3. destruct (decide (q = t)) as [->|Ne].
    + rewrite El. destruct (periodic (timer s t)) eqn:Ep.
      * destruct Ht as (T1 & T2 & T3 & T4). assert (periodic (timer s1 t) = true) as -> by (unfold periodic; by rewrite T2).
        split; intros _; (split; [|by left]); [by left|done].
      * split; [by intros [? _]|]. intros [_ [?|?]]; [done|lia].
    + destruct (Hq q Ne) as (-> & _ & _). destruct (Hs q Ne) as (-> & _ & _). by rewrite (Hin' q Ne).
  - intros q Hq'. destruct (F4 q Hq') as [G1 G2]. split; [done|]. rewrite G2. destruct (decide (q = t)) as [->|Ne]; [|by apply Hq].
    apply F3 in Hq' as [Hq' _]. destruct (periodic (timer s t)) eqn:Ep; [|done]. destruct Ht as (T1 & T2 & T3 & T4).
    by apply (fires_step (timer s t) (timer s1 t)).
  - intros q. rewrite F5, count_snoc. destruct (decide (t = q)) as [<-|Ne].
    + rewrite (decide_True (P := t ∈ L m)) by (rewrite El; by left). destruct (periodic (timer s t)) eqn:Ep.
      * destruct Ht as (T1 & T2 & T3 & T4). rewrite decide_True by done.
        destruct (fires_step (timer s t) (timer s1 t)) as [-> _]; [done..|]. lia.
      * rewrite decide_False by done. unfold fires. rewrite Ep. destruct (Z.ltb_spec now0 (twhen (timer s t))); lia.
    + rewrite Z.add_0_r. f_equal. destruct (Hq q ltac:(congruence)) as (_ & -> & _). specialize (Hin' q ltac:(congruence)).
      destruct (decide (q ∈ L1 m)), (decide (q ∈ L m)); tauto.
Qed.

Lemma wp_intr_loop fuel : forall L s hz fired, lists_ok L s -> (forall t, t ∈ L m -> in_range s t) -> (work s (L m) < fuel)%nat ->
  wp (intr_loop fuel m now0 hz fired) s (fun fired' s' => exists L', fired_ok s L fired fired' L' s').
Proof.
  induction fuel as [|fuel IH]; intros L s hz fired O Hr Hf; [lia|]. cbn [intr_loop]. apply wp_bind.
  apply (wp_intr_round L); [done| | |].
  - intros El. apply wp_ret. exists L. apply fired_none; [done|]. intros t Ht. rewrite El in Ht. by apply elem_of_nil in Ht.
  - intros t l s' El Hw E1 E2 E3 _ _. apply wp_ret. exists L.
    assert (fired_ok s L fired fired L s) as [F1 F2 F3 F4 F5].
    { apply fired_none; [done|]. intros q Hq. pose proof (lo_sorted _ _ O m) as S. rewrite El in S, Hq. apply StronglySorted_inv in S as [_ S].
      rewrite Forall_forall in S. apply elem_of_cons in Hq as [->|Hq]; [done|]. specialize (S q Hq). lia. }
    split; try done; [by eapply lists_ok_same|]. intros q Hq. rewrite E1. by apply F4.
  - intros t l s1 El Hw O1 B1 T1 T2 T3. destruct (Hr t) as (Hv & Hlt & Hp0 & Hb); [rewrite El; by left|].
    assert (t ∉ l) as Nt by (pose proof (lo_once _ _ O m) as D; rewrite El in D; by apply NoDup_cons in D as [D _]).
    assert (valid (timer s1 t)) as Hv1 by (eapply valid_same; [by eapply but_mode|exact T3|exact Hv]).
    assert (ntimers s1 = ntimers s) as Ec1 by apply B1.
    assert (forall q, q ∈ l -> in_range s1 q) as Hr1.
    { intros q Hq. assert (q <> t) as Ne by (intros ->; done). destruct (but_same t s s1 q B1 Ne) as (E1 & _ & E2 & E3).
      unfold in_range. rewrite E1, E3, Ec1. destruct (Hr q) as (V & ? & ?); [rewrite El; by right|]. split; [by eapply valid_same|done]. }
    assert (work s1 l = work s l) as Ew1.
    { apply work_ext. intros q Hq. assert (q <> t) as Ne by (intros ->; done). apply fires_same. by destruct (but_same t s s1 q B1 Ne) as (-> & _ & -> & ->). }
    assert (work s (L m) = Z.to_nat (fires (timer s t)) + work s l)%nat as Ew by (by rewrite El).
    pose proof (fires_pos (timer s t) Hw) as Hpos.
    assert ((work s l < fuel)%nat) as Hf1 by lia. apply wp_bind. apply (wp_intr_again (<[m := l]> L) s1); [done|done|by rewrite Ec1|done| |].
    + intros Hrel. eapply wp_mono; [apply (IH (<[m := l]> L)); [done|rewrite fn_at; exact Hr1|rewrite fn_at; lia]|].
      intros fired' s' (L' & F). exists L'. eapply (fired_then s L s1 (<[m := l]> L) t l); [done|done|done| | | | |exact F].
      * intros k Ne. by rewrite fn_off by congruence.
      * intros q Ne. by rewrite fn_at.
      * intros q Ne. by destruct (but_same t s s1 q B1 Ne) as (-> & _ & -> & ->).
      * assert (periodic (timer s t) = false) as -> by (unfold periodic; rewrite <- (but_mode _ _ _ t B1), Hrel; done). by rewrite fn_at.
    + intros w l1 l2 s2 Hper Hd El2 O2 B2 Ew2 Hv2 T4. rewrite fn_at in El2. subst l.
      assert (periodic (timer s t) = true) as Hp by (unfold periodic; rewrite <- (but_mode _ _ _ t B1), Hper; done).
      assert (w = twhen (timer s t) + period (tns (timer s t))) as Ewt.
      { destruct Hd as [Hm|_ _|_ H0|? ? ? _ H0]; [|rewrite T2, T3; pose proof (period_pos (tns (timer s t))); apply s64_int; lia|lia|lia].
        rewrite Hper in Hm. discriminate Hm. }
      set (L2 := <[m := l1 ++ t :: l2]> (<[m := l1 ++ l2]> L)) in *.
      assert (L2 m ≡ₚ t :: l1 ++ l2) as EL2 by (unfold L2; rewrite fn_at; by rewrite Permutation_middle).
      assert (forall q, q <> t -> twhen (timer s2 q) = twhen (timer s q) /\ tmode (timer s2 q) = tmode (timer s q) /\ tns (timer s2 q) = tns (timer s q)) as Hs2.
      { intros q Ne. destruct (but_same t s1 s2 q B2 Ne) as (-> & _ & -> & ->). by destruct (but_same t s s1 q B1 Ne) as (-> & _ & -> & ->). }
      assert (ntimers s2 = ntimers s) as Ec2 by (rewrite <- Ec1; apply B2).
      eapply wp_mono; [apply (IH L2); [done| |]|].
      * intros q Hq. rewrite EL2 in Hq. unfold in_range. rewrite Ec2. destruct (decide (q = t)) as [->|Ne].
        -- rewrite T4, T3, Ew2, Ewt. pose proof (period_pos (tns (timer s t))). split_and!; [done|done|lia|done].
        -- destruct (Hs2 q Ne) as (E1 & E2 & E3). rewrite E1, E3. destruct (Hr q) as (V & ? & ?); [rewrite El; set_solver|].
           split; [by eapply valid_same|done].
      * rewrite (work_perm s2 _ _ EL2). assert (work s2 (l1 ++ l2) = work s (l1 ++ l2)) as Ew3.
        { apply work_ext. intros q Hq. assert (q <> t) as Ne by (intros ->; done). apply fires_same. by apply Hs2. }
        destruct (fires_step (timer s t) (timer s2 t)) as [Ef _]; [done|done| |by rewrite T4|by rewrite Ew2, Ewt|].
        { rewrite (but_mode _ _ _ t B2). by eapply but_mode. }
        pose proof (fires_nonneg (timer s2 t)). rewrite work_cons. lia.
      * intros fired' s' (L' & F). exists L'. eapply (fired_then s L s2 L2 t (l1 ++ l2)); [done|done|done| | |exact Hs2| |exact F].
        -- intros k Ne. unfold L2. by rewrite !fn_off by congruence.
        -- intros q Ne. rewrite EL2, elem_of_cons. clear -Ne. tauto.
        -- rewrite Hp. split; [rewrite EL2; by left|]. split; [rewrite (but_mode _ _ _ t B2); by eapply but_mode|].
           split; [by rewrite T4|by rewrite Ew2, Ewt].
Qed.
End Interrupt.
End Clock.

Section Theorems.
Context (tod : Tod) (n : nat) (start : Z).

(** C33: the timers of each processor are a list without repetition, linked through
    [tnext] from its head, in the order of [twhen]; a timer has [tt] set exactly when
    it is on the list [tt] names; and the hardware timer of a processor that is not in
    its interrupt is set for a time no later than that of any timer of its list - so
    that none is forgotten.  This holds whatever the processors did before. *)
Theorem timers_in_order w : reachable tod n start w -> exists L : nat -> list nat,
  (forall m, seg (next_of (sys w)) (heads (sys w) m) (L m) None /\ NoDup (L m) /\ by_time (sys w) (L m)) /\
  (forall t m, tt (timer (sys w) t) = Some m <-> t ∈ L m) /\
  (forall m t, intr w m = Quiet -> t ∈ L m -> exists a, armed (sys w) m = Some a /\ a <= twhen (timer (sys w) t)).
Proof.
  intros R. destruct (reachable_world_ok tod n start w R) as [L [O A _ _]]. exists L. split_and!.
  - intros m. split_and!; apply O.
  - apply (lo_tt _ _ O).
  - intros m t Hq Ht. pose proof (lo_sorted _ _ O m) as S. specialize (A m Hq). unfold armed_ok in A.
    destruct (L m) as [|h l]; [by apply elem_of_nil in Ht|]. destruct (A h eq_refl) as (a & Ha & Hle). exists a. split; [done|].
    apply StronglySorted_inv in S as [_ S]. rewrite Forall_forall in S. apply elem_of_cons in Ht as [->|Ht]; [done|].
    specialize (S t Ht). lia.
Qed.

(** C34: whatever the processors did before, an interrupt that is under way goes on
    without a failed assertion, a timer that cannot be added or the end of a list
    that is not there, and so do [timerdel] of any timer and [timeradd] of one that
    is well formed. *)
Theorem interrupt_goes_on w m : reachable tod n start w ->
  match intr w m with
  | Quiet => True
  | Looping now0 hz => exists i s, intr_round m now0 hz (sys w) = Ret i s
  | Calling t now0 hz => exists s, intr_again tod m t now0 hz (sys w) = Ret (Looping now0 hz) s
  end /\
  (forall t, exists s, timerdel m t (sys w) = Ret () s) /\
  (forall t, (t < ntimers (sys w))%nat -> valid (timer (sys w) t) -> exists s, timeradd tod m t (sys w) = Ret () s).
Proof.
  intros R. destruct (reachable_world_ok tod n start w R) as [L W]. pose proof (wo_lists _ _ W) as O. split_and!.
  - destruct (intr w m) as [|now0 hz|t now0 hz] eqn:Ei; [done| |].
    + enough (wp (intr_round m now0 hz) (sys w) (fun _ _ => True)) as (i & s & E & _)%wp_exists by eauto.
      by apply (wp_intr_round L).
    + enough (wp (intr_again tod m t now0 hz) (sys w) (fun i _ => i = Looping now0 hz)) as (i & s & E & ->)%wp_exists by eauto.
      destruct (wo_valid _ _ W t) as [V1 V2]; [right; by exists m, now0, hz|]. apply (wp_intr_again tod L); try done.
      intros Hp. by destruct (wo_calls _ _ W m t now0 hz Ei Hp).
  - intros t. enough (wp (timerdel m t) (sys w) (fun _ _ => True)) as ([] & s & E & _)%wp_exists by eauto. by apply (wp_timerdel L).
  - intros t Hlt Hv. enough (wp (timeradd tod m t) (sys w) (fun _ _ => True)) as ([] & s & E & _)%wp_exists by eauto. by apply (wp_timeradd tod L).
Qed.

(** C36: [timerdel] of a periodic timer whose routine [timerintr] is calling does
    nothing, and when the routine returns the timer is on the list again, to fire
    again: the caller of [timerdel] may have freed it. *)
Theorem timerdel_loses_to_interrupt w m t now0 hz k : reachable tod n start w -> intr w m = Calling t now0 hz ->
  tmode (timer (sys w) t) = Tperiodic ->
  timerdel k t (sys w) = Ret () (sys w) /\
  exists s, intr_again tod m t now0 hz (sys w) = Ret (Looping now0 hz) s /\ tt (timer s t) = Some m.
Proof.
  intros R Hi Hp. destruct (reachable_world_ok tod n start w R) as [L W]. pose proof (wo_lists _ _ W) as O.
  destruct (wo_calls _ _ W m t now0 hz Hi Hp) as [Et _]. destruct (wo_valid _ _ W t) as [V1 V2]; [right; by exists m, now0, hz|]. split.
  - enough (wp (timerdel k t) (sys w) (fun _ s => s = sys w)) as ([] & s & E & ->)%wp_exists by done.
    apply (wp_timerdel L); [done|]. intros L' s' _ _ _ _ _ _ H. by apply H.
  - enough (wp (intr_again tod m t now0 hz) (sys w) (fun i s => i = Looping now0 hz /\ tt (timer s t) = Some m)) as (i & s & E & -> & H)%wp_exists by eauto.
    apply (wp_intr_again tod L); [done|done|done|done| |].
    + intros Hr. rewrite Hp in Hr. discriminate Hr.
    + intros w' l1 l2 s' _ _ _ O' _ _ _ _. split; [done|]. apply (lo_tt _ _ O'). rewrite fn_at. apply elem_of_app. right. by left.
Qed.

(** C35: an interrupt at time [now0], with no timer at a time that is not positive or
    so late that it overflows, and routines that leave the timers alone, ends: in
    as many rounds as the timers fire, and one.  A timer of the list fires [fires] times:
    not at all if its time is later than [now0], once if it is relative, and if it is
    periodic once for each period that has begun by then.  The relative ones that
    fired are off the list; the periodic ones are on it at the first of their times
    that is after [now0], and the list is in order. *)
Theorem timerintr_fires_due m now0 hz L s fuel : lists_ok L s -> (forall t, t ∈ L m -> in_range tod now0 s t) ->
  (work tod now0 s (L m) < fuel)%nat ->
  exists fired s' L', intr_loop tod fuel m now0 hz [] s = Ret fired s' /\ lists_ok L' s' /\
    (forall t, count t fired = if decide (t ∈ L m) then fires tod now0 (timer s t) else 0) /\
    (forall t, t ∈ L' m <-> t ∈ L m /\ (periodic (timer s t) = true \/ now0 < twhen (timer s t))) /\
    (forall t, t ∈ L' m -> now0 < twhen (timer s' t) /\
      if now0 <? twhen (timer s t) then twhen (timer s' t) = twhen (timer s t)
      else twhen (timer s' t) <= now0 + period tod (tns (timer s t)) /\
        exists j, twhen (timer s' t) = twhen (timer s t) + j * period tod (tns (timer s t))).
Proof.
  intros O Hr Hf. pose proof (wp_intr_loop tod m now0 fuel L s hz [] O Hr Hf) as (fired & s' & E & L' & F)%wp_exists.
  exists fired, s', L'. split; [done|]. destruct F as [F1 F2 F3 F4 F5]. split_and!; [done|exact F5|exact F3|].
  intros t Ht. destruct (F4 t Ht) as [G1 G2]. split; [done|]. apply F3 in Ht as [Ht Hp]. rewrite G2. clear G1 G2.
  destruct (Z.ltb_spec now0 (twhen (timer s t))) as [H|H].
  - unfold later, fires. rewrite (proj2 (Z.ltb_lt _ _) H). lia.
  - destruct Hp as [Hp|Hp]; [|lia]. split; [by apply later_due|]. by exists (fires tod now0 (timer s t)).
Qed.
End Theorems.

(** A periodic timer of a millisecond and one of half a millisecond, on processor 0;
    the interrupt finds them due and is in the routine of the periodic one. *)
Definition w0 : World := boot 2 1000.
Definition w1 : World := mkWorld (set_timer 0 (with_public Tperiodic 1000000 true idle_timer) (sys w0)) (intr w0).
Definition w2 : World := mkWorld (after (timeradd demo_clock 0 0) (sys w1)) (intr w1).
Definition w3 : World := mkWorld (set_timer 1 (with_public Trelative 500000 true idle_timer) (sys w2)) (intr w2).
Definition w4 : World := mkWorld (after (timeradd demo_clock 0 1) (sys w3)) (intr w3).
Definition w5 : World := mkWorld (set_now 6000000 (sys w4)) (intr w4).
Definition w6 : World := mkWorld (set_armed 0 None (sys w5)) (<[0%nat := Looping 6000000 false]> (intr w5)).
Definition w7 : World := mkWorld (after (intr_round 0 6000000 false) (sys w6)) (<[0%nat := Calling 1 6000000 false]> (intr w6)).
Definition w8 : World := mkWorld (after (intr_again demo_clock 0 1 6000000 false) (sys w7)) (<[0%nat := Looping 6000000 false]> (intr w7)).
Definition w9 : World := mkWorld (after (intr_round 0 6000000 false) (sys w8)) (<[0%nat := Calling 0 6000000 false]> (intr w8)).

Lemma demo_reachable4 : reachable demo_clock 2 1000 w4.
Proof.
  eapply (reach_step _ _ _ w3); [|eapply (step_add demo_clock w3 0 1); [by apply Nat.ltb_lt; vm_compute|by left|done|apply ret_after; by vm_compute|by vm_compute]].
  eapply (reach_step _ _ _ w2); [|apply (step_public demo_clock w2 1); [by vm_compute|by intros (? & ? & ? & ?)|by left]].
  eapply (reach_step _ _ _ w1); [|eapply (step_add demo_clock w1 0 0); [by apply Nat.ltb_lt; vm_compute|by right|intros (? & ? & ? & ?); done|apply ret_after; by vm_compute|by vm_compute]].
  eapply (reach_step _ _ _ w0); [apply reach_boot|]. apply (step_public demo_clock w0 0); [done|by intros (? & ? & ? & ?)|by right].
Qed.
Lemma demo_reachable9 : reachable demo_clock 2 1000 w9.
Proof.
  eapply (reach_step _ _ _ w8); [|eapply (step_round demo_clock w8 0 6000000 false); [done|apply ret_after; by vm_compute]].
  eapply (reach_step _ _ _ w7); [|eapply (step_again demo_clock w7 0 1 6000000 false); [done|apply ret_after; by vm_compute]].
  eapply (reach_step _ _ _ w6); [|eapply (step_round demo_clock w6 0 6000000 false); [done|apply ret_after; by vm_compute]].
  eapply (reach_step _ _ _ w5); [|eapply (step_intr demo_clock w5 0); [done|done]].
  eapply (reach_step _ _ _ w4); [apply demo_reachable4|]. apply step_tick. by vm_compute.
Qed.

Lemma timers_in_order_witness : heads (sys w4) 0 = Some 1%nat /\ next_of (sys w4) 1 = Some 0%nat /\ armed (sys w4) 0 = Some 1201000 /\
  exists L : nat -> list nat,
  (forall m, seg (next_of (sys w4)) (heads (sys w4) m) (L m) None /\ NoDup (L m) /\ by_time (sys w4) (L m)) /\
  (forall t m, tt (timer (sys w4) t) = Some m <-> t ∈ L m) /\
  (forall m t, intr w4 m = Quiet -> t ∈ L m -> exists a, armed (sys w4) m = Some a /\ a <= twhen (timer (sys w4) t)).
Proof. split_and!; [by vm_compute..|]. exact (timers_in_order demo_clock 2 1000 w4 demo_reachable4). Defined.

Lemma interrupt_goes_on_witness : intr w9 0 = Calling 0 6000000 false /\
  exists s, intr_again demo_clock 0 0 6000000 false (sys w9) = Ret (Looping 6000000 false) s.
Proof. split; [done|]. exact (proj1 (interrupt_goes_on demo_clock 2 1000 w9 0 demo_reachable9)). Defined.

Lemma timerdel_loses_to_interrupt_witness : timerdel 1 0 (sys w9) = Ret () (sys w9) /\
  exists s, intr_again demo_clock 0 0 6000000 false (sys w9) = Ret (Looping 6000000 false) s /\ tt (timer s 0) = Some 0%nat.
Proof. apply (timerdel_loses_to_interrupt demo_clock 2 1000 w9 0 0 6000000 false 1 demo_reachable9); by vm_compute. Defined.

(** The half millisecond has passed, and two milliseconds have begun. *)
Definition demo_timers (t : nat) : Timer :=
  match t with
  | 0%nat => mkTimer Tperiodic 1000000 true (Some 0%nat) 2401000 None
  | 1%nat => mkTimer Trelative 500000 true (Some 0%nat) 1201000 (Some 0%nat)
  | _ => idle_timer
  end.
Definition demo_list (m : nat) : list nat := match m with 0%nat => [1%nat; 0%nat] | _ => [] end.
Definition demo_sys : Sys :=
  mkSys demo_timers 2 (fun m => hd_error (demo_list m)) (fun _ => None) (fun _ => 0) 0 6000000.
Lemma demo_ok : lists_ok demo_list demo_sys.
Proof.
  split.
  - by intros [|m].
  - intros [|m]; cbn; repeat constructor; set_solver.
  - intros [|[|t]] [|m]; cbn; set_solver.
  - intros [|m]; cbn; repeat constructor; cbn; lia.
  - intros [|m] t; cbn; [|set_solver]. intros H. assert (t = 1%nat \/ t = 0%nat) by set_solver. lia.
Qed.
Lemma timerintr_fires_due_witness : exists fired s' L', intr_loop demo_clock 4 0 6000000 false [] demo_sys = Ret fired s' /\ lists_ok L' s' /\
  (forall t, count t fired = if decide (t ∈ [1%nat; 0%nat]) then fires demo_clock 6000000 (demo_timers t) else 0) /\
  fires demo_clock 6000000 (demo_timers 0) = 2 /\ fires demo_clock 6000000 (demo_timers 1) = 1.
Proof.
  destruct (timerintr_fires_due demo_clock 0 6000000 false demo_list demo_sys 4) as (fired & s' & L' & H1 & H2 & H3 & _).
  - apply demo_ok.
  - intros t Ht. assert (t = 1%nat \/ t = 0%nat) as [-> | ->] by (cbn in Ht; set_solver);
      (split; [first [by right|by left]|split; [by apply Nat.ltb_lt; vm_compute|by vm_compute]]).
  - by apply Nat.ltb_lt; vm_compute.
  - exists fired, s', L'. split_and!; [done|done|exact H3|by vm_compute|by vm_compute].
Defined.
