(* ===== verification/Qmalloc.v ===== *)
(** * The kernel's storage allocator: port/qmalloc.c

    Lists of free blocks by size, a circular list of larger fragments for each segment
    of memory, and the part of the segment that has never been given away.  An address of
    a [Header] is the number of its unit of [Unitsz] bytes.  The bytes and the fields of the headers are kept
    apart: they do not overlap, but what the user writes in his blocks may read as anything if it is
    taken for a header ([junk]). *)

From stdpp Require Import base list gmap functions strings.
From Stdlib Require Import ZArith Lia.
From S2P Require Import Prelude.
Open Scope Z_scope.
Open Scope nix_scope.

Definition Unitsz : Z := 32.
Definition Mult : Z := 4.
Definition ATAG : Z := 153.
Definition FTAG : Z := 102.

(** [maxsz]: [None] is [~0]. *)
Record MSeg := mkMSeg { base : Z; end_ : Z; rover : option Z; tailptr : Z; maxsz : option Z }.
Definition set_rover (x : option Z) (s : MSeg) := mkMSeg (base s) (end_ s) x (tailptr s) (maxsz s).
Definition set_tailptr (x : Z) (s : MSeg) := mkMSeg (base s) (end_ s) (rover s) x (maxsz s).
Definition set_maxsz (x : option Z) (s : MSeg) := mkMSeg (base s) (end_ s) (rover s) (tailptr s) x.

(** [next] and [size] of the headers, the bytes, [quicklist], the segments from [mseg0] on, the global [mseg] as
    its place among them, and whether [mainlock] is held. *)
Record Heap := mkHeap {
  next : Z -> option Z; size : Z -> Z; bytes : Z -> Z; quicklist : Z -> option Z; msegs : list MSeg; mseg : option nat; mainlock : bool
}.
Definition set_next (p : Z) (x : option Z) (h : Heap) := mkHeap (<[p := x]> (next h)) (size h) (bytes h) (quicklist h) (msegs h) (mseg h) (mainlock h).
Definition set_size (p x : Z) (h : Heap) := mkHeap (next h) (<[p := x]> (size h)) (bytes h) (quicklist h) (msegs h) (mseg h) (mainlock h).
Definition set_bytes (g : Z -> Z) (h : Heap) := mkHeap (next h) (size h) g (quicklist h) (msegs h) (mseg h) (mainlock h).
Definition set_quick (i : Z) (x : option Z) (h : Heap) := mkHeap (next h) (size h) (bytes h) (<[i := x]> (quicklist h)) (msegs h) (mseg h) (mainlock h).
Definition set_msegs (l : list MSeg) (h : Heap) := mkHeap (next h) (size h) (bytes h) (quicklist h) l (mseg h) (mainlock h).
Definition set_mseg (k : option nat) (h : Heap) := mkHeap (next h) (size h) (bytes h) (quicklist h) (msegs h) k (mainlock h).
Definition set_mainlock (b : bool) (h : Heap) := mkHeap (next h) (size h) (bytes h) (quicklist h) (msegs h) (mseg h) b.

(** What is outside the file: the constants of other headers, a page for [newpg] (the address of its memory), whether another
    process is in [morecore], [poison], and what bytes read as if they are taken for a header. *)
Class Arena := {
  IOHDRSZ : Z;
  sizeof_MSeg : Z;
  mallocpgsz : Z;
  newpg : Heap -> option Z;
  mclock_busy : Heap -> bool;
  poison : bool;
  junk_next : Z -> option Z;
  junk_size : Z -> Z
}.

Definition ISPOWEROF2 (x : Z) : bool := Z.land x (x - 1) =? 0.
Definition ALIGNHDR (h a : Z) : Z := Z.land (h * Unitsz + (a - 1)) (Z.lnot (a - 1)) / Unitsz.
Definition ALIGNED (h a : Z) : bool := Z.land (h * Unitsz) (a - 1) =? 0.

(** Units for [nbytes] bytes and the tag. *)
Definition NUNITS (nbytes : Z) : Z :=
  let nu := u32 (HOWMANY (nbytes + 1) Unitsz) in
  if nu <? Mult then nu + 1 else u32 (ROUNDUP nu Mult + 1).

Section Qmalloc.
Context `{AR : Arena}.

Definition NQUICK : Z := HOWMANY (8192 + IOHDRSZ + 1) (Unitsz * Mult) * Mult + 1.

Definition cur : M Heap MSeg :=
  h <- gets id ;;
  match mseg h ≫= (fun k => msegs h !! k) with Some s => ret s | None => undef "mseg"%string end.
Definition oncur (g : MSeg -> MSeg) : M Heap () :=
  modify (fun h => match mseg h with Some k => set_msegs (alter g k (msegs h)) h | None => h end).
Definition ilock : M Heap () := b <- gets mainlock ;; if b : bool then undef "deadlock"%string else modify (set_mainlock true).
Definition iunlock : M Heap () := modify (set_mainlock false).

(** The byte before unit [q]: where the tag of a block that ends there is. *)
Definition tag_at (q : Z) : Z := q * Unitsz - 1.
Definition set_tag (q v : Z) : M Heap () := modify (fun h => set_bytes (<[tag_at q := v]> (bytes h)) h).
(** The bytes from unit [v] on, [n] of them, become those of [f]; headers in there are gone. *)
Definition write (v n : Z) (f : Z -> Z) (h : Heap) : Heap :=
  let lo := v * Unitsz in
  let over a := (v <=? a) && (a * Unitsz <? lo + n) in
  mkHeap (fun a => if over a then junk_next a else next h a) (fun a => if over a then junk_size a else size h a)
    (fun a => if (lo <=? a) && (a <? lo + n) then f (a - lo) else bytes h a) (quicklist h) (msegs h) (mseg h) (mainlock h).
Definition memset (v x n : Z) : M Heap () := modify (write v n (fun _ => x)).
Definition memmove (v w n : Z) : M Heap () := modify (fun h => write v n (fun i => bytes h (w * Unitsz + i)) h).

(** [p] is a byte address; [hdr]: the [MSeg] is to be at the start of the memory. *)
Definition mallocinitseg (hdr : bool) (p len : Z) : MSeg :=
  let '(cp, len) := if hdr then (p + sizeof_MSeg, len - sizeof_MSeg) else (p, len) in
  let b := Z.land (cp + (Unitsz - 1)) (Z.lnot (Unitsz - 1)) / Unitsz in
  mkMSeg b (b + Z.quot (cp + len - b * Unitsz) Unitsz) None b None.

(** The tag itself is not kept. *)
Definition setmalloctag (v : option Z) : M Heap () :=
  match v with None => panic "setmalloctag: nil"%string | Some _ => ret () end.

Definition tailalloc (n : Z) : M Heap Z :=
  s <- cur ;;
  let p := tailptr s in
  oncur (set_tailptr (p + n)) ;;
  modify (set_size p n) ;;
  modify (set_next p None) ;;
  ret p.

(** ** Freeing *)
Definition qfreeinternal (ap : option Z) (checktag : bool) : M Heap () :=
  match ap with
  | None => ret ()
  | Some ap =>
    let p := ap - 1 in
    s <- cur ;;
    if (p <? base s) || (p >=? end_ s) then panic "qfreeinternal"%string
    else
      h <- gets id ;;
      let nunits := size h p in
      if (nunits =? 0) || bool_decide (next h p <> None) then panic "free: corrupt allocation arena"%string
      else if checktag && (bytes h (tag_at (p + nunits)) =? FTAG) then panic "free: double free"%string
      else if checktag && negb (bytes h (tag_at (p + nunits)) =? ATAG) then panic "free: user overflow"%string
      else
        (if poison then memset (p + 1) 0x99 ((nunits - 1) * Unitsz) else ret ()) ;;
        set_tag (p + nunits) FTAG ;;
        if p + nunits =? tailptr s then oncur (set_tailptr p)
        else if nunits <=? NQUICK then
          modify (fun h => set_next p (quicklist h nunits) h) ;;
          modify (set_quick nunits (Some p))
        else
          match rover s with
          | None =>
            oncur (set_rover (Some p)) ;;
            modify (set_next p (Some p))
          | Some prev =>
            h <- gets id ;;
            if prev + size h prev =? p then
              let n := u32 (size h prev + size h p) in
              modify (set_size prev n) ;;
              match maxsz s with
              | Some m => if n >? m then oncur (set_maxsz (Some n)) else ret ()
              | None => ret ()
              end
            else
              modify (set_next p (next h prev)) ;;
              modify (set_next prev (Some p)) ;;
              match maxsz s with
              | Some m => if size h p >? m then oncur (set_maxsz (Some (size h p))) else ret ()
              | None => ret ()
              end
          end
  end.

(** The segment an address is in, searched from [mseg0] on; [mseg] is left there. *)
Definition find_seg (f : MSeg -> bool) : M Heap () :=
  modify (fun h => set_mseg (fst <$> list_find (fun s => f s = true) (msegs h)) h).

Definition free (ap : option Z) : M Heap () :=
  match ap with
  | None => ret ()
  | Some v =>
    ilock ;;
    find_seg (fun s => (v >=? base s) && (v <? end_ s)) ;;
    m <- gets mseg ;;
    match m with
    | None => panic "free: not from malloc"%string
    | Some _ => qfreeinternal ap true ;; iunlock
    end
  end.

(** ** Allocating *)
(** The quick lists from [n] on, [cnt] of them. *)
Fixpoint quick_loop (cnt : nat) (n : Z) : M Heap (option Z) :=
  match cnt with
  | O => ret None
  | S cnt =>
    if n <? NQUICK then
      h <- gets id ;;
      match quicklist h n with
      | Some p =>
        if size h p <? n then panic "quick"%string
        else
          modify (set_quick n (next h p)) ;;
          modify (set_next p None) ;;
          set_tag (p + size h p) ATAG ;;
          ret (Some (p + 1))
      | None => quick_loop cnt (n + 1)
      end
    else ret None
  end.

(** Takes [p], which follows [prev], off the list of fragments. *)
Definition unlink (prev p : Z) : M Heap () :=
  h <- gets id ;;
  if bool_decide (next h prev = next h p) then oncur (set_rover None)
  else modify (set_next prev (next h p)) ;; oncur (set_rover (Some prev)).
Definition forget_max (n : Z) : M Heap () :=
  s <- cur ;;
  if bool_decide (maxsz s = Some n) then oncur (set_maxsz None) else ret ().

(** The fragments after [prev]: the block found, or the largest size seen. *)
Fixpoint rover_loop (fuel : nat) (nunits prev msize : Z) : M Heap (Z + Z) :=
  match fuel with
  | O => undef "fuel"%string
  | S fuel =>
    h <- gets id ;;
    match next h prev with
    | None => undef "nil"%string
    | Some p =>
      let msize := if size h p >? msize then size h p else msize in
      if size h p >=? nunits then
        p <- (if (size h p >? nunits) && (size h p - nunits >=? Mult) then
                modify (set_size p (size h p - nunits)) ;;
                let p' := p + (size h p - nunits) in
                modify (set_size p' nunits) ;; ret p'
              else unlink prev p ;; ret p) ;;
        n <- gets (fun h => size h p) ;;
        forget_max n ;;
        modify (set_next p None) ;;
        set_tag (p + n) ATAG ;;
        ret (inl p)
      else
        s <- cur ;;
        if bool_decide (Some p = rover s) then ret (inr msize) else rover_loop fuel nunits p msize
    end
  end.
Definition frag_fuel (s : MSeg) : nat := S (Z.to_nat (tailptr s - base s)).

(** The segments from the [k]-th on, [cnt] of them. *)
Fixpoint fit_loop (cnt k : nat) (nunits : Z) : M Heap (option Z) :=
  modify (set_mseg (Some k)) ;;
  match cnt with
  | O => modify (set_mseg None) ;; ret None
  | S cnt =>
    s <- cur ;;
    match rover s with
    | None => fit_loop cnt (S k) nunits
    | Some prev =>
      if match maxsz s with Some m => nunits >? m | None => false end then fit_loop cnt (S k) nunits
      else
        r <- rover_loop (frag_fuel s) nunits prev 0 ;;
        match r with
        | inl p => ret (Some p)
        | inr msize => oncur (set_maxsz (Some msize)) ;; fit_loop cnt (S k) nunits
        end
    end
  end.

Definition morecore (nunits : Z) : M Heap Z :=
  if mallocpgsz / Unitsz <? nunits then ret (-1)
  else
    iunlock ;;
    h <- gets id ;;
    if mclock_busy h then ret 0
    else
      match newpg h with
      | None => ret (-1)
      | Some pa =>
        ilock ;;
        let s := mallocinitseg true pa mallocpgsz in
        modify (fun h => match msegs h with m0 :: l => set_msegs (m0 :: s :: l) h | [] => h end) ;;
        modify (set_mseg (Some 0%nat)) ;;
        ret 0
      end.

Definition room (nunits : Z) (s : MSeg) : bool := negb (nunits >? end_ s - tailptr s).
(** From [Again:] on; [more]: how often [morecore] may still be called. *)
Fixpoint qmalloc_again (more : nat) (nunits : Z) : M Heap Z :=
  find_seg (room nunits) ;;
  m <- gets mseg ;;
  match m with
  | Some _ =>
    p <- tailalloc nunits ;;
    set_tag (p + nunits) ATAG ;;
    iunlock ;; ret (p + 1)
  | None =>
    cnt <- gets (fun h => List.length (msegs h)) ;;
    r <- fit_loop cnt 0 nunits ;;
    match r with
    | Some p => iunlock ;; ret (p + 1)
    | None =>
      match more with
      | O => iunlock ;; panic "Enomem"%string
      | S more =>
        e <- morecore nunits ;;
        if e =? 0 then qmalloc_again more nunits else iunlock ;; panic "Enomem"%string
      end
    end
  end.

Definition qmalloc (nbytes : Z) : M Heap (option Z) :=
  if nbytes =? 0 then ret None
  else
    let nunits := NUNITS nbytes in
    q <- (if nunits <=? NQUICK then quick_loop (Z.to_nat (if nunits >? Mult then Mult else 1)) nunits else ret None) ;;
    match q with
    | Some v => ret (Some v)
    | None => ilock ;; v <- qmalloc_again 3 nunits ;; ret (Some v)
    end.

Definition malloc (n : Z) : M Heap (option Z) :=
  v <- qmalloc n ;;
  setmalloctag v ;;
  match v with Some x => memset x 0 n | None => ret () end ;;
  ret v.
Definition mallocz (n : Z) (clr : bool) : M Heap (option Z) :=
  v <- qmalloc n ;;
  setmalloctag v ;;
  match v with Some x => if clr then memset x 0 n else ret () | None => ret () end ;;
  ret v.

Definition realloc (ap : option Z) (n : Z) : M Heap (option Z) :=
  if n =? 0 then free ap ;; ret None
  else
    match ap with
    | None => malloc n
    | Some v =>
      let p := v - 1 in
      h <- gets id ;;
      let ounits := size h p in
      if (ounits =? 0) || bool_decide (next h p <> None) then panic "realloc: corrupt allocation arena"%string
      else if bytes h (tag_at (p + ounits)) =? FTAG then panic "realloc: already free"%string
      else if negb (bytes h (tag_at (p + ounits)) =? ATAG) then panic "realloc: user overflow"%string
      else
        let nunits := NUNITS n in
        if ounits >=? nunits then ret ap
        else
          ilock ;;
          find_seg (fun s => (p >=? base s) && (p <? end_ s) && (p + ounits =? tailptr s) && (p + nunits <=? end_ s)) ;;
          m <- gets mseg ;;
          match m with
          | Some _ =>
            modify (set_size p nunits) ;;
            oncur (set_tailptr (p + nunits)) ;;
            iunlock ;;
            set_tag (p + nunits) ATAG ;;
            ret ap
          | None =>
            iunlock ;;
            w <- malloc n ;;
            let osize := u32 ((ounits - 1) * Unitsz) in
            let osize := if n <? osize then n else osize in
            match w with Some x => memmove x v osize | None => undef "nil"%string end ;;
            free ap ;;
            ret w
          end
    end.

(** ** Aligned *)
(** The first block of a quick list that is aligned. *)
Fixpoint quick_align (fuel : nat) (nunits align : Z) (prev : option Z) : M Heap (option Z) :=
  match fuel with
  | O => undef "fuel"%string
  | S fuel =>
    h <- gets id ;;
    match (match prev with None => quicklist h nunits | Some q => next h q end) with
    | None => ret None
    | Some p =>
      if ALIGNED (p + 1) align then
        match prev with
        | None => modify (set_quick nunits (next h p))
        | Some q => modify (set_next q (next h p))
        end ;;
        modify (set_next p None) ;;
        set_tag (p + size h p) ATAG ;;
        ret (Some (p + 1))
      else quick_align fuel nunits align (Some p)
    end
  end.
Definition quick_fuel (h : Heap) : nat := S (foldr (fun s n => frag_fuel s + n)%nat 0%nat (msegs h)).

(** From [Another:] on: a tail with room for the block, aligned. *)
Fixpoint tail_align (cnt k : nat) (nunits align : Z) : M Heap (option Z) :=
  match cnt with
  | O => modify (set_mseg None) ;; ret None
  | S cnt =>
    modify (set_mseg (Some k)) ;;
    s <- cur ;;
    if negb (room nunits s) then tail_align cnt (S k) nunits align
    else
      let p := ALIGNHDR (tailptr s + 1) align in
      if negb (p =? tailptr s + 1) then
        let naligned := HOWMANY align Unitsz in
        if end_ s - tailptr s <? nunits + naligned then tail_align cnt (S k) nunits align
        else
          r <- tailalloc (p - tailptr s - 1) ;;
          p <- tailalloc nunits ;;
          qfreeinternal (Some (r + 1)) false ;;
          ret (Some p)
      else
        p <- tailalloc nunits ;; ret (Some p)
  end.

(** [p] has been taken off the list of fragments: what is before and after the block is freed. *)
Definition carve (p nunits align : Z) : M Heap Z :=
  p <- (if ALIGNED (p + 1) align then ret p
        else
          let r := p in
          let p := ALIGNHDR (p + 1) align - 1 in
          let n := p - r in
          modify (fun h => set_size p (size h r - n) h) ;;
          modify (set_size r n) ;;
          modify (set_next r None) ;;
          qfreeinternal (Some (r + 1)) false ;;
          ret p) ;;
  n <- gets (fun h => size h p) ;;
  (if (n >? nunits) && (n - nunits >? Mult) then
     let r := p + nunits in
     modify (fun h => set_size r (size h p - nunits) h) ;;
     modify (set_next r None) ;;
     qfreeinternal (Some (r + 1)) false ;;
     modify (set_size p nunits)
   else ret ()) ;;
  modify (set_next p None) ;;
  n <- gets (fun h => size h p) ;;
  set_tag (p + n) ATAG ;;
  ret p.

Fixpoint align_loop (fuel : nat) (nunits align prev : Z) : M Heap (option Z) :=
  match fuel with
  | O => undef "fuel"%string
  | S fuel =>
    h <- gets id ;;
    match next h prev with
    | None => undef "nil"%string
    | Some p =>
      if (size h p <? nunits) || (negb (ALIGNED (p + 1) align) && (size h p <? nunits + HOWMANY align Unitsz)) then
        s <- cur ;;
        if bool_decide (Some p = rover s) then ret None else align_loop fuel nunits align p
      else
        unlink prev p ;;
        forget_max (size h p) ;;
        p <- carve p nunits align ;;
        ret (Some p)
    end
  end.
Fixpoint hard_way (cnt k : nat) (nunits align : Z) : M Heap (option Z) :=
  match cnt with
  | O => modify (set_mseg None) ;; ret None
  | S cnt =>
    modify (set_mseg (Some k)) ;;
    s <- cur ;;
    match rover s with
    | None => hard_way cnt (S k) nunits align
    | Some prev =>
      r <- align_loop (frag_fuel s) nunits align prev ;;
      match r with Some p => ret (Some p) | None => hard_way cnt (S k) nunits align end
    end
  end.

Fixpoint qmallocalign_again (more : nat) (nunits align : Z) : M Heap Z :=
  cnt <- gets (fun h => List.length (msegs h)) ;;
  r <- tail_align cnt 0 nunits align ;;
  match r with
  | Some p => iunlock ;; set_tag (p + nunits) ATAG ;; ret (p + 1)
  | None =>
    r <- hard_way cnt 0 nunits align ;;
    match r with
    | Some p => iunlock ;; ret (p + 1)
    | None =>
      match more with
      | O => iunlock ;; panic "Enomem"%string
      | S more =>
        e <- morecore (nunits + HOWMANY align Unitsz) ;;
        if e =? 0 then qmallocalign_again more nunits align else iunlock ;; panic "Enomem"%string
      end
    end
  end.

Definition qmallocalign (nbytes align : Z) : M Heap (option Z) :=
  if nbytes =? 0 then ret None
  else if negb (ISPOWEROF2 align) then panic "qmallocalign"%string
  else if align <=? Unitsz then malloc nbytes
  else
    let nunits := NUNITS nbytes in
    q <- (if nunits <=? NQUICK then h <- gets id ;; quick_align (quick_fuel h) nunits align None else ret None) ;;
    match q with
    | Some v => ret (Some v)
    | None => ilock ;; v <- qmallocalign_again 3 nunits align ;; ret (Some v)
    end.

Definition mallocalign (nbytes align offset span : Z) : M Heap (option Z) :=
  let inspan := negb (span =? 0) && (align <=? span) in
  if inspan && (nbytes >? span) then ret None
  else
    let '(align, span) := if inspan then (span, 0) else (align, span) in
    if negb (offset =? 0) || negb (span =? 0) then panic "mallocalign: off/span not implemented."%string
    else
      v <- qmallocalign nbytes align ;;
      setmalloctag v ;;
      match v with
      | None => undef "nil"%string
      | Some x =>
        if negb (Z.land (x * Unitsz) (align - 1) =? 0) then panic "mallocalign: not aligned"%string
        else memset x 0 nbytes ;; ret v
      end.
End Qmalloc.

(** ** The blocks of the arena *)
(** A block is in use, on a quick list, a fragment, or held by the routine that is at work on it, which may leave its header in any state. *)
Inductive Kind := Used | Quick | Frag | Held.
#[export] Instance Kind_eq_dec : EqDecision Kind.
Proof. solve_decision. Defined.
Abbreviation Blocks := (gmap Z (Kind * Z)) (only parsing).

Definition segs_ok (l : list MSeg) : Prop :=
  (forall k s, l !! k = Some s -> base s <= tailptr s <= end_ s /\ end_ s - base s < 2 ^ 32) /\
  (forall j k s t, l !! j = Some s -> l !! k = Some t -> j <> k -> end_ s <= base t \/ end_ t <= base s).
(** The blocks are what has been taken off the tails: each lies in one segment, no two overlap, and nothing is left over. *)
Record arena (l : list MSeg) (K : Blocks) : Prop := {
  ar_segs : segs_ok l;
  ar_block : forall p k n, K !! p = Some (k, n) -> 1 <= n /\ exists j s, l !! j = Some s /\ base s <= p /\ p + n <= tailptr s;
  ar_disj : forall p q k m n o, K !! p = Some (k, n) -> K !! q = Some (m, o) -> p <> q -> p + n <= q \/ q + o <= p;
  ar_cover : forall j s a, l !! j = Some s -> base s <= a < tailptr s -> exists p k n, K !! p = Some (k, n) /\ p <= a < p + n
}.

(** From [a] along the links through [l] to [b]. *)
Fixpoint path (nx : Z -> option Z) (a : option Z) (l : list Z) (b : option Z) : Prop :=
  match l with [] => a = b | x :: l => a = Some x /\ path nx (nx x) l b end.
Definition quick_ok (nx ql : Z -> option Z) (K : Blocks) : Prop :=
  forall i, exists l, path nx (ql i) l None /\ NoDup l /\ forall p, p ∈ l <-> K !! p = Some (Quick, i).
Definition frag_in (K : Blocks) (s : MSeg) (p : Z) : Prop := exists n, K !! p = Some (Frag, n) /\ base s <= p < end_ s.
Definition rover_ok (nx : Z -> option Z) (l : list MSeg) (K : Blocks) : Prop :=
  forall j s, l !! j = Some s -> exists f, path nx (rover s) f (rover s) /\ NoDup f /\ (rover s <> None -> f <> []) /\ forall p, p ∈ f <-> frag_in K s p.
Definition header_ok (nx : Z -> option Z) (sz : Z -> Z) (K : Blocks) : Prop :=
  forall p k n, K !! p = Some (k, n) -> k <> Held -> sz p = n /\ (k = Used -> nx p = None).
Record inv (h : Heap) (K : Blocks) : Prop := {
  i_arena : arena (msegs h) K;
  i_header : header_ok (next h) (size h) K;
  i_quick : quick_ok (next h) (quicklist h) K;
  i_rover : rover_ok (next h) (msegs h) K
}.

(** *** Links *)
Lemma path_frame nx nx' a l b : (forall x, x ∈ l -> nx' x = nx x) -> path nx a l b -> path nx' a l b.
Proof.
  revert a. induction l as [|x l IH]; intros a H; [done|]. intros [-> Hp]. split; [done|]. rewrite H by (by left). apply IH; [|done].
  intros y Hy. apply H. by right.
Qed.
Lemma path_app nx a l1 l2 b : path nx a (l1 ++ l2) b <-> exists c, path nx a l1 c /\ path nx c l2 b.
Proof.
  revert a. induction l1 as [|x l1 IH]; intros a; cbn; [split; [by exists a|by intros (c & -> & H)]|].
  rewrite IH. split; [intros (-> & c & H1 & H2); by exists c|intros (c & (-> & H1) & H2); split; [done|by exists c]].
Qed.
(** A circle from any of its members. *)
Lemma path_rotate nx r l1 x l2 : path nx r (l1 ++ x :: l2) r -> path nx (Some x) (x :: l2 ++ l1) (Some x).
Proof.
  intros (c & H1 & -> & H2)%path_app. split; [done|]. apply path_app. by exists r.
Qed.

(** *** What does not matter *)
Definition geo (s : MSeg) := (base s, end_ s, tailptr s).
Lemma alter_Some {A} (f : A -> A) k (l : list A) j x : alter f k l !! j = Some x <-> exists y, l !! j = Some y /\ x = (if decide (j = k) then f y else y).
Proof.
  rewrite list_lookup_alter. destruct (decide (j = k)) as [->|Hn].
  - destruct (decide (k = k)) as [_|?]; [|done]. destruct (l !! k) as [y|]; cbn.
    + split; [intros H; exists y; split; congruence|intros (z & ? & ->); congruence].
    + split; [discriminate|intros (? & ? & _); discriminate].
  - rewrite decide_False by congruence. split; [by exists x|intros (z & ? & ->); congruence].
Qed.
Lemma arena_alter f k l K : (forall s, geo (f s) = geo s) -> arena l K -> arena (alter f k l) K.
Proof.
  intros Hf.
  assert (forall j s, alter f k l !! j = Some s -> exists t, l !! j = Some t /\ base s = base t /\ end_ s = end_ t /\ tailptr s = tailptr t) as H1.
  { intros j s (t & E & ->)%alter_Some. exists t. split; [done|]. destruct (decide _); [|done]. specialize (Hf t). unfold geo in Hf. by injection Hf. }
  assert (forall j t, l !! j = Some t -> exists s, alter f k l !! j = Some s /\ base s = base t /\ end_ s = end_ t /\ tailptr s = tailptr t) as H2.
  { intros j t E. exists (if decide (j = k) then f t else t). split; [apply alter_Some; by exists t|]. destruct (decide _); [|done]. specialize (Hf t). unfold geo in Hf. by injection Hf. }
  intros [[S1 S2] B D C]. split; [split| |done|].
  - intros j s (t & E & -> & -> & ->)%H1. by eapply S1.
  - intros i j s t (s' & Es & -> & -> & _)%H1 (t' & Et & -> & -> & _)%H1. by eapply S2.
  - intros p m n Hp. destruct (B _ _ _ Hp) as (Hn & j & t & E & Hb). split; [done|]. destruct (H2 _ _ E) as (s & Es & E1 & _ & E3).
    exists j, s. rewrite E1, E3. done.
  - intros j s a (t & E & -> & _ & ->)%H1. by eapply C.
Qed.
Lemma arena_kind l K p k k' n : K !! p = Some (k, n) -> arena l K -> arena l (<[p := (k', n)]> K).
Proof.
  intros Hp [S B D C].
  assert (forall q m o, <[p := (k', n)]> K !! q = Some (m, o) -> exists m', K !! q = Some (m', o)) as H.
  { intros q m o. destruct (decide (q = p)) as [->|]; [rewrite lookup_insert_eq; intros [=<- <-]; by exists k|rewrite lookup_insert_ne by done; by exists m]. }
  split; [done| | |].
  - intros q m o [m' Hq]%H. by eapply B.
  - intros q1 q2 k1 k2 n1 n2 [? H1]%H [? H2]%H. by eapply D.
  - intros j s a Hs Ha. destruct (C j s a Hs Ha) as (q & m & o & Hq & Hqa). destruct (decide (q = p)) as [->|Hn].
    + rewrite Hp in Hq. injection Hq as <- <-. exists p, k', n. by rewrite lookup_insert_eq.
    + exists q, m, o. by rewrite lookup_insert_ne.
Qed.
Lemma quick_frame nx nx' ql K K' : (forall p n, K' !! p = Some (Quick, n) <-> K !! p = Some (Quick, n)) ->
  (forall p n, K !! p = Some (Quick, n) -> nx' p = nx p) -> quick_ok nx ql K -> quick_ok nx' ql K'.
Proof.
  intros HK Hn H i. destruct (H i) as (l & Hp & Hd & Hl). exists l. split; [|split; [done|]].
  - eapply path_frame, Hp. intros x Hx%Hl. by eapply Hn.
  - intros p. rewrite HK. apply Hl.
Qed.
Lemma rover_frame nx nx' l l' K K' : (forall j s', l' !! j = Some s' -> exists s, l !! j = Some s /\ base s' = base s /\ end_ s' = end_ s /\ rover s' = rover s) ->
  (forall p, (exists n, K' !! p = Some (Frag, n)) <-> (exists n, K !! p = Some (Frag, n))) ->
  (forall p n, K !! p = Some (Frag, n) -> nx' p = nx p) -> rover_ok nx l K -> rover_ok nx' l' K'.
Proof.
  intros HL HK Hn H j s' Hs'. destruct (HL j s' Hs') as (s & Hs & E1 & E2 & E3). destruct (H j s Hs) as (f & Hp & Hd & He & Hf).
  exists f. rewrite E3. split; [|split; [done|split; [done|]]].
  - eapply path_frame, Hp. intros x (n & Hx & _)%Hf. by eapply Hn.
  - intros p. rewrite Hf. unfold frag_in. rewrite E1, E2. split; intros (n & Hx & Hb).
    + destruct (proj2 (HK p)) as [m Hm]; [by exists n|by exists m].
    + destruct (proj1 (HK p)) as [m Hm]; [by exists n|by exists m].
Qed.

(** *** Blocks come and go *)
Lemma arena_seg l K j s p k n : arena l K -> l !! j = Some s -> K !! p = Some (k, n) -> base s <= p < end_ s -> 1 <= n /\ p + n <= tailptr s.
Proof.
  intros [[S1 S2] B _ _] Hs Hp Hb. destruct (B _ _ _ Hp) as (Hn & i & t & Ht & Hb1 & Hb2). split; [done|].
  destruct (decide (i = j)) as [->|Hij]; [congruence|]. pose proof (S1 _ _ Ht). destruct (S2 _ _ _ _ Ht Hs Hij); lia.
Qed.
Lemma arena_beyond l K j s p k n : arena l K -> l !! j = Some s -> K !! p = Some (k, n) -> p + n <= tailptr s \/ end_ s <= p \/ (p + n <= base s).
Proof.
  intros [[S1 S2] B _ _] Hs Hp. destruct (B _ _ _ Hp) as (Hn & i & t & Ht & Hb1 & Hb2).
  destruct (decide (i = j)) as [->|Hij]; [left; congruence|]. pose proof (S1 _ _ Ht). destruct (S2 _ _ _ _ Ht Hs Hij); lia.
Qed.
Lemma segs_tail l j x : segs_ok l -> (forall s, l !! j = Some s -> base s <= x <= end_ s) -> segs_ok (alter (set_tailptr x) j l).
Proof.
  intros [S1 S2] Hx. split.
  - intros i s (t & Ht & ->)%alter_Some. pose proof (S1 _ _ Ht). destruct (decide (i = j)) as [->|]; [|done]. specialize (Hx _ Ht). cbn. lia.
  - intros i k s t (s' & Hs & ->)%alter_Some (t' & Ht & ->)%alter_Some Hn. pose proof (S2 _ _ _ _ Hs Ht Hn). by destruct (decide _), (decide _).
Qed.
Lemma arena_tail l K j s n k : arena l K -> l !! j = Some s -> 1 <= n <= end_ s - tailptr s ->
  K !! tailptr s = None /\ arena (alter (set_tailptr (tailptr s + n)) j l) (<[tailptr s := (k, n)]> K).
Proof.
  intros HA Hs Hn. pose proof HA as [S B D C]. pose proof (proj1 S _ _ Hs) as Hb.
  assert (K !! tailptr s = None) as Hnone.
  { destruct (K !! tailptr s) as [[m o]|] eqn:E; [|done]. destruct (arena_seg _ _ _ _ _ _ _ HA Hs E); lia. }
  split; [done|]. split.
  - apply segs_tail; [done|]. intros s' E. assert (s' = s) as -> by congruence. lia.
  - intros p m o. destruct (decide (p = tailptr s)) as [->|Hne].
    + rewrite lookup_insert_eq. intros [=<- <-]. split; [lia|]. exists j, (set_tailptr (tailptr s + n) s). split; [apply alter_Some; exists s; by rewrite decide_True|cbn; lia].
    + rewrite lookup_insert_ne by done. intros Hp. destruct (B _ _ _ Hp) as (Ho & i & t & Ht & Hb1 & Hb2). split; [done|].
      exists i, (if decide (i = j) then set_tailptr (tailptr s + n) t else t). split; [apply alter_Some; by exists t|].
      destruct (decide (i = j)) as [->|]; [|done]. assert (t = s) as -> by congruence. cbn. lia.
  - assert (forall q m o, K !! q = Some (m, o) -> q + o <= tailptr s \/ tailptr s + n <= q) as Hd.
    { intros q m o Hq. destruct (arena_beyond _ _ _ _ _ _ _ HA Hs Hq) as [|[|]]; lia. }
    intros p q m o x y. destruct (decide (p = tailptr s)) as [->|Hp]; destruct (decide (q = tailptr s)) as [->|Hq];
      rewrite ?lookup_insert_eq, ?lookup_insert_ne by done; [done|intros [=<- <-] H _|intros H [=<- <-] _|by apply D].
    + specialize (Hd _ _ _ H). lia.
    + specialize (Hd _ _ _ H). lia.
  - intros i t a (t' & Ht & ->)%alter_Some Ha.
    assert (base t' <= a < tailptr t' \/ tailptr s <= a < tailptr s + n) as [Hold|Hnew].
    { destruct (decide (i = j)) as [->|]; [|by left]. assert (t' = s) as -> by congruence. cbn in Ha. lia. }
    + destruct (C i t' a Ht Hold) as (p & m & o & Hp & Hpa). exists p, m, o. rewrite lookup_insert_ne; [done|congruence].
    + exists (tailptr s), k, n. by rewrite lookup_insert_eq.
Qed.
Lemma arena_untail l K j s p k n : arena l K -> l !! j = Some s -> K !! p = Some (k, n) -> base s <= p -> p + n = tailptr s ->
  arena (alter (set_tailptr p) j l) (delete p K).
Proof.
  intros HA Hs Hp Hb Ht. pose proof HA as [S B D C]. pose proof (proj1 S _ _ Hs) as Hbs. destruct (B _ _ _ Hp) as [Hn _]. split.
  - apply segs_tail; [done|]. intros s' E. assert (s' = s) as -> by congruence. lia.
  - intros q m o [Hq Hqo]%lookup_delete_Some. destruct (B _ _ _ Hqo) as (Ho & i & t & Hti & Hb1 & Hb2). split; [done|].
    exists i, (if decide (i = j) then set_tailptr p t else t). split; [apply alter_Some; by exists t|].
    destruct (decide (i = j)) as [->|]; [|done]. assert (t = s) as -> by congruence. cbn. destruct (D _ _ _ _ _ _ Hp Hqo); lia.
  - intros q1 q2 m1 m2 o1 o2 [_ H1]%lookup_delete_Some [_ H2]%lookup_delete_Some. by eapply D.
  - intros i t a (t' & Hti & ->)%alter_Some Ha.
    assert (base t' <= a < tailptr t' /\ (a < p \/ end_ s <= a \/ a < base s)) as [Hold Hne].
    { pose proof (proj1 S _ _ Hti). destruct (decide (i = j)) as [->|Hij]; [assert (t' = s) as -> by congruence; cbn in Ha; lia|].
      split; [done|]. destruct (proj2 S _ _ _ _ Hti Hs Hij); lia. }
    destruct (C i t' a Hti Hold) as (q & m & o & Hq & Hqa). exists q, m, o. rewrite lookup_delete_ne; [done|].
    intros <-. rewrite Hp in Hq. injection Hq as <- <-. lia.
Qed.
Lemma arena_split l K p k n k1 k2 m : arena l K -> K !! p = Some (k, n) -> 0 < m < n ->
  K !! (p + m) = None /\ arena l (<[p + m := (k2, n - m)]> (<[p := (k1, m)]> K)).
Proof.
  intros HA Hp Hm. pose proof HA as [S B D C].
  assert (K !! (p + m) = None) as Hnone.
  { destruct (K !! (p + m)) as [[x o]|] eqn:E; [|done]. destruct (B _ _ _ E). destruct (D _ _ _ _ _ _ Hp E); lia. }
  split; [done|].
  assert (forall q x o, <[p + m := (k2, n - m)]> (<[p := (k1, m)]> K) !! q = Some (x, o) ->
    exists q' x' o', K !! q' = Some (x', o') /\ q' <= q /\ q + o <= q' + o' /\ 1 <= o /\
      (q' <> p /\ q = q' \/ q' = p /\ (q = p /\ o = m \/ q = p + m /\ o = n - m))) as H.
  { intros q x o [[<- [=<- <-]]|[Hne [[<- [=<- <-]]|[Hq Hqo]]%lookup_insert_Some]]%lookup_insert_Some.
    - exists p, k, n. split; [done|]. split; [lia|]. split; [lia|]. split; [lia|]. right. split; [done|]. by right.
    - exists p, k, n. split; [done|]. split; [lia|]. split; [lia|]. split; [lia|]. right. split; [done|]. by left.
    - exists q, x, o. destruct (B _ _ _ Hqo). split; [done|]. split; [lia|]. split; [lia|]. split; [lia|]. by left. }
  split; [done| | |].
  - intros q x o (q' & x' & o' & Hq & H1 & H2 & H3 & _)%H. split; [done|]. destruct (B _ _ _ Hq) as (_ & j & s & Hs & Hb1 & Hb2). exists j, s. split; [done|lia].
  - intros q1 q2 x1 x2 o1 o2 (a & xa & oa & Ha & A1 & A2 & A3 & A4)%H (b & xb & ob & Hb & B1 & B2 & B3 & B4)%H Hne.
    destruct (decide (a = b)) as [->|Hab]; [|destruct (D _ _ _ _ _ _ Ha Hb Hab); lia].
    destruct A4 as [[? ->]|[-> A4]]; destruct B4 as [[? ->]|[? B4]]; try done. lia.
  - intros j s a Hs Ha. destruct (C j s a Hs Ha) as (q & x & o & Hq & Hqa). destruct (decide (q = p)) as [->|Hne].
    + rewrite Hp in Hq. injection Hq as <- <-. destruct (Z_lt_dec a (p + m)).
      * exists p, k1, m. rewrite lookup_insert_ne by lia. rewrite lookup_insert_eq. split; [done|lia].
      * exists (p + m), k2, (n - m). rewrite lookup_insert_eq. split; [done|lia].
    + exists q, x, o. rewrite lookup_insert_ne by congruence. by rewrite lookup_insert_ne by done.
Qed.
Lemma arena_merge l K j s p k n k2 m k' : arena l K -> l !! j = Some s -> base s <= p -> K !! p = Some (k, n) -> K !! (p + n) = Some (k2, m) -> p + n < end_ s ->
  arena l (<[p := (k', n + m)]> (delete (p + n) K)).
Proof.
  intros HA Hs Hbs Hp Hq He. pose proof HA as [S B D C]. destruct (B _ _ _ Hp) as [Hn _]. 
  destruct (arena_seg _ _ _ _ _ _ _ HA Hs Hq ltac:(lia)) as [Hm Ht].
  split; [done| | |].
  - intros q x o [[<- [=<- <-]]|[Hne [Hne2 Hqo]%lookup_delete_Some]]%lookup_insert_Some; [|by eapply B].
    split; [lia|]. exists j, s. split; [done|lia].
  - assert (forall q x o, K !! q = Some (x, o) -> q <> p -> q <> p + n -> q + o <= p \/ p + (n + m) <= q) as Hd.
    { intros q x o Hqo N1 N2. destruct (B _ _ _ Hqo). destruct (D _ _ _ _ _ _ Hp Hqo); [done| |lia]. destruct (D _ _ _ _ _ _ Hq Hqo); [done|lia|lia]. }
    intros q1 q2 x1 x2 o1 o2 [[<- [=<- <-]]|[N1 [N2 H1]%lookup_delete_Some]]%lookup_insert_Some [[<- [=<- <-]]|[N3 [N4 H2]%lookup_delete_Some]]%lookup_insert_Some Hne; [done| | |by eapply D].
    + destruct (Hd _ _ _ H2); [done|done|lia|lia].
    + destruct (Hd _ _ _ H1); [done|done|lia|lia].
  - intros i t a Hti Ha. destruct (C i t a Hti Ha) as (q & x & o & Hqo & Hqa).
    destruct (decide (q = p)) as [->|N1]; [rewrite Hp in Hqo; injection Hqo as <- <-; exists p, k', (n + m); rewrite lookup_insert_eq; split; [done|lia]|].
    destruct (decide (q = p + n)) as [->|N2]; [rewrite Hq in Hqo; injection Hqo as <- <-; exists p, k', (n + m); rewrite lookup_insert_eq; split; [done|lia]|].
    exists q, x, o. rewrite lookup_insert_ne by done. by rewrite lookup_delete_ne by done.
Qed.

(** *** The lists change *)
Lemma fn_eq {A} (f : Z -> A) k x : (<[k := x]> f) k = x.
Proof. apply fn_lookup_insert. Qed.
Lemma fn_ne {A} (f : Z -> A) k x y : k <> y -> (<[k := x]> f) y = f y.
Proof. apply fn_lookup_insert_ne. Qed.

Lemma elem_mid (p : Z) l1 l2 : p ∈ l1 ++ p :: l2.
Proof. apply elem_of_app. right. by left. Qed.

Lemma quick_push nx ql (K K' : Blocks) p n : (forall i, K !! p <> Some (Quick, i)) ->
  (forall q i, K' !! q = Some (Quick, i) <-> K !! q = Some (Quick, i) \/ (q = p /\ i = n)) ->
  quick_ok nx ql K -> quick_ok (<[p := ql n]> nx) (<[n := Some p]> ql) K'.
Proof.
  intros Hp HK H i. destruct (H i) as (l & Hpath & Hd & Hl).
  assert (forall x, x ∈ l -> x <> p) as Hne by (intros x Hx%Hl ->; by eapply Hp).
  assert (path (<[p := ql n]> nx) (ql i) l None) as Hpath'.
  { eapply path_frame, Hpath. intros x Hx. apply fn_ne. intros <-. by eapply Hne. }
  destruct (decide (i = n)) as [->|Hin].
  - exists (p :: l). split; [rewrite fn_eq; cbn; rewrite fn_eq; done|]. split; [constructor; [intros Hx; by apply (Hne p)|done]|].
    intros q. rewrite HK, elem_of_cons, Hl. intuition congruence.
  - exists l. split; [by rewrite fn_ne|]. split; [done|]. intros q. rewrite HK, Hl. intuition congruence.
Qed.
(** The block [p], which is found from [prev] or is the first, leaves its list. *)
Lemma quick_pop nx ql (K K' : Blocks) p n l1 l2 : path nx (ql n) (l1 ++ p :: l2) None -> NoDup (l1 ++ p :: l2) -> (forall q, q ∈ l1 ++ p :: l2 <-> K !! q = Some (Quick, n)) ->
  (forall q i, K' !! q = Some (Quick, i) <-> K !! q = Some (Quick, i) /\ q <> p) ->
  quick_ok nx ql K ->
  match last l1 with
  | None => quick_ok nx (<[n := nx p]> ql) K'
  | Some prev => quick_ok (<[prev := nx p]> nx) ql K'
  end.
Proof.
  intros Hpath Hd Hl HK H. pose proof Hd as (Hd1 & Hd2 & Hd3)%NoDup_app. apply path_app in Hpath as (c & H1 & -> & H2).
  inversion Hd3 as [|? ? Hp2 Hd4]; subst.
  assert (forall q, q ∈ l1 ++ l2 <-> K' !! q = Some (Quick, n)) as Hl'.
  { intros q. rewrite HK, <- Hl, !elem_of_app, elem_of_cons. split; [|tauto]. intros Hq. split; [tauto|]. intros ->. destruct Hq as [Hq|Hq]; [apply (Hd2 _ Hq); by left|done]. }
  assert (NoDup (l1 ++ l2)) as Hd' by (apply NoDup_app; split; [done|]; split; [intros x Hx1 Hx2; apply (Hd2 x Hx1); by right|done]).
  destruct (last l1) as [prev|] eqn:El.
  - apply last_Some in El as [l0 ->]. apply path_app in H1 as (c & H1 & -> & E). cbn in E.
    assert (forall x, x ∈ l0 ++ l2 -> x <> prev) as Hne.
    { intros x Hx ->. rewrite <- app_assoc in Hd'. apply NoDup_app in Hd' as (_ & Hx1 & Hx2). apply elem_of_app in Hx as [Hx|Hx]; [apply (Hx1 _ Hx); by left|by inversion Hx2]. }
    intros i. destruct (decide (i = n)) as [->|Hin].
    + exists ((l0 ++ [prev]) ++ l2). split; [|split; [done|exact Hl']]. rewrite <- app_assoc. apply path_app. exists (Some prev). split.
      * eapply path_frame, H1. intros x Hx. apply fn_ne. intros <-. apply (Hne prev); [apply elem_of_app; by left|done].
      * split; [done|]. rewrite fn_eq. eapply path_frame, H2. intros x Hx. apply fn_ne. intros <-. apply (Hne prev); [apply elem_of_app; by right|done].
    + destruct (H i) as (l & Hpl & Hdl & Hll). exists l. split; [|split; [done|]].
      * eapply path_frame, Hpl. intros x Hx%Hll. apply fn_ne. intros <-. assert (K !! prev = Some (Quick, n)) as Hx' by (apply Hl, elem_of_app; left; apply elem_mid). congruence.
      * intros q. rewrite Hll, HK. split; [|tauto]. intros Hq. split; [done|]. intros ->. assert (K !! p = Some (Quick, n)) by apply Hl, elem_mid. congruence.
  - apply last_None in El as ->. cbn in *. intros i. destruct (decide (i = n)) as [->|Hin].
    + exists l2. rewrite fn_eq. split; [exact H2|]. split; [done|exact Hl'].
    + destruct (H i) as (l & Hpl & Hdl & Hll). exists l. rewrite fn_ne by done. split; [done|split; [done|]].
      intros q. rewrite Hll, HK. split; [|tauto]. intros Hq. split; [done|]. intros ->. assert (K !! p = Some (Quick, n)) by (apply Hl; by left). congruence.
Qed.

(** The segments other than the [j]-th keep their circle. *)
Definition frag_other (l : list MSeg) (K K' : Blocks) (j : nat) : Prop :=
  forall i s p, l !! i = Some s -> i <> j -> frag_in K' s p <-> frag_in K s p.
Lemma frag_other_insert l (K : Blocks) j s p x : segs_ok l -> l !! j = Some s -> base s <= p < end_ s -> frag_other l K (<[p := x]> K) j.
Proof.
  intros [_ S2] Hs Hb i t q Ht Hij. unfold frag_in. destruct (decide (q = p)) as [->|Hne].
  - destruct (S2 _ _ _ _ Ht Hs Hij); split; intros (m & _ & Hq); lia.
  - by setoid_rewrite lookup_insert_ne; [|done].
Qed.
Lemma rover_change nx nx' l g j s (K K' : Blocks) f' : rover_ok nx l K -> l !! j = Some s ->
  (forall i t p, l !! i = Some t -> i <> j -> frag_in K t p -> nx' p = nx p) -> frag_other l K K' j ->
  base (g s) = base s -> end_ (g s) = end_ s ->
  path nx' (rover (g s)) f' (rover (g s)) -> NoDup f' -> (rover (g s) <> None -> f' <> []) -> (forall p, p ∈ f' <-> frag_in K' s p) ->
  rover_ok nx' (alter g j l) K'.
Proof.
  intros H Hs Hnx Ho E1 E2 P1 P2 P3 P4 i t' (t & Ht & ->)%alter_Some. destruct (decide (i = j)) as [->|Hij].
  - assert (t = s) as -> by congruence. exists f'. split; [done|]. split; [done|]. split; [done|]. intros p. rewrite P4. unfold frag_in. by rewrite E1, E2.
  - destruct (H i t Ht) as (f & F1 & F2 & F3 & F4). exists f. split; [|split; [done|split; [done|]]].
    + eapply path_frame, F1. intros x Hx%F4. by eapply Hnx.
    + intros p. rewrite F4. symmetry. by eapply Ho.
Qed.
Lemma frag_apart l K i j s t p : segs_ok l -> l !! i = Some s -> l !! j = Some t -> i <> j -> frag_in K s p -> ~ (base t <= p < end_ t).
Proof. intros [_ S2] Hs Ht Hij (n & _ & Hb). destruct (S2 _ _ _ _ Hs Ht Hij); lia. Qed.

(** *** The state changes *)
Lemma inv_ext h h' (K : Blocks) : inv h K -> msegs h' = msegs h -> quicklist h' = quicklist h ->
  (forall p k n, K !! p = Some (k, n) -> k <> Held -> next h' p = next h p /\ size h' p = size h p) -> inv h' K.
Proof.
  intros [A H Q R] E1 E2 Hx. split; rewrite ?E1, ?E2.
  - exact A.
  - intros p k n Hp Hk. destruct (Hx _ _ _ Hp Hk) as [-> ->]. by apply (H p k n).
  - eapply quick_frame, Q; [done|]. intros p n Hp. by apply (Hx _ _ _ Hp).
  - eapply rover_frame, R; [intros j s Hs; by exists s|done|]. intros p n Hp. by apply (Hx _ _ _ Hp).
Qed.
Lemma inside_free l (K : Blocks) p k n a : arena l K -> K !! p = Some (k, n) -> p < a < p + n -> K !! a = None.
Proof.
  intros [S B D C] Hp Ha. destruct (K !! a) as [[m o]|] eqn:E; [|done]. destruct (B _ _ _ E). destruct (D _ _ _ _ _ _ Hp E); lia.
Qed.
(** What is written in a block of someone's. *)
Lemma inv_write `{Arena} h (K : Blocks) p k n m f : inv h K -> K !! p = Some (k, n) -> m <= (n - 1) * Unitsz -> inv (write (p + 1) m f h) K.
Proof.
  intros Hi Hp Hm. eapply inv_ext; [exact Hi|done|done|]. intros q k' n' Hq _. cbn.
  destruct (Z.leb_spec (p + 1) q); cbn [andb]; [|done]. destruct (Z.ltb_spec (q * Unitsz) ((p + 1) * Unitsz + m)); [|done]. exfalso. unfold Unitsz in *.
  rewrite (inside_free _ _ _ _ _ q (i_arena _ _ Hi) Hp) in Hq by lia. done.
Qed.

(** [p] is no more in use; nothing else has been, and what is on a quick list stays there. *)
Definition taken (K K' : Blocks) (p : Z) : Prop :=
  (forall q k n, k = Used \/ k = Held -> K' !! q = Some (k, n) <-> K !! q = Some (k, n) /\ q <> p) /\
  (forall q n, K !! q = Some (Quick, n) -> K' !! q = Some (Quick, n)).
(** The segments stay where they are; [mseg] and the lock do not change. *)
Definition like (h h' : Heap) : Prop :=
  mseg h' = mseg h /\ mainlock h' = mainlock h /\ length (msegs h') = length (msegs h) /\
  forall i s, msegs h !! i = Some s -> exists s', msegs h' !! i = Some s' /\ base s' = base s /\ end_ s' = end_ s.
Lemma like_refl h h' : mseg h' = mseg h -> mainlock h' = mainlock h -> msegs h' = msegs h -> like h h'.
Proof. intros E1 E2 E3. split; [done|]. split; [done|]. rewrite E3. split; [done|]. intros i s Hs. by exists s. Qed.
Lemma like_alter h h' g j : mseg h' = mseg h -> mainlock h' = mainlock h -> msegs h' = alter g j (msegs h) -> (forall s, base (g s) = base s /\ end_ (g s) = end_ s) -> like h h'.
Proof.
  intros E1 E2 E3 Hg. split; [done|]. split; [done|]. rewrite E3. split; [by rewrite length_alter|].
  intros i s Hs. exists (if decide (i = j) then g s else s). split; [apply alter_Some; by exists s|]. destruct (decide _); [apply Hg|done].
Qed.
Lemma like_trans h1 h2 h3 : like h1 h2 -> like h2 h3 -> like h1 h3.
Proof.
  intros (A1 & A2 & A3 & A4) (B1 & B2 & B3 & B4). split; [congruence|]. split; [congruence|]. split; [congruence|].
  intros i s Hs. destruct (A4 _ _ Hs) as (s' & Hs' & E1 & E2). destruct (B4 _ _ Hs') as (s'' & Hs'' & E3 & E4). exists s''. split; [done|]. by rewrite E3, E4.
Qed.
(** The bytes of other blocks. *)
Definition outside (p n : Z) (h h' : Heap) : Prop := forall a, a < p * Unitsz \/ (p + n) * Unitsz <= a -> bytes h' a = bytes h a.

(** *** Freeing *)
Section Free.
Context `{AR : Arena}.

Lemma wp_cur h j s (Q : MSeg -> Heap -> Prop) : mseg h = Some j -> msegs h !! j = Some s -> Q s h -> wp cur h Q.
Proof. intros E1 E2 K. unfold cur. wp_steps. change (id h) with h. rewrite E1. cbn. rewrite E2. exact K. Qed.
Lemma wp_oncur g h j (Q : () -> Heap -> Prop) : mseg h = Some j -> Q () (set_msegs (alter g j (msegs h)) h) -> wp (oncur g) h Q.
Proof. intros E K. unfold oncur. apply wp_modify. by rewrite E. Qed.

(** What is freed becomes part of the tail, of a quick list, of a fragment or a new fragment. *)
Lemma free_tail h (K : Blocks) j s p n : inv h K -> msegs h !! j = Some s -> base s <= p -> K !! p = Some (Used, n) -> p + n = tailptr s ->
  inv (set_msegs (alter (set_tailptr p) j (msegs h)) h) (delete p K).
Proof.
  intros [A H Q R] Hs Hb Hp Ht. split; cbn.
  - by eapply arena_untail.
  - intros q k m [_ Hq]%lookup_delete_Some. by apply H.
  - eapply quick_frame, Q; [|done]. intros q m. rewrite lookup_delete_Some. split; [tauto|]. intros Hq. split; [intros ->; congruence|done].
  - eapply rover_frame, R; [|intros q; split; intros [m Hq]; exists m|done].
    + intros i s' (t & Ht' & ->)%alter_Some. exists t. by destruct (decide _).
    + by apply lookup_delete_Some in Hq as [_ Hq].
    + apply lookup_delete_Some. split; [intros ->; congruence|done].
Qed.
Lemma insert_kind (K : Blocks) p k k' n n' q m o : K !! p = Some (k, n) -> m <> k -> m <> k' -> <[p := (k', n')]> K !! q = Some (m, o) <-> K !! q = Some (m, o).
Proof.
  intros Hp H1 H2. destruct (decide (p = q)) as [<-|Hn]; [rewrite lookup_insert_eq|by rewrite lookup_insert_ne].
  rewrite Hp. split; intros [=]; congruence.
Qed.
Lemma insert_kind_ex (K : Blocks) p k k' n q m : K !! p = Some (k, n) -> m <> k -> m <> k' -> (exists o, <[p := (k', n)]> K !! q = Some (m, o)) <-> exists o, K !! q = Some (m, o).
Proof. intros Hp H1 H2. split; intros [o Hq]; exists o; by apply (insert_kind K p k k' n n q m o Hp H1 H2). Qed.
Lemma header_kind nx nx' sz (K : Blocks) p k k' n : K !! p = Some (k, n) -> sz p = n -> (k' = Used -> nx' p = None) ->
  (forall q m, K !! q = Some (Used, m) -> q <> p -> nx' q = nx q) -> header_ok nx sz K -> header_ok nx' sz (<[p := (k', n)]> K).
Proof.
  intros Hp Hsz Hk Hnx H q m o [[<- [=<- <-]]|[Hne Hq]]%lookup_insert_Some Hm; [by split|]. destruct (H _ _ _ Hq Hm) as [E1 E2].
  split; [exact E1|]. intros ->. rewrite (Hnx q o) by done. by apply E2.
Qed.
Lemma free_quick h (K : Blocks) p n : inv h K -> K !! p = Some (Used, n) ->
  inv (set_quick n (Some p) (set_next p (quicklist h n) h)) (<[p := (Quick, n)]> K).
Proof.
  intros [A H Q R] Hp. split; cbn.
  - by eapply arena_kind.
  - eapply header_kind; [exact Hp|by apply (H p Used n)|done| |exact H]. intros q m _ Hne. by apply fn_ne.
  - eapply quick_push; [| |exact Q].
    + intros i Hq. congruence.
    + intros q i. destruct (decide (q = p)) as [->|Hne].
      * rewrite lookup_insert_eq. split; [intros [=<-]; by right|intros [Hq|[_ ->]]; [congruence|done]].
      * rewrite lookup_insert_ne by done. split; [by left|by intros [?|[? _]]].
  - eapply rover_frame, R; [intros j s Hs; by exists s| |].
    + intros q. by eapply insert_kind_ex.
    + intros q m Hq. apply fn_ne. congruence.
Qed.
(** A new fragment, when there is none. *)
Lemma free_first h (K : Blocks) j s p n : inv h K -> msegs h !! j = Some s -> base s <= p < end_ s -> K !! p = Some (Used, n) -> rover s = None ->
  inv (set_next p (Some p) (set_msegs (alter (set_rover (Some p)) j (msegs h)) h)) (<[p := (Frag, n)]> K).
Proof.
  intros [A H Q R] Hs Hb Hp Hr. split; cbn.
  - eapply arena_kind; [exact Hp|]. by apply arena_alter.
  - eapply header_kind; [exact Hp|by apply (H p Used n)|done| |exact H]. intros q m _ Hne. by apply fn_ne.
  - eapply quick_frame, Q; [intros q m; by apply (insert_kind K p Used Frag n n)|]. intros q m Hq. apply fn_ne. congruence.
  - destruct (R _ _ Hs) as (f & F1 & F2 & F3 & F4). rewrite Hr in F1. assert (f = []) as -> by (destruct f as [|x f]; [done|by destruct F1]).
    apply (rover_change (next h) _ _ _ _ s K _ [p]); try done.
    + intros i t q Ht Hij (m & Hq & _). apply fn_ne. congruence.
    + eapply frag_other_insert; [apply A|done|done].
    + split; [done|]. by rewrite fn_eq.
    + apply NoDup_singleton.
    + intros q. rewrite list_elem_of_singleton. split; [intros ->; exists n; by rewrite lookup_insert_eq|].
      intros (m & [[<- _]|[Hne Hq]]%lookup_insert_Some & Hqb); [done|]. exfalso. assert (q ∈ []) as Hin by (apply F4; by exists m). by apply not_elem_of_nil in Hin.
Qed.
(** A new fragment after [prev]. *)
Lemma free_after h (K : Blocks) j s p n prev : inv h K -> msegs h !! j = Some s -> base s <= p < end_ s -> K !! p = Some (Used, n) -> rover s = Some prev ->
  inv (set_next prev (Some p) (set_next p (next h prev) h)) (<[p := (Frag, n)]> K).
Proof.
  intros [A H Q R] Hs Hb Hp Hr. destruct (R _ _ Hs) as (f & F1 & F2 & F3 & F4). rewrite Hr in *.
  destruct f as [|x f]; [by destruct F3|]. destruct F1 as [[=<-] F1]. inversion F2 as [|? ? Hnin F2']; subst.
  assert (exists m, K !! prev = Some (Frag, m)) as [m Hprev] by (destruct (proj1 (F4 prev)) as (m & Hm & _); [by left|by exists m]).
  assert (forall q, q ∈ prev :: f -> q <> p) as Hfp by (intros q (o & Hq & _)%F4 ->; congruence).
  split; cbn.
  - by eapply arena_kind.
  - eapply header_kind; [exact Hp|by apply (H p Used n)|done| |exact H]. intros q o Hq Hne. rewrite !fn_ne by congruence. done.
  - eapply quick_frame, Q; [intros q o; by apply (insert_kind K p Used Frag n n)|]. intros q o Hq. rewrite !fn_ne by congruence. done.
  - assert (alter (fun s => s) j (msegs h) = msegs h) as El.
    { apply list_eq. intros i. rewrite list_lookup_alter. destruct (decide _) as [->|]; [|done]. by destruct (_ !! i). }
    rewrite <- El. apply (rover_change (next h) _ _ (fun s => s) _ s K _ (prev :: p :: f)); try done.
    + intros i t q Ht Hij Hq. pose proof Hq as (o & Hqo & _). rewrite !fn_ne; [done|congruence|].
      intros <-. eapply (frag_apart _ K i j t s prev (ar_segs _ _ A)); [done|done|done|done|]. destruct (proj1 (F4 prev)) as (_ & _ & ?); [by left|done].
    + eapply frag_other_insert; [apply A|done|done].
    + rewrite Hr. split; [done|]. rewrite fn_eq. split; [done|]. rewrite fn_ne by (apply Hfp; by left). rewrite fn_eq.
      eapply path_frame, F1. intros q Hq. rewrite !fn_ne; [done|intros <-; eapply Hfp; [by right|done]|intros <-; done].
    + assert (p ∉ prev :: f) as [Hp1 Hp2]%not_elem_of_cons by (intros Hin; by apply (Hfp p Hin)).
      constructor; [by intros [->|?]%elem_of_cons|]. by constructor.
    + intros q. assert (q ∈ prev :: p :: f <-> q = p \/ q ∈ prev :: f) as -> by (rewrite !elem_of_cons; tauto). rewrite F4. unfold frag_in.
      split; [intros [->|(o & Hq & Hqb)]; [exists n; by rewrite lookup_insert_eq|exists o; rewrite lookup_insert_ne; [done|congruence]]|].
      intros (o & [[<- _]|[_ Hq]]%lookup_insert_Some & Hqb); [by left|right; by exists o].
Qed.
(** A fragment that ends where the block starts. *)
Lemma free_merge h (K : Blocks) j s p n prev m : inv h K -> msegs h !! j = Some s -> base s <= p < end_ s -> K !! p = Some (Used, n) ->
  K !! prev = Some (Frag, m) -> base s <= prev -> prev + m = p ->
  inv (set_size prev (m + n) h) (<[prev := (Frag, m + n)]> (delete p K)).
Proof.
  intros [A H Q R] Hs Hb Hp Hprev Hb2 <-. pose proof (proj1 (ar_block _ _ A _ _ _ Hprev)) as Hm. split; cbn.
  - eapply arena_merge; [exact A|exact Hs|done|exact Hprev|exact Hp|lia].
  - intros q k o [[<- [=<- <-]]|[Hne [Hne2 Hq]%lookup_delete_Some]]%lookup_insert_Some Hk; [by rewrite fn_eq|]. rewrite fn_ne by done. by apply H.
  - eapply quick_frame, Q; [|done]. intros q o. split.
    + intros [[<- [=]]|[_ [_ Hq]%lookup_delete_Some]]%lookup_insert_Some. done.
    + intros Hq. rewrite lookup_insert_ne by congruence. rewrite lookup_delete_ne by congruence. done.
  - eapply rover_frame, R; [intros i t Ht; by exists t| |done]. intros q. split; intros [o Hq].
    + apply lookup_insert_Some in Hq as [[<- _]|[_ [_ Hq]%lookup_delete_Some]]; [by exists m|by exists o].
    + destruct (decide (q = prev)) as [->|Hne]; [exists (m + n); by rewrite lookup_insert_eq|].
      exists o. rewrite lookup_insert_ne by done. rewrite lookup_delete_ne; [done|]. congruence.
Qed.

Lemma taken_insert (K : Blocks) p n k' m : K !! p = Some (Used, n) -> k' <> Used -> k' <> Held -> taken K (<[p := (k', m)]> K) p.
Proof.
  intros Hp H1 H2. split.
  - intros q k o Hk. destruct (decide (q = p)) as [->|Hne].
    + rewrite lookup_insert_eq. split; [intros [=]; subst; by destruct Hk|tauto].
    + rewrite lookup_insert_ne by done. tauto.
  - intros q o Hq. rewrite lookup_insert_ne; [done|congruence].
Qed.
Lemma taken_delete (K : Blocks) p n : K !! p = Some (Used, n) -> taken K (delete p K) p.
Proof.
  intros Hp. split.
  - intros q k o _. rewrite lookup_delete_Some. split; [intros []|intros []]; auto.
  - intros q o Hq. apply lookup_delete_Some. split; [congruence|done].
Qed.
Lemma taken_merge (K : Blocks) p n prev m o : K !! p = Some (Used, n) -> K !! prev = Some (Frag, m) -> taken K (<[prev := (Frag, o)]> (delete p K)) p.
Proof.
  intros Hp Hprev. split.
  - intros q k x Hk. destruct (decide (q = prev)) as [->|Hne].
    + rewrite lookup_insert_eq, Hprev. split; [intros [=]|intros [[=] _]]; subst; by destruct Hk.
    + rewrite lookup_insert_ne by done. rewrite lookup_delete_Some. split; intros []; auto.
  - intros q x Hq. rewrite lookup_insert_ne by congruence. apply lookup_delete_Some. split; [congruence|done].
Qed.
Lemma inv_bytes h g (K : Blocks) : inv h K -> inv (set_bytes g h) K.
Proof. intros H. by apply (inv_ext h). Qed.
Lemma inv_alter h g j (K : Blocks) : (forall s, geo (g s) = geo s /\ rover (g s) = rover s) -> inv h K -> inv (set_msegs (alter g j (msegs h)) h) K.
Proof.
  intros Hg [A H Q R]. split; cbn; [|done|done|].
  - apply arena_alter; [apply Hg|done].
  - eapply rover_frame, R; [|done|done]. intros i s' (s & Hs & ->)%alter_Some. exists s. split; [done|].
    destruct (decide _); [|done]. destruct (Hg s) as [E ->]. unfold geo in E. by injection E.
Qed.
Lemma outside_refl p n h h' : bytes h' = bytes h -> outside p n h h'.
Proof. intros E a _. by rewrite E. Qed.
Lemma outside_trans p n h1 h2 h3 : outside p n h1 h2 -> outside p n h2 h3 -> outside p n h1 h3.
Proof. intros H1 H2 a Ha. by rewrite H2, H1. Qed.
Lemma outside_tag p n h v : 1 <= n -> outside p n h (set_bytes (<[tag_at (p + n) := v]> (bytes h)) h).
Proof. intros Hn a Ha. cbn. apply fn_ne. unfold tag_at, Unitsz in *. lia. Qed.
Lemma outside_write p n h m f : m <= (n - 1) * Unitsz -> outside p n h (write (p + 1) m f h).
Proof.
  intros Hm a Ha. cbn. destruct (Z.leb_spec ((p + 1) * Unitsz) a); cbn [andb]; [|done].
  destruct (Z.ltb_spec a ((p + 1) * Unitsz + m)); [|done]. unfold Unitsz in *. lia.
Qed.
(** The block [rover] points to. *)
Lemma inv_rover h (K : Blocks) j s r : inv h K -> msegs h !! j = Some s -> rover s = Some r -> frag_in K s r.
Proof.
  intros Hi Hs Hr. destruct (i_rover _ _ Hi _ _ Hs) as (f & F1 & _ & F3 & F4). rewrite Hr in *.
  destruct f as [|x f]; [by destruct F3|]. destruct F1 as [[=<-] _]. apply F4. by left.
Qed.

Definition sizes (K : Blocks) (h h' : Heap) : Prop := forall q m, K !! q = Some (Held, m) -> size h' q = size h q.
Definition freed (h : Heap) (K : Blocks) (p n : Z) (h' : Heap) : Prop :=
  exists K', inv h' K' /\ taken K K' p /\ like h h' /\ outside p n h h' /\ size h' p = n /\ bytes h' (tag_at (p + n)) = FTAG.
Lemma wp_qfreeinternal h (K : Blocks) j s p n ck : inv h K -> mseg h = Some j -> msegs h !! j = Some s -> base s <= p < end_ s -> K !! p = Some (Used, n) ->
  (ck = true -> bytes h (tag_at (p + n)) = ATAG) -> wp (qfreeinternal (Some (p + 1)) ck) h (fun _ h' => freed h K p n h' /\ sizes K h h').
Proof.
  intros Hi Hm Hs Hb Hp Hck. unfold qfreeinternal. apply wp_bind. eapply wp_cur; [exact Hm|exact Hs|].
  rewrite Z.add_simpl_r. destruct (Z.ltb_spec p (base s)); [lia|]. destruct (Z.geb_spec p (end_ s)); [lia|]. cbn [orb]. wp_step. wp_step. change (id h) with h.
  destruct (i_header _ _ Hi _ _ _ Hp ltac:(done)) as [-> Hnx]. rewrite Hnx by done. destruct (arena_seg _ _ _ _ _ _ _ (i_arena _ _ Hi) Hs Hp Hb) as [Hn Ht].
  destruct (Z.eqb_spec n 0); [lia|]. rewrite bool_decide_false by (intros Hx; by apply Hx). cbn [orb].
  assert (ck && (bytes h (tag_at (p + n)) =? FTAG) = false /\ ck && negb (bytes h (tag_at (p + n)) =? ATAG) = false) as [-> ->] by (destruct ck; [rewrite Hck by done|]; by split).
  wp_step. eapply (wp_mono _ _ (fun _ h1 => inv h1 K /\ msegs h1 = msegs h /\ mseg h1 = mseg h /\ mainlock h1 = mainlock h /\ outside p n h h1 /\ sizes K h h1)).
  { destruct poison; [apply wp_modify|apply wp_ret; do 4 (split; [done|]); split; [by apply outside_refl|done]].
    split; [by eapply inv_write|]. do 3 (split; [done|]). split; [by apply outside_write|]. intros q m Hq. cbn.
    destruct (Z.leb_spec (p + 1) q); cbn [andb]; [|done]. destruct (Z.ltb_spec (q * Unitsz) ((p + 1) * Unitsz + (n - 1) * Unitsz)); [|done]. exfalso.
    rewrite (inside_free _ _ _ _ _ q (i_arena _ _ Hi) Hp) in Hq by (unfold Unitsz in *; lia). done. }
  intros _ h1 (Hi1 & E1 & E2 & E3 & Ho1 & Hz1). wp_step. apply wp_modify. set (h2 := set_bytes _ h1).
  assert (inv h2 K) as Hi2 by by apply inv_bytes. assert (outside p n h h2) as Ho2 by (eapply outside_trans; [exact Ho1|by apply outside_tag]).
  assert (bytes h2 (tag_at (p + n)) = FTAG) as Htag by apply fn_eq. assert (msegs h2 !! j = Some s) as Hs2 by (cbn; by rewrite E1).
  assert (sizes K h h2) as Hz2 by done.
  assert (mseg h2 = mseg h /\ mainlock h2 = mainlock h /\ msegs h2 = msegs h) as (F2 & F3 & F1) by done. clearbody h2. clear Hi1 E1 E2 E3 Ho1 Hz1 h1.
  assert (mseg h2 = Some j) as Hm2 by congruence.
  destruct (i_header _ _ Hi2 _ _ _ Hp ltac:(done)) as [Hsz Hnx2]. assert (like h h2) as Hl2 by by apply like_refl.
  destruct (Z.eqb_spec (p + n) (tailptr s)).
  { eapply wp_oncur; [exact Hm2|]. split; [|done]. exists (delete p K). split; [by eapply free_tail|]. split; [by eapply taken_delete|]. split; [|done].
    eapply like_trans; [exact Hl2|]. by eapply like_alter. }
  destruct (Z.leb_spec n NQUICK).
  { wp_steps. split; [|done]. exists (<[p := (Quick, n)]> K). split; [by apply free_quick|]. split; [by eapply taken_insert|]. done. }
  destruct (rover s) as [prev|] eqn:Hr.
  2: { wp_step. eapply wp_oncur; [exact Hm2|]. apply wp_modify. split; [|done]. exists (<[p := (Frag, n)]> K). split; [by eapply free_first|]. split; [by eapply taken_insert|].
    split; [|done]. eapply like_trans; [exact Hl2|]. by eapply like_alter. }
  wp_step. apply wp_gets. change (id h2) with h2. destruct (inv_rover _ _ _ _ _ Hi2 Hs2 Hr) as (m & Hprev & Hbp).
  destruct (i_header _ _ Hi2 _ _ _ Hprev ltac:(done)) as [Hszp _]. rewrite Hszp, Hsz.
  assert (forall h3 K' (b : bool) x, inv h3 K' -> taken K K' p -> like h h3 -> outside p n h h3 -> size h3 p = n -> bytes h3 (tag_at (p + n)) = FTAG -> sizes K h h3 ->
    wp (if b then oncur (set_maxsz (Some x)) else ret ()) h3 (fun _ h' => freed h K p n h' /\ sizes K h h')) as Hmax.
  { intros h3 K' b x I3 T3 L3 O3 S3 B3 Z3. pose proof L3 as (L4 & _). destruct b; [|by split; [exists K'|]]. eapply wp_oncur; [by rewrite L4|]. split; [|done]. exists K'.
    split; [by apply inv_alter|]. split; [done|]. split; [|done]. eapply like_trans; [exact L3|]. by eapply like_alter. }
  destruct (arena_seg _ _ _ _ _ _ _ (i_arena _ _ Hi2) Hs2 Hprev Hbp) as [Hm1 Hmt]. pose proof (proj1 (ar_segs _ _ (i_arena _ _ Hi2)) _ _ Hs2).
  destruct (Z.eqb_spec (prev + m) p) as [Hpm|Hpm].
  - rewrite u32_small by lia. wp_step. apply wp_modify.
    assert (inv (set_size prev (m + n) h2) (<[prev := (Frag, m + n)]> (delete p K))) as Hi3 by (eapply free_merge; done || lia).
    assert (sizes K h (set_size prev (m + n) h2)) as Hz3 by (intros q o Hq; cbn; rewrite fn_ne by congruence; by eapply Hz2).
    destruct (maxsz s) as [x|]; [eapply Hmax; [exact Hi3|by eapply taken_merge|done|done|cbn; by rewrite fn_ne by lia|done|exact Hz3]|].
    apply wp_ret. split; [|exact Hz3]. eexists. split; [exact Hi3|]. split; [by eapply taken_merge|]. do 2 (split; [done|]). split; [cbn; by rewrite fn_ne by lia|done].
  - assert (prev <> p) as Hne by congruence.
    assert (inv (set_next prev (Some p) (set_next p (next h2 prev) h2)) (<[p := (Frag, n)]> K)) as Hi3 by by eapply free_after.
    wp_step. apply wp_modify. wp_step. apply wp_modify.
    destruct (maxsz s) as [x|]; [eapply Hmax; [exact Hi3|by eapply taken_insert|done..]|].
    apply wp_ret. split; [|done]. eexists. split; [exact Hi3|]. split; [by eapply taken_insert|]. done.
Qed.
End Free.
