(* ===== verification/Qmallocget.v ===== *)
(** * The storage allocator gives and takes back: port/qmalloc.c

    Every routine of Qmalloc.v keeps the invariant of the arena and returns; what it does to the blocks in use, to their bytes and to the quick lists is
    stated in terms of the map of the blocks ([grant], [freed], [released], [moved]). *)

From stdpp Require Import base list gmap functions strings.
From Stdlib Require Import ZArith Lia.
From S2P Require Import Prelude Qmalloc.
Open Scope Z_scope.
Open Scope nix_scope.

(** What the rest of the system promises: the memory of a page is not in use. *)
Class ArenaOk `{AR : Arena} := {
  page_size : 0 <= sizeof_MSeg /\ sizeof_MSeg + 2 * Unitsz <= mallocpgsz < 2 ^ 32;
  page_apart : forall h pa, newpg h = Some pa -> 0 <= pa /\ forall s, s ∈ msegs h -> end_ s * Unitsz <= pa \/ pa + mallocpgsz <= base s * Unitsz
}.

Section Allocating.
Context `{AR : Arena}.

(** *** Allocating *)
(** A held block whose header is in order can be given to someone. *)
Lemma inv_claim h (K : Blocks) p n : inv h K -> K !! p = Some (Held, n) -> size h p = n -> next h p = None -> inv h (<[p := (Used, n)]> K).
Proof.
  intros [A H Q R] Hp Hs Hn. split.
  - by eapply arena_kind.
  - by eapply header_kind.
  - eapply quick_frame, Q; [|done]. intros q m. by eapply insert_kind.
  - eapply rover_frame, R; [intros j s Hj; by exists s| |done]. intros q. by eapply insert_kind_ex.
Qed.
Lemma inv_set_next h (K : Blocks) p n x : inv h K -> K !! p = Some (Held, n) -> inv (set_next p x h) K.
Proof. intros Hi Hp. eapply inv_ext; [exact Hi|done|done|]. intros q k m Hq Hk. cbn. by rewrite fn_ne by congruence. Qed.
Lemma inv_set_size h (K : Blocks) p n y : inv h K -> K !! p = Some (Held, n) -> inv (set_size p y h) K.
Proof. intros Hi Hp. eapply inv_ext; [exact Hi|done|done|]. intros q k m Hq Hk. cbn. by rewrite fn_ne by congruence. Qed.
Lemma inv_size h (K : Blocks) p k n : inv h K -> K !! p = Some (k, n) -> k <> Held -> size h p = n.
Proof. intros Hi Hp Hk. by apply (i_header _ _ Hi _ _ _ Hp). Qed.
(** A held block in two. *)
Lemma inv_split h (K : Blocks) p n m : inv h K -> K !! p = Some (Held, n) -> 0 < m < n -> inv h (<[p + m := (Held, n - m)]> (<[p := (Held, m)]> K)) /\ K !! (p + m) = None.
Proof.
  intros [A H Q R] Hp Hm. destruct (arena_split _ _ _ _ _ Held Held _ A Hp Hm) as [Hnone HA]. split; [|done].
  assert (forall q k o, k <> Held -> <[p + m := (Held, n - m)]> (<[p := (Held, m)]> K) !! q = Some (k, o) <-> K !! q = Some (k, o)) as HK.
  { intros q k o Hk. destruct (decide (q = p + m)) as [->|H1]; [rewrite lookup_insert_eq; split; congruence|]. rewrite lookup_insert_ne by done.
    destruct (decide (q = p)) as [->|H2]; [rewrite lookup_insert_eq; split; congruence|]. by rewrite lookup_insert_ne by done. }
  split; [done| | |].
  - intros q k o Hq Hk. apply (H q k o); [by apply HK|done].
  - eapply quick_frame, Q; [|done]. intros q o. by apply HK.
  - eapply rover_frame, R; [intros j s Hj; by exists s| |done]. intros q. by split; intros [o Hq]; exists o; apply HK.
Qed.
(** The end of a fragment is held, the rest stays on the list. *)
Lemma inv_chop h (K : Blocks) p n m : inv h K -> K !! p = Some (Frag, n) -> 0 < m < n ->
  inv (set_size p m h) (<[p + m := (Held, n - m)]> (<[p := (Frag, m)]> K)) /\ K !! (p + m) = None.
Proof.
  intros [A H Q R] Hp Hm. destruct (arena_split _ _ _ _ _ Frag Held _ A Hp Hm) as [Hnone HA]. split; [|done].
  assert (p + m <> p) as Hne by lia.
  split; cbn; [done| | |].
  - intros q k o [[<- [=<- <-]]|[_ [[<- [=<- <-]]|[H2 Hq]]%lookup_insert_Some]]%lookup_insert_Some Hk; [done|by rewrite fn_eq|]. rewrite fn_ne by done. by apply (H q k o).
  - eapply quick_frame, Q; [|done]. intros q o. destruct (decide (q = p + m)) as [->|H1]; [rewrite lookup_insert_eq; split; congruence|]. rewrite lookup_insert_ne by done.
    by eapply insert_kind.
  - eapply rover_frame, R; [intros j s Hj; by exists s| |done]. intros q. destruct (decide (q = p + m)) as [->|H1]; [rewrite lookup_insert_eq, Hnone; split; intros [o Hq]; congruence|].
    rewrite lookup_insert_ne by done. destruct (decide (q = p)) as [->|H2]; [rewrite lookup_insert_eq; split; intros _; by eexists|by rewrite lookup_insert_ne by done].
Qed.

(** The block after [prev] on the circle leaves it. *)
Lemma circle_next nx r f prev p : path nx r f r -> NoDup f -> prev ∈ f -> nx prev = Some p ->
  p ∈ f /\ (p = prev /\ (forall q, q ∈ f <-> q = prev) \/ p <> prev /\ nx p <> Some p /\ exists g, path nx (nx p) g (Some prev) /\ NoDup (prev :: p :: g) /\ forall q, q ∈ f <-> q ∈ prev :: p :: g).
Proof.
  intros Hp Hd (l1 & l2 & ->)%list_elem_of_split Hn.
  assert (prev :: l2 ++ l1 ≡ₚ l1 ++ prev :: l2) as Hperm by (rewrite <- (Permutation_middle l1); by rewrite (Permutation_app_comm l2 l1)).
  pose proof (path_rotate _ _ _ _ _ Hp) as [_ Hr]. rewrite <- Hperm in Hd. rewrite Hn in Hr.
  assert (forall q, q ∈ l1 ++ prev :: l2 <-> q ∈ prev :: l2 ++ l1) as HE by (intros q; by rewrite Hperm). revert HE. generalize (l1 ++ prev :: l2) as f. intros f HE. rewrite HE.
  destruct (l2 ++ l1) as [|x g] eqn:E.
  - cbn in Hr. injection Hr as ->. split; [by left|left]. split; [done|]. intros q. by rewrite HE, list_elem_of_singleton.
  - destruct Hr as [[=->] Hr]. split; [right; by left|right]. inversion Hd as [|? ? H1 Hd2]; subst. inversion Hd2 as [|? ? H2 _]; subst.
    split; [intros ->; apply H1; by left|]. split; [|by exists g].
    intros Hx. destruct g as [|y g]; cbn in Hr; [|destruct Hr as [Hr _]]; rewrite Hx in Hr; injection Hr as ->; [apply H1; by left|apply H2; by left].
Qed.

Lemma wp_unlink h (K : Blocks) j s prev p n : inv h K -> mseg h = Some j -> msegs h !! j = Some s -> frag_in K s prev -> next h prev = Some p -> K !! p = Some (Frag, n) ->
  wp (unlink prev p) h (fun _ h' => inv h' (<[p := (Held, n)]> K) /\ like h h' /\ bytes h' = bytes h /\ size h' = size h).
Proof.
  intros [A H Q R] Hm Hs Hprev Hnext Hp. destruct (R _ _ Hs) as (f & F1 & F2 & F3 & F4). pose proof Hprev as Hprevf. apply F4 in Hprevf.
  assert (path (next h) (rover s) f (rover s)) as Hcirc by done.
  destruct (circle_next _ _ _ _ _ Hcirc F2 Hprevf Hnext) as [Hpf Hcase]. apply F4 in Hpf as (n' & Hp' & Hpb). rewrite Hp in Hp'. injection Hp' as <-.
  assert (frag_other (msegs h) K (<[p := (Held, n)]> K) j) as Ho by (eapply frag_other_insert; [apply A|done|done]).
  assert (quick_ok (next h) (quicklist h) (<[p := (Held, n)]> K)) as Q' by (eapply quick_frame, Q; [intros q m; by apply (insert_kind K p Frag Held n n)|done]).
  assert (forall q, frag_in (<[p := (Held, n)]> K) s q <-> frag_in K s q /\ q <> p) as HK.
  { intros q. unfold frag_in. destruct (decide (q = p)) as [->|Hne]; [rewrite lookup_insert_eq; split; [intros (? & ? & _); congruence|tauto]|].
    rewrite lookup_insert_ne by done. tauto. }
  destruct Hprev as (m & Hprevm & Hprevb).
  unfold unlink. wp_steps. change (id h) with h. rewrite Hnext. destruct Hcase as [[-> Hone]|(Hne & Hloop & g & G1 & G2 & G3)].
  - rewrite bool_decide_true by done. eapply wp_oncur; [done|]. split; [|split; [by eapply like_alter|done]]. split; cbn; [|by eapply header_kind; try done; apply (H prev Frag n)|done|].
    + eapply arena_kind; [done|]. by apply arena_alter.
    + eapply (rover_change _ _ _ _ _ _ _ _ []); try done; [by apply NoDup_nil|]. intros q. rewrite HK, <- F4, Hone, elem_of_nil. tauto.
  - rewrite bool_decide_false by congruence. wp_steps. eapply wp_oncur; [done|]. split; [|split; [by eapply like_alter|done]].
    inversion G2 as [|? ? N1 N2]; subst. inversion N2 as [|? ? N3 N4]; subst. apply not_elem_of_cons in N1 as [_ N1]. split; cbn.
    + eapply arena_kind; [done|]. by apply arena_alter.
    + eapply header_kind; [done|by apply (H p Frag n)|done| |done]. intros q o Hq _. apply fn_ne. congruence.
    + eapply quick_frame, Q'; [done|]. intros q o Hq. apply fn_ne. intros <-. rewrite lookup_insert_ne in Hq by done. congruence.
    + eapply (rover_change _ _ _ _ _ _ _ _ (prev :: g)); try done.
      * intros i t q Ht Hij Hq. apply fn_ne. intros <-. by eapply (frag_apart _ K i j t s prev (ar_segs _ _ A)).
      * split; [done|]. rewrite fn_eq. eapply path_frame, G1. intros q Hq. apply fn_ne. by intros <-.
      * by constructor.
      * intros q. rewrite HK, <- F4, G3, !elem_of_cons. split; [|intros [[->|[->|?]] ?]; [by left|done|by right]]. intros [->|Hq]; (split; [tauto|]); [done|by intros ->].
Qed.

(** [p] has become a block in use of at least [nunits] units; all that was in use is as it was, and so are the quick lists [keep]. *)
Record grant (keep : Z -> Prop) (h : Heap) (K : Blocks) (nunits p : Z) (h' : Heap) (K' : Blocks) : Prop := {
  g_inv : inv h' K';
  g_used : exists m, nunits <= m /\ K' !! p = Some (Used, m) /\ bytes h' (tag_at (p + m)) = ATAG;
  g_new : forall k n, K !! p = Some (k, n) -> k <> Used /\ k <> Held;
  g_others : forall q k n, k = Used \/ k = Held -> q <> p -> K' !! q = Some (k, n) <-> K !! q = Some (k, n);
  g_bytes : forall q n, K !! q = Some (Used, n) -> forall a, q * Unitsz <= a < (q + n) * Unitsz -> bytes h' a = bytes h a;
  g_quick : forall q n, keep n -> K !! q = Some (Quick, n) -> K' !! q = Some (Quick, n)
}.
Lemma spares h (K' : Blocks) h' p m q n : arena (msegs h') K' -> outside p m h h' -> K' !! p = Some (Used, m) -> q <> p -> K' !! q = Some (Used, n) ->
  forall a, q * Unitsz <= a < (q + n) * Unitsz -> bytes h' a = bytes h a.
Proof. intros HA Ho Hp Hne Hq a Ha. apply Ho. unfold Unitsz in *. destruct (ar_disj _ _ HA _ _ _ _ _ _ Hp Hq); [congruence|lia..]. Qed.
(** The block is there, its tag is not. *)
Definition held (k : Kind) (keep : Z -> Prop) (h : Heap) (K : Blocks) (nunits p : Z) (h1 : Heap) (K1 : Blocks) : Prop :=
  inv h1 K1 /\ (exists m, nunits <= m /\ K1 !! p = Some (k, m) /\ size h1 p = m) /\ (forall k n, K !! p = Some (k, n) -> k <> Used /\ k <> Held) /\
  (forall q k n, k = Used \/ k = Held -> q <> p -> K1 !! q = Some (k, n) <-> K !! q = Some (k, n)) /\
  (forall q n, K !! q = Some (Used, n) -> forall a, q * Unitsz <= a < (q + n) * Unitsz -> bytes h1 a = bytes h a) /\
  (forall q n, keep n -> K !! q = Some (Quick, n) -> K1 !! q = Some (Quick, n)).
Lemma inv_block h (K : Blocks) p k n : inv h K -> K !! p = Some (k, n) -> 1 <= n.
Proof. intros Hi Hp. by apply (ar_block _ _ (i_arena _ _ Hi) _ _ _ Hp). Qed.
Lemma grant_tag keep h (K : Blocks) nunits p h1 K1 : held Used keep h K nunits p h1 K1 ->
  grant keep h K nunits p (set_bytes (<[tag_at (p + size h1 p) := ATAG]> (bytes h1)) h1) K1.
Proof.
  intros (Hi & (m & Hm & Hp & Hs) & Hnew & Ho & Hby & Hk). rewrite Hs. pose proof (inv_block _ _ _ _ _ Hi Hp). split; try done.
  - by apply inv_bytes.
  - exists m. split; [done|]. split; [done|]. apply fn_eq.
  - intros q n Hq a Ha. rewrite <- (Hby _ _ Hq a Ha). assert (q <> p) as Hne by (intros ->; by destruct (Hnew _ _ Hq)).
    eapply (spares h1 K1); [apply Hi|by apply (outside_tag p m h1)|done|exact Hne| |exact Ha]. apply Ho; [by left|done|done].
Qed.
Lemma grant_claim keep h (K : Blocks) nunits p h1 K1 : held Held keep h K nunits p h1 K1 ->
  exists K', grant keep h K nunits p (set_bytes (<[tag_at (p + size h1 p) := ATAG]> (bytes h1)) (set_next p None h1)) K'.
Proof.
  intros (Hi & (m & Hm & Hp & Hs) & Hnew & Ho & Hby & Hk). exists (<[p := (Used, m)]> K1).
  apply (grant_tag keep h K nunits p (set_next p None h1)). split; [|split; [|split; [done|split; [|split; [done|]]]]].
  - apply inv_claim; [by eapply inv_set_next|done|done|]. apply fn_eq.
  - exists m. by rewrite lookup_insert_eq.
  - intros q k n Hkk Hne. rewrite lookup_insert_ne by done. by apply Ho.
  - intros q n Hkn Hq. rewrite lookup_insert_ne; [by apply Hk|]. intros <-. pose proof (Hk _ _ Hkn Hq). congruence.
Qed.
Lemma held_ext k keep h (K : Blocks) nunits p h1 K1 h2 : held k keep h K nunits p h1 K1 -> inv h2 K1 -> size h2 = size h1 -> bytes h2 = bytes h1 -> held k keep h K nunits p h2 K1.
Proof. intros (A & B & C & D & E & F) Hi H1 H2. unfold held. rewrite H1, H2. done. Qed.
Lemma wp_forget_max h j s n (Q : () -> Heap -> Prop) : mseg h = Some j -> msegs h !! j = Some s ->
  (forall h', like h h' -> bytes h' = bytes h -> size h' = size h -> (forall K : Blocks, inv h K -> inv h' K) -> Q () h') -> wp (forget_max n) h Q.
Proof.
  intros Hm Hs HQ. unfold forget_max. wp_step. eapply wp_cur; [done..|]. case_bool_decide.
  - eapply wp_oncur; [done|]. apply HQ; try done; [by eapply like_alter|]. intros K. by apply inv_alter.
  - apply wp_ret. apply HQ; [by apply like_refl|done..|auto].
Qed.
Lemma held_unlink h (K : Blocks) p n nunits h1 : K !! p = Some (Frag, n) -> inv h K -> nunits <= n -> inv h1 (<[p := (Held, n)]> K) -> size h1 = size h -> bytes h1 = bytes h ->
  held Held (fun _ => True) h K nunits p h1 (<[p := (Held, n)]> K).
Proof.
  intros Hp Hi Hn Hi1 Es Eb. split; [done|]. split; [exists n; rewrite lookup_insert_eq, Es; split; [done|]; split; [done|]; by eapply inv_size|].
  split; [intros k o; rewrite Hp; by intros [=<- _]|]. split; [intros q k o Hk Hne; by rewrite lookup_insert_ne|].
  split; [by intros; rewrite Eb|]. intros q o _ Hq. rewrite lookup_insert_ne; [done|congruence].
Qed.
Lemma held_chop h (K : Blocks) p n nunits : K !! p = Some (Frag, n) -> inv h K -> 0 < nunits < n ->
  exists K1, held Held (fun _ => True) h K nunits (p + (n - nunits)) (set_size (p + (n - nunits)) nunits (set_size p (n - nunits) h)) K1.
Proof.
  intros Hp Hi Hn. destruct (inv_chop _ _ _ _ (n - nunits) Hi Hp ltac:(lia)) as [Hi1 Hnone]. eexists. split; [|split; [|split; [|split; [|split; [done|]]]]].
  - eapply inv_set_size; [exact Hi1|]. by rewrite lookup_insert_eq.
  - exists nunits. split; [done|]. rewrite lookup_insert_eq. split; [repeat f_equal; lia|apply fn_eq].
  - intros k o. by rewrite Hnone.
  - intros q k o Hk Hne. rewrite lookup_insert_ne by done. destruct (decide (q = p)) as [->|]; [|by rewrite lookup_insert_ne].
    rewrite lookup_insert_eq, Hp. split; intros [=]; subst; by destruct Hk.
  - intros q o _ Hq. rewrite lookup_insert_ne by congruence. rewrite lookup_insert_ne; [done|congruence].
Qed.

(** Enough fuel for the circle: a fragment has a unit at least. *)
Lemma units_bound (f : list Z) b t : NoDup f -> (forall p, p ∈ f -> b <= p < t) -> (length f <= Z.to_nat (t - b))%nat.
Proof.
  intros Hd Hf. rewrite <- (length_seqZ b (t - b)). apply submseteq_length, NoDup_submseteq; [done|]. intros p Hp. apply elem_of_seqZ. specialize (Hf _ Hp). lia.
Qed.
(** What a walk along the circle has ahead of it at [prev]. *)
Definition ahead (h : Heap) (K : Blocks) (s : MSeg) (prev : Z) (fuel : nat) : Prop :=
  frag_in K s prev /\ exists l, path (next h) (next h prev) l (rover s) /\ (forall q, q ∈ l -> frag_in K s q) /\ (length l < fuel)%nat.
Lemma ahead_start h (K : Blocks) j s r : inv h K -> msegs h !! j = Some s -> rover s = Some r -> ahead h K s r (frag_fuel s).
Proof.
  intros Hi Hs Hr. destruct (i_rover _ _ Hi _ _ Hs) as (f & F1 & F2 & F3 & F4). unfold ahead. rewrite Hr in *. destruct f as [|x f]; [by destruct F3|].
  destruct F1 as [[=<-] F1]. split; [apply F4; by left|]. exists f. split; [done|]. split; [intros q Hq; apply F4; by right|].
  unfold frag_fuel. enough (length (r :: f) <= Z.to_nat (tailptr s - base s))%nat by (cbn in *; lia). apply units_bound; [done|].
  intros p (n & Hp & Hb)%F4. destruct (arena_seg _ _ _ _ _ _ _ (i_arena _ _ Hi) Hs Hp Hb). lia.
Qed.
Lemma ahead_step h (K : Blocks) j s r prev fuel : inv h K -> msegs h !! j = Some s -> rover s = Some r -> ahead h K s prev (S fuel) ->
  exists p n, next h prev = Some p /\ K !! p = Some (Frag, n) /\ base s <= p < end_ s /\ size h p = n /\ (Some p = rover s \/ ahead h K s p fuel).
Proof.
  intros Hi Hs Hr (Hprev & l & Hl & Hin & Hf).
  assert (exists p, next h prev = Some p /\ frag_in K s p /\ (Some p = rover s \/ ahead h K s p fuel)) as (p & H1 & (n & H2 & H3) & H4).
  { destruct l as [|p l]; [exists r; split; [cbn in Hl; congruence|]; split; [by eapply inv_rover|by left]|]. destruct Hl as [-> Hl].
    assert (frag_in K s p) as Hp by (apply Hin; by left). exists p. split; [done|]. split; [done|]. right. split; [done|]. exists l. split; [done|]. split; [|cbn in Hf; lia].
    intros q Hq. apply Hin. by right. }
  exists p, n. do 3 (split; [done|]). split; [|done]. by eapply inv_size.
Qed.
Lemma wp_rover_loop fuel h (K : Blocks) j s r prev nunits ms : inv h K -> mseg h = Some j -> msegs h !! j = Some s -> rover s = Some r -> 1 <= nunits -> ahead h K s prev fuel ->
  wp (rover_loop fuel nunits prev ms) h (fun x h' => match x with
    | inl p => like h h' /\ exists K', grant (fun _ => True) h K nunits p h' K'
    | inr _ => h' = h
    end).
Proof.
  intros Hi Hm Hs Hr Hn. revert prev ms. induction fuel as [|fuel IH]; intros prev ms Hah; [destruct Hah as (_ & l & _ & _ & Hf); lia|]. cbn [rover_loop].
  wp_step. apply wp_gets. change (id h) with h. destruct (ahead_step _ _ _ _ _ _ _ Hi Hs Hr Hah) as (p & n & Hnp & Hpn & Hpb & Hsz & Hnext). destruct Hah as [Hprev _].
  rewrite Hnp, Hsz.
  destruct (Z.geb_spec n nunits).
  - wp_step. apply (wp_mono _ _ (fun p' h1 => like h h1 /\ exists K1, held Held (fun _ => True) h K nunits p' h1 K1)).
    + destruct (Z.gtb_spec n nunits); [destruct (Z.geb_spec (n - nunits) Mult)|]; cbn [andb].
      1: { wp_steps. split; [by apply like_refl|]. apply held_chop; [done|done|lia]. }
      all: wp_step; eapply wp_mono; [eapply wp_unlink|]; [done|done|done|exact Hprev|exact Hnp|exact Hpn|];
        intros _ h1 (U1 & U2 & U3 & U4); apply wp_ret; split; [done|]; eexists; by eapply held_unlink.
    + intros p' h1 (Hl1 & K1 & Hh). wp_step. apply wp_gets. wp_step. pose proof Hl1 as (M1 & _ & _ & M4). destruct (M4 _ _ Hs) as (s1 & Hs1 & _ & _).
      eapply wp_forget_max; [by rewrite M1|exact Hs1|]. intros h2 Hl2 Eb Es Hk. wp_steps. rewrite <- Es. split.
      * eapply like_trans; [exact Hl1|]. eapply like_trans; [exact Hl2|]. by apply like_refl.
      * apply (grant_claim _ _ _ _ _ h2 K1). eapply held_ext; [exact Hh| |done|done]. apply Hk, Hh.
  - wp_step. eapply wp_cur; [done|done|]. case_bool_decide as Hr2; [by apply wp_ret|]. destruct Hnext as [?|?]; [congruence|by apply IH].
Qed.

Definition near (h h' : Heap) : Prop :=
  mainlock h' = mainlock h /\ length (msegs h') = length (msegs h) /\ forall i s, msegs h !! i = Some s -> exists s', msegs h' !! i = Some s' /\ base s' = base s /\ end_ s' = end_ s.
Lemma near_like h h' : like h h' -> near h h'.
Proof. apply proj2. Qed.
Lemma near_trans h1 h2 h3 : near h1 h2 -> near h2 h3 -> near h1 h3.
Proof.
  intros (A2 & A3 & A4) (B2 & B3 & B4). split; [congruence|]. split; [congruence|].
  intros i s Hs. destruct (A4 _ _ Hs) as (s' & Hs' & E1 & E2). destruct (B4 _ _ Hs') as (s'' & Hs'' & E3 & E4). exists s''. split; [done|]. by rewrite E3, E4.
Qed.
Lemma grant_ext keep h h1 (K : Blocks) nunits p h' K' : bytes h1 = bytes h -> grant keep h1 K nunits p h' K' -> grant keep h K nunits p h' K'.
Proof. intros E []. split; try done. by rewrite <- E. Qed.
Lemma inv_mseg h k (K : Blocks) : inv h K -> inv (set_mseg k h) K.
Proof. intros H. by apply (inv_ext h). Qed.
Lemma inv_lock h b (K : Blocks) : inv h K -> inv (set_mainlock b h) K.
Proof. intros H. by apply (inv_ext h). Qed.

Lemma wp_fit_loop cnt k h (K : Blocks) nunits : inv h K -> (cnt + k = length (msegs h))%nat -> 1 <= nunits ->
  wp (fit_loop cnt k nunits) h (fun x h' => near h h' /\ match x with
    | Some p => exists K', grant (fun _ => True) h K nunits p h' K'
    | None => inv h' K /\ bytes h' = bytes h
    end).
Proof.
  revert k h. induction cnt as [|cnt IH]; intros k h Hi Hlen Hn; cbn [fit_loop]; wp_step; apply wp_modify.
  { wp_steps. split; [split; [done|]; split; [done|]; intros i s Hs; by exists s|]. split; [|done]. by apply inv_mseg, inv_mseg. }
  destruct (lookup_lt_is_Some_2 (msegs h) k ltac:(lia)) as [s Hs]. pose proof (inv_mseg _ (Some k) _ Hi) as Hi1.
  assert (near h (set_mseg (Some k) h)) as Hnear by (split; [done|]; split; [done|]; intros i t Ht; by exists t).
  set (h1 := set_mseg (Some k) h) in *. assert (bytes h1 = bytes h /\ mseg h1 = Some k /\ msegs h1 = msegs h) as (Eb & Em & El) by done. clearbody h1. rewrite <- El in Hs, Hlen.
  assert (forall h2, inv h2 K -> near h1 h2 -> bytes h2 = bytes h1 -> wp (fit_loop cnt (S k) nunits) h2 (fun x h' => near h h' /\ match x with
    | Some p => exists K', grant (fun _ => True) h K nunits p h' K'
    | None => inv h' K /\ bytes h' = bytes h
    end)) as Hgo.
  { intros h2 Hi2 Hn2 Eb2. pose proof Hn2 as (_ & Hl2 & _). eapply wp_mono; [apply IH; [done|lia|done]|]. intros x h' [Hn3 Hx].
    split; [by eapply near_trans, near_trans|]. destruct x as [p|]; [destruct Hx as [K' HK]; exists K'; eapply grant_ext, HK; congruence|]. destruct Hx. split; [done|congruence]. }
  assert (near h1 h1) as Hrefl by (split; [done|]; split; [done|]; intros i t Ht; by exists t).
  wp_step. eapply wp_cur; [done|done|]. destruct (rover s) as [r|] eqn:Hr; [|by apply Hgo].
  destruct (match maxsz s with Some m => nunits >? m | None => false end); [by apply Hgo|].
  wp_step. eapply wp_mono; [by eapply wp_rover_loop, ahead_start|]. intros [p|m] h2.
  - intros [Hl [K' HK]]. apply wp_ret. split; [by eapply near_trans, near_like|]. exists K'. by eapply grant_ext.
  - intros ->. wp_step. eapply wp_oncur; [done|]. apply Hgo; [by apply inv_alter|by eapply near_like, like_alter|done].
Qed.

Lemma wp_tailalloc h (K : Blocks) j s n : inv h K -> mseg h = Some j -> msegs h !! j = Some s -> 1 <= n <= end_ s - tailptr s ->
  wp (tailalloc n) h (fun p h' => p = tailptr s /\ like h h' /\ bytes h' = bytes h /\ msegs h' !! j = Some (set_tailptr (p + n) s) /\ held Used (fun _ => True) h K n p h' (<[p := (Used, n)]> K) /\
    K !! p = None).
Proof.
  intros [A H Q R] Hm Hs Hn. unfold tailalloc. wp_step. eapply wp_cur; [done|done|]. wp_step. eapply wp_oncur; [done|]. wp_steps.
  destruct (arena_tail _ _ _ _ _ Used A Hs Hn) as [Hnone HA].
  split; [done|]. split; [by eapply like_alter|]. split; [done|]. split; [apply alter_Some; exists s; by rewrite decide_True|]. split; [|done].
  assert (forall q k o, q <> tailptr s -> <[tailptr s := (Used, n)]> K !! q = Some (k, o) <-> K !! q = Some (k, o)) as HK by (intros q k o Hq; by rewrite lookup_insert_ne).
  split; [split; cbn|split; [|split; [|split; [|split]]]].
  - done.
  - intros q k o [[<- [=<- <-]]|[Hne Hq]]%lookup_insert_Some Hk; [by rewrite !fn_eq|]. rewrite !fn_ne by done. by apply (H q k o).
  - eapply quick_frame, Q; [|intros q o Hq; apply fn_ne; congruence]. intros q o. destruct (decide (q = tailptr s)) as [->|]; [rewrite lookup_insert_eq; split; congruence|by apply HK].
  - eapply rover_frame, R; [| |intros q o Hq; apply fn_ne; congruence].
    + intros i s' (t & Ht & ->)%alter_Some. exists t. by destruct (decide _).
    + intros q. destruct (decide (q = tailptr s)) as [->|]; [rewrite lookup_insert_eq; split; intros [o Hq]; congruence|]. by setoid_rewrite HK.
  - exists n. rewrite lookup_insert_eq. split; [done|]. split; [done|]. apply fn_eq.
  - intros k o. by rewrite Hnone.
  - intros q k o _ Hne. by apply HK.
  - done.
  - intros q o _ Hq. apply HK; [congruence|done].
Qed.

(** *** More memory *)
Lemma segs_more m0 x l : segs_ok (m0 :: l) -> base x <= tailptr x <= end_ x -> end_ x - base x < 2 ^ 32 ->
  (forall t, t ∈ m0 :: l -> end_ x <= base t \/ end_ t <= base x) -> segs_ok (m0 :: x :: l).
Proof.
  intros [S1 S2] Hb Hsz Hx.
  assert (forall i t, (m0 :: x :: l) !! i = Some t -> t = x /\ i = 1%nat \/ exists i', (m0 :: l) !! i' = Some t /\ t ∈ m0 :: l /\ (i = 0 /\ i' = 0 \/ i = S i' /\ 1 <= i')%nat) as Hi.
  { intros [|[|i]] t Ht; cbn in Ht.
    - right. exists 0%nat. split; [done|]. split; [injection Ht as ->; by left|lia].
    - left. by injection Ht.
    - right. exists (S i). split; [done|]. split; [right; by eapply list_elem_of_lookup_2|lia]. }
  split.
  - intros i t [[-> _]|(i' & Ht & _)]%Hi; [by split|by eapply S1].
  - intros i k s t [[-> Ei]|(i' & Hs & Hse & Ei)]%Hi [[-> Ek]|(k' & Ht & Hte & Ek)]%Hi Hne; [lia|by apply Hx|by destruct (Hx _ Hse); [right|left]|].
    eapply S2; [exact Hs|exact Ht|lia].
Qed.
(** A segment that nothing has been taken from yet. *)
Lemma inv_more h (K : Blocks) m0 x l : inv h K -> msegs h = m0 :: l -> base x <= end_ x -> tailptr x = base x -> rover x = None -> end_ x - base x < 2 ^ 32 ->
  (forall t, t ∈ m0 :: l -> end_ x <= base t \/ end_ t <= base x) -> inv (set_msegs (m0 :: x :: l) h) K.
Proof.
  intros [A H Q R] El Hb Ht Hr Hsz Hx. rewrite El in *. pose proof A as [S B D C].
  assert (forall i t, (m0 :: x :: l) !! i = Some t -> t = x \/ exists i', (m0 :: l) !! i' = Some t) as Hi.
  { intros [|[|i]] t E; cbn in E; [right; by exists 0%nat|left; by injection E|right; by exists (Datatypes.S i)]. }
  assert (forall i t, (m0 :: l) !! i = Some t -> exists i', (m0 :: x :: l) !! i' = Some t) as Hi2.
  { intros [|i] t E; cbn in E; [by exists 0%nat|by exists (Datatypes.S (Datatypes.S i))]. }
  split; cbn; [|done|done|].
  - split; [apply segs_more; [done|lia|done|done]| |done|].
    + intros p k n Hp. destruct (B _ _ _ Hp) as (Hn & i & t & E & Hp2). split; [done|]. destruct (Hi2 _ _ E) as [i' E']. by exists i', t.
    + intros i t a [->|[i' E]]%Hi Ha; [lia|by eapply C].
  - intros i t [->|[i' E]]%Hi; [|by eapply R]. exists []. rewrite Hr. split; [done|]. split; [by apply NoDup_nil|]. split; [done|]. intros p. rewrite elem_of_nil. split; [done|].
    intros (n & Hp & Hbp). destruct (B _ _ _ Hp) as (Hn & i' & t' & E & Hp2). pose proof (proj1 S _ _ E). destruct (Hx t'); [by eapply list_elem_of_lookup_2|lia|lia].
Qed.

Lemma align_down y k : 0 <= k -> Z.land y (Z.lnot (2 ^ k - 1)) = y / 2 ^ k * 2 ^ k.
Proof.
  intros Hk. change (Z.land y (Z.lnot (2 ^ k - 1))) with (Z.land y (Z.lnot (Z.pred (2 ^ k)))). rewrite <- Z.ones_equiv, <- Z.ldiff_land, Z.ldiff_ones_r, Z.shiftl_mul_pow2, Z.shiftr_div_pow2 by done. done.
Qed.

Context {AO : ArenaOk}.

Lemma mallocinitseg_inside pa : 0 <= pa -> let s := mallocinitseg true pa mallocpgsz in
  pa <= base s * Unitsz /\ end_ s * Unitsz <= pa + mallocpgsz /\ base s <= end_ s /\ tailptr s = base s /\ rover s = None.
Proof.
  intros Hpa. destruct page_size as [H1 H2]. unfold mallocinitseg. cbn [base end_ tailptr rover]. change (Unitsz - 1) with (2 ^ 5 - 1). rewrite align_down by done.
  change (2 ^ 5) with 32. unfold Unitsz in *. rewrite Z.div_mul by done. remember (pa + sizeof_MSeg + (32 - 1)) as x eqn:Ex.
  pose proof (Z.div_mod x 32 ltac:(lia)). pose proof (Z.mod_pos_bound x 32 ltac:(lia)). remember (pa + sizeof_MSeg + (mallocpgsz - sizeof_MSeg) - x / 32 * 32) as y eqn:Ey.
  rewrite (Z.quot_div_nonneg y) by lia. pose proof (Z.div_mod y 32 ltac:(lia)). pose proof (Z.mod_pos_bound y 32 ltac:(lia)). split_and!; [lia..|done].
Qed.

Lemma wp_morecore h (K : Blocks) nunits : inv h K -> msegs h <> [] -> wp (morecore nunits) h (fun _ h' => inv h' K /\ bytes h' = bytes h /\ msegs h' <> []).
Proof.
  intros Hi Hne. unfold morecore. destruct (_ <? nunits); [by apply wp_ret|]. wp_step. apply wp_modify. wp_step. apply wp_gets.
  change (id (set_mainlock false h)) with (set_mainlock false h). set (h1 := set_mainlock false h). destruct (mclock_busy h1); [apply wp_ret; split; [by apply inv_lock|done]|].
  destruct (newpg h1) as [pa|] eqn:Hpg; [|apply wp_ret; split; [by apply inv_lock|done]]. destruct (page_apart _ _ Hpg) as [Hpa Hap]. destruct page_size as [_ Hsz].
  destruct (mallocinitseg_inside pa Hpa) as (H1 & H2 & H3 & H4 & H5). cbv zeta in *. set (x := mallocinitseg true pa mallocpgsz) in *. clearbody x.
  unfold ilock. wp_steps. cbn [mainlock set_mainlock h1]. wp_steps. cbn [msegs set_mainlock]. change (msegs h1) with (msegs h). destruct (msegs h) as [|m0 l] eqn:El; [done|]. split; [|done].
  apply inv_mseg. eapply (inv_more (set_mainlock true h1)); [by apply inv_lock, inv_lock|exact El|done|done|done|unfold Unitsz in *; lia|].
  intros t Ht. rewrite <- El in Ht. destruct (Hap t Ht); unfold Unitsz in *; lia.
Qed.

(** *** [malloc] *)
Lemma wp_find_seg f h : wp (find_seg f) h (fun _ h' => exists o, h' = set_mseg o h /\
  match o with Some k => exists s, msegs h !! k = Some s /\ f s = true | None => forall k s, msegs h !! k = Some s -> f s = false end).
Proof.
  unfold find_seg. wp_steps. eexists. split; [done|]. destruct (list_find _ _) as [[k s]|] eqn:E; cbn.
  - apply list_find_Some in E as (E1 & E2 & _). by exists s.
  - intros k s Hs. rewrite list_find_None, Forall_lookup in E. specialize (E k s Hs). by destruct (f s).
Qed.
(** A block of the size wanted, the lock is free. *)
Definition got (keep : Z -> Prop) (h : Heap) (K : Blocks) (nunits v : Z) (h' : Heap) : Prop :=
  mainlock h' = false /\ msegs h' <> [] /\ exists K', grant keep h K nunits (v - 1) h' K'.
Definition cramped (nunits : Z) (h : Heap) (msg : string) : Prop :=
  msg = "Enomem"%string /\ forall k s, msegs h !! k = Some s -> room nunits s = false.
Lemma got_claim keep h (K : Blocks) nunits p h1 K' : grant keep h K nunits p h1 K' -> msegs h1 <> [] -> got keep h K nunits (p + 1) (set_mainlock false h1).
Proof.
  intros [Hi Hu Hn Ho Hb Hq] Hne. split; [done|]. split; [done|]. rewrite Z.add_simpl_r. exists K'. split; try done. by apply inv_lock.
Qed.
Lemma grant_tail h h1 (K K' : Blocks) nunits p : bytes h1 = bytes h -> K' !! p = Some (Used, nunits) -> forall h2, held Used (fun _ => True) h1 K nunits p h2 K' ->
  grant (fun _ => True) h K nunits p (set_bytes (<[tag_at (p + nunits) := ATAG]> (bytes h2)) h2) K'.
Proof.
  intros Eb Hp h2 Hh. pose proof Hh as (_ & (m & _ & Hm & Hs) & _). rewrite Hp in Hm. injection Hm as <-. eapply grant_ext; [exact Eb|]. rewrite <- Hs at 2. by apply grant_tag.
Qed.
Lemma near_ne h h' : near h h' -> msegs h <> [] -> msegs h' <> [].
Proof. intros (_ & Hl & _) Hne E. rewrite E in Hl. by destruct (msegs h). Qed.
Lemma wp_qmalloc_again (E : string -> Prop) more nunits h (K : Blocks) : inv h K -> msegs h <> [] -> 1 <= nunits ->
  ((forall k s, msegs h !! k = Some s -> room nunits s = false) -> E "Enomem"%string) ->
  wpp E (qmalloc_again more nunits) h (got (fun _ => True) h K nunits).
Proof.
  revert h. induction more as [|more IH]; intros h Hi Hne Hn HE; cbn [qmalloc_again];
    (eapply wpp_then; [apply wp_find_seg|]; cbv beta; intros _ h1 (o & -> & Ho); pose proof (inv_mseg _ o _ Hi) as Hi1;
    apply wpp_gets; cbn [mseg set_mseg]; destruct o as [k|]).
  1, 3: destruct Ho as (s & Hs & Hroom); unfold room in Hroom; destruct (Z.gtb_spec nunits (end_ s - tailptr s)); [done|];
    eapply wpp_then; [eapply wp_tailalloc; [exact Hi1|done|exact Hs|lia]|]; cbv beta; intros p h2 (-> & Hl & _ & _ & Hh & _); apply wpp_wp; wp_steps;
    eapply got_claim; [eapply grant_tail; [|by rewrite lookup_insert_eq|exact Hh]; done|]; by eapply (near_ne (set_mseg (Some k) h)), Hne; apply near_like in Hl.
  all: apply wpp_gets; cbv beta;
    eapply wpp_then; [apply wp_fit_loop; [exact Hi1|cbn; lia|done]|]; cbv beta; intros [p|] h2 [Hnear Hx];
    [destruct Hx as [K' HK]; apply wpp_wp; wp_steps; eapply got_claim; [eapply grant_ext; [|exact HK]; done|by eapply near_ne]|].
  - exact (HE Ho).
  - destruct Hx as [Hi2 Hb2]. eapply wpp_then; [apply wp_morecore; [done|by eapply near_ne]|]. cbv beta. intros e h3 (Hi3 & Hb3 & Hne3).
    destruct (e =? 0); [|exact (HE Ho)]. eapply wpp_mono; [apply IH; [done|done|done|by intros _; apply HE]|done|]. intros v h4 (G1 & G2 & K' & G3).
    split; [done|]. split; [done|]. exists K'. eapply grant_ext, G3. by rewrite Hb3, Hb2.
Qed.

Lemma quick_circle h (K : Blocks) n p : inv h K -> quicklist h n = Some p -> K !! p = Some (Quick, n).
Proof. intros Hi Hp. destruct (i_quick _ _ Hi n) as (l & Hl & _ & Hin). rewrite Hp in Hl. destruct l as [|x l]; [done|]. destruct Hl as [[=<-] _]. apply Hin. by left. Qed.
(** A block leaves a quick list, as its first or after [prev]. *)
Lemma inv_pop h (K : Blocks) n p l1 l2 : inv h K -> path (next h) (quicklist h n) (l1 ++ p :: l2) None -> NoDup (l1 ++ p :: l2) -> (forall q, q ∈ l1 ++ p :: l2 <-> K !! q = Some (Quick, n)) ->
  inv (match last l1 with None => set_quick n (next h p) h | Some prev => set_next prev (next h p) h end) (<[p := (Held, n)]> K).
Proof.
  intros [A H Q R] Hpath Hd Hl. assert (K !! p = Some (Quick, n)) as Hp by apply Hl, elem_mid.
  assert (forall q i, <[p := (Held, n)]> K !! q = Some (Quick, i) <-> K !! q = Some (Quick, i) /\ q <> p) as HK.
  { intros q i. destruct (decide (q = p)) as [->|Hne]; [rewrite lookup_insert_eq; split; [done|intros []; done]|rewrite lookup_insert_ne by done; tauto]. }
  pose proof (quick_pop _ _ _ _ _ _ _ _ Hpath Hd Hl HK Q) as Hq.
  assert (forall prev, last l1 = Some prev -> K !! prev = Some (Quick, n)) as Hprev.
  { intros prev [l0 ->]%last_Some. apply Hl. rewrite <- app_assoc. apply elem_mid. }
  destruct (last l1) as [prev|] eqn:El; (split; cbn; [by eapply arena_kind| |exact Hq|]).
  - eapply header_kind; [exact Hp|by apply (H p Quick n)|done| |exact H]. intros q o Hq1 _. apply fn_ne. specialize (Hprev _ eq_refl). congruence.
  - eapply rover_frame, R; [intros j s Hj; by exists s|intros q; by eapply insert_kind_ex|]. intros q o Hq1. apply fn_ne. specialize (Hprev _ eq_refl). congruence.
  - eapply header_kind; [exact Hp|by apply (H p Quick n)|done|done|exact H].
  - eapply rover_frame, R; [intros j s Hj; by exists s|intros q; by eapply insert_kind_ex|done].
Qed.
Lemma held_pop h (K : Blocks) n p nunits h1 : K !! p = Some (Quick, n) -> inv h K -> nunits <= n -> inv h1 (<[p := (Held, n)]> K) -> size h1 = size h -> bytes h1 = bytes h ->
  held Held (fun i => i <> n) h K nunits p h1 (<[p := (Held, n)]> K).
Proof.
  intros Hp Hi Hn Hi1 Es Eb. split; [done|]. split; [exists n; rewrite lookup_insert_eq, Es; split; [done|]; split; [done|]; by eapply inv_size|].
  split; [intros k o; rewrite Hp; by intros [=<- _]|]. split; [intros q k o Hk Hne; by rewrite lookup_insert_ne|].
  split; [by intros; rewrite Eb|]. intros q o Ho Hq. rewrite lookup_insert_ne; [done|congruence].
Qed.

(** The lists [malloc] takes nothing from: single units, and the largest quick blocks. *)
Definition idle (n : Z) : Prop := n <= 1 \/ NQUICK <= n.
Lemma grant_weaken (keep keep' : Z -> Prop) h (K : Blocks) nunits p h' K' : (forall n, keep' n -> keep n) -> grant keep h K nunits p h' K' -> grant keep' h K nunits p h' K'.
Proof. intros Hk []. split; auto. Qed.
Lemma wp_quick_loop cnt n nunits h (K : Blocks) : inv h K -> 2 <= nunits <= n ->
  wp (quick_loop cnt n) h (fun x h' => match x with
    | Some v => like h h' /\ exists K', grant idle h K nunits (v - 1) h' K'
    | None => h' = h
    end).
Proof.
  intros Hi. revert n. induction cnt as [|cnt IH]; intros n Hn; cbn [quick_loop]; [by apply wp_ret|]. destruct (Z.ltb_spec n NQUICK); [|by apply wp_ret].
  wp_step. apply wp_gets. change (id h) with h. destruct (quicklist h n) as [p|] eqn:Hp; [|apply IH; lia].
  pose proof (quick_circle _ _ _ _ Hi Hp) as Hk. pose proof (inv_size _ _ _ _ _ Hi Hk ltac:(done)) as Hsz. rewrite Hsz, Z.ltb_irrefl.
  destruct (i_quick _ _ Hi n) as (l & Hl & Hd & Hin). destruct l as [|x l]; [rewrite Hp in Hl; done|]. pose proof Hl as [Hx _]. rewrite Hp in Hx. injection Hx as <-.
  pose proof (inv_pop _ _ _ _ [] l Hi Hl Hd Hin) as Hi1. cbn [last] in Hi1. wp_steps. split; [by apply like_refl|]. rewrite Z.add_simpl_r.
  destruct (grant_claim (fun i => i <> n) h K nunits p (set_quick n (next h p) h) (<[p := (Held, n)]> K)) as [K' HK].
  - apply held_pop; [done|done|lia|done..].
  - cbn [size set_quick] in HK. rewrite Hsz in HK. exists K'. eapply grant_weaken, HK. unfold idle. lia.
Qed.

Lemma NUNITS_spec n : 1 <= n < 2 ^ 32 -> 2 <= NUNITS n <= 2 ^ 27 + 1 /\ n < (NUNITS n - 1) * Unitsz.
Proof.
  intros Hn. unfold NUNITS, Mult. pose proof (ROUNDUP_spec (n + 1) Unitsz ltac:(lia) ltac:(done)) as [H1 _]. unfold ROUNDUP in H1. set (nu := HOWMANY (n + 1) Unitsz) in *. clearbody nu.
  change Unitsz with 32 in *. rewrite (u32_small nu) by lia. pose proof (ROUNDUP_spec nu 4 ltac:(lia) ltac:(done)) as [H2 H3]. apply Z.mod_divide in H3 as [k Hk]; [|done].
  destruct (Z.ltb_spec nu 4); [lia|]. rewrite u32_small; lia.
Qed.
Lemma got_ext keep h h1 (K : Blocks) nunits v h' : bytes h1 = bytes h -> got keep h1 K nunits v h' -> got keep h K nunits v h'.
Proof. intros E (G1 & G2 & K' & G3). split; [done|]. split; [done|]. exists K'. by eapply grant_ext. Qed.
Lemma got_weaken (keep keep' : Z -> Prop) h (K : Blocks) nunits v h' : (forall n, keep' n -> keep n) -> got keep h K nunits v h' -> got keep' h K nunits v h'.
Proof. intros Hk (G1 & G2 & K' & G3). split; [done|]. split; [done|]. exists K'. by eapply grant_weaken. Qed.
Lemma got_like keep h (K : Blocks) nunits v h' : mainlock h = false -> msegs h <> [] -> like h h' -> (exists K', grant keep h K nunits (v - 1) h' K') -> got keep h K nunits v h'.
Proof. intros Hm Hne Hl HK. pose proof Hl as (_ & E & _). split; [congruence|]. split; [by eapply near_ne, Hne; apply near_like in Hl|done]. Qed.
Lemma wp_ilock h : mainlock h = false -> wp ilock h (fun _ h' => h' = set_mainlock true h).
Proof. intros E. unfold ilock. wp_steps. rewrite E. by apply wp_modify. Qed.
Lemma wp_qmalloc (E : string -> Prop) n h (K : Blocks) : inv h K -> msegs h <> [] -> mainlock h = false -> 1 <= n < 2 ^ 32 ->
  ((forall k s, msegs h !! k = Some s -> room (NUNITS n) s = false) -> E "Enomem"%string) ->
  wpp E (qmalloc n) h (fun r h' => exists v, r = Some v /\ got idle h K (NUNITS n) v h').
Proof.
  intros Hi Hne Hlk Hn HE. unfold qmalloc. destruct (Z.eqb_spec n 0); [lia|]. pose proof (NUNITS_spec n Hn) as [Hu _]. cbv zeta.
  eapply (wpp_then _ _ _ _ (fun x h' => match x with Some v => got idle h K (NUNITS n) v h' | None => h' = h end)).
  - destruct (NUNITS n <=? NQUICK); [|by apply wp_ret]. eapply wp_mono; [apply wp_quick_loop; [done|split; [apply Hu|reflexivity]]|].
    intros [v|] h'; [|done]. intros [Hl HK]. by apply got_like.
  - intros [v|] h'; [intros Hg; apply wpp_wp, wp_ret; by exists v|]. intros ->. eapply wpp_then; [by apply wp_ilock|].
    cbv beta. intros _ h1 ->. apply wpp_bind. eapply wpp_mono; [apply wp_qmalloc_again; [by apply inv_lock|done|lia|exact HE]|done|]. cbv beta. intros v h2 Hg.
    apply wpp_wp, wp_ret. exists v. split; [done|]. eapply got_ext, got_weaken, Hg; done.
Qed.

Lemma grant_write keep h (K : Blocks) nunits p n f h1 K' : grant keep h K nunits p h1 K' -> n < (nunits - 1) * Unitsz -> grant keep h K nunits p (write (p + 1) n f h1) K'.
Proof.
  intros [Hi (m & Hm & Hp & Ht) Hn Ho Hb Hq] Hlt. assert (n <= (m - 1) * Unitsz) as Hle by (unfold Unitsz in *; lia). split; try done.
  - by eapply inv_write.
  - exists m. split; [done|]. split; [done|]. cbn. rewrite <- Ht. unfold tag_at. destruct (Z.ltb_spec ((p + m) * Unitsz - 1) ((p + 1) * Unitsz + n)); [unfold Unitsz in *; lia|]. by rewrite andb_false_r.
  - intros q o Hqo a Ha. rewrite <- (Hb _ _ Hqo a Ha). assert (q <> p) as Hne by (intros ->; by destruct (Hn _ _ Hqo)).
    eapply (spares h1 K'); [apply Hi|by apply (outside_write p m)|done|exact Hne| |exact Ha]. apply Ho; [by left|done|done].
Qed.
Lemma got_write keep h (K : Blocks) nunits v n f h1 : got keep h K nunits v h1 -> n < (nunits - 1) * Unitsz -> got keep h K nunits v (write v n f h1).
Proof.
  intros (G1 & G2 & K' & G3) Hn. split; [done|]. split; [done|]. exists K'. replace (write v n f h1) with (write (v - 1 + 1) n f h1) by (f_equal; lia). by apply grant_write.
Qed.
Lemma write_read v n f h i : 0 <= i < n -> bytes (write v n f h) (v * Unitsz + i) = f i.
Proof.
  intros Hi. cbn. destruct (Z.leb_spec (v * Unitsz) (v * Unitsz + i)); [|lia]. destruct (Z.ltb_spec (v * Unitsz + i) (v * Unitsz + n)); [|lia]. cbn. f_equal. lia.
Qed.
Definition fresh (keep : Z -> Prop) (h : Heap) (K : Blocks) (n : Z) (r : option Z) (h' : Heap) : Prop :=
  exists v, r = Some v /\ got keep h K (NUNITS n) v h' /\ forall i, 0 <= i < n -> bytes h' (v * Unitsz + i) = 0.
Lemma wp_zeroed_malloc (E : string -> Prop) n h (K : Blocks) : inv h K -> msegs h <> [] -> mainlock h = false -> 1 <= n < 2 ^ 32 ->
  ((forall k s, msegs h !! k = Some s -> room (NUNITS n) s = false) -> E "Enomem"%string) -> wpp E (malloc n) h (fresh idle h K n).
Proof.
  intros Hi Hne Hlk Hn HE. unfold malloc. apply wpp_bind. eapply wpp_mono; [by apply wp_qmalloc|done|]. cbv beta. intros r h1 (v & -> & Hg). cbn [setmalloctag].
  apply wpp_wp. wp_steps. exists v. split; [done|]. split; [apply got_write; [done|by apply NUNITS_spec]|]. intros i Hi2. by apply write_read.
Qed.

(** *** Alignment *)
Lemma ISPOWEROF2_spec a : 0 < a -> ISPOWEROF2 a = true -> exists k, 0 <= k /\ a = 2 ^ k.
Proof.
  unfold ISPOWEROF2. intros Ha [=H]%Z.eqb_eq. exists (Z.log2 a). split; [apply Z.log2_nonneg|]. destruct (Z.log2_spec a Ha) as [H1 H2].
  destruct (decide (a = 2 ^ Z.log2 a)) as [|Hne]; [done|]. exfalso.
  assert (Z.log2 (a - 1) = Z.log2 a) as E by (apply Z.log2_unique; [apply Z.log2_nonneg|lia]).
  assert (Z.testbit (Z.land a (a - 1)) (Z.log2 a) = true) as Hb.
  { rewrite Z.land_spec, Z.bit_log2 by done. rewrite <- E, Z.bit_log2; [done|]. pose proof (Z.pow_pos_nonneg 2 (Z.log2 a) ltac:(lia) (Z.log2_nonneg _)). lia. }
  rewrite H, Z.bits_0 in Hb. done.
Qed.
(** An alignment in units. *)
Lemma align_units a : Unitsz < a -> ISPOWEROF2 a = true ->
  exists c, 2 <= c /\ HOWMANY a Unitsz = c /\ (forall p, p <= ALIGNHDR p a < p + c) /\ (forall p, ALIGNED (ALIGNHDR p a) a = true) /\ (forall p, ALIGNED p a = true -> ALIGNHDR p a = p).
Proof.
  intros Ha Hp. destruct (ISPOWEROF2_spec a) as (k & Hk & ->); [unfold Unitsz in Ha; lia|done|].
  assert (5 < k) as Hk5 by (apply (Z.pow_lt_mono_r_iff 2); [lia|done|exact Ha]).
  assert (2 ^ k = Unitsz * 2 ^ (k - 5)) as E by (change Unitsz with (2 ^ 5); rewrite <- Z.pow_add_r by lia; f_equal; lia).
  assert (2 <= 2 ^ (k - 5)) as Hc by (change 2 with (2 ^ 1) at 1; apply Z.pow_le_mono_r; lia). set (c := 2 ^ (k - 5)) in *. clearbody c.
  assert (forall p, ALIGNHDR p (2 ^ k) = (p + c - 1) / c * c) as HH.
  { intros p. unfold ALIGNHDR. rewrite align_down by done. rewrite E, (Z.mul_comm Unitsz c), Z.mul_assoc, Z.div_mul by done.
    rewrite (Z.mul_comm c Unitsz), <- Z.div_div by (unfold Unitsz; lia). do 2 f_equal. symmetry. apply (Z.div_unique_pos _ _ _ 31); unfold Unitsz; lia. }
  assert (forall p, ALIGNED p (2 ^ k) = (p mod c =? 0)) as HD.
  { intros p. unfold ALIGNED. change (2 ^ k - 1) with (Z.pred (2 ^ k)). rewrite <- Z.ones_equiv, Z.land_ones, E, Z.mul_comm, Z.mul_mod_distr_l by (unfold Unitsz; lia).
    destruct (Z.eqb_spec (Unitsz * (p mod c)) 0), (Z.eqb_spec (p mod c) 0); unfold Unitsz in *; lia. }
  exists c. split; [done|]. split; [|split; [|split]].
  - rewrite E. unfold HOWMANY. rewrite Z.quot_div_nonneg by (unfold Unitsz; lia). symmetry. apply (Z.div_unique_pos _ _ _ 31); unfold Unitsz; lia.
  - intros p. rewrite HH. pose proof (Z.div_mod (p + c - 1) c ltac:(lia)). pose proof (Z.mod_pos_bound (p + c - 1) c ltac:(lia)). lia.
  - intros p. rewrite HD, HH. by rewrite Z.mod_mul by lia.
  - intros p. rewrite HD, HH. intros [=H]%Z.eqb_eq. pose proof (Z.div_mod p c ltac:(lia)). rewrite <- (Z.div_unique_pos (p + c - 1) c (p / c) (c - 1)); lia.
Qed.

Lemma path_last nx a l b : path nx a l b -> b = match last l with None => a | Some q => nx q end.
Proof.
  revert a. induction l as [|x l IH]; intros a; cbn; [done|]. intros [-> H]. destruct l as [|y l]; [by cbn in H|]. change (last (x :: y :: l)) with (last (y :: l)). rewrite (IH _ H).
  destruct (last (y :: l)) eqn:E; [done|by apply last_None in E].
Qed.
Lemma wp_quick_align fuel n align h (K : Blocks) l1 l2 : inv h K -> path (next h) (quicklist h n) (l1 ++ l2) None -> NoDup (l1 ++ l2) -> (forall q, q ∈ l1 ++ l2 <-> K !! q = Some (Quick, n)) ->
  (length l2 < fuel)%nat -> wp (quick_align fuel n align (last l1)) h (fun x h' => match x with
    | Some v => like h h' /\ ALIGNED v align = true /\ exists K', grant (fun i => i <> n) h K n (v - 1) h' K'
    | None => h' = h
    end).
Proof.
  intros Hi. revert l1 l2. induction fuel as [|fuel IH]; intros l1 l2 Hp Hd Hin Hf; [lia|]. cbn [quick_align]. wp_step. apply wp_gets. change (id h) with h.
  pose proof Hp as (c & Hp1 & Hp2)%path_app. rewrite <- (path_last _ _ _ _ Hp1). destruct l2 as [|p l2]; [cbn in Hp2; subst; by apply wp_ret|]. destruct Hp2 as [-> _].
  destruct (ALIGNED (p + 1) align) eqn:Hal.
  - assert (K !! p = Some (Quick, n)) as Hk by apply Hin, elem_mid. pose proof (inv_pop _ _ _ _ _ _ Hi Hp Hd Hin) as Hi1.
    wp_step. apply (wp_mono _ _ (fun _ h1 => like h h1 /\ held Held (fun i => i <> n) h K n p h1 (<[p := (Held, n)]> K))).
    + destruct (last l1) as [q|]; apply wp_modify; (split; [by apply like_refl|]); apply held_pop; done || lia.
    + intros _ h1 [Hl Hh]. wp_steps. split; [eapply like_trans; [exact Hl|by apply like_refl]|]. split; [done|]. rewrite Z.add_simpl_r, (inv_size _ _ _ _ _ Hi Hk) by done.
      pose proof Hh as (_ & (m & _ & Hm & Hs) & _). rewrite lookup_insert_eq in Hm. injection Hm as <-. pose proof (grant_claim _ _ _ _ _ _ _ Hh) as Hg. by rewrite Hs in Hg.
  - replace (Some p) with (last (l1 ++ [p])) by apply last_snoc. apply IH with l2; rewrite <- ?app_assoc; [done|done|done|cbn in Hf; lia].
Qed.
Lemma quick_bound h (K : Blocks) n l : inv h K -> NoDup l -> (forall q, q ∈ l <-> K !! q = Some (Quick, n)) -> (length l < quick_fuel h)%nat.
Proof.
  intros Hi Hd Hin. unfold quick_fuel. set (room := concat (map (fun s => seqZ (base s) (tailptr s - base s)) (msegs h))).
  assert (length l <= length room)%nat as H1.
  { apply submseteq_length, NoDup_submseteq; [done|]. intros p Hp%Hin. destruct (ar_block _ _ (i_arena _ _ Hi) _ _ _ Hp) as (Hn & j & s & Hs & Hb).
    apply list_elem_of_In, in_concat. exists (seqZ (base s) (tailptr s - base s)). split; [apply in_map_iff; exists s; split; [done|]; apply list_elem_of_In; by eapply list_elem_of_lookup_2|apply list_elem_of_In, elem_of_seqZ; lia]. }
  enough (length room <= foldr (fun s n => frag_fuel s + n)%nat 0%nat (msegs h))%nat by lia. unfold room. clear. induction (msegs h) as [|a m IH]; [done|].
  cbn -[frag_fuel]. rewrite length_app, length_seqZ. pose proof (eq_refl : frag_fuel a = S (Z.to_nat (tailptr a - base a))). lia.
Qed.

(** The residue around an aligned block is freed while the block is held or in use. *)
Definition unused (K : Blocks) (p : Z) : Prop := forall k n, K !! p = Some (k, n) -> k <> Used /\ k <> Held.
Lemma held_freed k m keep h (K : Blocks) nunits p h1 K1 r n h2 : k = Used \/ k = Held -> r <> p -> nunits <= m -> K1 !! p = Some (k, m) -> unused K p -> unused K r ->
  (forall q k n, k = Used \/ k = Held -> q <> p -> q <> r -> K1 !! q = Some (k, n) <-> K !! q = Some (k, n)) ->
  K1 !! r = Some (Used, n) -> inv h1 K1 ->
  (forall q n, K !! q = Some (Used, n) -> forall a, q * Unitsz <= a < (q + n) * Unitsz -> bytes h1 a = bytes h a) ->
  (forall q n, keep n -> K !! q = Some (Quick, n) -> K1 !! q = Some (Quick, n)) ->
  freed h1 K1 r n h2 -> size h2 p = m ->
  exists K2, held k keep h K nunits p h2 K2 /\ K2 !! p = Some (k, m).
Proof.
  intros Hk Hne Hm Hp Hnp Hnr Ho Hr Hi1 Hb Hq (K2 & Hi2 & [T1 T2] & Hl & Hout & _ & _) Hs. exists K2.
  assert (K2 !! p = Some (k, m)) as Hp2 by (by apply T1). split; [|done]. split; [done|]. split; [exists m; by split|]. split; [done|]. split; [|split].
  - intros q k' o Hk' Hqp. rewrite T1 by done. destruct (decide (q = r)) as [->|Hqr]; [|rewrite Ho by done; tauto].
    split; [tauto|]. intros Hq1. destruct (Hnr _ _ Hq1). by destruct Hk'.
  - intros q o Hqo a Ha. rewrite <- (Hb _ _ Hqo a Ha). apply Hout. assert (q <> p) as N1 by (intros ->; by destruct (Hnp _ _ Hqo)). assert (q <> r) as N2 by (intros ->; by destruct (Hnr _ _ Hqo)).
    assert (K1 !! q = Some (Used, o)) as Hq1 by (apply Ho; [by left|done..]). unfold Unitsz in *. destruct (ar_disj _ _ (i_arena _ _ Hi1) _ _ _ _ _ _ Hr Hq1); [congruence|lia..].
  - intros q o Hko Hqo. by apply T2, Hq.
Qed.
Definition tailed (align : Z) (h : Heap) (K : Blocks) (nunits : Z) (x : option Z) (h' : Heap) : Prop :=
  near h h' /\ match x with
  | Some p => ALIGNED (p + 1) align = true /\ exists K', held Used (fun _ => True) h K nunits p h' K' /\ K' !! p = Some (Used, nunits)
  | None => inv h' K /\ bytes h' = bytes h /\ msegs h' = msegs h
  end.
Lemma wp_tail_align cnt k nunits align h (K : Blocks) : inv h K -> (cnt + k = length (msegs h))%nat -> 1 <= nunits -> Unitsz < align -> ISPOWEROF2 align = true ->
  wp (tail_align cnt k nunits align) h (tailed align h K nunits).
Proof.
  intros Hi Hlen Hn Hal Hpow. destruct (align_units align Hal Hpow) as (c & Hc & Ec & A1 & A2 & A3). revert k h Hi Hlen.
  induction cnt as [|cnt IH]; intros k h Hi Hlen; cbn [tail_align]; wp_step; apply wp_modify.
  { apply wp_ret. split; [split; [done|]; split; [done|]; intros i s Hs; by exists s|]. split; [by apply inv_mseg|done]. }
  destruct (lookup_lt_is_Some_2 (msegs h) k ltac:(lia)) as [s Hs]. pose proof (inv_mseg _ (Some k) _ Hi) as Hi1.
  assert (near h (set_mseg (Some k) h)) as Hnear by (split; [done|]; split; [done|]; intros i t Ht; by exists t).
  set (h1 := set_mseg (Some k) h) in *. assert (bytes h1 = bytes h /\ mseg h1 = Some k /\ msegs h1 = msegs h) as (Eb & Em & El) by done. clearbody h1. rewrite <- El in Hs, Hlen.
  assert (forall x h', tailed align h1 K nunits x h' -> tailed align h K nunits x h') as Hext.
  { intros x h' [N1 N2]. split; [by eapply near_trans|]. rewrite <- Eb, <- El. destruct x as [p|]; [|done]. destruct N2 as (N2 & K' & N3 & N4). split; [done|]. exists K'. split; [|done].
    unfold held in *. by rewrite <- Eb. }
  eapply wp_mono; [|apply Hext]. clear Hext Hnear Eb El Hi h. rename h1 into h, Hi1 into Hi.
  wp_step. eapply wp_cur; [done|done|]. destruct (room nunits s) eqn:Hroom; cbn [negb]; [|apply IH; [done|lia]].
  unfold room in Hroom. destruct (Z.gtb_spec nunits (end_ s - tailptr s)); [done|]. cbv zeta. pose proof (A1 (tailptr s + 1)) as Hp. pose proof (A2 (tailptr s + 1)) as Hp2.
  destruct (Z.eqb_spec (ALIGNHDR (tailptr s + 1) align) (tailptr s + 1)) as [E|E]; cbn [negb].
  - wp_step. eapply wp_mono; [eapply wp_tailalloc; [done|done|done|lia]|]. intros p h2 (-> & Hl & _ & _ & Hh & _). apply wp_ret. split; [by apply near_like|]. rewrite <- E. split; [done|].
    exists (<[tailptr s := (Used, nunits)]> K). by rewrite lookup_insert_eq.
  - rewrite Ec. set (q := ALIGNHDR (tailptr s + 1) align) in *. destruct (Z.ltb_spec (end_ s - tailptr s) (nunits + c)); [apply IH; [done|lia]|].
    wp_step. eapply wp_mono; [eapply wp_tailalloc; [done|done|done|lia]|]. intros r h2 (-> & Hl2 & Eb2 & Hs2 & (Hi2 & _ & _ & Ho2 & _ & Hq2) & Hnone).
    replace (tailptr s + (q - tailptr s - 1)) with (q - 1) in Hs2 by lia. pose proof Hl2 as (M2 & _).
    wp_step. eapply wp_mono; [eapply wp_tailalloc; [exact Hi2|by rewrite M2|exact Hs2|cbn; lia]|]. cbn [tailptr set_tailptr].
    intros p h3 (-> & Hl3 & Eb3 & Hs3 & (Hi3 & _ & _ & Ho3 & _ & Hq3) & Hnone2). pose proof Hl3 as (M3 & _). rewrite lookup_insert_ne in Hnone2 by lia.
    assert (q - 1 <> tailptr s) as Hne by lia. pose proof (proj1 (ar_segs _ _ (i_arena _ _ Hi3)) _ _ Hs3) as Hgeo. pose proof (proj1 (ar_segs _ _ (i_arena _ _ Hi)) _ _ Hs) as Hgeo1. cbn in Hgeo.
    wp_step. eapply wp_mono; [eapply wp_qfreeinternal; [exact Hi3|by rewrite M3, M2|exact Hs3|cbn; lia|rewrite lookup_insert_ne by done; apply lookup_insert_eq|done]|].
    intros [] h4 [Hf _]. apply wp_ret. pose proof Hf as (K4 & Hi4 & [T4 _] & Hl4 & _). split; [by eapply near_trans, near_trans; apply near_like|]. replace (q - 1 + 1) with q by lia. split; [done|].
    eapply (held_freed Used nunits _ h K _ (q - 1) h3); [by left|done|done|apply lookup_insert_eq| | | |rewrite lookup_insert_ne by done; apply lookup_insert_eq|exact Hi3| | |exact Hf|].
    + intros k' o. by rewrite Hnone2.
    + intros k' o. by rewrite Hnone.
    + intros x k' o _ N1 N2. by rewrite !lookup_insert_ne by done.
    + intros x o _ a _. by rewrite Eb3, Eb2.
    + intros x o _ Hx. rewrite !lookup_insert_ne by congruence. done.
    + eapply (inv_size _ _ _ Used); [exact Hi4| |done]. apply T4; [by left|]. split; [apply lookup_insert_eq|done].
Qed.

(** The front of a held block is freed, or its end. *)
Lemma unused_outside keep h (K : Blocks) nunits p h1 K1 q : held Held keep h K nunits p h1 K1 -> K1 !! q = None -> unused K q.
Proof.
  intros (_ & _ & Hnew & Ho & _) Hq k n Hk. destruct (decide (q = p)) as [->|Hne]; [by eapply Hnew|].
  split; intros ->; [assert (K1 !! q = Some (Used, n)) by (apply Ho; auto)|assert (K1 !! q = Some (Held, n)) by (apply Ho; auto)]; congruence.
Qed.
Definition in_seg (h : Heap) (p : Z) : Prop := exists j s, mseg h = Some j /\ msegs h !! j = Some s /\ base s <= p < end_ s.
Lemma in_seg_like h h' p : like h h' -> in_seg h p -> in_seg h' p.
Proof. intros (E & _ & _ & Hl) (j & s & Hm & Hs & Hb). destruct (Hl _ _ Hs) as (s' & Hs' & E1 & E2). exists j, s'. rewrite E, E1, E2. done. Qed.
Lemma in_seg_block h (K : Blocks) p k n m : inv h K -> K !! p = Some (k, n) -> 0 <= m < n -> in_seg h p -> in_seg h (p + m).
Proof.
  intros Hi Hp Hm (j & s & Hj & Hs & Hb). exists j, s. split; [done|]. split; [done|]. destruct (arena_seg _ _ _ _ _ _ _ (i_arena _ _ Hi) Hs Hp Hb).
  pose proof (proj1 (ar_segs _ _ (i_arena _ _ Hi)) _ _ Hs). lia.
Qed.
Lemma wp_free_part h (K : Blocks) r n : inv h K -> in_seg h r -> K !! r = Some (Held, n) -> size h r = n -> next h r = None ->
  wp (qfreeinternal (Some (r + 1)) false) h (fun _ h' => freed h (<[r := (Used, n)]> K) r n h' /\ forall q m, q <> r -> K !! q = Some (Held, m) -> size h' q = size h q).
Proof.
  intros Hi (j & s & Hj & Hs & Hb) Hr Hsz Hnx. eapply wp_mono; [eapply wp_qfreeinternal; [by apply inv_claim|done|exact Hs|done|apply lookup_insert_eq|done]|].
  intros [] h' [Hf Hz]. split; [done|]. intros q m Hne Hq. apply (Hz q m). by rewrite lookup_insert_ne.
Qed.
Lemma wp_cut_front keep h (K : Blocks) p n m h1 K1 : held Held keep h K n p h1 K1 -> in_seg h1 p -> K1 !! p = Some (Held, n) -> 0 < m < n ->
  wp (qfreeinternal (Some (p + 1)) false) (set_next p None (set_size p m (set_size (p + m) (n - m) h1))) (fun _ h2 =>
    like h1 h2 /\ exists K2, held Held keep h K (n - m) (p + m) h2 K2 /\ K2 !! (p + m) = Some (Held, n - m)).
Proof.
  intros Hh Hseg Hp Hm. pose proof Hh as (Hi & _ & Hnew & Ho & Hb & Hq). destruct (inv_split _ _ _ _ _ Hi Hp Hm) as [Hi1 Hnone]. set (K2 := <[p + m := _]> _) in Hi1.
  assert (p <> p + m) as Hne by lia. assert (K2 !! p = Some (Held, m)) as Hp2 by (unfold K2; rewrite lookup_insert_ne by done; apply lookup_insert_eq).
  assert (K2 !! (p + m) = Some (Held, n - m)) as Hr2 by apply lookup_insert_eq.
  assert (inv (set_next p None (set_size p m (set_size (p + m) (n - m) h1))) K2) as Hi2 by (eapply inv_set_next; [eapply inv_set_size; [by eapply inv_set_size|done]|done]).
  eapply wp_mono; [apply (wp_free_part _ K2 p m); [done|done|done|cbn; by rewrite fn_eq|cbn; by rewrite fn_eq]|].
  intros [] h2 [Hf Hz]. split; [by destruct Hf as (? & _ & _ & Hl & _)|].
  eapply (held_freed Held (n - m) keep h K _ (p + m)); [by right|done|lia|rewrite lookup_insert_ne by done; exact Hr2|by eapply unused_outside|done| |apply lookup_insert_eq| | | |exact Hf|].
  - intros q k o Hk N1 N2. rewrite lookup_insert_ne by done. unfold K2. rewrite !lookup_insert_ne by done. by apply Ho.
  - apply inv_claim; [done|done|cbn; by rewrite fn_eq|cbn; by rewrite fn_eq].
  - exact Hb.
  - intros q o Hko Hqo. pose proof (Hq _ _ Hko Hqo). unfold K2. rewrite !lookup_insert_ne by congruence. done.
  - rewrite (Hz (p + m) (n - m)); [|done|done]. cbn. rewrite fn_ne by done. apply fn_eq.
Qed.
Lemma wp_cut_back keep h (K : Blocks) p n m h1 K1 : held Held keep h K n p h1 K1 -> in_seg h1 p -> K1 !! p = Some (Held, n) -> 0 < m < n ->
  wp (qfreeinternal (Some (p + m + 1)) false ;; modify (set_size p m)) (set_next (p + m) None (set_size (p + m) (n - m) h1)) (fun _ h2 =>
    like h1 h2 /\ exists K2, held Held keep h K m p h2 K2 /\ K2 !! p = Some (Held, m)).
Proof.
  intros Hh Hseg Hp Hm. pose proof Hh as (Hi & _ & Hnew & Ho & Hb & Hq). destruct (inv_split _ _ _ _ _ Hi Hp Hm) as [Hi1 Hnone]. set (K2 := <[p + m := _]> _) in Hi1.
  assert (p <> p + m) as Hne by lia. assert (K2 !! p = Some (Held, m)) as Hp2 by (unfold K2; rewrite lookup_insert_ne by done; apply lookup_insert_eq).
  assert (K2 !! (p + m) = Some (Held, n - m)) as Hr2 by apply lookup_insert_eq.
  assert (inv (set_next (p + m) None (set_size (p + m) (n - m) h1)) K2) as Hi2 by (eapply inv_set_next; [by eapply inv_set_size|done]).
  wp_step. eapply wp_mono; [apply (wp_free_part _ K2 (p + m) (n - m)); [done| |done|cbn; by rewrite fn_eq|cbn; by rewrite fn_eq]|].
  { by apply (in_seg_block h1 K1 p Held n); [| |lia|]. }
  intros [] h2 [Hf Hz]. apply wp_modify. split; [by destruct Hf as (? & _ & _ & Hl & _)|].
  eapply (held_freed Held m keep h K _ p); [by right|done|lia|rewrite lookup_insert_ne by done; exact Hp2|done|by eapply unused_outside| |apply lookup_insert_eq| | | | |cbn; by rewrite fn_eq].
  - intros q k o Hk N1 N2. rewrite lookup_insert_ne by done. unfold K2. rewrite !lookup_insert_ne by done. by apply Ho.
  - apply inv_claim; [exact Hi2|done|cbn; by rewrite fn_eq|cbn; by rewrite fn_eq].
  - exact Hb.
  - intros q o Hko Hqo. pose proof (Hq _ _ Hko Hqo). unfold K2. rewrite !lookup_insert_ne by congruence. done.
  - destruct Hf as (K3 & Hi3 & Ht & Hl & Hout & Hsz & Hft). exists K3. split; [|split; [done|]; split; [done|]; split; [done|]; split; [cbn; by rewrite fn_ne by done|done]].
    eapply inv_set_size; [done|]. apply Ht; [by right|]. split; [rewrite lookup_insert_ne by done; exact Hp2|done].
Qed.

Lemma wp_carve c align nunits h (K : Blocks) p n h1 K1 : Unitsz < align -> ISPOWEROF2 align = true -> HOWMANY align Unitsz = c -> 1 <= nunits <= n -> (ALIGNED (p + 1) align = true \/ nunits + c <= n) ->
  held Held (fun _ => True) h K n p h1 K1 -> K1 !! p = Some (Held, n) -> in_seg h1 p ->
  wp (carve p nunits align) h1 (fun p' h' => like h1 h' /\ ALIGNED (p' + 1) align = true /\ exists K', grant (fun _ => True) h K nunits p' h' K').
Proof.
  intros Hal Hpow Ec Hn Hsz Hh Hp Hseg. destruct (align_units align Hal Hpow) as (c' & Hc & Ec' & A1 & A2 & A3). rewrite Ec in Ec'. subst c'. unfold carve. cbv zeta.
  wp_step. apply (wp_mono _ _ (fun p' h2 => like h1 h2 /\ ALIGNED (p' + 1) align = true /\ exists n' K2, nunits <= n' /\ held Held (fun _ => True) h K n' p' h2 K2 /\ K2 !! p' = Some (Held, n') /\ in_seg h2 p')).
  { destruct (ALIGNED (p + 1) align) eqn:Ea; [apply wp_ret; split; [by apply like_refl|]; split; [done|]; exists n, K1; split; [lia|done]|].
    destruct Hsz as [|Hsz]; [done|]. pose proof (A1 (p + 1)) as Hq. pose proof (A2 (p + 1)) as Hqa. set (q := ALIGNHDR (p + 1) align) in *.
    assert (q <> p + 1) as Hne by (intros E; rewrite E in Hqa; congruence). pose proof Hh as (_ & (n' & _ & Hp' & Hs1) & _). rewrite Hp in Hp'. injection Hp' as <-.
    do 3 (wp_step; apply wp_modify). rewrite Hs1. replace (q - 1) with (p + (q - 1 - p)) by lia.
    wp_step. replace (p + (q - 1 - p) - p) with (q - 1 - p) by lia. eapply wp_mono; [apply (wp_cut_front (fun _ => True) h K p n (q - 1 - p) h1 K1); [done|done|done|lia]|].
    intros [] h2 (Hl & K2 & Hh2 & Hp2). apply wp_ret. split; [done|]. replace (p + (q - 1 - p) + 1) with q by lia. split; [done|]. exists (n - (q - 1 - p)), K2.
    split; [lia|]. split; [done|]. split; [done|]. eapply in_seg_like; [exact Hl|]. eapply in_seg_block; [apply Hh|exact Hp|lia|done]. }
  intros p2 h2 (Hl2 & Ha2 & n2 & K2 & Hn2 & Hh2 & Hp2 & Hseg2). wp_step. apply wp_gets. pose proof Hh2 as (_ & (n' & _ & Hp' & Hs2) & _). rewrite Hp2 in Hp'. injection Hp' as <-.
  rewrite Hs2. wp_step. apply (wp_mono _ _ (fun _ h3 => like h2 h3 /\ exists K3, held Held (fun _ => True) h K nunits p2 h3 K3)).
  { destruct (Z.gtb_spec n2 nunits); cbn [andb]; [destruct (Z.gtb_spec (n2 - nunits) Mult)|].
    2, 3: apply wp_ret; split; [by apply like_refl|]; exists K2; destruct Hh2 as (U1 & (m & U2 & U3) & U4); split; [done|]; split; [exists m; split; [lia|done]|done].
    do 2 (wp_step; apply wp_modify). rewrite Hs2. eapply wp_mono; [apply (wp_cut_back (fun _ => True) h K p2 n2 nunits h2 K2); [exact Hh2|done|done|lia]|].
    intros [] h3 (Hl & K3 & Hh3 & _). split; [done|]. by exists K3. }
  intros [] h3 (Hl3 & K3 & Hh3). wp_steps. split; [eapply like_trans; [exact Hl2|]; eapply like_trans; [exact Hl3|by apply like_refl]|]. split; [done|].
  by apply (grant_claim _ _ _ _ _ h3 K3).
Qed.
Lemma wp_align_loop fuel c align nunits h (K : Blocks) j s r prev : Unitsz < align -> ISPOWEROF2 align = true -> HOWMANY align Unitsz = c ->
  inv h K -> mseg h = Some j -> msegs h !! j = Some s -> rover s = Some r -> 1 <= nunits -> ahead h K s prev fuel ->
  wp (align_loop fuel nunits align prev) h (fun x h' => like h h' /\ match x with
    | Some p => ALIGNED (p + 1) align = true /\ exists K', grant (fun _ => True) h K nunits p h' K'
    | None => h' = h
    end).
Proof.
  intros Hal Hpow Ec Hi Hm Hs Hr Hn. revert prev. induction fuel as [|fuel IH]; intros prev Hah; [destruct Hah as (_ & l & _ & _ & Hf); lia|]. cbn [align_loop].
  wp_step. apply wp_gets. change (id h) with h. destruct (ahead_step _ _ _ _ _ _ _ Hi Hs Hr Hah) as (p & n & Hnp & Hpn & Hpb & Hsz & Hnext). destruct Hah as [Hprev _].
  rewrite Hnp, Hsz, Ec. destruct ((n <? nunits) || (negb (ALIGNED (p + 1) align) && (n <? nunits + c))) eqn:Efit.
  - wp_step. eapply wp_cur; [done|done|]. case_bool_decide; [apply wp_ret; split; [by apply like_refl|done]|]. destruct Hnext as [?|?]; [congruence|by apply IH].
  - apply orb_false_iff in Efit as [E1%Z.ltb_ge E2]. wp_step. eapply wp_mono; [by eapply wp_unlink|]. intros [] h1 (Hi1 & Hl1 & Eb & Es).
    pose proof Hl1 as (M1 & _ & _ & M4). destruct (M4 _ _ Hs) as (s1 & Hs1 & B1 & B2). wp_step. eapply wp_forget_max; [by rewrite M1|exact Hs1|]. intros h2 Hl2 Eb2 Es2 Hk.
    wp_step. eapply wp_mono; [eapply (wp_carve c align nunits h K p n h2 (<[p := (Held, n)]> K)); [done|done|done|lia| | |apply lookup_insert_eq|]|].
    + destruct (ALIGNED (p + 1) align); [by left|right]. cbn in E2. by apply Z.ltb_ge in E2.
    + eapply held_ext; [eapply held_unlink; [exact Hpn|exact Hi|reflexivity|exact Hi1|exact Es|exact Eb]|by apply Hk|done|done].
    + eapply in_seg_like; [exact Hl2|]. exists j, s1. rewrite M1, B1, B2. done.
    + intros p' h3 (Hl3 & Hx). apply wp_ret. split; [|done]. by eapply like_trans, like_trans.
Qed.
Lemma wp_hard_way cnt k c align nunits h (K : Blocks) : Unitsz < align -> ISPOWEROF2 align = true -> HOWMANY align Unitsz = c -> inv h K -> (cnt + k = length (msegs h))%nat -> 1 <= nunits ->
  wp (hard_way cnt k nunits align) h (fun x h' => near h h' /\ match x with
    | Some p => ALIGNED (p + 1) align = true /\ exists K', grant (fun _ => True) h K nunits p h' K'
    | None => inv h' K /\ bytes h' = bytes h
    end).
Proof.
  intros Hal Hpow Ec. revert k h. induction cnt as [|cnt IH]; intros k h Hi Hlen Hn; cbn [hard_way]; wp_step; apply wp_modify.
  { wp_steps. split; [split; [done|]; split; [done|]; intros i s Hs; by exists s|]. split; [|done]. by apply inv_mseg. }
  destruct (lookup_lt_is_Some_2 (msegs h) k ltac:(lia)) as [s Hs]. pose proof (inv_mseg _ (Some k) _ Hi) as Hi1.
  assert (forall p h', (exists K', grant (fun _ => True) (set_mseg (Some k) h) K nunits p h' K') -> exists K', grant (fun _ => True) h K nunits p h' K') as Hext
    by (intros p h' [K' HK]; exists K'; by apply (grant_ext _ h (set_mseg (Some k) h))).
  assert (wp (hard_way cnt (S k) nunits align) (set_mseg (Some k) h) (fun x h' => near h h' /\ match x with
    | Some p => ALIGNED (p + 1) align = true /\ exists K', grant (fun _ => True) h K nunits p h' K'
    | None => inv h' K /\ bytes h' = bytes h
    end)) as Hgo.
  { eapply wp_mono; [apply IH; [done|cbn; lia|done]|]. intros [p|] h2 [Hl Hx]; (split; [exact Hl|]); [|done]. destruct Hx as [Ha HK]. split; [done|]. by apply Hext. }
  wp_step. eapply wp_cur; [done|exact Hs|]. destruct (rover s) as [r|] eqn:Hr; [|exact Hgo].
  wp_step. eapply wp_mono; [by eapply (wp_align_loop _ c align nunits (set_mseg (Some k) h) K k s r); [..|by eapply ahead_start]|]. intros [p|] h2 [Hl Hx].
  - apply wp_ret. split; [by apply near_like in Hl|]. destruct Hx as (Ha & HK). split; [done|]. by apply Hext.
  - by subst h2.
Qed.

Lemma wp_qmallocalign_again (E : string -> Prop) more nunits align h (K : Blocks) : Unitsz < align -> ISPOWEROF2 align = true -> inv h K -> msegs h <> [] -> 1 <= nunits -> E "Enomem"%string ->
  wpp E (qmallocalign_again more nunits align) h (fun v h' => ALIGNED v align = true /\ got (fun _ => True) h K nunits v h').
Proof.
  intros Hal Hpow Hi Hne Hn HE. revert h Hi Hne. induction more as [|more IH]; intros h Hi Hne; cbn [qmallocalign_again];
    (apply wpp_gets; cbv beta;
    eapply wpp_then; [apply wp_tail_align; [exact Hi|cbn; lia|done..]|]; cbv beta; intros [p|] h1 [Hn1 Hx];
    [destruct Hx as (Ha & K' & Hh & Hp); apply wpp_wp; wp_steps; split; [done|];
     refine (got_claim (fun _ => True) h K nunits p (set_bytes (<[tag_at (p + nunits) := ATAG]> (bytes h1)) h1) K' _ _); [eapply grant_tail; [|exact Hp|exact Hh]; done|by eapply (near_ne h)]|];
    destruct Hx as (Hi1 & Eb1 & Es1);
    eapply wpp_then; [by eapply wp_hard_way; [..|rewrite Es1; cbn; lia|]|]; cbv beta; intros [p|] h2 [Hn2 Hx];
    [destruct Hx as (Ha & K' & HK); apply wpp_wp; wp_steps; split; [done|]; eapply got_claim; [eapply grant_ext; [|exact HK]; done|eapply near_ne; [exact Hn2|by eapply near_ne]]|]).
  - exact HE.
  - destruct Hx as [Hi2 Hb2]. eapply wpp_then; [apply wp_morecore; [done|eapply near_ne; [exact Hn2|by eapply near_ne]]|]. cbv beta. intros e h3 (Hi3 & Hb3 & Hne3).
    destruct (e =? 0); [|exact HE]. eapply wpp_mono; [by apply IH|done|]. cbv beta. intros v h4 [Ha Hg]. split; [done|]. eapply got_ext, Hg. congruence.
Qed.
Lemma wp_qmallocalign (E : string -> Prop) n align h (K : Blocks) : inv h K -> msegs h <> [] -> mainlock h = false -> 1 <= n < 2 ^ 32 -> 0 < align -> ISPOWEROF2 align = true -> E "Enomem"%string ->
  wpp E (qmallocalign n align) h (fun r h' => exists v, r = Some v /\ (v * Unitsz) mod align = 0 /\ got (fun _ => False) h K (NUNITS n) v h').
Proof.
  intros Hi Hne Hlk Hn Hal Hpow HE. unfold qmallocalign. destruct (Z.eqb_spec n 0); [lia|]. rewrite Hpow. cbn [negb]. destruct (ISPOWEROF2_spec _ Hal Hpow) as (k & Hk & Ek).
  destruct (Z.leb_spec align Unitsz).
  { eapply wpp_mono; [apply (wp_zeroed_malloc E); [done|done|done|done|by intros _]|done|]. cbv beta. intros r h' (v & -> & Hg & _). exists v. split; [done|]. split; [|by eapply got_weaken].
    rewrite Ek in *. assert (k <= 5) as Hk5 by (apply (Z.pow_le_mono_r_iff 2); [lia|lia|done]). change Unitsz with (2 ^ 5). replace (2 ^ 5) with (2 ^ (5 - k) * 2 ^ k) by (rewrite <- Z.pow_add_r by lia; f_equal; lia).
    rewrite Z.mul_assoc. apply Z.mod_mul. lia. }
  assert (forall v, ALIGNED v align = true -> (v * Unitsz) mod align = 0) as Hmod.
  { intros v [=Hv]%Z.eqb_eq. rewrite Ek in *. change (2 ^ k - 1) with (Z.pred (2 ^ k)) in Hv. by rewrite <- Z.ones_equiv, Z.land_ones in Hv. }
  pose proof (NUNITS_spec n Hn) as [Hu _]. cbv zeta.
  eapply (wpp_then _ _ _ _ (fun x h' => match x with Some v => ALIGNED v align = true /\ got (fun _ => False) h K (NUNITS n) v h' | None => h' = h end)).
  - destruct (NUNITS n <=? NQUICK); [|by apply wp_ret]. wp_step. apply wp_gets. change (id h) with h. destruct (i_quick _ _ Hi (NUNITS n)) as (l & Hl & Hd & Hin).
    eapply wp_mono; [apply (wp_quick_align _ (NUNITS n) align h K [] l); [done|done|done|done|by eapply quick_bound]|].
    intros [v|] h'; [|done]. intros (Hlk' & Ha & K' & HK). split; [done|]. apply got_like; [done..|]. exists K'. by eapply grant_weaken.
  - intros [v|] h'; [intros [Ha Hg]; apply wpp_wp, wp_ret; exists v; split; [done|]; split; [by apply Hmod|done]|]. intros ->. eapply wpp_then; [by apply wp_ilock|].
    cbv beta. intros [] h1 ->. apply wpp_bind. eapply wpp_mono; [apply wp_qmallocalign_again; [done|done|by apply inv_lock|done|lia|exact HE]|done|]. cbv beta. intros v h2 [Ha Hg].
    apply wpp_wp, wp_ret. exists v. split; [done|]. split; [by apply Hmod|]. eapply got_ext, got_weaken, Hg; done.
Qed.
Lemma wp_mallocalign (E : string -> Prop) n align span h (K : Blocks) : inv h K -> msegs h <> [] -> mainlock h = false -> 1 <= n < 2 ^ 32 -> 0 < align -> ISPOWEROF2 (if span =? 0 then align else span) = true ->
  (span <> 0 -> align <= span /\ n <= span) -> E "Enomem"%string ->
  wpp E (mallocalign n align 0 span) h (fun r h' => fresh (fun _ => False) h K n r h' /\ forall v, r = Some v -> (v * Unitsz) mod (if span =? 0 then align else span) = 0).
Proof.
  intros Hi Hne Hlk Hn Hal Hpow Hspan HE. unfold mallocalign.
  set (a := if span =? 0 then align else span) in *. assert (0 < a) as Ha by (unfold a; destruct (Z.eqb_spec span 0); lia).
  assert ((let '(align, span) := if negb (span =? 0) && (align <=? span) then (span, 0) else (align, span) in (align, span)) = (a, 0) /\ negb (span =? 0) && (align <=? span) && (n >? span) = false) as [Eq1 Eq2].
  { unfold a. destruct (Z.eqb_spec span 0) as [->|]; cbn [negb andb]; [by split|]. destruct Hspan as [H1 H2]; [done|]. destruct (Z.leb_spec align span); [|lia]. destruct (Z.gtb_spec n span); [lia|]. by split. }
  cbv zeta. rewrite Eq2. destruct (if negb (span =? 0) && (align <=? span) then (span, 0) else (align, span)) as [a' s']. injection Eq1 as -> ->. cbn [Z.eqb negb orb].
  apply wpp_bind. eapply wpp_mono; [by apply (wp_qmallocalign E)|done|]. cbv beta. intros r h1 (v & -> & Hv & Hg). cbn [setmalloctag]. apply wpp_wp. wp_step. apply wp_ret.
  destruct (ISPOWEROF2_spec a Ha Hpow) as (k & Hk & Ek).
  assert (Z.land (v * Unitsz) (a - 1) = 0) as -> by (rewrite Ek in *; change (2 ^ k - 1) with (Z.pred (2 ^ k)); by rewrite <- Z.ones_equiv, Z.land_ones).
  cbn [Z.eqb negb]. wp_steps. split; [|by intros ? [=<-]]. exists v. split; [done|]. split; [apply got_write; [done|by apply NUNITS_spec]|]. intros i Hi2. by apply write_read.
Qed.

(** *** [free] *)
(** The segment of a block of more than a unit is found by the address given to its user. *)
Lemma find_seg_at h i t p : segs_ok (msegs h) -> msegs h !! i = Some t -> base t <= p -> p + 2 <= end_ t ->
  wp (find_seg (fun s => (p + 1 >=? base s) && (p + 1 <? end_ s))) h (fun _ h' => h' = set_mseg (Some i) h).
Proof.
  intros [S1 S2] Ht Hb He. eapply wp_mono; [apply wp_find_seg|]. cbv beta. intros _ h' ([j|] & -> & Ho).
  - destruct Ho as (s & Hs & Hfs). do 2 f_equal. destruct (Z.geb_spec (p + 1) (base s)); [|done]. destruct (Z.ltb_spec (p + 1) (end_ s)); [|done].
    destruct (decide (j = i)) as [|Hij]; [done|]. pose proof (S1 _ _ Hs). destruct (S2 _ _ _ _ Hs Ht Hij); lia.
  - exfalso. specialize (Ho _ _ Ht). cbv beta in Ho. destruct (Z.geb_spec (p + 1) (base t)); [|lia]. destruct (Z.ltb_spec (p + 1) (end_ t)); [done|lia].
Qed.
Definition released (h : Heap) (K : Blocks) (p n : Z) (h' : Heap) : Prop :=
  mainlock h' = false /\ near (set_mainlock false h) h' /\ exists K', inv h' K' /\ taken K K' p /\ outside p n h h' /\ size h' p = n /\ bytes h' (tag_at (p + n)) = FTAG.
Lemma wp_give_back h (K : Blocks) p n : inv h K -> mainlock h = false -> K !! p = Some (Used, n) -> 2 <= n -> bytes h (tag_at (p + n)) = ATAG -> wp (free (Some (p + 1))) h (fun _ => released h K p n).
Proof.
  intros Hi Hlk Hp Hn Ht. destruct (ar_block _ _ (i_arena _ _ Hi) _ _ _ Hp) as (_ & j & s & Hs & Hb1 & Hb2). pose proof (proj1 (ar_segs _ _ (i_arena _ _ Hi)) _ _ Hs) as Hgeo. unfold free. wp_step. eapply wp_mono; [by apply wp_ilock|]. intros [] h1 ->.
  wp_step. eapply wp_mono; [by apply (find_seg_at (set_mainlock true h) j s p); [apply Hi|exact Hs|lia|lia]|]. cbv beta. intros [] h2 ->.
  wp_step. apply wp_gets. cbn [mseg set_mseg]. wp_step.
  eapply wp_mono; [eapply (wp_qfreeinternal (set_mseg (Some j) (set_mainlock true h)) K j s p n); [by apply inv_mseg, inv_lock|done|done|lia|done|done]|].
  intros [] h3 [(K' & Hi3 & Htk & (_ & _ & Hl & Hl2) & Hout & Hsz & Hft) _]. apply wp_modify. split; [done|]. split; [by split|]. exists K'.
  split; [by apply inv_lock|]. do 2 (split; [done|]). done.
Qed.

(** *** [realloc] *)
Lemma tailptr_twice x y j (l : list MSeg) : alter (set_tailptr x) j (alter (set_tailptr y) j l) = alter (set_tailptr x) j l.
Proof. apply list_eq. intros i. rewrite !list_lookup_alter. case_decide; [|done]. rewrite decide_True by done. by destruct (l !! j). Qed.
Lemma inv_grow h (K : Blocks) j s p n m : inv h K -> msegs h !! j = Some s -> K !! p = Some (Used, n) -> base s <= p -> p + n = tailptr s -> n <= m -> p + m <= end_ s ->
  inv (set_msegs (alter (set_tailptr (p + m)) j (msegs h)) (set_size p m h)) (<[p := (Used, m)]> K).
Proof.
  intros [A H Q R] Hs Hp Hb Ht Hm He. pose proof (proj1 (ar_block _ _ A _ _ _ Hp)). pose proof (arena_untail _ _ _ _ _ _ _ A Hs Hp Hb Ht) as A1.
  assert (alter (set_tailptr p) j (msegs h) !! j = Some (set_tailptr p s)) as Hs1 by (apply alter_Some; exists s; by rewrite decide_True).
  destruct (arena_tail _ _ _ _ m Used A1 Hs1 ltac:(cbn; lia)) as [_ A2]. cbn in A2. rewrite tailptr_twice, insert_delete_eq in A2.
  split; cbn; [exact A2| | |].
  - intros q k o [[<- [=<- <-]]|[Hne Hq]]%lookup_insert_Some Hk; [rewrite fn_eq; split; [done|]; by apply (H p Used n)|]. rewrite fn_ne by done. by apply (H q k o).
  - eapply quick_frame, Q; [|done]. intros q o. by eapply insert_kind.
  - eapply rover_frame, R; [| |done].
    + intros i s' (t & Hti & ->)%alter_Some. exists t. by destruct (decide _).
    + intros q. destruct (decide (p = q)) as [<-|Hne]; [rewrite lookup_insert_eq, Hp; split; intros [o Hq]; congruence|by rewrite lookup_insert_ne].
Qed.
(** A block of [n] bytes at [w] has taken the place of that at [p]; [osize] bytes were copied. *)
Definition moved (h : Heap) (K : Blocks) (p n osize : Z) (w : Z) (h' : Heap) : Prop :=
  mainlock h' = false /\ msegs h' <> [] /\ exists K' m, inv h' K' /\ K' !! (w - 1) = Some (Used, m) /\ n < (m - 1) * Unitsz /\ bytes h' (tag_at (w - 1 + m)) = ATAG /\
    (w = p + 1 \/ unused K (w - 1)) /\ (forall q k o, k = Used \/ k = Held -> q <> w - 1 -> K' !! q = Some (k, o) <-> K !! q = Some (k, o) /\ q <> p) /\
    (forall q o, q <> p -> K !! q = Some (Used, o) -> forall a, q * Unitsz <= a < (q + o) * Unitsz -> bytes h' a = bytes h a) /\
    (forall i, 0 <= i < Z.min n osize -> bytes h' (w * Unitsz + i) = bytes h ((p + 1) * Unitsz + i)) /\
    (forall q o, idle o -> K !! q = Some (Quick, o) -> K' !! q = Some (Quick, o)).

Lemma wp_realloc_copy (E : string -> Prop) h (K : Blocks) p m n : inv h K -> mainlock h = false -> msegs h <> [] -> K !! p = Some (Used, m) -> 2 <= m -> bytes h (tag_at (p + m)) = ATAG -> 1 <= n < 2 ^ 32 -> m < NUNITS n ->
  ((forall k s, msegs h !! k = Some s -> room (NUNITS n) s = false) -> E "Enomem"%string) ->
  wpp E (w <- malloc n ;; let osize := u32 ((m - 1) * Unitsz) in let osize := if n <? osize then n else osize in
    match w with Some x => memmove x (p + 1) osize | None => undef "nil"%string end ;; free (Some (p + 1)) ;; ret w) h
    (fun r h' => exists w, r = Some w /\ moved h K p n ((m - 1) * Unitsz - 1) w h').
Proof.
  intros Hi Hlk Hne Hp Hm Ht Hn Hsz HE. pose proof (NUNITS_spec n Hn) as [Hu1 Hu2]. cbv zeta. rewrite (u32_small ((m - 1) * Unitsz)) by (unfold Unitsz; lia).
  set (osize := if n <? (m - 1) * Unitsz then n else (m - 1) * Unitsz). assert (osize <= n /\ osize <= (m - 1) * Unitsz /\ Z.min n ((m - 1) * Unitsz - 1) <= osize) as (Ho1 & Ho2 & Ho3) by (unfold osize; destruct (Z.ltb_spec n ((m - 1) * Unitsz)); lia).
  clearbody osize. apply wpp_bind. eapply wpp_mono; [by apply (wp_zeroed_malloc E)|done|]. cbv beta. intros r h1 (w & -> & Hg & _).
  apply wpp_wp. wp_step. unfold memmove. apply wp_modify. set (cp := fun i => bytes h1 ((p + 1) * Unitsz + i)). pose proof (got_write _ _ _ _ _ osize cp _ Hg ltac:(lia)) as (G1 & G2 & K' & [Hi' (m' & Hm' & Hp' & Ht') Hnew Ho Hby Hq]).
  assert (K' !! p = Some (Used, m)) as Hpu by (apply Ho; [by left|intros ->; by destruct (Hnew _ _ Hp)|done]). assert (w - 1 <> p) as Hwp by (intros E1; rewrite E1 in Hnew; by destruct (Hnew _ _ Hp)).
  wp_step. eapply wp_mono; [apply (wp_give_back _ K' p m); [done|done|done|done|]|].
  { rewrite (Hby p m Hp); [done|]. unfold tag_at, Unitsz. lia. }
  intros [] h3 (L3 & Hn3 & K3 & Hi3 & [T3 T4] & Hout & _). apply wp_ret. exists w. split; [done|]. split; [done|]. split; [by eapply near_ne|]. exists K3, m'.
  split; [done|]. split; [apply T3; [by left|done]|]. split; [unfold Unitsz in Hu2 |- *; lia|].
  assert (forall q o, q <> p -> K' !! q = Some (Used, o) -> forall a, q * Unitsz <= a < (q + o) * Unitsz -> bytes h3 a = bytes (write w osize cp h1) a) as Hkeep.
  { intros q o Hqp Hqo a Ha. apply Hout. unfold Unitsz in *. destruct (ar_disj _ _ (i_arena _ _ Hi') _ _ _ _ _ _ Hpu Hqo); [congruence|lia..]. }
  pose proof (inv_block _ _ _ _ _ Hi' Hp') as Hm1. split; [rewrite (Hkeep (w - 1) m' Hwp Hp'); [done|unfold tag_at, Unitsz; lia]|].
  split; [by right|]. split; [|split; [|split; [|intros q o Hidle Hqo; by apply T4, Hq]]].
  - intros q k o Hk Hqw. rewrite T3, Ho by done. tauto.
  - intros q o Hqp Hqo a Ha. rewrite (Hkeep q o Hqp); [by apply (Hby q o)| |done]. apply Ho; [by left|intros ->; by destruct (Hnew _ _ Hqo)|done].
  - intros i Hi2. rewrite (Hkeep (w - 1) m' Hwp Hp') by (unfold Unitsz in *; lia). rewrite write_read by lia. unfold cp.
    destruct Hg as (_ & _ & K1 & [_ _ _ _ Hby1 _]). apply (Hby1 p m Hp). unfold Unitsz in *. lia.
Qed.
Lemma wp_realloc (E : string -> Prop) h (K : Blocks) p m n : inv h K -> mainlock h = false -> msegs h <> [] -> K !! p = Some (Used, m) -> 2 <= m -> bytes h (tag_at (p + m)) = ATAG -> 1 <= n < 2 ^ 32 ->
  ((forall k s, msegs h !! k = Some s -> room (NUNITS n) s = false) -> E "Enomem"%string) ->
  wpp E (realloc (Some (p + 1)) n) h (fun r h' => exists w, r = Some w /\ moved h K p n ((m - 1) * Unitsz - 1) w h').
Proof.
  intros Hi Hlk Hne Hp Hm Ht Hn HE. unfold realloc. destruct (Z.eqb_spec n 0); [lia|]. cbv zeta. rewrite Z.add_simpl_r. pose proof (NUNITS_spec n Hn) as [Hu1 Hu2].
  apply wpp_gets. change (id h) with h. destruct (i_header _ _ Hi _ _ _ Hp ltac:(done)) as [-> Hnx]. rewrite (Hnx eq_refl), Ht.
  destruct (Z.eqb_spec m 0); [lia|]. rewrite bool_decide_false by (intros Hx; by apply Hx). cbn [orb]. change (ATAG =? FTAG) with false. change (negb (ATAG =? ATAG)) with false. cbv iota.
  destruct (Z.geb_spec m (NUNITS n)).
  { apply wpp_wp, wp_ret. exists (p + 1). split; [done|]. split; [done|]. split; [done|]. exists K, m. rewrite Z.add_simpl_r. split; [done|]. split; [done|]. split; [unfold Unitsz in *; lia|].
    split; [done|]. split; [by left|]. split; [tauto|done]. }
  eapply wpp_then; [by apply wp_ilock|]. cbv beta. intros [] h1 ->. eapply wpp_then; [apply wp_find_seg|]. cbv beta. intros [] h1 (o & -> & Ho).
  apply wpp_gets. cbv beta. cbn [mseg set_mseg]. destruct o as [j|].
  - destruct Ho as (s & Hs & Hf). apply andb_true_iff in Hf as [[[H1 H2]%andb_true_iff H3]%andb_true_iff H4]. rewrite Z.geb_leb in H1.
    apply Z.leb_le in H1, H4. apply Z.eqb_eq in H3. cbn in Hs.
    pose proof (inv_grow h K j s p m (NUNITS n) Hi Hs Hp H1 H3 ltac:(lia) H4) as Hi1. set (K1 := <[p := (Used, NUNITS n)]> K) in *. assert (K1 !! p = Some (Used, NUNITS n)) as Hp1 by apply lookup_insert_eq.
    apply wpp_wp. wp_step. apply wp_modify. wp_step. eapply wp_oncur; [done|]. wp_steps. exists (p + 1). split; [done|]. split; [done|].
    split; [cbn; intros E1; apply (f_equal length) in E1; rewrite length_alter in E1; by destruct (msegs h)|].
    exists K1, (NUNITS n). rewrite Z.add_simpl_r. split; [by apply (inv_ext _ _ _ Hi1)|]. split; [done|]. split; [done|]. split; [apply fn_eq|]. split; [by left|]. split; [|split; [|split; [|intros q o _ Hqo; unfold K1; rewrite lookup_insert_ne; [done|congruence]]]].
    + intros q k o Hk Hqp. unfold K1. rewrite lookup_insert_ne by done. tauto.
    + intros q o Hqp Hqo a Ha. eapply (spares h K1 _ p (NUNITS n)); [apply Hi1|apply (outside_tag p (NUNITS n) h); lia|done|exact Hqp| |exact Ha]. unfold K1. by rewrite lookup_insert_ne.
    + intros i Hi2. cbn. apply fn_ne. unfold tag_at, Unitsz in *. lia.
  - eapply (wpp_then _ _ _ _ (fun _ h' => h' = set_mainlock false (set_mseg None (set_mainlock true h)))); [by apply wp_modify|]. cbv beta. intros [] h1 ->.
    eapply wpp_mono; [apply (wp_realloc_copy E (set_mainlock false (set_mseg None (set_mainlock true h))) K p m n); try done; by apply inv_lock, inv_mseg, inv_lock|done|]. cbv beta. intros r h2 (w & -> & Hmv). by exists w.
Qed.
End Allocating.
