(* ===== verification/Qmallocuse.v ===== *)
(** * What the storage allocator promises: port/qmalloc.c

    The users' view of the allocator is a map from the addresses of their blocks to the contents ([rep]); [promise] says what each request does to it and
    [allowed] what may be asked for.  The routines implement it ([allocator_refines]), for whole programs ([careful_program_runs]); misuse is found out, and
    two properties show what the allocator does not do. *)

From stdpp Require Import base list gmap functions strings.
From Stdlib Require Import ZArith Lia.
From S2P Require Import Prelude Qmalloc Qmallocget.
Open Scope Z_scope.
Open Scope nix_scope.

Section Users.
Context `{AR : Arena} {AO : ArenaOk}.

(** ** What the users of the allocator see *)
(** The contents of the blocks in use, by their address; [K]: what the allocator knows. *)
Record rep (h : Heap) (A : gmap Z (list Z)) (K : Blocks) : Prop := {
  rep_inv : inv h K;
  rep_lock : mainlock h = false;
  rep_segs : msegs h <> [];
  rep_held : forall p n, K !! p <> Some (Held, n);
  rep_used : forall p n, K !! p = Some (Used, n) -> is_Some (A !! (p + 1));
  rep_block : forall v l, A !! v = Some l -> exists n, K !! (v - 1) = Some (Used, n) /\ 1 <= zlen l < (n - 1) * Unitsz /\ bytes h (tag_at (v - 1 + n)) = ATAG /\
    forall i x, l !! i = Some x -> bytes h (v * Unitsz + Z.of_nat i) = x
}.
Definition contents (h : Heap) (v n : Z) : list Z := map (fun i => bytes h (v * Unitsz + i)) (seqZ 0 n).
Lemma contents_len h v n : 0 <= n -> zlen (contents h v n) = n.
Proof. intros Hn. unfold zlen, contents. rewrite length_map, length_seqZ. lia. Qed.
Lemma contents_lookup h v n i x : contents h v n !! i = Some x <-> Z.of_nat i < n /\ x = bytes h (v * Unitsz + Z.of_nat i).
Proof.
  unfold contents. rewrite list_lookup_fmap, fmap_Some. split; [intros (y & [-> Hy]%lookup_seqZ & ->); split; [lia|f_equal; lia]|].
  intros [Hi ->]. exists (0 + Z.of_nat i). rewrite lookup_seqZ. split; [lia|f_equal; lia].
Qed.
Lemma contents_eq h v (l : list Z) n : zlen l = n -> (forall i x, l !! i = Some x -> bytes h (v * Unitsz + Z.of_nat i) = x) -> contents h v n = l.
Proof.
  intros Hn Hl. apply list_eq. intros i. destruct (l !! i) as [x|] eqn:E.
  - apply contents_lookup. apply lookup_lt_Some in E as Hlt. split; [unfold zlen in Hn; lia|]. symmetry. by apply Hl.
  - apply eq_None_not_Some. intros [x [Hi _]%contents_lookup]. apply lookup_ge_None in E. unfold zlen in Hn. lia.
Qed.
(** A block at [w] instead of one at [v], which may be the same. *)
Lemma rep_place h A K v w n h' K' m : rep h A K -> inv h' K' -> mainlock h' = false -> msegs h' <> [] ->
  (v = w \/ K !! (v - 1) <> None /\ unused K (w - 1)) -> K' !! (w - 1) = Some (Used, m) -> 1 <= n < (m - 1) * Unitsz -> bytes h' (tag_at (w - 1 + m)) = ATAG ->
  (forall q k o, k = Used \/ k = Held -> q <> w - 1 -> K' !! q = Some (k, o) <-> K !! q = Some (k, o) /\ q <> v - 1) ->
  (forall q o, q <> w - 1 -> q <> v - 1 -> K !! q = Some (Used, o) -> forall a, q * Unitsz <= a < (q + o) * Unitsz -> bytes h' a = bytes h a) ->
  rep h' (<[w := contents h' w n]> (delete v A)) K'.
Proof.
  intros R Hi Hl Hs Hvw Hw Hn Ht Ho Hb. split; try done.
  - intros p o Hp. destruct (decide (p = w - 1)) as [->|Hne]; [congruence|]. apply Ho in Hp as [Hp _]; [|by right|done]. by eapply rep_held.
  - intros p o Hp. destruct (decide (p + 1 = w)) as [<-|Hne]; [by rewrite lookup_insert_eq|]. apply Ho in Hp as [Hp Hpv]; [|by left|lia].
    rewrite lookup_insert_ne, lookup_delete_ne by lia. by eapply rep_used.
  - intros u l [[<- <-]|[Hne [Huv Hu]%lookup_delete_Some]]%lookup_insert_Some.
    + exists m. split; [done|]. rewrite contents_len by lia. split; [done|]. split; [done|]. by intros i x [_ ->]%contents_lookup.
    + destruct (rep_block _ _ _ R _ _ Hu) as (o & Hk & Hlen & Htag & Hc). exists o.
      assert (forall a, (u - 1) * Unitsz <= a < (u - 1 + o) * Unitsz -> bytes h' a = bytes h a) as Hsame by (apply (Hb (u - 1) o); [lia|lia|done]).
      split; [apply Ho; [by left|lia|split; [done|lia]]|]. split; [done|]. split; [rewrite Hsame; [done|unfold tag_at, Unitsz in *; lia]|].
      intros i x Hx. rewrite Hsame; [by apply Hc|]. apply lookup_lt_Some in Hx. unfold zlen, Unitsz in *. lia.
Qed.
Lemma rep_grant keep h A K n v h' : rep h A K -> 1 <= n < 2 ^ 32 -> got keep h K (NUNITS n) v h' ->
  A !! v = None /\ exists K', rep h' (<[v := contents h' v n]> A) K' /\ forall q o, keep o -> K !! q = Some (Quick, o) -> K' !! q = Some (Quick, o).
Proof.
  intros R Hn (G1 & G2 & K' & [Hi (m & Hm & Hp & Ht) Hnew Ho Hb Hq]). pose proof (NUNITS_spec n Hn) as [Hu1 Hu2].
  assert (A !! v = None) as HA by (apply eq_None_not_Some; intros [l Hl]; destruct (rep_block _ _ _ R _ _ Hl) as (o & Hk & _); by destruct (Hnew _ _ Hk)).
  split; [done|]. exists K'. split; [|done]. rewrite <- (delete_id A v HA) at 1. eapply (rep_place h A K v v); [done|done|done|done|by left|done|unfold Unitsz in *; lia|done| |].
  - intros q k o Hk Hne. rewrite Ho by done. tauto.
  - intros q o _ _ Hqo. by apply Hb.
Qed.

(** What a user may ask for. [Store]: he writes all of his block. *)
Inductive Req := Malloc (n : Z) | Mallocz (n : Z) (clr : bool) | Free (ap : option Z) | Realloc (ap : option Z) (n : Z) | Mallocalign (n align span : Z)
  | Store (v : Z) (l : list Z) | Load (v i : Z).
Definition handle (r : Req) : M Heap (option Z) :=
  match r with
  | Malloc n => malloc n
  | Mallocz n clr => mallocz n clr
  | Free ap => free ap ;; ret None
  | Realloc ap n => realloc ap n
  | Mallocalign n align span => mallocalign n align 0 span
  | Store v l => modify (write v (zlen l) (fun i => nth (Z.to_nat i) l 0)) ;; ret None
  | Load v i => h <- gets id ;; ret (Some (bytes h (v * Unitsz + i)))
  end.
Definition allowed (A : gmap Z (list Z)) (r : Req) : Prop :=
  let sized n := 1 <= n < 2 ^ 32 in
  let mine ap := match ap with Some v => is_Some (A !! v) | None => True end in
  match r with
  | Malloc n | Mallocz n _ => sized n
  | Free ap => mine ap
  | Realloc ap n => mine ap /\ (n = 0 \/ sized n)
  | Mallocalign n align span => sized n /\ 0 < align /\ ISPOWEROF2 (if span =? 0 then align else span) = true /\ (span <> 0 -> align <= span /\ n <= span)
  | Store v l => exists l0, A !! v = Some l0 /\ zlen l = zlen l0
  | Load v i => exists l0, A !! v = Some l0 /\ 0 <= i < zlen l0
  end.
(** What he is promised: a new block at an address of its own, with [l] in it. *)
Definition made (A : gmap Z (list Z)) (n : Z) (ok : Z -> list Z -> Prop) (x : option Z) (A' : gmap Z (list Z)) : Prop :=
  exists v l, x = Some v /\ A !! v = None /\ zlen l = n /\ ok v l /\ A' = <[v := l]> A.
Definition zeros (n : Z) : list Z := replicate (Z.to_nat n) 0.
Definition promise (A : gmap Z (list Z)) (r : Req) (x : option Z) (A' : gmap Z (list Z)) : Prop :=
  match r with
  | Malloc n | Realloc None n => if n =? 0 then x = None /\ A' = A else made A n (fun _ l => l = zeros n) x A'
  | Mallocz n clr => made A n (fun _ l => clr = true -> l = zeros n) x A'
  | Mallocalign n align span => made A n (fun v l => l = zeros n /\ (v * Unitsz) mod (if span =? 0 then align else span) = 0) x A'
  | Free None => x = None /\ A' = A
  | Free (Some v) => x = None /\ A' = delete v A
  | Realloc (Some v) n => if n =? 0 then x = None /\ A' = delete v A
    else exists w l l', x = Some w /\ A !! v = Some l /\ (w = v \/ A !! w = None) /\ zlen l' = n /\ ztake (Z.min n (zlen l)) l' = ztake (Z.min n (zlen l)) l /\ A' = <[w := l']> (delete v A)
  | Store v l => x = None /\ A' = <[v := l]> A
  | Load v i => exists l y, A !! v = Some l /\ l !! Z.to_nat i = Some y /\ x = Some y /\ A' = A
  end.
(** When it can fail: no segment has the room, or a search for an aligned block has ended. *)
Definition short (h : Heap) (r : Req) (msg : string) : Prop :=
  match r with
  | Malloc n | Mallocz n _ | Realloc _ n => cramped (NUNITS n) h msg
  | Mallocalign _ _ _ => msg = "Enomem"%string
  | _ => False
  end.
Definition outcome_ok (h : Heap) (A : gmap Z (list Z)) (K : Blocks) (r : Req) (x : option Z) (h' : Heap) : Prop :=
  exists A' K', promise A r x A' /\ rep h' A' K' /\ (match r with Mallocalign _ _ _ => True | _ => forall q o, idle o -> K !! q = Some (Quick, o) -> K' !! q = Some (Quick, o) end).
Lemma cramped_enomem h n : (forall k s, msegs h !! k = Some s -> room (NUNITS n) s = false) -> cramped (NUNITS n) h "Enomem"%string.
Proof. by split. Qed.
Lemma zeros_eq h v n l : 0 <= n -> l = contents h v n -> (forall i, 0 <= i < n -> bytes h (v * Unitsz + i) = 0) -> l = zeros n.
Proof.
  intros Hn -> Hz. apply contents_eq; [unfold zeros; rewrite zlen_replicate; lia|]. unfold zeros. intros i x [-> Hi]%lookup_replicate. apply Hz. lia.
Qed.
Lemma rep_fresh keep h A K n r h' : rep h A K -> 1 <= n < 2 ^ 32 -> fresh keep h K n r h' ->
  exists v K', r = Some v /\ A !! v = None /\ rep h' (<[v := zeros n]> A) K' /\ forall q o, keep o -> K !! q = Some (Quick, o) -> K' !! q = Some (Quick, o).
Proof.
  intros R Hn (v & -> & Hg & Hz). destruct (rep_grant _ _ _ _ _ _ _ R Hn Hg) as (HA & K' & R' & Hq). exists v, K'.
  by rewrite <- (zeros_eq h' v n _ ltac:(lia) eq_refl Hz).
Qed.
Lemma zlen_zeros n : 0 <= n -> zlen (zeros n) = n.
Proof. intros Hn. unfold zeros. rewrite zlen_replicate. lia. Qed.
Lemma handle_malloc h A K n : rep h A K -> 1 <= n < 2 ^ 32 ->
  wpp (cramped (NUNITS n) h) (malloc n) h (fun x h' => exists K', made A n (fun _ l => l = zeros n) x (match x with Some v => <[v := zeros n]> A | None => A end) /\
    rep h' (match x with Some v => <[v := zeros n]> A | None => A end) K' /\ forall q o, idle o -> K !! q = Some (Quick, o) -> K' !! q = Some (Quick, o)).
Proof.
  intros R Hn. eapply wpp_mono; [apply (wp_zeroed_malloc (cramped (NUNITS n) h)); [apply R|apply R|apply R|done|apply cramped_enomem]|done|]. cbv beta. intros x h' Hf.
  destruct (rep_fresh _ _ _ _ _ _ _ R Hn Hf) as (v & K' & -> & HA & R' & Hq). exists K'. split; [|by split]. exists v, (zeros n). by rewrite zlen_zeros by lia.
Qed.
Lemma handle_mallocz h A K n clr : rep h A K -> 1 <= n < 2 ^ 32 -> wpp (cramped (NUNITS n) h) (mallocz n clr) h (outcome_ok h A K (Mallocz n clr)).
Proof.
  intros R Hn. unfold mallocz. apply wpp_bind. eapply wpp_mono; [apply (wp_qmalloc (cramped (NUNITS n) h)); [apply R|apply R|apply R|done|apply cramped_enomem]|done|].
  cbv beta. intros x h1 (v & -> & Hg). cbn [setmalloctag]. apply wpp_wp. wp_step. apply wp_ret. wp_step.
  apply (wp_mono _ _ (fun _ h2 => got idle h K (NUNITS n) v h2 /\ (clr = true -> forall i, 0 <= i < n -> bytes h2 (v * Unitsz + i) = 0))).
  { destruct clr; [apply wp_modify|by apply wp_ret]. split; [apply got_write; [done|by apply NUNITS_spec]|]. intros _ i Hi. by apply write_read. }
  intros [] h2 [Hg2 Hz]. apply wp_ret. destruct (rep_grant _ _ _ _ _ _ _ R Hn Hg2) as (HA & K' & R' & Hq). exists (<[v := contents h2 v n]> A), K'. split; [|by split].
  exists v, (contents h2 v n). split; [done|]. split; [done|]. split; [by rewrite contents_len by lia|]. split; [|done]. intros Hc. eapply zeros_eq; [lia|done|by apply Hz].
Qed.
Lemma rep_free h A K v : rep h A K -> is_Some (A !! v) -> wp (free (Some v)) h (fun _ h' => exists K', rep h' (delete v A) K' /\ forall q o, idle o -> K !! q = Some (Quick, o) -> K' !! q = Some (Quick, o)).
Proof.
  intros R [l Hl]. destruct (rep_block _ _ _ R _ _ Hl) as (n & Hk & Hlen & Ht & _). assert (2 <= n) as Hn by (unfold Unitsz in *; lia).
  pose proof (wp_give_back h K (v - 1) n (rep_inv _ _ _ R) (rep_lock _ _ _ R) Hk Hn Ht) as HW. rewrite Z.sub_add in HW. eapply wp_mono; [exact HW|]. intros _ h' (L' & Hn' & K' & Hi' & [T1 T2] & Hout & _). exists K'.
  split; [|intros q o _; by apply T2]. split; [done|done|eapply near_ne; [exact Hn'|apply R]| | |].
  - intros p o [Hp _]%T1; [|by right]. by eapply rep_held.
  - intros p o [Hp Hne]%T1; [|by left]. rewrite lookup_delete_ne by lia. by eapply rep_used.
  - intros u k [Hne Hu]%lookup_delete_Some. destruct (rep_block _ _ _ R _ _ Hu) as (o & Hko & Hleno & Hto & Hc). exists o.
    assert (forall a, (u - 1) * Unitsz <= a < (u - 1 + o) * Unitsz -> bytes h' a = bytes h a) as Hsame.
    { intros a Ha. apply Hout. unfold Unitsz in *. destruct (ar_disj _ _ (i_arena _ _ (rep_inv _ _ _ R)) _ _ _ _ _ _ Hk Hko); lia. }
    split; [apply T1; [by left|split; [done|lia]]|]. split; [done|]. split; [rewrite Hsame; [done|unfold tag_at, Unitsz in *; lia]|].
    intros i x Hx. rewrite Hsame; [by apply Hc|]. apply lookup_lt_Some in Hx. unfold zlen, Unitsz in *. lia.
Qed.
Lemma ztake_contents h h' (l : list Z) v w n k : 0 <= k <= n -> k <= zlen l -> (forall i x, l !! i = Some x -> bytes h (v * Unitsz + Z.of_nat i) = x) ->
  (forall i, 0 <= i < k -> bytes h' (w * Unitsz + i) = bytes h (v * Unitsz + i)) -> ztake k (contents h' w n) = ztake k l.
Proof.
  intros Hk Hkl Hl Hb. unfold ztake. apply list_eq. intros i. destruct (decide (i < Z.to_nat k)%nat) as [Hi|Hi]; [|by rewrite !lookup_take_ge by lia]. rewrite !lookup_take_lt by done.
  destruct (lookup_lt_is_Some_2 l i ltac:(unfold zlen in *; lia)) as [x Hx]. rewrite Hx. apply contents_lookup. split; [lia|]. rewrite Hb by lia. symmetry. by apply Hl.
Qed.
Lemma handle_realloc h A K v n : rep h A K -> is_Some (A !! v) -> 1 <= n < 2 ^ 32 -> wpp (cramped (NUNITS n) h) (realloc (Some v) n) h (outcome_ok h A K (Realloc (Some v) n)).
Proof.
  intros R [l Hl] Hn. destruct (rep_block _ _ _ R _ _ Hl) as (m & Hk & Hlen & Ht & Hc).
  assert (2 <= m) as Hm by (unfold Unitsz in *; lia). pose proof (wp_realloc (cramped (NUNITS n) h) h K (v - 1) m n (rep_inv _ _ _ R) (rep_lock _ _ _ R) (rep_segs _ _ _ R) Hk Hm Ht Hn (cramped_enomem h n)) as HW.
  rewrite Z.sub_add in HW. eapply wpp_mono; [exact HW|done|].
  cbv beta. intros x h' (w & -> & L' & Hs' & K' & m' & Hi' & Hw & Hnm & Ht' & Hvw & Ho & Hb & Hcopy & Hq). exists (<[w := contents h' w n]> (delete v A)), K'.
  assert (w = v \/ A !! w = None) as Hfresh.
  { destruct Hvw as [->|Hu]; [left; lia|right]. apply eq_None_not_Some. intros [l2 Hl2]. destruct (rep_block _ _ _ R _ _ Hl2) as (o & Hko & _). by destruct (Hu _ _ Hko). }
  split; [|split; [|done]].
  - cbn. destruct (Z.eqb_spec n 0); [lia|]. exists w, l, (contents h' w n). split; [done|]. split; [done|]. split; [done|]. split; [apply contents_len; lia|]. split; [|done].
    pose proof (zlen_nonneg l). apply (ztake_contents h h' l v); [lia|lia|done|]. intros i Hi. rewrite Hcopy by (unfold Unitsz in *; lia). by rewrite Z.sub_add.
  - apply (rep_place h A K v w n h' K' m'); [done|done|done|done| |done|lia|done|done|].
    + destruct Hvw as [->|Hu]; [left; lia|right; split; [by rewrite Hk|done]].
    + intros q o _ Hqv Hqo. by apply Hb.
Qed.
Lemma handle_mallocalign h A K n align span : rep h A K -> allowed A (Mallocalign n align span) ->
  wpp (fun msg => msg = "Enomem"%string) (mallocalign n align 0 span) h (outcome_ok h A K (Mallocalign n align span)).
Proof.
  intros R (Hn & Hal & Hpow & Hspan). eapply wpp_mono; [apply (wp_mallocalign (fun msg => msg = "Enomem"%string)); [apply R|apply R|apply R|done..]|done|]. cbv beta. intros x h' [Hf Hmod].
  destruct (rep_fresh _ _ _ _ _ _ _ R Hn Hf) as (v & K' & -> & HA & R' & _). exists (<[v := zeros n]> A), K'. split; [|by split].
  exists v, (zeros n). split; [done|]. split; [done|]. split; [apply zlen_zeros; lia|]. split; [|done]. split; [done|by apply Hmod].
Qed.
Lemma handle_store h A K v l : rep h A K -> allowed A (Store v l) -> wp (handle (Store v l)) h (outcome_ok h A K (Store v l)).
Proof.
  intros R (l0 & Hl0 & Hlen). destruct (rep_block _ _ _ R _ _ Hl0) as (m & Hk & Hm & Ht & Hc). cbn [handle]. wp_steps. set (f := fun i => nth (Z.to_nat i) l 0).
  assert (inv (write v (zlen l) f h) K) as Hi.
  { pose proof (inv_write h K (v - 1) Used m (zlen l) f (rep_inv _ _ _ R) Hk ltac:(lia)) as Hi. by rewrite Z.sub_add in Hi. }
  assert (contents (write v (zlen l) f h) v (zlen l0) = l) as Hcl.
  { apply contents_eq; [done|]. intros i x Hx. pose proof (lookup_lt_Some _ _ _ Hx). rewrite write_read by (unfold zlen; lia). unfold f. rewrite Nat2Z.id. by apply nth_lookup_Some. }
  assert (forall a, a < v * Unitsz \/ v * Unitsz + zlen l <= a -> bytes (write v (zlen l) f h) a = bytes h a) as Hout.
  { intros a Ha. cbn. destruct (Z.leb_spec (v * Unitsz) a); cbn [andb]; [|done]. destruct (Z.ltb_spec a (v * Unitsz + zlen l)); [lia|done]. }
  exists (<[v := l]> A), K. split; [done|]. split; [|done]. rewrite <- (insert_delete_eq A v l). rewrite <- Hcl at 2.
  apply (rep_place h A K v v (zlen l0) _ K m); [done|done|apply R|apply R|by left|done|done| | |].
  - rewrite Hout; [done|]. unfold tag_at, Unitsz in *. lia.
  - intros q k o _ Hne. tauto.
  - intros q o Hne _ Hqo a Ha. apply Hout. unfold Unitsz in *. destruct (ar_disj _ _ (i_arena _ _ (rep_inv _ _ _ R)) _ _ _ _ _ _ Hk Hqo); [congruence|lia..].
Qed.
Lemma handle_load h A K v i : rep h A K -> allowed A (Load v i) -> wp (handle (Load v i)) h (outcome_ok h A K (Load v i)).
Proof.
  intros R (l & Hl & Hi). cbn [handle]. wp_steps. exists A, K. split; [|by split]. destruct (rep_block _ _ _ R _ _ Hl) as (m & _ & _ & _ & Hc).
  destruct (lookup_lt_is_Some_2 l (Z.to_nat i)) as [y Hy]; [unfold zlen in Hi; lia|]. exists l, y. split; [done|]. split; [done|]. split; [|done].
  change (id h) with h. rewrite <- (Hc _ _ Hy). by rewrite Z2Nat.id by lia.
Qed.
Lemma handle_free h A K ap : rep h A K -> allowed A (Free ap) -> wp (handle (Free ap)) h (outcome_ok h A K (Free ap)).
Proof.
  intros R Hap. cbn [handle]. destruct ap as [v|]; [|unfold free; wp_steps; exists A, K; split; [done|by split]].
  wp_step. eapply wp_mono; [by apply (rep_free h A K)|]. intros [] h' (K' & R' & Hq). apply wp_ret. exists (delete v A), K'. split; [done|by split].
Qed.
Lemma handle_ok h A K r : rep h A K -> allowed A r -> wpp (short h r) (handle r) h (outcome_ok h A K r).
Proof.
  intros R Hr. destruct r as [n|n clr|ap|ap n|n align span|v l|v i].
  - eapply wpp_mono; [by apply handle_malloc|done|]. cbv beta. intros x h' (K' & Hm & R' & Hq). eexists _, K'. split; [|by split]. cbn in *. destruct (Z.eqb_spec n 0); [lia|done].
  - by apply handle_mallocz.
  - by apply wpp_wp, handle_free.
  - destruct Hr as [Hap Hn]. cbn [handle short]. destruct (Z.eqb_spec n 0) as [->|Hn0].
    + apply wpp_wp. unfold realloc. cbn [Z.eqb]. eapply wp_mono; [by apply (handle_free h A K ap)|]. intros x h' (A' & K' & Hp & R' & Hq). exists A', K'. by destruct ap.
    + destruct Hn as [->|Hn]; [done|]. destruct ap as [v|]; [by apply handle_realloc|]. unfold realloc. destruct (Z.eqb_spec n 0); [done|].
      eapply wpp_mono; [by apply handle_malloc|done|]. cbv beta. intros x h' (K' & Hm & R' & Hq). eexists _, K'. split; [|by split]. cbn. by destruct (Z.eqb_spec n 0).
  - by apply handle_mallocalign.
  - by apply wpp_wp, handle_store.
  - by apply wpp_wp, handle_load.
Qed.

(** A program that uses the allocator: what it asks for next may depend on what it was given. *)
Inductive Prog := Stop | Ask (r : Req) (k : option Z -> Prog).
Fixpoint run (p : Prog) : M Heap () :=
  match p with Stop => ret () | Ask r k => x <- handle r ;; run (k x) end.
(** It only uses the blocks it has, going by the promises alone. *)
Fixpoint careful (A : gmap Z (list Z)) (p : Prog) : Prop :=
  match p with
  | Stop => True
  | Ask r k => allowed A r /\ forall x A', promise A r x A' -> careful A' (k x)
  end.
Definition enomem (msg : string) : Prop := msg = "Enomem"%string.
Lemma short_enomem h r msg : short h r msg -> enomem msg.
Proof. destruct r; cbn; unfold cramped, enomem; tauto. Qed.
Lemma run_ok p h A K : rep h A K -> careful A p -> wpp enomem (run p) h (fun _ h' => exists A' K', rep h' A' K').
Proof.
  revert h A K. induction p as [|r k IH]; intros h A K R Hc; cbn [run]; [by exists A, K|]. destruct Hc as [Hr Hk].
  apply wpp_bind. eapply wpp_mono; [by apply (handle_ok h A K r)|apply short_enomem|]. intros x h' (A' & K' & Hp & R' & _). by eapply IH, Hk.
Qed.

(** Before [mallocinit] the globals are zero; no segment stands for [mseg0.tailptr == nil]. *)
Definition zeroed (h : Heap) : Prop := msegs h = [] /\ (forall i, quicklist h i = None) /\ mainlock h = false.
(** Memory from [vmunused] to [vmend]; a second call does nothing. *)
Definition mallocinit (vmunused vmend : Z) (h : Heap) : Heap :=
  match msegs h with
  | [] => set_msegs [mallocinitseg false vmunused (vmend - vmunused)] (set_mseg (Some 0%nat) h)
  | _ :: _ => h
  end.
Lemma rep_init vmunused vmend h : zeroed h -> 0 <= vmunused -> vmunused + Unitsz <= vmend < 2 ^ 36 -> rep (mallocinit vmunused vmend h) ∅ ∅.
Proof.
  intros (Z1 & Z2 & Z3) H1 H2. unfold mallocinit, mallocinitseg. rewrite Z1. change (Unitsz - 1) with (2 ^ 5 - 1). rewrite align_down by done. change (2 ^ 5) with 32 in *. change Unitsz with 32 in *. rewrite Z.div_mul by done.
  remember (vmunused + (32 - 1)) as x eqn:Ex. pose proof (Z.div_mod x 32 ltac:(lia)). pose proof (Z.mod_pos_bound x 32 ltac:(lia)).
  remember (vmunused + (vmend - vmunused) - x / 32 * 32) as y eqn:Ey. rewrite (Z.quot_div_nonneg y) by lia. pose proof (Z.div_mod y 32 ltac:(lia)). pose proof (Z.mod_pos_bound y 32 ltac:(lia)).
  split; [|done|done|by intros p n; rewrite lookup_empty|by intros p n; rewrite lookup_empty|by intros v l; rewrite lookup_empty].
  split; cbn; [split; [split| |by intros p ? ? ? ? ?; rewrite lookup_empty|]|by intros p k n; rewrite lookup_empty| |].
  - intros [|k] s; [intros [=<-]; cbn; lia|done].
  - intros [|j] [|k] s t; done.
  - intros p k n; by rewrite lookup_empty.
  - intros [|j] s a; [intros [=<-]; cbn; lia|done].
  - intros i. exists []. rewrite Z2. split; [done|]. split; [apply NoDup_nil_2|]. intros p. rewrite lookup_empty, elem_of_nil. done.
  - intros [|j] s; [|done]. intros [=<-]. exists []. cbn. split; [done|]. split; [apply NoDup_nil_2|]. split; [done|]. intros p. rewrite elem_of_nil. split; [done|]. intros (n & Hp & _). by rewrite lookup_empty in Hp.
Qed.

(** What [free] notices. *)
Lemma bind_ret {S X Y} (m : M S X) (f : X -> M S Y) s a s' : m s = Ret a s' -> bind m f s = f a s'.
Proof. unfold bind. by intros ->. Qed.
Definition complaint (h : Heap) (p : Z) : string :=
  if bool_decide (next h p <> None) then "free: corrupt allocation arena"%string
  else if bytes h (tag_at (p + size h p)) =? FTAG then "free: double free"%string else "free: user overflow"%string.
Lemma free_panics h i t p : segs_ok (msegs h) -> mainlock h = false -> msegs h !! i = Some t -> base t <= p -> p + 2 <= end_ t -> size h p <> 0 -> bytes h (tag_at (p + size h p)) <> ATAG ->
  free (Some (p + 1)) h = Panic (complaint h p).
Proof.
  intros HS Hl Ht Hb He Hn Hf. unfold free.
  assert (ilock h = Ret tt (set_mainlock true h)) as E1 by (unfold ilock, bind, gets; by rewrite Hl). rewrite (bind_ret _ _ _ _ _ E1).
  pose proof (find_seg_at (set_mainlock true h) i t p HS Ht Hb He) as HF. unfold wp in HF. destruct (find_seg _ _) as [[] h2| | |] eqn:E2; [|done..]. subst h2.
  rewrite (bind_ret _ _ _ _ _ E2). erewrite bind_ret by reflexivity. cbn [mseg set_mseg]. unfold bind at 1, qfreeinternal.
  assert (cur (set_mseg (Some i) (set_mainlock true h)) = Ret t (set_mseg (Some i) (set_mainlock true h))) as E3 by (unfold cur, bind, gets; cbn; by rewrite Ht).
  rewrite (bind_ret _ _ _ _ _ E3). rewrite Z.add_simpl_r. destruct (Z.ltb_spec p (base t)); [lia|]. destruct (Z.geb_spec p (end_ t)); [lia|]. cbn [orb]. erewrite bind_ret by reflexivity.
  cbn [id size set_mseg set_mainlock next bytes]. unfold complaint. destruct (Z.eqb_spec (size h p) 0); [done|]. cbn [orb]. destruct (bool_decide _); [done|]. cbn [andb].
  destruct (bytes h (tag_at (p + size h p)) =? FTAG); [done|]. destruct (Z.eqb_spec (bytes h (tag_at (p + size h p))) ATAG); [done|]. done.
Qed.
Lemma message_units : 0 <= IOHDRSZ < 2 ^ 16 -> NQUICK <= NUNITS (8192 + IOHDRSZ).
Proof.
  intros Hio. unfold NUNITS, NQUICK, ROUNDUP, HOWMANY, Mult, Unitsz. set (x := 8192 + IOHDRSZ + 1).
  assert (8193 <= x <= 73728) as Hx by (unfold x; lia). clearbody x. change (32 * 4) with 128. rewrite !Z.quot_div_nonneg by lia.
  pose proof (Z.div_mod (x + (32 - 1)) 32 ltac:(lia)). pose proof (Z.mod_pos_bound (x + (32 - 1)) 32 ltac:(lia)). set (nu := (x + (32 - 1)) / 32) in *. clearbody nu.
  rewrite (u32_small nu) by lia. destruct (Z.ltb_spec nu 4); [lia|]. rewrite Z.quot_div_nonneg by lia.
  pose proof (Z.div_mod (nu + (4 - 1)) 4 ltac:(lia)). pose proof (Z.mod_pos_bound (nu + (4 - 1)) 4 ltac:(lia)). set (r := (nu + (4 - 1)) / 4) in *. clearbody r.
  pose proof (Z.div_mod (x + (128 - 1)) 128 ltac:(lia)). pose proof (Z.mod_pos_bound (x + (128 - 1)) 128 ltac:(lia)). set (o := (x + (128 - 1)) / 128) in *. clearbody o.
  rewrite u32_small by lia. lia.
Qed.
End Users.

(** ** Properties *)

(** C8: the allocator keeps its promises: every request of a user who only names blocks he has returns (it does not panic, deadlock or read what is not
    there), a new block is at an address of its own and holds zeros, a block that is resized keeps what was in it, an aligned one is aligned, and all
    other blocks keep theirs.  It fails only for want of memory, and [malloc] only if no segment has room at its end. *)
Theorem allocator_refines `{AR : Arena} {AO : ArenaOk} h A K r : rep h A K -> allowed A r ->
  wpp (short h r) (handle r) h (fun x h' => exists A' K', promise A r x A' /\ rep h' A' K').
Proof.
  intros R Hr. eapply wpp_mono; [by apply (handle_ok h A K r)|done|]. intros x h' (A' & K' & Hp & R' & _). by exists A', K'.
Qed.

(** C18: from [mallocinit] on, no program that goes by the promises alone is ever stopped but by Enomem, however it chooses its requests. *)
Theorem careful_program_runs `{AR : Arena} {AO : ArenaOk} p vmunused vmend h : zeroed h -> 0 <= vmunused -> vmunused + Unitsz <= vmend < 2 ^ 36 -> careful ∅ p ->
  wpp enomem (run p) (mallocinit vmunused vmend h) (fun _ h' => exists A K, rep h' A K).
Proof. intros Hz H1 H2 Hc. eapply run_ok, Hc. by apply rep_init. Qed.

(** C37: whoever frees a block twice is told so at the second [free]. *)
Theorem double_free_panics `{AR : Arena} {AO : ArenaOk} h A K v l : rep h A K -> A !! v = Some l ->
  exists h' msg, free (Some v) h = Ret tt h' /\ free (Some v) h' = Panic msg /\ (msg = "free: double free" \/ msg = "free: corrupt allocation arena")%string.
Proof.
  intros R Hl. destruct (rep_block _ _ _ R _ _ Hl) as (n & Hk & Hlen & Ht & _). assert (2 <= n) as Hn by (unfold Unitsz in *; lia).
  pose proof (wp_give_back h K (v - 1) n (rep_inv _ _ _ R) (rep_lock _ _ _ R) Hk Hn Ht) as HW. rewrite Z.sub_add in HW. apply wp_exists in HW as ([] & h' & E & L' & (_ & _ & Hgeo) & K' & Hi' & _ & _ & Hsz & Hft).
  destruct (ar_block _ _ (i_arena _ _ (rep_inv _ _ _ R)) _ _ _ Hk) as (_ & j & s & Hs & Hb1 & Hb2). pose proof (proj1 (ar_segs _ _ (i_arena _ _ (rep_inv _ _ _ R))) _ _ Hs).
  destruct (Hgeo j s Hs) as (s' & Hs' & E1 & E2). exists h', (complaint h' (v - 1)). split; [done|]. split.
  - rewrite <- (Z.sub_add 1 v) at 1. apply (free_panics h' j s'); [apply Hi'|done|done|lia|lia|lia|]. rewrite Hsz, Hft. done.
  - unfold complaint. rewrite Hsz, Hft. destruct (bool_decide _); [by right|by left].
Qed.

(** C38: a user who writes over the byte behind his block is found out when he frees it. *)
Theorem overflow_panics `{AR : Arena} {AO : ArenaOk} h A K v l x : rep h A K -> A !! v = Some l -> x <> ATAG ->
  free (Some v) (set_bytes (<[tag_at (v - 1 + size h (v - 1)) := x]> (bytes h)) h) = Panic (if x =? FTAG then "free: double free"%string else "free: user overflow"%string).
Proof.
  intros R Hl Hx. destruct (rep_block _ _ _ R _ _ Hl) as (n & Hk & Hlen & Ht & _). assert (2 <= n) as Hn by (unfold Unitsz in *; lia).
  destruct (i_header _ _ (rep_inv _ _ _ R) _ _ _ Hk ltac:(done)) as [Hsz Hnx]. rewrite Hsz.
  destruct (ar_block _ _ (i_arena _ _ (rep_inv _ _ _ R)) _ _ _ Hk) as (_ & j & s & Hs & Hb1 & Hb2). pose proof (proj1 (ar_segs _ _ (i_arena _ _ (rep_inv _ _ _ R))) _ _ Hs).
  rewrite <- (Z.sub_add 1 v) at 1. set (h' := set_bytes _ h).
  assert (bytes h' (tag_at (v - 1 + size h' (v - 1))) = x) as Hb by (cbn; rewrite Hsz; apply fn_eq).
  rewrite (free_panics h' j s); [|apply R|apply R|done|lia|lia|cbn; lia|by rewrite Hb]. unfold complaint. rewrite Hb. cbn [next h' set_bytes]. rewrite (Hnx eq_refl).
  by rewrite bool_decide_false by (intros Hn'; by apply Hn').
Qed.

(** C39: the blocks on the quick list of the largest size, which is that of a 9P message with its header, and the single units are never given out again:
    [malloc] does not look there.  (Only [mallocalign] can take the former.) *)
Theorem idle_blocks_lost `{AR : Arena} {AO : ArenaOk} h A K r q n : rep h A K -> allowed A r -> match r with Mallocalign _ _ _ => False | _ => True end ->
  0 <= IOHDRSZ < 2 ^ 16 -> K !! q = Some (Quick, n) -> n = 1 \/ n = NUNITS (8192 + IOHDRSZ) ->
  wpp (short h r) (handle r) h (fun _ h' => exists A' K', rep h' A' K' /\ K' !! q = Some (Quick, n)).
Proof.
  intros R Hr Hna Hio Hq Hn. eapply wpp_mono; [by apply (handle_ok h A K r)|done|]. intros x h' (A' & K' & Hp & R' & Hk). exists A', K'. split; [done|].
  assert (idle n) as Hidle by (destruct Hn as [->| ->]; [left; lia|right; by apply message_units]). destruct r; try done; by apply Hk.
Qed.

(** *** A fragment that fits is not found *)
(** [qmalloc] finds nothing in the segment: the tail is too short, and there are no fragments, or [maxsz] says they are too small. *)
Definition stale (N : Z) (s : MSeg) : Prop := exists m, maxsz s = Some m /\ m < N.
Definition passed_over (N : Z) (s : MSeg) : Prop := end_ s - tailptr s < N /\ (rover s = None \/ stale N s).
(** [morecore] has nothing to give: a page is too small, or there is none as long as the segments are these. *)
Definition extents (h : Heap) : list (Z * Z) := map (fun s => (base s, end_ s)) (msegs h).
Definition no_core `{AR : Arena} (N : Z) (h : Heap) : Prop :=
  mallocpgsz / Unitsz < N \/ forall h', extents h' = extents h -> mclock_busy h' = false /\ newpg h' = None.
Section Stale.
Context `{AR : Arena} {AO : ArenaOk}.
Lemma fit_loop_skips N cnt : forall k h, (forall j s, msegs h !! j = Some s -> passed_over N s) -> (k + cnt)%nat = List.length (msegs h) ->
  fit_loop cnt k N h = Ret None (set_mseg None h).
Proof.
  induction cnt as [|cnt IH]; intros k h Hp Hlen; [done|]. cbn [fit_loop]. erewrite bind_ret by reflexivity.
  destruct (lookup_lt_is_Some_2 (msegs h) k ltac:(lia)) as [s Hs].
  assert (cur (set_mseg (Some k) h) = Ret s (set_mseg (Some k) h)) as E by (unfold cur, bind, gets; cbn; by rewrite Hs). rewrite (bind_ret _ _ _ _ _ E).
  assert (fit_loop cnt (S k) N (set_mseg (Some k) h) = Ret None (set_mseg None h)) as K by (rewrite IH; [done|exact Hp|cbn; lia]).
  destruct (rover s) as [prev|] eqn:Er; [|exact K]. destruct (Hp _ _ Hs) as [_ [E2|(m & -> & Hm)]]; [congruence|]. rewrite Z.gtb_ltb. by destruct (Z.ltb_spec m N); [|lia].
Qed.
Lemma morecore_fails N h : no_core N h -> exists h', morecore N h = Ret (-1) h'.
Proof.
  intros Hc. unfold morecore. destruct (Z.ltb_spec (mallocpgsz / Unitsz) N); [by eexists|]. destruct Hc as [?|Hc]; [lia|]. destruct (Hc (set_mainlock false h) eq_refl) as [H1 H2].
  exists (set_mainlock false h). unfold iunlock, modify, bind, gets. cbv beta iota. change (id ?x) with x. by rewrite H1, H2.
Qed.
Lemma malloc_passes_over n h : 1 <= n -> NQUICK < NUNITS n -> mainlock h = false -> (forall j s, msegs h !! j = Some s -> passed_over (NUNITS n) s) -> no_core (NUNITS n) h ->
  malloc n h = Panic "Enomem".
Proof.
  intros Hn Hq Hl Hp Hc. enough (qmalloc n h = Panic "Enomem") as E by (unfold malloc, bind; by rewrite E). unfold qmalloc. destruct (Z.eqb_spec n 0); [lia|]. cbv zeta. destruct (Z.leb_spec (NUNITS n) NQUICK); [lia|]. erewrite bind_ret by reflexivity. cbv beta iota.
  assert (ilock h = Ret tt (set_mainlock true h)) as E1 by (unfold ilock, bind, gets; by rewrite Hl). rewrite (bind_ret _ _ _ _ _ E1). unfold bind at 1. cbn [qmalloc_again].
  set (h1 := set_mainlock true h).
  assert (find_seg (room (NUNITS n)) h1 = Ret tt (set_mseg None h1)) as E2.
  { unfold find_seg, modify. do 2 f_equal. destruct (list_find _ _) as [[k s]|] eqn:E; [exfalso|done]. apply list_find_Some in E as (Hs & Hr & _). destruct (Hp _ _ Hs) as [Ht _].
    unfold room in Hr. rewrite Z.gtb_ltb in Hr. destruct (Z.ltb_spec (end_ s - tailptr s) (NUNITS n)); [done|lia]. }
  rewrite (bind_ret _ _ _ _ _ E2). erewrite bind_ret by reflexivity. cbn [mseg set_mseg]. erewrite bind_ret by reflexivity. cbn [msegs set_mseg].
  assert (fit_loop (List.length (msegs h1)) 0 (NUNITS n) (set_mseg None h1) = Ret None (set_mseg None h1)) as E3 by (by rewrite fit_loop_skips).
  rewrite (bind_ret _ _ _ _ _ E3). destruct (morecore_fails (NUNITS n) (set_mseg None h1) Hc) as [h2 E4]. rewrite (bind_ret _ _ _ _ _ E4). done.
Qed.
(** The only fragment of its segment: [maxsz] stays. *)
Lemma wp_free_first h (K : Blocks) p n j s : inv h K -> mainlock h = false -> K !! p = Some (Used, n) -> NQUICK < n -> 2 <= n -> bytes h (tag_at (p + n)) = ATAG ->
  msegs h !! j = Some s -> base s <= p -> p + n < tailptr s -> rover s = None ->
  wp (free (Some (p + 1))) h (fun _ h' => msegs h' = alter (set_rover (Some p)) j (msegs h) /\ mainlock h' = false /\ size h' p = n).
Proof.
  intros Hi Hlk Hp Hq Hn Ht Hs Hb Hlt Hr. pose proof (proj1 (ar_segs _ _ (i_arena _ _ Hi)) _ _ Hs) as Hgeo. unfold free. wp_step. eapply wp_mono; [by apply wp_ilock|]. intros [] h1 ->.
  wp_step. eapply wp_mono; [by apply (find_seg_at (set_mainlock true h) j s p); [apply Hi|exact Hs|lia|lia]|]. cbv beta. intros [] h2 ->.
  wp_step. apply wp_gets. cbn [mseg set_mseg]. unfold qfreeinternal. do 2 apply wp_bind. eapply wp_cur; [done|exact Hs|].
  rewrite Z.add_simpl_r. destruct (Z.ltb_spec p (base s)); [lia|]. destruct (Z.geb_spec p (end_ s)); [lia|]. cbn [orb]. wp_step. wp_step. change (id ?x) with x. cbn [size next bytes set_mseg set_mainlock].
  destruct (i_header _ _ Hi _ _ _ Hp ltac:(done)) as [Hsz Hnx]. rewrite Hsz, (Hnx eq_refl), Ht. destruct (Z.eqb_spec n 0); [lia|]. rewrite bool_decide_false by (intros Hx; by apply Hx). cbn [orb andb].
  change (ATAG =? FTAG) with false. change (negb (ATAG =? ATAG)) with false. cbv iota. wp_step.
  eapply (wp_mono _ _ (fun _ h1 => msegs h1 = msegs h /\ mseg h1 = Some j /\ size h1 p = n)).
  { destruct poison; [apply wp_modify|by apply wp_ret]. do 2 (split; [done|]). cbn. by destruct (Z.leb_spec (p + 1) p); [lia|]. }
  intros _ h1 (E1 & E2 & E3). wp_step. apply wp_modify. destruct (Z.eqb_spec (p + n) (tailptr s)); [lia|]. destruct (Z.leb_spec n NQUICK); [lia|]. rewrite Hr.
  wp_step. eapply wp_oncur; [exact E2|]. do 2 apply wp_modify. cbn. by rewrite E1, E3.
Qed.
End Stale.

(** C40: a defect. A fragment that is large enough may be passed over: [qfreeinternal] does not look at [maxsz] when it makes a block the only fragment of its segment,
    and [qmalloc] skips a segment whose [maxsz] is too small.  So when a large block is freed into a segment without fragments, in which the [maxsz] of earlier ones is smaller than a
    request, the request panics if there is no room elsewhere, although the block that has just been freed is large enough for it. *)
Theorem fitting_fragment_skipped `{AR : Arena} {AO : ArenaOk} h A K v l n j s : rep h A K -> A !! v = Some l -> 1 <= n -> NQUICK < NUNITS n <= size h (v - 1) ->
  (forall k t, msegs h !! k = Some t -> passed_over (NUNITS n) t) -> no_core (NUNITS n) h ->
  msegs h !! j = Some s -> base s <= v < end_ s -> v - 1 + size h (v - 1) <> tailptr s -> rover s = None -> stale (NUNITS n) s ->
  exists h' K', handle (Free (Some v)) h = Ret None h' /\ rep h' (delete v A) K' /\ K' !! (v - 1) = Some (Frag, size h (v - 1)) /\
    handle (Malloc n) h' = Panic "Enomem".
Proof.
  intros R Hl Hn Hsz Hpass Hc Hs Hv Ht Hr Hst. destruct (rep_block _ _ _ R _ _ Hl) as (m & Hk & Hlen & Htag & _). assert (2 <= m) as Hm by (unfold Unitsz in *; lia).
  pose proof (rep_inv _ _ _ R) as Hi. destruct (i_header _ _ Hi _ _ _ Hk ltac:(done)) as [Em _]. rewrite Em in *.
  destruct (ar_block _ _ (i_arena _ _ Hi) _ _ _ Hk) as (_ & i & t & Hti & Hb1 & Hb2).
  destruct (ar_segs _ _ (i_arena _ _ Hi)) as [S1 S2]. pose proof (S1 _ _ Hti). pose proof (S1 _ _ Hs).
  assert (i = j) as -> by (destruct (decide (i = j)) as [|Hij]; [done|]; destruct (S2 _ _ _ _ Hti Hs Hij); lia). assert (t = s) as -> by congruence.
  pose proof (rep_free h A K v R ltac:(by eexists)) as ([] & h' & E & K' & R' & _)%wp_exists.
  assert (NQUICK < m) as Hbig by lia. assert (v - 1 + m < tailptr s) as Hlt by lia.
  pose proof (wp_free_first h K (v - 1) m j s Hi (rep_lock _ _ _ R) Hk Hbig Hm Htag Hs Hb1 Hlt Hr) as HW. rewrite Z.sub_add in HW. unfold wp in HW. rewrite E in HW.
  destruct HW as (Em' & Hl' & Es'). exists h', K'. split; [cbn [handle]; by rewrite (bind_ret _ _ _ _ _ E)|]. split; [done|].
  assert (msegs h' !! j = Some (set_rover (Some (v - 1)) s)) as Hs' by (rewrite Em', list_lookup_alter, decide_True, Hs by done; done). split.
  - destruct (inv_rover _ _ _ _ _ (rep_inv _ _ _ R') Hs' eq_refl) as (o & Hf & _). destruct (i_header _ _ (rep_inv _ _ _ R') _ _ _ Hf ltac:(done)) as [Eo _]. by rewrite Hf, <- Eo, Es'.
  - assert (extents h' = extents h) as Ex.
    { unfold extents. rewrite Em'. apply list_eq. intros k. rewrite !list_lookup_fmap, list_lookup_alter. case_decide as Ek; [subst k|done]. by rewrite Hs. }
    apply malloc_passes_over; [done|lia|done| |destruct Hc as [?|Hc]; [by left|right; intros h2 E2; apply Hc; congruence]]. intros k u Hu. rewrite Em' in Hu. apply alter_Some in Hu as (w & Hw & ->). pose proof (Hpass _ _ Hw) as [P1 P2].
    destruct (decide _) as [->|]; [|by split]. assert (w = s) as -> by congruence. split; [exact P1|by right].
Qed.

(** ** At work *)
Module Demo.
(** A page of 64 kB at 1 MB, if nothing is there yet. *)
Definition page : Z := 2 ^ 20.
#[export] Instance arena : Arena := {|
  IOHDRSZ := 24; sizeof_MSeg := 64; mallocpgsz := 2 ^ 16; poison := false; mclock_busy _ := false; junk_next _ := Some 7; junk_size _ := 7;
  newpg h := if forallb (fun s => end_ s * Unitsz <=? page) (msegs h) then Some page else None
|}.
#[export] Instance arena_ok : ArenaOk.
Proof.
  split; [done|]. intros h pa. cbn. destruct (forallb _ _) eqn:E; [|done]. intros [=<-]. split; [done|]. intros s Hs. left.
  rewrite forallb_forall in E. apply Z.leb_le, E, list_elem_of_In, Hs.
Qed.
(** [n] units from 64 kB on. *)
Definition blank : Heap := mkHeap (fun _ => None) (fun _ => 0) (fun _ => 0) (fun _ => None) [] None false.
Definition boot (n : Z) : Heap := mallocinit (2 ^ 16) (2 ^ 16 + n * Unitsz) blank.
(** The largest request that takes [n] units. *)
Definition of_units (n : Z) : Z := (n - 1) * Unitsz - 1.
Definition get (o : option (option Z)) : Z := match o with Some (Some v) => v | _ => 0 end.
Lemma boot_rep n : 1 <= n < 2 ^ 30 -> rep (boot n) ∅ ∅.
Proof. intros Hn. apply rep_init; [done|unfold Unitsz; lia..]. Qed.
End Demo.
Import Demo.

Lemma allocator_refines_witness : wpp (short (boot 2000) (Malloc 100)) (handle (Malloc 100)) (boot 2000) (fun x h' => exists A' K', promise ∅ (Malloc 100) x A' /\ rep h' A' K').
Proof. apply (allocator_refines (boot 2000) ∅ ∅ (Malloc 100)); [by apply boot_rep|done]. Defined.
(** Makes a block, fills it, makes it longer and reads from it, frees it. *)
Definition errand : Prog :=
  Ask (Malloc 3) (fun x => match x with None => Stop | Some v =>
    Ask (Store v [1; 2; 3]) (fun _ => Ask (Realloc (Some v) 100) (fun y => match y with None => Stop | Some w =>
      Ask (Load w 2) (fun _ => Ask (Free (Some w)) (fun _ => Stop)) end)) end).
Lemma errand_careful : careful ∅ errand.
Proof.
  split; [done|]. intros x A (v & l & -> & _ & Hl & _ & ->). split; [exists l; by rewrite lookup_insert_eq|]. intros y A ( -> & ->). rewrite insert_insert_eq.
  split; [split; [eexists; apply lookup_insert_eq|by right]|]. intros z A (w & k & k' & -> & _ & _ & Hk' & _ & ->).
  split; [exists k'; rewrite lookup_insert_eq; split; [done|]; rewrite Hk'; done|]. intros u A (k2 & b & _ & _ & _ & ->).
  split; [eexists; apply lookup_insert_eq|done].
Qed.
Lemma careful_program_runs_witness : wpp enomem (run errand) (mallocinit (2 ^ 16) (2 ^ 17) blank) (fun _ h' => exists A K, rep h' A K).
Proof. apply (careful_program_runs errand); [done|done|done|apply errand_careful]. Defined.
(** A heap with a block in it. *)
Definition one_block : Heap := after (malloc 100) (boot 2000).
Lemma one_block_rep : exists K, rep one_block {[2049 := zeros 100]} K.
Proof.
  pose proof (handle_ok _ _ _ (Malloc 100) (boot_rep 2000 ltac:(done)) ltac:(done)) as H1. unfold one_block, after, wpp in *. cbn [handle short] in H1.
  assert (value (malloc 100) (boot 2000) = Some (Some 2049)) as Hv by (vm_compute; reflexivity). unfold value in Hv.
  destruct (malloc 100 (boot 2000)) as [x h| |msg|]; [|done..]. injection Hv as ->. destruct H1 as (A & K & (v & l & [=<-] & _ & _ & -> & ->) & R & _). exists K. exact R.
Qed.
Lemma one_block_lookup : ({[2049 := zeros 100]} : gmap Z (list Z)) !! 2049 = Some (zeros 100).
Proof. apply lookup_singleton_eq. Qed.
Lemma double_free_panics_witness : exists h' msg, free (Some 2049) one_block = Ret tt h' /\ free (Some 2049) h' = Panic msg /\ (msg = "free: double free" \/ msg = "free: corrupt allocation arena")%string.
Proof. destruct one_block_rep as [K R]. exact (double_free_panics one_block _ K 2049 _ R one_block_lookup). Defined.
Lemma overflow_panics_witness : free (Some 2049) (set_bytes (<[tag_at (2049 - 1 + size one_block (2049 - 1)) := 0]> (bytes one_block)) one_block) = Panic "free: user overflow"%string.
Proof. destruct one_block_rep as [K R]. exact (overflow_panics one_block _ K 2049 _ 0 R one_block_lookup ltac:(done)). Defined.
Lemma run_rep p h : careful ∅ p -> rep h ∅ ∅ -> value (run p) h = Some tt -> exists A K, rep (after (run p) h) A K.
Proof. intros Hc R Hv. pose proof (run_ok _ _ _ _ R Hc) as H. unfold value, after, wpp in *. destruct (run p h) as [x h'| |msg|]; by try discriminate Hv. Qed.
(** A block for a 9P message is freed, another is after it. *)
Definition freed_message : Prog :=
  Ask (Malloc (8192 + 24)) (fun x => Ask (Malloc 1) (fun _ => Ask (Free x) (fun _ => Stop))).
Lemma freed_message_careful : careful ∅ freed_message.
Proof.
  split; [done|]. intros x A (v & l & -> & _ & _ & _ & ->). split; [done|]. intros y A (w & k & _ & Hw & _ & _ & ->). split; [|done]. cbn.
  rewrite lookup_insert_ne; [eexists; apply lookup_insert_eq|]. intros ->. by rewrite lookup_insert_eq in Hw.
Qed.
Definition message_freed : Heap := after (run freed_message) (boot 2000).
Lemma message_freed_rep : exists A K, rep message_freed A K /\ K !! 2048 = Some (Quick, NUNITS (8192 + 24)).
Proof.
  assert (value (run freed_message) (boot 2000) = Some tt) as Hv by (vm_compute; reflexivity).
  assert (quicklist message_freed (NUNITS (8192 + 24)) = Some 2048) as Hq by (vm_compute; reflexivity).
  assert (exists A K, rep message_freed A K) as (A & K & R) by exact (run_rep freed_message (boot 2000) freed_message_careful (boot_rep 2000 ltac:(done)) Hv). exists A, K. split; [exact R|].
  exact (quick_circle _ _ _ _ (rep_inv _ _ _ R) Hq).
Qed.
Lemma idle_blocks_lost_witness : exists q, wpp (short message_freed (Malloc (8192 + 24))) (handle (Malloc (8192 + 24))) message_freed (fun _ h' => exists A' K', rep h' A' K' /\ K' !! q = Some (Quick, NUNITS (8192 + 24))).
Proof. destruct message_freed_rep as (A & K & R & Hq). exists 2048. apply (idle_blocks_lost _ A K); [exact R|done|done|done|exact Hq|by right]. Defined.

(** A program after which [maxsz] is 501 in a segment without fragments: the last fragment was taken when it had become smaller. *)
Definition stale_maxsz : list Req :=
  [Malloc (of_units 501); Malloc (of_units 701); Malloc (of_units 301); Malloc (of_units 497); Free (Some 2049); Malloc (of_units 601); Malloc (of_units 1429);
   Malloc (of_units 297); Malloc (of_units 201)].
Definition serve (l : list Req) : Heap := fold_left (fun h r => after (handle r) h) l (boot 2000).
Lemma served l r : serve (l ++ [r]) = after (handle r) (serve l).
Proof. unfold serve. by rewrite fold_left_app. Qed.
Lemma serve_malloc l A n v : (exists K, rep (serve l) A K) -> 1 <= n < 2 ^ 32 -> value (handle (Malloc n)) (serve l) = Some (Some v) ->
  exists K, rep (serve (l ++ [Malloc n])) (<[v := zeros n]> A) K.
Proof.
  intros [K R] Hn Hv. rewrite served. pose proof (handle_ok _ _ _ (Malloc n) R Hn) as H. unfold value, after, wpp in *. destruct (handle (Malloc n) (serve l)) as [x h'| | |]; [|done..].
  injection Hv as ->. destruct H as (A' & K' & Hp & R' & _). cbn in Hp. destruct (Z.eqb_spec n 0); [lia|]. destruct Hp as (w & k & [=<-] & _ & _ & -> & ->). by exists K'.
Qed.
Lemma serve_free l A v : (exists K, rep (serve l) A K) -> is_Some (A !! v) -> value (handle (Free (Some v))) (serve l) = Some None ->
  exists K, rep (serve (l ++ [Free (Some v)])) (delete v A) K.
Proof.
  intros [K R] Hn Hv. rewrite served. pose proof (handle_ok _ _ _ (Free (Some v)) R Hn) as H. unfold value, after, wpp in *. destruct (handle (Free (Some v)) (serve l)) as [x h'| | |]; [|done..].
  destruct H as (A' & K' & [_ ->] & R' & _). by exists K'.
Qed.
Ltac serve_next R u v := apply (serve_malloc _ _ (of_units u) v) in R; [|by vm_compute|vm_compute; reflexivity]; cbn [app] in R.
Lemma stale_rep : exists A K, rep (serve stale_maxsz) A K /\ A !! 2550 = Some (zeros (of_units 701)).
Proof.
  assert (exists K, rep (serve []) ∅ K) as R by (exists ∅; by apply boot_rep).
  serve_next R 501 2049. serve_next R 701 2550. serve_next R 301 3251. serve_next R 497 3552.
  apply (serve_free _ _ 2049) in R; [|rewrite !lookup_insert_ne by done; rewrite lookup_insert_eq; by eexists|vm_compute; reflexivity]. cbn [app] in R.
  serve_next R 601 32771. serve_next R 1429 33372. serve_next R 297 2253. serve_next R 201 2049. destruct R as [K R]. eexists _, K. split; [exact R|].
  rewrite !lookup_insert_ne by done. rewrite lookup_delete_ne by done. rewrite !lookup_insert_ne by done. apply lookup_insert_eq.
Qed.
Definition stale_segs : list MSeg := [mkMSeg 2048 4048 None 4048 (Some 501); mkMSeg 32770 34816 None 34800 None].
Lemma fitting_fragment_skipped_witness : exists h', handle (Free (Some 2550)) (serve stale_maxsz) = Ret None h' /\ (exists K', K' !! 2549 = Some (Frag, 701) /\ inv h' K') /\
  handle (Malloc (of_units 601)) h' = Panic "Enomem".
Proof.
  destruct stale_rep as (A & K & R & Hl). set (h := serve stale_maxsz) in *.
  assert (msegs h = stale_segs) as Eseg by (vm_compute; reflexivity). assert (size h 2549 = 701) as Esz by (vm_compute; reflexivity).
  assert (extents h = [(2048, 4048); (32770, 34816)]) as Ext by (unfold extents; by rewrite Eseg). clearbody h.
  destruct (fitting_fragment_skipped h A K 2550 _ (of_units 601) 0%nat (mkMSeg 2048 4048 None 4048 (Some 501)) R Hl) as (h' & K' & E & R' & HK & Hm).
  - by vm_compute.
  - change (2550 - 1) with 2549. rewrite Esz. by vm_compute.
  - rewrite Eseg. intros [|[|k]] t; cbn; [intros [=<-]|intros [=<-]|done]; (split; [by vm_compute|by left]).
  - right. intros h2 E2. split; [done|]. rewrite Ext in E2. unfold extents in E2. destruct (msegs h2) as [|s1 [|s2 [|]]] eqn:Es; try discriminate E2. injection E2 as _ _ _ E2.
    cbn. rewrite Es. cbn [forallb]. rewrite E2. by destruct (_ <=? _).
  - by rewrite Eseg.
  - cbn. lia.
  - change (2550 - 1) with 2549. rewrite Esz. done.
  - done.
  - exists 501. split; [done|]. by vm_compute.
  - exists h'. split; [exact E|]. split; [|exact Hm]. exists K'. split; [|apply R']. change (2550 - 1) with 2549 in HK. by rewrite Esz in HK.
Defined.
